(* ===== verification/_CoqProject ===== *)
-Q . S2P
Prelude.v
Words.v
Text.v
F64.v
Unicode.v
Fingerprint.v
Bundle.v
Edm.v
Utf8.v
Extract.v
Verdict.v
TrustDest.v
Device.v
UsbPolicy.v
Enforce.v
Watch.v
Supervise.v
Queue.v
Crypto.v
CopyAudit.v
Decrypt.v
RemoteTools.v
NetRules.v
Config.v
TrustSync.v
UsbMonitor.v
KGuard.v
Promise.v
BrowserHost.v
Clipboard.v
Detection.v
Notify.v
Exfil.v
GuardSession.v
Egress.v
Win32.v
Native.v
NativeRuns.v
State.v
Agent.v
Commands.v
Footprint.v
Sessions.v
Endpoint.v
Program.v
