(* ===== verification/Prelude.v ===== *)
(** * Verification of the DLP endpoint agent (dlp-agent)

    The agent is a Windows service in Rust ([src/dlp-agent/src]; the paths below
    are relative to it).  It finds protected content, by document fingerprints
    and by exact data rows from a signed index bundle, on its way out of the
    machine (removable drives, the clipboard, browser uploads, network programs),
    and blocks it, seals it into an encrypted envelope, or reports it.  This
    library models its logic as executable definitions and proves what makes
    each part correct, what the parts promise each other, and where the code
    departs from its comments.

    ** The parts and how they interact

    Content.  A file's bytes become text ([Extract]), the text becomes tokens and
    winnowed hashes ([Fingerprint]) and typed cells ([Edm]); both are looked up
    in the loaded index ([Bundle]); the outcome is a [Verdict].  Every channel
    decides on a verdict.

    Devices.  [Device] lists volumes, [Watch] diffs two listings, [UsbPolicy]
    picks an action, [Enforce] carries it out, [CopyAudit] finds files that
    settled on a volume and seals them when [TrustDest] says so, [UsbMonitor]
    composes these into the polling loop, and [TrustSync] merges the destinations
    the server delivers into the policy of [Config].

    The kernel guard.  [KGuard] answers the file-system driver's scan messages;
    a write to an encrypting destination passes only while the sealer is alive,
    which it learns from the signal of [Supervise].  [Exfil] tells the driver
    which processes can move data off the machine.

    Other channels.  [Clipboard], [BrowserHost], and for the network the decision
    engine [NetRules] with [RemoteTools] and its enforcement [Egress].

    Incidents.  A channel hands an incident to the sink of [Agent], which raises a
    toast ([Notify]), posts the incident or puts it into the bounded [Queue].

    State and server.  [State] is the protected state directory, enrollment,
    check-in, the sync and the index update; [Crypto] the keyring and the
    envelope; [Decrypt] the audited way back.

    The whole.  [Commands] has the turns of the endpoint's workers, the service
    and the one-shot subcommands, [Sessions] the monitoring subcommands from their
    options to the last delivery, [Endpoint] the unified endpoint as a step
    relation over its four threads, the service's stop and the main thread, and
    [Program] the process from its arguments to the exit code.  [Win32], [Native]
    and [NativeRuns] go below the components: the functions that call Windows
    as programs over an interface of calls.

    ** The files

    Foundations: [Prelude] (notations, tactics, the hint database [dlp], results,
    sorted lists, binary search), [Words] (machine integers and byte order),
    [Text] (Rust strings), [F64] (IEEE doubles), [Unicode] (the Unicode tables
    as an interface), [Utf8] (decoding).

    Model file and source:
    [Fingerprint] detect/normalize.rs, shingle.rs, mod.rs; [Bundle]
    detect/bundle.rs; [Edm] detect/edm.rs; [Extract] detect/extract.rs; [Verdict]
    detect/verdict.rs; [TrustDest] trustdest.rs; [Device] usb/device.rs;
    [UsbPolicy] usb/policy.rs; [Enforce] usb/enforce.rs; [Watch] usb/watch.rs;
    [Supervise] supervise.rs; [Queue] usb/queue.rs; [Crypto] crypto/keyring.rs,
    crypto/envelope.rs; [CopyAudit] usb/audit.rs; [Decrypt] decrypt.rs;
    [RemoteTools] netfilter/remote_tools.rs; [NetRules] netfilter/rules.rs;
    [Config] config.rs; [TrustSync] trustsync.rs; [UsbMonitor] usb/mod.rs;
    [KGuard] kguard/mod.rs; [BrowserHost] browser_host.rs; [Clipboard]
    clipboard/*.rs; [Notify] notify/mod.rs; [Exfil] exfil.rs; [Egress]
    netfilter/wfp.rs, mod.rs, tcpreset.rs; [State] storage.rs, checkin.rs,
    enroll.rs, client.rs, identity.rs; [GuardSession] kguard/mod.rs (the session
    with its push thread); [Native] the native calls of notify, clipboard,
    netfilter, exfil, storage and usb; [Agent], [Sessions], [Endpoint] main.rs;
    [Commands], [Program] main.rs, service.rs.  Definitions keep the source's
    names where the language allows.  Across components: [Detection] (from a
    protected document to the match), [Promise] (what the guard lets through
    pending a seal is sealed by the monitor), [Footprint] (which files an
    operation of [State] may change).

    ** How code is modelled

    A [str] is a list of Unicode scalar values and a byte buffer a list of bytes;
    integers are [Z] with the wrap-around, saturation or check of their width
    written out; [f64] is the Standard Library's binary64.  A [Result] is
    [result], an [Option] is [option], and a panic is [None] around them, so that
    the absence of panics is a theorem.  An error is the text of its outermost
    context.  A [HashMap] is a [gmap], a [BTreeMap] a sorted association list.

    Effects are explicit.  File-system code runs in the monad [FsM] of
    [CopyAudit]: which calls fail is an argument, and a run records every state
    of the files it goes through, so a statement about all of them covers a crash
    at any moment.  Calls into an injected sink, a driver or a filtering engine
    are recorded as events.  Polling loops are functions of what one poll finds,
    folded over polls; threads that share state are step relations in which every
    interleaving, panic and restart is possible ([GuardSession], [Endpoint], the
    worker pool of [CopyAudit]); native calls are the free monad [Prog] of [Win32],
    run against any system that answers within its documentation.

    Code outside the repository is a class or an argument: [Unicode], [BundleEnv]
    (X.509, RSA, JSON), [Digest] (SHA-256), [ExtractEnv] (zip, PDF), [CryptoEnv]
    (AES-GCM, base64, JSON, randomness), [ConfigEnv] (TOML), [JsonEnv],
    [BrowserEnv], [StateEnv] (DPAPI), [ServerEnv] (HTTP, RSA, X.509), [WireEnv],
    and the Win32 classes [WinApi], [VolumeApi], [QueueFs]; the service manager
    is an argument of [Program].  The laws some theorems
    use are the classes [UnicodeLaws], [CryptoLaws], [JsonLaws], [StateLaws];
    each has an instance that the witnesses use.

    Fuel.  Recursion that is not structural carries fuel that the definition
    supplies itself: the length of the text or of the pipe where each turn
    consumes at least a byte, the number of nodes for the walk of a volume, the
    length of the list for a binary search, the depth cap plus two for archives
    in archives, forty digits for decimal and eight for hexadecimal numbers of
    at most 128 and 32 bits.  Where running out could be confused with a result
    it is [None] and proved not to happen ([extract_text_bounded],
    [serve_answers_in_order], [walk_spec]).

    ** What the theorems show

    Detection: the loader accepts exactly the signed encodings of well-formed
    bundles; texts that share a long enough run share a hash; lookups and the
    Bloom filter miss nothing; the verdict reports exactly the matching documents
    and the rows whose cells lie close together; normalisation is the server's
    algorithm, up to capital sigmas at the end of a word, which the two lower-case
    differently ([final_sigma_diverges]); extraction ends within its caps and
    refuses encrypted containers.
    End to end, a text that carries a protected document, or fifteen of its words
    in a row, yields the match.

    Sealing: [open] accepts exactly what [seal] can produce under a key of the
    ring, and a destroyed key stays destroyed; sealing in place never loses the
    plaintext whatever fails and wherever it stops; the guard and the copy
    auditor leave plaintext on an encrypting destination only under the stated
    conditions; decryption writes no plaintext that was not recorded first, for the
    whole subcommand from its arguments, over the keyring it may refresh, to the
    output, the queue and the exit code; with a bundle, a file the guard lets through
    pending a seal is sealed when it settles, or its failure is reported.

    The endpoint: in every reachable state such a promise is given only with a
    live sealer and a keyring signalled; a whitelist that a resync delivers is the
    one under which sealer and guard act from then on; a stop is prompt and
    waits for exactly the joined workers.  A monitoring session posts every
    incident with a verdict or gives it to the queue, and what the queue makes of
    it is accounted for; where the disk fails it is lost.  Each subcommand changes
    its own files only (the queue's directory is modelled apart), and [status]
    shows nothing of the private key.

    Native calls: whatever a documented system answers, the fourteen functions of
    [Native] end, misuse no handle and leave open only what is listed; what they
    return is what the components assume; a toast let through is shown in the
    agent's session when that is a user's, else in the one at the console.

    Channels: every driver message is answered in order; every copied file is
    reported once while the dedup set has room; blocked clipboard content is
    cleared; the browser host answers each request and ends as its pipe does;
    installed network filters follow the rules on the files these name, where the
    rules agree, and are installed in one transaction; resets touch only the process meant;
    toasts carry nothing but their two texts, at a bounded rate.

    State: only a verified index replaces the cached one and every intermediate
    state is accounted for; a delivered whitelist and its keys read back, and
    survive outages and restarts without the server; a synced destination never
    relaxes the local rule with its matcher; with a working disk every incident with
    a verdict is posted or waits in the queue in order; the health signal tells of the sealer's
    keyring until a sync replaces it.

    The [Example]s beside them are the boundary cases the proofs brought up:
    inputs on which the code does what its comment denies, among them
    [signed_rollback], [no_bundle_between], [torn_enrollment_sticks] and
    [decrypt_replaces_synced_keyring] in [State], [resynced_keyring_not_used] in
    [Agent], [default_deny_not_installed], [suffix_rule_not_enforced] and
    [second_instance_survives] in [Egress], [final_sigma_diverges] in [Fingerprint], [copy_in_the_gap_stays] in [Clipboard], [trailing_backslash_breaks_out]
    in [Notify], and [service_left_running] in [Commands].

    ** Not modelled

    Log lines, the help texts and the rendering of a verdict; timing other than the
    clocks a decision reads; zeroising of memory and file permissions.  What Windows
    does with a call (filtering engine, minifilter port, TCP tables, WinRT, service
    manager) is an answer to it; the handles of the clipboard's message window, of
    the filtering engine's session and of the driver's port are not tracked.  A turn of check-in or resync is one step of
    [Endpoint], while its files go through the states [State] records.  The stubs
    for other systems than Windows.  Outside the agent: the minifilter driver (C),
    the management server, its frontend and the browser extension (JavaScript),
    which the agent meets only through the messages modelled here. *)

From stdpp Require Export prelude gmap strings sorting.
From Stdlib Require Export ZArith Lia.

(** ** Notations, tactics and hint databases of the development *)

Declare Scope dlp_scope.
Delimit Scope dlp_scope with dlp.

(** A Rust [str]/[String] is the list of its Unicode scalar values, a byte
    buffer the list of its bytes.  Both are lists of integers; the two names
    record which one a definition means. *)
Abbreviation str := (list Z) (only parsing).
Abbreviation bytes := (list Z) (only parsing).

Create HintDb dlp discriminated.

(** Split a boolean conjunction, negation or comparison in the context. *)
Ltac bool_hyps :=
  repeat match goal with
  | H : _ && _ = true |- _ => apply andb_prop in H; destruct H
  | H : _ || _ = false |- _ => apply orb_false_elim in H; destruct H
  | H : negb _ = true |- _ => apply negb_true_iff in H
  | H : negb _ = false |- _ => apply negb_false_iff in H
  | H : (_ <? _)%Z = true |- _ => apply Z.ltb_lt in H
  | H : (_ <? _)%Z = false |- _ => apply Z.ltb_ge in H
  | H : (_ <=? _)%Z = true |- _ => apply Z.leb_le in H
  | H : (_ <=? _)%Z = false |- _ => apply Z.leb_gt in H
  | H : (_ =? _)%Z = true |- _ => apply Z.eqb_eq in H
  | H : (_ =? _)%Z = false |- _ => apply Z.eqb_neq in H
  | H : (_ <? _)%nat = true |- _ => apply Nat.ltb_lt in H
  | H : (_ <? _)%nat = false |- _ => apply Nat.ltb_ge in H
  | H : (_ <=? _)%nat = true |- _ => apply Nat.leb_le in H
  | H : (_ <=? _)%nat = false |- _ => apply Nat.leb_gt in H
  | H : (_ =? _)%nat = true |- _ => apply Nat.eqb_eq in H
  | H : (_ =? _)%nat = false |- _ => apply Nat.eqb_neq in H
  | H : bool_decide _ = true |- _ => apply bool_decide_eq_true_1 in H
  | H : bool_decide _ = false |- _ => apply bool_decide_eq_false_1 in H
  end.

(** Case analysis on every [if] and [match] the goal computes with. *)
Ltac split_cases :=
  repeat (case_match; simplify_eq/=; try done).

(** ** Fallible code: [Result] *)

Inductive result (E A : Type) : Type :=
  | Ok (a : A)
  | Err (e : E).
Arguments Ok {_ _} _.
Arguments Err {_ _} _.

#[global] Instance result_ret E : MRet (result E) := fun A a => Ok a.
#[global] Instance result_bind E : MBind (result E) :=
  fun A B f m => match m with Ok a => f a | Err e => Err e end.

(** [Option::ok_or], [Result::ok] and [Result::map_err]. *)
Definition ok_or {E A} (o : option A) (e : E) : result E A :=
  match o with Some a => Ok a | None => Err e end.
Definition res_ok {E A} (r : result E A) : option A :=
  match r with Ok a => Some a | Err _ => None end.
Definition map_err {E F A} (f : E -> F) (r : result E A) : result F A :=
  match r with Ok a => Ok a | Err e => Err (f e) end.

(** [if c { return Err(e) }] *)
Definition ensure {E} (c : bool) (e : E) : result E unit :=
  if c then Ok tt else Err e.

#[global] Instance result_eq_dec E A `{EqDecision E, EqDecision A} :
  EqDecision (result E A).
Proof. solve_decision. Defined.

Lemma bind_Ok E A B (m : result E A) (f : A -> result E B) b :
  (m ≫= f) = Ok b <-> exists a, m = Ok a /\ f a = Ok b.
Proof. destruct m; cbn; naive_solver. Qed.

Lemma ok_or_Ok E A (o : option A) (e : E) a : ok_or o e = Ok a <-> o = Some a.
Proof. destruct o; cbn; naive_solver. Qed.

Lemma ensure_Ok E c (e : E) u : ensure c e = Ok u <-> c = true.
Proof. destruct c, u; cbn; naive_solver. Qed.

(** Take a successful run of a [result] computation apart, one bind at a time. *)
Ltac inv_ok :=
  repeat match goal with
  | H : (_ ≫= _) = Ok _ |- _ =>
      apply bind_Ok in H;
      let a := fresh "a" in let E := fresh "E" in destruct H as (a & E & H)
  | H : ok_or _ _ = Ok _ |- _ => apply ok_or_Ok in H
  | H : ensure _ _ = Ok _ |- _ => apply ensure_Ok in H
  | H : Ok _ = Ok _ |- _ => injection H as H; try subst
  | H : Err _ = Ok _ |- _ => discriminate H
  | H : mret _ = Ok _ |- _ => unfold mret, result_ret in H
  end.

(** ** Standard-library operations on slices

    [slice::windows], [iter::take_while], [iter::position], [Vec::dedup],
    [<[_]>::join], [slice::partition_point] and the stable [slice::sort_by]. *)

Section Slices.
Context {A : Type}.
Implicit Types (l : list A) (p : A -> bool).

Definition windows (k : nat) (l : list A) : list (list A) :=
  map (fun i => take k (drop i l)) (seq 0 (S (length l) - k)).

Fixpoint take_while (p : A -> bool) (l : list A) : list A :=
  match l with
  | [] => []
  | x :: l' => if p x then x :: take_while p l' else []
  end.

Fixpoint skip_while (p : A -> bool) (l : list A) : list A :=
  match l with
  | [] => []
  | x :: l' => if p x then skip_while p l' else l
  end.

Fixpoint position (p : A -> bool) (l : list A) : option nat :=
  match l with
  | [] => None
  | x :: l' => if p x then Some 0 else S <$> position p l'
  end.

Fixpoint join (sep : list A) (ls : list (list A)) : list A :=
  match ls with
  | [] => []
  | [x] => x
  | x :: ls' => x ++ sep ++ join sep ls'
  end.

Fixpoint pp_search (fuel : nat) (p : nat -> bool) (lo hi : nat) : nat :=
  match fuel with
  | O => lo
  | S f =>
      if lo <? hi then
        let mid := lo + (hi - lo) / 2 in
        if p mid then pp_search f p (S mid) hi else pp_search f p lo mid
      else lo
  end.

(** The binary search of [slice::partition_point]; the fuel is the length of
    the slice, and each step at least halves the interval. *)
Definition partition_point (p : A -> bool) (l : list A) : nat :=
  pp_search (length l) (fun i => from_option p false (l !! i)) 0 (length l).

Lemma length_windows k l : length (windows k l) = S (length l) - k.
Proof. unfold windows. by rewrite length_map, length_seq. Qed.

Lemma windows_lookup k l i :
  (i + k <= length l)%nat -> windows k l !! i = Some (take k (drop i l)).
Proof.
  intros Hi. unfold windows. rewrite list_lookup_fmap, lookup_seq_lt; [done | lia].
Qed.

Lemma windows_lookup_inv k l i w :
  windows k l !! i = Some w -> (k > 0)%nat -> (i + k <= length l)%nat /\ w = take k (drop i l).
Proof.
  intros Hi Hk. pose proof (lookup_lt_Some _ _ _ Hi) as Hlt.
  rewrite length_windows in Hlt. split; [lia |].
  rewrite windows_lookup in Hi by lia. by inversion Hi.
Qed.

Lemma take_while_app_skip p l : take_while p l ++ skip_while p l = l.
Proof. induction l as [|x l IH]; cbn; [done|]. case_match; cbn; congruence. Qed.

Lemma take_while_all p l x : x ∈ take_while p l -> p x = true.
Proof.
  induction l as [|y l IH]; cbn; [set_solver|].
  case_match; [|set_solver]. rewrite elem_of_cons. naive_solver.
Qed.

Lemma take_while_id p l : (forall x, x ∈ l -> p x = true) -> take_while p l = l.
Proof.
  induction l as [|y l IH]; cbn; intros H; [done|].
  rewrite H by set_solver. f_equal. apply IH. set_solver.
Qed.

Lemma skip_while_nil p l : (forall x, x ∈ l -> p x = true) -> skip_while p l = [].
Proof.
  induction l as [|y l IH]; cbn; intros H; [done|].
  rewrite H by set_solver. apply IH. set_solver.
Qed.

Lemma take_while_app p l1 l2 :
  (forall x, x ∈ l1 -> p x = true) ->
  take_while p (l1 ++ l2) = l1 ++ take_while p l2.
Proof.
  induction l1 as [|y l1 IH]; cbn; intros H; [done|].
  rewrite H by set_solver. f_equal. apply IH. set_solver.
Qed.

Lemma skip_while_app p l1 l2 :
  (forall x, x ∈ l1 -> p x = true) -> skip_while p (l1 ++ l2) = skip_while p l2.
Proof.
  induction l1 as [|y l1 IH]; cbn; intros H; [done|].
  rewrite H by set_solver. apply IH. set_solver.
Qed.

Lemma skip_while_head p l x l' : skip_while p l = x :: l' -> p x = false.
Proof. induction l as [|y l IH]; cbn; [done|]. case_match; naive_solver. Qed.

Lemma position_Some p l i :
  position p l = Some i ->
  exists x, l !! i = Some x /\ p x = true /\ forall j y, (j < i)%nat -> l !! j = Some y -> p y = false.
Proof.
  revert i. induction l as [|x l IH]; cbn; intros i; [done|].
  destruct (p x) eqn:Hp.
  - intros [= <-]. exists x. repeat split; [done..|lia].
  - rewrite fmap_Some. intros (j & Hj & ->). apply IH in Hj as (y & Hy & Hpy & Hmin).
    exists y. split; [done|]. split; [done|].
    intros [|j'] z Hlt Hz; [by inversion Hz; subst|].
    eapply Hmin; [|exact Hz]. lia.
Qed.

Lemma pp_search_partitioned fuel (p : nat -> bool) lo hi n :
  (lo <= n <= hi)%nat -> (hi - lo <= fuel)%nat ->
  (forall i, (lo <= i < n)%nat -> p i = true) ->
  (forall i, (n <= i < hi)%nat -> p i = false) ->
  pp_search fuel p lo hi = n.
Proof.
  revert lo hi. induction fuel as [|f IH]; intros lo hi Hn Hf Ht Hfa; cbn [pp_search]; [lia|].
  destruct (lo <? hi) eqn:Hlt; bool_hyps; [|lia].
  assert (0 <= (hi - lo) / 2 < hi - lo)%nat as Hm.
  { split; [lia|]. apply Nat.div_lt; lia. }
  set (mid := lo + (hi - lo) / 2). change (lo + (hi - lo) / 2) with mid.
  assert (lo <= mid < hi)%nat by (unfold mid; lia).
  destruct (p mid) eqn:Hp.
  - apply IH; [|lia| |]; intros.
    + destruct (decide (n <= mid)%nat); [|lia]. rewrite Hfa in Hp by lia. done.
    + apply Ht. lia.
    + apply Hfa. lia.
  - apply IH; [|lia| |]; intros.
    + destruct (decide (n <= mid)%nat); [lia|]. rewrite Ht in Hp by lia. done.
    + apply Ht. lia.
    + apply Hfa. lia.
Qed.

(** On a slice split by the predicate the binary search finds the split. *)
Lemma partition_point_app p l1 l2 :
  (forall x, x ∈ l1 -> p x = true) -> (forall x, x ∈ l2 -> p x = false) ->
  partition_point p (l1 ++ l2) = length l1.
Proof.
  intros H1 H2. unfold partition_point.
  apply pp_search_partitioned; rewrite ?length_app; [lia|lia| |].
  - intros i Hi. rewrite lookup_app_l by lia.
    destruct (lookup_lt_is_Some_2 l1 i) as [x Hx]; [lia|].
    rewrite Hx. cbn. apply H1. by eapply list_elem_of_lookup_2.
  - intros i Hi. rewrite lookup_app_r by lia.
    destruct (lookup_lt_is_Some_2 l2 (i - length l1)) as [x Hx]; [lia|].
    rewrite Hx. cbn. apply H2. by eapply list_elem_of_lookup_2.
Qed.
End Slices.

(** [slice::sort_by] is a stable sort; for a comparison that is a total
    preorder its result is unique, and insertion computes it. *)
Section StableSort.
Context {A : Type} (cmp : A -> A -> comparison).

Definition cmp_le (x y : A) : Prop := cmp x y <> Gt.

Fixpoint insert_by (x : A) (l : list A) : list A :=
  match l with
  | [] => [x]
  | y :: l' => match cmp x y with Gt => y :: insert_by x l' | _ => x :: l end
  end.

Definition sort_by (l : list A) : list A := foldr insert_by [] l.

Lemma insert_by_perm x l : insert_by x l ≡ₚ x :: l.
Proof.
  induction l as [|y l IH]; cbn; [done|].
  destruct (cmp x y); [done..|]. rewrite IH. apply Permutation_swap.
Qed.

Lemma sort_by_perm l : sort_by l ≡ₚ l.
Proof. induction l as [|x l IH]; cbn; [done|]. by rewrite insert_by_perm, IH. Qed.

Lemma elem_of_sort_by x l : x ∈ sort_by l <-> x ∈ l.
Proof. by rewrite sort_by_perm. Qed.

Lemma insert_by_sorted (P : A -> Prop) x l :
  (forall a b, P a -> P b -> cmp a b = Gt -> cmp_le b a) ->
  (forall a b c, P a -> P b -> P c -> cmp_le a b -> cmp_le b c -> cmp_le a c) ->
  P x -> Forall P l -> StronglySorted cmp_le l -> StronglySorted cmp_le (insert_by x l).
Proof.
  intros Htot Htr Hx HP Hs. revert HP.
  induction Hs as [|y l Hs IH Hy]; cbn; intros HP; [repeat constructor|].
  apply Forall_cons in HP as [HPy HPl].
  assert (cmp x y <> Gt -> StronglySorted cmp_le (x :: y :: l)) as Hcons.
  { intros Hle. constructor; [by constructor|]. constructor; [done|].
    rewrite !Forall_forall in *. intros z Hz. eapply Htr; [..|by apply Hy]; eauto. }
  destruct (cmp x y) eqn:E; [apply Hcons; congruence..|].
  constructor; [by apply IH|]. rewrite insert_by_perm. constructor; [by apply Htot|done].
Qed.

(** The result is sorted when the comparison is total and transitive on the
    elements present. *)
Lemma sort_by_sorted (P : A -> Prop) l :
  (forall a b, P a -> P b -> cmp a b = Gt -> cmp_le b a) ->
  (forall a b c, P a -> P b -> P c -> cmp_le a b -> cmp_le b c -> cmp_le a c) ->
  Forall P l -> StronglySorted cmp_le (sort_by l).
Proof.
  intros Htot Htr. induction 1 as [|x l Hx Hl IH]; cbn; [constructor|].
  apply (insert_by_sorted P); [done..| |done]. by rewrite sort_by_perm.
Qed.
End StableSort.

(** ** Ordered maps and sets

    [BTreeMap] and [BTreeSet] are iterated in key order by the code, so a map
    is the list of its entries in increasing key order.  [K] is compared by
    [kcmp]: integers by value, strings lexicographically. *)
Section BTree.
Context {K V : Type} (kcmp : K -> K -> comparison).

Fixpoint bt_get (k : K) (m : list (K * V)) : option V :=
  match m with
  | [] => None
  | (k', v) :: m' => match kcmp k k' with Eq => Some v | _ => bt_get k m' end
  end.

(** [map.entry(k)] updated with [f], which sees the present value if any. *)
Fixpoint bt_update (k : K) (f : option V -> V) (m : list (K * V)) : list (K * V) :=
  match m with
  | [] => [(k, f None)]
  | (k', v) :: m' =>
      match kcmp k k' with
      | Lt => (k, f None) :: m
      | Eq => (k', f (Some v)) :: m'
      | Gt => (k', v) :: bt_update k f m'
      end
  end.

Definition bt_insert (k : K) (v : V) (m : list (K * V)) : list (K * V) :=
  bt_update k (fun _ => v) m.
End BTree.

(** [map.entry(k).or_default().push(v)] *)
Definition bt_push {K V} (kcmp : K -> K -> comparison) (k : K) (v : V)
    (m : list (K * list V)) : list (K * list V) :=
  bt_update kcmp k (fun o => default [] o ++ [v]) m.

(** [BTreeSet<u16>] as its increasing list of elements. *)
Fixpoint bset_insert (x : Z) (s : list Z) : list Z :=
  match s with
  | [] => [x]
  | y :: s' => match (x ?= y)%Z with Lt => x :: s | Eq => s | Gt => y :: bset_insert x s' end
  end.
Definition bset_of_list (l : list Z) : list Z := foldl (fun s x => bset_insert x s) [] l.

Lemma elem_of_bset_insert x y s : y ∈ bset_insert x s <-> y = x \/ y ∈ s.
Proof.
  induction s as [|z s IH]; cbn; [set_solver|].
  destruct (Z.compare_spec x z); subst; set_solver.
Qed.

Lemma elem_of_bset_of_list x l : x ∈ bset_of_list l <-> x ∈ l.
Proof.
  unfold bset_of_list.
  enough (forall s, x ∈ foldl (fun s x => bset_insert x s) s l <-> x ∈ s \/ x ∈ l) as ->
    by set_solver.
  induction l as [|y l IH]; cbn; intros s; [set_solver|].
  rewrite IH, elem_of_bset_insert. set_solver.
Qed.

Lemma bset_insert_sorted x s :
  StronglySorted Z.lt s -> StronglySorted Z.lt (bset_insert x s).
Proof.
  induction 1 as [|y s Hs IH Hy]; cbn; [repeat constructor|].
  destruct (Z.compare_spec x y); subst.
  - by constructor.
  - constructor; [by constructor|]. constructor; [done|].
    eapply Forall_impl; [exact Hy|]. cbn; lia.
  - constructor; [done|]. rewrite Forall_forall in *. intros z.
    rewrite elem_of_bset_insert. intros [->|Hz]; auto.
Qed.

Lemma bset_of_list_sorted l : StronglySorted Z.lt (bset_of_list l).
Proof.
  unfold bset_of_list.
  enough (forall s, StronglySorted Z.lt s ->
    StronglySorted Z.lt (foldl (fun s x => bset_insert x s) s l)) as H by (apply H; constructor).
  induction l as [|y l IH]; cbn; intros s Hs; [done|]. by apply IH, bset_insert_sorted.
Qed.

(** Entries of a map with integer keys. *)
Section BTreeZ.
Context {V : Type}.
Implicit Types (m : list (Z * V)).

Lemma bt_get_lt k m :
  Forall (Z.lt k) m.*1 -> bt_get Z.compare k m = None.
Proof.
  induction m as [|[k0 v0] m IH]; cbn; [done|]. inversion_clear 1.
  destruct (Z.compare_spec k k0); [lia|auto..].
Qed.

Lemma bt_get_elem_of k v m :
  StronglySorted Z.lt m.*1 -> bt_get Z.compare k m = Some v <-> (k, v) ∈ m.
Proof.
  induction m as [|[k0 v0] m IH]; cbn; intros Hs; [set_solver|].
  inversion_clear Hs as [|? ? Hs' Hlt]. rewrite elem_of_cons.
  destruct (Z.compare_spec k k0) as [->|Hk|Hk]; [|rewrite IH by done; naive_solver lia..].
  split; [intros [= ->]; by left|]. intros [[= ->]|Hin]; [done|].
  rewrite Forall_forall in Hlt. enough (k0 < k0)%Z by lia.
  apply Hlt, list_elem_of_fmap. by exists (k0, v).
Qed.

Lemma bt_get_update k f m k' :
  StronglySorted Z.lt m.*1 ->
  bt_get Z.compare k' (bt_update Z.compare k f m) =
    if decide (k' = k) then Some (f (bt_get Z.compare k m)) else bt_get Z.compare k' m.
Proof.
  induction m as [|[k0 v0] m IH]; cbn; intros Hs.
  { case_decide; subst; [by rewrite Z.compare_refl|]. by destruct (Z.compare_spec k' k). }
  inversion_clear Hs as [|? ? Hs' Hlt].
  assert (forall a, (a < k0)%Z -> bt_get Z.compare a m = None) as Hnone.
  { intros a Ha. apply bt_get_lt. eapply Forall_impl; [exact Hlt|]. cbn; lia. }
  destruct (Z.compare_spec k k0) as [->|Hk|Hk]; cbn.
  - destruct (Z.compare_spec k' k0); case_decide; subst; try done; lia.
  - rewrite (Hnone k) by done.
    destruct (Z.compare_spec k' k); case_decide; subst; try done; lia.
  - rewrite IH by done. destruct (Z.compare_spec k' k0); case_decide; subst; try done; lia.
Qed.

Lemma bt_update_keys k f m x :
  x ∈ (bt_update Z.compare k f m).*1 -> x = k \/ x ∈ m.*1.
Proof.
  induction m as [|[k0 v0] m IH]; cbn; [set_solver|].
  destruct (k ?= k0)%Z; cbn; set_solver.
Qed.

Lemma bt_update_sorted k f m :
  StronglySorted Z.lt m.*1 -> StronglySorted Z.lt (bt_update Z.compare k f m).*1.
Proof.
  induction m as [|[k0 v0] m IH]; cbn; [repeat constructor|].
  inversion_clear 1 as [|? ? Hs' Hlt].
  destruct (Z.compare_spec k k0) as [->|Hk|Hk]; cbn.
  - by constructor.
  - constructor; [by constructor|]. constructor; [done|].
    eapply Forall_impl; [exact Hlt|]. cbn; lia.
  - constructor; [by apply IH|]. rewrite Forall_forall in *.
    intros x [->|Hx]%bt_update_keys; [done|auto].
Qed.
End BTreeZ.

(** ** Filters *)

Lemma filter_none {A} (P : A -> Prop) `{!forall x, Decision (P x)} (l : list A) :
  Forall (fun x => ~ P x) l -> filter P l = [].
Proof. induction 1; [done|]. by rewrite filter_cons_False. Qed.

Lemma filter_all {A} (P : A -> Prop) `{!forall x, Decision (P x)} (l : list A) :
  Forall P l -> filter P l = l.
Proof. induction 1; [done|]. rewrite filter_cons_True by done. congruence. Qed.
