(* ===== verification/Words.v ===== *)
(** Machine integers and byte order: the wrap-around of [u64], the
    reinterpretation between [u64] and [i64], saturating and checked
    arithmetic, little- and big-endian encodings and hexadecimal text.
    Every integer is a [Z]; its width is explicit in the operation. *)

From S2P Require Import Prelude.
#[local] Open Scope Z_scope.

Definition U16 : Z := 2 ^ 16.
Definition U32 : Z := 2 ^ 32.
Definition U64 : Z := 2 ^ 64.

(** [x as u64], [x as i64], wrapping operations on [u64]. *)
Definition as_u64 (x : Z) : Z := x mod 2 ^ 64.
Definition as_i64 (x : Z) : Z :=
  let u := x mod 2 ^ 64 in if u <? 2 ^ 63 then u else u - 2 ^ 64.
Definition as_u32 (x : Z) : Z := x mod 2 ^ 32.
Definition wrapping_mul (a b : Z) : Z := as_u64 (a * b).
Definition wrapping_add (a b : Z) : Z := as_u64 (a + b).
Definition saturating_sub (a b : Z) : Z := Z.max 0 (a - b).
Definition saturating_mul (a b : Z) : Z := Z.min (a * b) (2 ^ 64 - 1).

(** [usize::checked_mul] and [usize::checked_add] on a 64-bit target. *)
Definition checked_mul (a b : Z) : option Z :=
  if a * b <? 2 ^ 64 then Some (a * b) else None.
Definition checked_add (a b : Z) : option Z :=
  if a + b <? 2 ^ 64 then Some (a + b) else None.

Definition is_i64 (x : Z) : Prop := - 2 ^ 63 <= x < 2 ^ 63.
Definition is_u64 (x : Z) : Prop := 0 <= x < 2 ^ 64.
Definition is_byte (b : Z) : Prop := 0 <= b < 256.

(** [uN::from_le_bytes], [uN::from_be_bytes] and their inverses on [n] bytes. *)
Fixpoint from_le_bytes (bs : bytes) : Z :=
  match bs with
  | [] => 0
  | b :: bs' => b + 256 * from_le_bytes bs'
  end.
Definition from_be_bytes (bs : bytes) : Z := from_le_bytes (rev bs).
Fixpoint to_le_bytes (n : nat) (x : Z) : bytes :=
  match n with
  | O => []
  | S n' => x mod 256 :: to_le_bytes n' (x / 256)
  end.
Definition to_be_bytes (n : nat) (x : Z) : bytes := rev (to_le_bytes n x).

(** [format!("{b:02x}")] of every byte, concatenated. *)
Definition hex_digit (d : Z) : Z := if d <? 10 then 48 + d else 87 + d.
Definition hex (bs : bytes) : str :=
  concat (map (fun b => [hex_digit (b / 16); hex_digit (b mod 16)]) bs).

Lemma as_u64_bound x : is_u64 (as_u64 x).
Proof. unfold is_u64, as_u64. apply Z.mod_pos_bound. lia. Qed.

Lemma as_u64_id x : is_u64 x -> as_u64 x = x.
Proof. apply Z.mod_small. Qed.

Lemma as_i64_bound x : is_i64 (as_i64 x).
Proof.
  unfold is_i64, as_i64. pose proof (Z.mod_pos_bound x (2 ^ 64)).
  destruct (Z.ltb_spec (x mod 2 ^ 64) (2 ^ 63)); lia.
Qed.

Lemma as_u64_as_i64 x : as_u64 (as_i64 x) = as_u64 x.
Proof.
  unfold as_u64, as_i64. destruct (x mod 2 ^ 64 <? 2 ^ 63).
  - by rewrite Z.mod_mod by lia.
  - replace (x mod 2 ^ 64 - 2 ^ 64) with (x mod 2 ^ 64 + (-1) * 2 ^ 64) by lia.
    rewrite Z.mod_add by lia. by rewrite Z.mod_mod by lia.
Qed.

Lemma as_i64_as_u64 x : is_i64 x -> as_i64 (as_u64 x) = x.
Proof.
  unfold is_i64, as_i64, as_u64. intros Hx. rewrite Z.mod_mod by lia.
  destruct (decide (0 <= x)).
  - rewrite Z.mod_small by lia. destruct (Z.ltb_spec x (2 ^ 63)); lia.
  - replace (x mod 2 ^ 64) with (x + 2 ^ 64).
    + destruct (Z.ltb_spec (x + 2 ^ 64) (2 ^ 63)); lia.
    + rewrite <- (Z.mod_add x 1) by lia. rewrite Z.mod_small; lia.
Qed.

(** The unsigned view of a signed hash determines it. *)
Lemma as_u64_inj x y : is_i64 x -> is_i64 y -> as_u64 x = as_u64 y -> x = y.
Proof. intros Hx Hy H. rewrite <- (as_i64_as_u64 x), <- (as_i64_as_u64 y) by done. by rewrite H. Qed.

Lemma length_to_le_bytes n x : length (to_le_bytes n x) = n.
Proof. revert x. induction n; cbn; auto. Qed.

Lemma to_le_bytes_is_byte n x : Forall is_byte (to_le_bytes n x).
Proof.
  revert x. induction n as [|n IH]; cbn; intros x; constructor; [|done].
  unfold is_byte. apply Z.mod_pos_bound. lia.
Qed.

Lemma from_le_bytes_bound bs :
  Forall is_byte bs -> 0 <= from_le_bytes bs < 256 ^ Z.of_nat (length bs).
Proof.
  induction 1 as [|b bs Hb _ IH]; cbn [from_le_bytes length]; [lia|].
  rewrite Nat2Z.inj_succ, Z.pow_succ_r by lia. unfold is_byte in Hb. lia.
Qed.

Lemma from_to_le_bytes n x :
  0 <= x < 256 ^ Z.of_nat n -> from_le_bytes (to_le_bytes n x) = x.
Proof.
  revert x. induction n as [|n IH]; intros x Hx; cbn [from_le_bytes to_le_bytes].
  - change (Z.of_nat 0) with 0 in Hx. lia.
  - rewrite Nat2Z.inj_succ, Z.pow_succ_r in Hx by lia. rewrite IH.
    + pose proof (Z.div_mod x 256). lia.
    + split; [apply Z.div_pos; lia|]. apply Z.div_lt_upper_bound; lia.
Qed.

Lemma to_from_le_bytes bs :
  Forall is_byte bs -> to_le_bytes (length bs) (from_le_bytes bs) = bs.
Proof.
  induction 1 as [|b bs Hb _ IH]; cbn [from_le_bytes to_le_bytes length]; [done|].
  unfold is_byte in Hb. f_equal.
  - rewrite Z.mul_comm, Z.mod_add by lia. by apply Z.mod_small.
  - rewrite Z.mul_comm, Z.div_add, (Z.div_small b) by lia. done.
Qed.

Lemma from_le_bytes_inj a b :
  Forall is_byte a -> Forall is_byte b -> length a = length b ->
  from_le_bytes a = from_le_bytes b -> a = b.
Proof.
  intros Ha Hb Hl He. rewrite <- (to_from_le_bytes a), <- (to_from_le_bytes b) by done.
  by rewrite Hl, He.
Qed.

Lemma length_hex bs : length (hex bs) = (2 * length bs)%nat.
Proof. unfold hex. induction bs; cbn; [done|]. rewrite IHbs. lia. Qed.

#[export] Hint Resolve as_u64_bound as_i64_bound to_le_bytes_is_byte : dlp.
