(* ===== verification/Text.v ===== *)
(** Rust strings: a [str] is the list of its Unicode scalar values.  The file
    models the [str] and [char] methods the program calls (trimming, ASCII case
    folding, splitting, prefix and substring search, decimal printing and
    parsing) and the UTF-8 encoding that [as_bytes], [len] and [from_utf8] see. *)

From S2P Require Import Prelude Words.
From Stdlib Require Ascii String.
#[local] Open Scope Z_scope.

(** An ASCII string literal. *)
Definition lit (s : String.string) : str :=
  map (fun a => Z.of_N (Ascii.N_of_ascii a)) (String.list_ascii_of_string s).

(** ** Characters *)

Definition is_scalar (c : Z) : bool :=
  (0 <=? c) && (c <? 55296) || (57344 <=? c) && (c <? 1114112).
Definition is_ascii_digit (c : Z) : bool := (48 <=? c) && (c <=? 57).
Definition is_ascii_upper (c : Z) : bool := (65 <=? c) && (c <=? 90).
Definition is_ascii_lower (c : Z) : bool := (97 <=? c) && (c <=? 122).
Definition is_ascii_alphabetic (c : Z) : bool := is_ascii_upper c || is_ascii_lower c.
Definition to_ascii_lower (c : Z) : Z := if is_ascii_upper c then c + 32 else c.
(** [u8::is_ascii_whitespace]: space, tab, line feed, form feed, carriage return. *)
Definition is_ascii_whitespace (c : Z) : bool :=
  bool_decide (c ∈ [32; 9; 10; 12; 13]).
(** [char::is_whitespace]: the Unicode property White_Space. *)
Definition is_whitespace (c : Z) : bool :=
  (9 <=? c) && (c <=? 13) || (8192 <=? c) && (c <=? 8202)
  || bool_decide (c ∈ [32; 133; 160; 5760; 8232; 8233; 8239; 8287; 12288]).

(** ** Strings *)

Definition to_ascii_lowercase (s : str) : str := map to_ascii_lower s.
Definition eq_ignore_ascii_case (a b : str) : bool :=
  bool_decide (to_ascii_lowercase a = to_ascii_lowercase b).
Definition str_is_empty (s : str) : bool := match s with [] => true | _ => false end.

Definition trim_start_matches (p : Z -> bool) (s : str) : str := skip_while p s.
Definition trim_end_matches (p : Z -> bool) (s : str) : str := rev (skip_while p (rev s)).
Definition trim (s : str) : str :=
  trim_end_matches is_whitespace (trim_start_matches is_whitespace s).

(** [str::split(c)] for one separator character. *)
Fixpoint split_char (sep : Z) (s : str) : list str :=
  match s with
  | [] => [[]]
  | c :: s' =>
      if c =? sep then [] :: split_char sep s'
      else match split_char sep s' with
           | [] => [[c]]
           | w :: ws => (c :: w) :: ws
           end
  end.

Fixpoint strip_prefix (pre s : str) : option str :=
  match pre, s with
  | [], _ => Some s
  | p :: pre', c :: s' => if p =? c then strip_prefix pre' s' else None
  | _ :: _, [] => None
  end.
Definition strip_suffix (suf s : str) : option str :=
  (fun r => rev r) <$> strip_prefix (rev suf) (rev s).
Definition starts_with (pre s : str) : bool :=
  match strip_prefix pre s with Some _ => true | None => false end.
Definition ends_with (suf s : str) : bool :=
  match strip_suffix suf s with Some _ => true | None => false end.

(** [str::find(pat)] as the text before the first occurrence and the text from
    the occurrence on. *)
Fixpoint find_split (pat s : str) : option (str * str) :=
  if starts_with pat s then Some ([], s)
  else match s with
       | [] => None
       | c :: s' => (fun p => (c :: p.1, p.2)) <$> find_split pat s'
       end.
Definition contains (pat s : str) : bool :=
  match find_split pat s with Some _ => true | None => false end.

(** Lexicographic order of [str]; byte order and scalar-value order agree on
    UTF-8. *)
Fixpoint str_cmp (a b : str) : comparison :=
  match a, b with
  | [], [] => Eq
  | [], _ => Lt
  | _, [] => Gt
  | x :: a', y :: b' => match (x ?= y) with Eq => str_cmp a' b' | c => c end
  end.

(** ** UTF-8 *)

Definition utf8_char (c : Z) : bytes :=
  if c <? 128 then [c]
  else if c <? 2048 then [192 + c / 64; 128 + c mod 64]
  else if c <? 65536 then [224 + c / 4096; 128 + (c / 64) mod 64; 128 + c mod 64]
  else [240 + c / 262144; 128 + (c / 4096) mod 64; 128 + (c / 64) mod 64; 128 + c mod 64].
(** [str::as_bytes] and [str::len] *)
Definition as_bytes (s : str) : bytes := concat (map utf8_char s).
Definition str_len (s : str) : Z := Z.of_nat (length (as_bytes s)).

(** ** Decimal numbers *)

Fixpoint dec_digits (fuel : nat) (n : Z) (acc : str) : str :=
  match fuel with
  | O => acc
  | S f => if n <? 10 then 48 + n :: acc else dec_digits f (n / 10) (48 + n mod 10 :: acc)
  end.
(** [to_string] of an unsigned integer; 40 digits cover [u128]. *)
Definition dec (n : Z) : str := dec_digits 40 n [].
(** [to_string] of a signed integer. *)
Definition dec_signed (n : Z) : str := if n <? 0 then 45 :: dec (- n) else dec n.
(** [format!("{n:02}")] *)
Definition dec_pad2 (n : Z) : str := if n <? 10 then 48 :: dec n else dec n.

Definition digits_val (s : bytes) : Z := foldl (fun a c => a * 10 + (c - 48)) 0 s.
(** [str::parse] at an unsigned type with largest value [max]: an optional
    leading plus sign, then digits, without overflow. *)
Definition parse_uint (max : Z) (s : bytes) : option Z :=
  let ds := match s with 43 :: s' => s' | _ => s end in
  if bool_decide (ds = []) then None
  else if forallb is_ascii_digit ds then
    if digits_val ds <=? max then Some (digits_val ds) else None
  else None.
Definition parse_u32 : bytes -> option Z := parse_uint (2 ^ 32 - 1).
Definition parse_u64 : bytes -> option Z := parse_uint (2 ^ 64 - 1).

(** ** Lemmas *)

Lemma eq_ignore_ascii_case_sym a b : eq_ignore_ascii_case a b = eq_ignore_ascii_case b a.
Proof. unfold eq_ignore_ascii_case. apply bool_decide_ext. naive_solver. Qed.

Lemma eq_ignore_ascii_case_refl a : eq_ignore_ascii_case a a = true.
Proof. unfold eq_ignore_ascii_case. by apply bool_decide_eq_true_2. Qed.

Lemma eq_ignore_ascii_case_trans a b c :
  eq_ignore_ascii_case a b = true -> eq_ignore_ascii_case b c = eq_ignore_ascii_case a c.
Proof.
  unfold eq_ignore_ascii_case. rewrite bool_decide_eq_true. intros ->. done.
Qed.

Lemma strip_prefix_Some pre s r : strip_prefix pre s = Some r <-> s = pre ++ r.
Proof.
  revert s. induction pre as [|p pre IH]; intros s; cbn; [naive_solver|].
  destruct s as [|c s]; [naive_solver|].
  destruct (Z.eqb_spec p c) as [->|]; [rewrite IH|]; naive_solver.
Qed.

Lemma starts_with_app pre s : starts_with pre (pre ++ s) = true.
Proof.
  unfold starts_with. destruct (strip_prefix pre (pre ++ s)) eqn:E; [done|].
  assert (strip_prefix pre (pre ++ s) = Some s) by by apply strip_prefix_Some. congruence.
Qed.

Lemma strip_suffix_Some suf s r : strip_suffix suf s = Some r <-> s = r ++ suf.
Proof.
  unfold strip_suffix. rewrite fmap_Some. split.
  - intros (x & Hx%strip_prefix_Some & ->).
    rewrite <- (rev_involutive s), Hx, rev_app_distr. by rewrite rev_involutive.
  - intros ->. exists (rev r). rewrite rev_involutive. split; [|done].
    apply strip_prefix_Some. apply rev_app_distr.
Qed.

Lemma ends_with_app s suf : ends_with suf (s ++ suf) = true.
Proof.
  unfold ends_with. destruct (strip_suffix suf (s ++ suf)) eqn:E; [done|].
  assert (strip_suffix suf (s ++ suf) = Some s) by by apply strip_suffix_Some. congruence.
Qed.

Lemma str_cmp_refl a : str_cmp a a = Eq.
Proof. induction a as [|x a IH]; cbn; [done|]. by rewrite Z.compare_refl. Qed.

Lemma str_cmp_eq a b : str_cmp a b = Eq -> a = b.
Proof.
  revert b. induction a as [|x a IH]; destruct b as [|y b]; cbn; try done.
  destruct (Z.compare_spec x y); try done. intros. subst. f_equal. auto.
Qed.

Lemma str_cmp_antisym a b : str_cmp b a = CompOpp (str_cmp a b).
Proof.
  revert b. induction a as [|x a IH]; destruct b as [|y b]; cbn; try done.
  rewrite (Z.compare_antisym x y). destruct (x ?= y); cbn; auto.
Qed.

Lemma str_cmp_trans a b c : str_cmp a b <> Gt -> str_cmp b c <> Gt -> str_cmp a c <> Gt.
Proof.
  revert b c. induction a as [|x a IH]; destruct b as [|y b], c as [|z c]; cbn; try done.
  destruct (Z.compare_spec x y), (Z.compare_spec y z); subst; try done; intros H1 H2.
  - rewrite Z.compare_refl. by eapply IH.
  - destruct (Z.compare_spec y z); [lia|done|lia].
  - destruct (Z.compare_spec x z); [lia|done|lia].
  - destruct (Z.compare_spec x z); [lia|done|lia].
Qed.

Lemma digits_val_app a b :
  digits_val (a ++ b) = digits_val a * 10 ^ Z.of_nat (length b) + digits_val b.
Proof.
  unfold digits_val. rewrite foldl_app.
  generalize (foldl (fun a c => a * 10 + (c - 48)) 0 a) as x.
  assert (forall b x y, foldl (fun a c => a * 10 + (c - 48)) (x + y) b =
    x * 10 ^ Z.of_nat (length b) + foldl (fun a c => a * 10 + (c - 48)) y b) as H.
  { clear. induction b as [|c b IH]; intros x y; cbn [foldl length]; [lia|].
    replace ((x + y) * 10 + (c - 48)) with (x * 10 + (y * 10 + (c - 48))) by lia.
    rewrite IH, Nat2Z.inj_succ, Z.pow_succ_r by lia. lia. }
  intros x. rewrite <- (Z.add_0_r x) at 1. apply H.
Qed.

Lemma dec_digits_acc f n acc : dec_digits f n acc = dec_digits f n [] ++ acc.
Proof.
  revert n acc. induction f as [|f IH]; intros n acc; cbn [dec_digits]; [done|].
  destruct (n <? 10); [done|]. rewrite IH, (IH _ [_]), <- app_assoc. done.
Qed.

Lemma dec_digits_spec f n :
  (0 < f)%nat -> 0 <= n < 10 ^ Z.of_nat f ->
  digits_val (dec_digits f n []) = n /\ forallb is_ascii_digit (dec_digits f n []) = true /\
  dec_digits f n [] <> [].
Proof.
  revert n. induction f as [|f IH]; intros n Hf Hn; [lia|]. cbn [dec_digits].
  destruct (Z.ltb_spec n 10).
  - unfold digits_val, is_ascii_digit. cbn. split; [lia|]. split; [|done].
    apply andb_true_intro. split; [|done]. apply andb_true_intro; lia.
  - rewrite Nat2Z.inj_succ, Z.pow_succ_r in Hn by lia.
    pose proof (Z.mod_pos_bound n 10). pose proof (Z.div_mod n 10).
    assert (0 < f)%nat.
    { destruct f; [|lia]. change (10 ^ Z.of_nat 0) with 1 in Hn. lia. }
    rewrite dec_digits_acc. destruct (IH (n / 10)) as (IH1 & IH2 & IH3); [done|lia|].
    rewrite digits_val_app, IH1, forallb_app, IH2. split; [|split].
    + cbn [length]. change (10 ^ Z.of_nat 1) with 10. unfold digits_val; cbn. lia.
    + unfold is_ascii_digit. cbn. apply andb_true_intro. split; [|done]. apply andb_true_intro; lia.
    + by destruct (dec_digits f (n / 10) []).
Qed.

(** Printing and parsing an unsigned number round-trip. *)
Lemma parse_uint_dec max n : 0 <= n <= max -> max < 10 ^ 40 -> parse_uint max (dec n) = Some n.
Proof.
  intros Hn Hm. destruct (dec_digits_spec 40 n) as (H1 & H2 & H3); [lia|lia|].
  unfold parse_uint, dec. destruct (dec_digits 40 n []) as [|c s] eqn:E; [done|].
  assert (match c :: s with 43 :: s' => s' | _ => c :: s end = c :: s) as ->.
  { cbn in H2. bool_hyps. unfold is_ascii_digit in *. bool_hyps.
    destruct c as [|c|]; [done| |done]. do 6 (destruct c; try done). }
  rewrite bool_decide_eq_false_2 by done. rewrite H2, H1.
  destruct (Z.leb_spec n max); [done|lia].
Qed.

Lemma dec_inj a b : 0 <= a < 10 ^ 40 -> 0 <= b < 10 ^ 40 -> dec a = dec b -> a = b.
Proof.
  intros Ha Hb H. destruct (dec_digits_spec 40 a) as (H1 & _); [lia|lia|].
  destruct (dec_digits_spec 40 b) as (H2 & _); [lia|lia|].
  unfold dec in H. congruence.
Qed.

Lemma split_char_nonempty sep s : split_char sep s <> [].
Proof. destruct s as [|c s]; cbn; [done|]. destruct (c =? sep); [done|]. by destruct (split_char sep s). Qed.

(** Splitting on a separator undoes joining on it. *)
Lemma split_char_join sep ws :
  ws <> [] -> Forall (fun w => sep ∉ w) ws -> split_char sep (join [sep] ws) = ws.
Proof.
  assert (forall w s, sep ∉ w ->
    split_char sep (w ++ s) = match split_char sep s with [] => [w] | v :: vs => (w ++ v) :: vs end) as Happ.
  { induction w as [|c w IH]; cbn; intros s Hw.
    - pose proof (split_char_nonempty sep s). by destruct (split_char sep s).
    - destruct (Z.eqb_spec c sep); [set_solver|]. rewrite IH by set_solver.
      by destruct (split_char sep s). }
  intros Hne Hall. induction Hall as [|w ws Hw Hws IH]; [done|].
  destruct ws as [|v ws].
  - cbn. rewrite <- (app_nil_r w) at 1. rewrite Happ by done. cbn. by rewrite app_nil_r.
  - change (join [sep] (w :: v :: ws)) with (w ++ sep :: join [sep] (v :: ws)).
    rewrite Happ by done. cbn [split_char]. rewrite Z.eqb_refl, app_nil_r. by rewrite IH.
Qed.

Lemma str_len_digits s : forallb is_ascii_digit s = true -> str_len s = Z.of_nat (length s).
Proof.
  unfold str_len, as_bytes. intros H. f_equal. induction s as [|c s IH]; cbn in *; [done|].
  bool_hyps. rewrite length_app, IH by done. unfold is_ascii_digit in *. bool_hyps.
  unfold utf8_char. destruct (Z.ltb_spec c 128); [done|lia].
Qed.

Lemma digits_val_bound s :
  forallb is_ascii_digit s = true -> 0 <= digits_val s < 10 ^ Z.of_nat (length s).
Proof.
  induction s as [|c s IH]; intros H; [cbn; lia|]. cbn in H. bool_hyps.
  change (c :: s) with ([c] ++ s). rewrite digits_val_app, length_app, Nat2Z.inj_add, Z.pow_add_r by lia.
  specialize (IH ltac:(done)). change (10 ^ Z.of_nat (length [c])) with 10.
  unfold is_ascii_digit in *. bool_hyps. change (digits_val [c]) with (0 * 10 + (c - 48)). nia.
Qed.

Lemma length_dec_digits f n k :
  (k < f)%nat -> 10 ^ Z.of_nat k <= n < 10 ^ Z.of_nat (S k) -> length (dec_digits f n []) = S k.
Proof.
  revert n k. induction f as [|f IH]; intros n k Hk Hn; [lia|]. cbn [dec_digits].
  rewrite Nat2Z.inj_succ, Z.pow_succ_r in Hn by lia.
  destruct (Z.ltb_spec n 10) as [Hlt|Hge].
  - destruct k as [|k]; [done|]. rewrite Nat2Z.inj_succ, Z.pow_succ_r in Hn by lia.
    pose proof (Z.pow_pos_nonneg 10 (Z.of_nat k)). lia.
  - destruct k as [|k]; [change (10 ^ Z.of_nat 0) with 1 in Hn; lia|].
    rewrite dec_digits_acc, length_app, (IH _ k); cbn [length]; [lia|lia|].
    rewrite Nat2Z.inj_succ, Z.pow_succ_r in Hn |- * by lia.
    pose proof (Z.div_mod n 10). pose proof (Z.mod_pos_bound n 10). lia.
Qed.
