(* ===== verification/F64.v ===== *)
(** IEEE 754 binary64, the [f64] of the scores and thresholds: the Standard
    Library's specification floats at precision 53 and exponent bound 1024,
    which compute with round-to-nearest-even.  The lemmas give what the program
    relies on: a quotient of counts is never NaN, and comparison is a total
    preorder on the values that are not NaN. *)

From S2P Require Import Prelude.
From Stdlib Require Import Floats.SpecFloat.
#[local] Open Scope Z_scope.

Abbreviation f64 := spec_float.
#[export] Instance f64_eq_dec : EqDecision f64.
Proof. solve_decision. Defined.

(** [n as f64] for an integer, [a / b], [a.partial_cmp(&b)], [a >= b]. *)
Definition f64_of_Z (n : Z) : f64 := binary_normalize 53 1024 n 0 false.
Definition f64_div (a b : f64) : f64 := SFdiv 53 1024 a b.
Definition partial_cmp (a b : f64) : option comparison := SFcompare a b.
Definition f64_ge (a b : f64) : bool := SFleb b a.
Definition f64_gt (a b : f64) : bool := SFltb b a.
Definition f64_zero : f64 := S754_zero false.

(** A decimal literal [n / 100]: both operands are exact, so the correctly
    rounded quotient is the double nearest to the decimal. *)
Definition f64_percent (n : Z) : f64 := f64_div (f64_of_Z n) (f64_of_Z 100).

Definition is_nan (x : f64) : bool := match x with S754_nan => true | _ => false end.
Definition is_pos_finite (x : f64) : Prop := exists m e, x = S754_finite false m e.

(** ** Rounding never produces NaN *)

Lemma digits2_pos_log2 p : Zpos (digits2_pos p) = Z.log2 (Zpos p) + 1.
Proof.
  replace (digits2_pos p) with (Pos.size p) by (induction p; cbn; congruence).
  destruct p; cbn; lia.
Qed.

Lemma Zdigits2_log2 m : 0 < m -> Zdigits2 m = Z.log2 m + 1.
Proof. destruct m; try lia. intros _. apply digits2_pos_log2. Qed.

Lemma shr_1_m r : 0 <= shr_m r -> shr_m (shr_1 r) = shr_m r / 2.
Proof.
  destruct r as [m g s]; cbn [shr_m]. destruct m as [|p|p]; [done| |lia].
  intros _. rewrite <- Z.div2_div. by destruct p.
Qed.

Lemma iter_shr_m p r : 0 <= shr_m r -> shr_m (iter_pos shr_1 p r) = shr_m r / 2 ^ Zpos p.
Proof.
  assert (forall q r, 0 <= shr_m r ->
    (forall r, 0 <= shr_m r -> shr_m (iter_pos shr_1 q r) = shr_m r / 2 ^ Zpos q) ->
    shr_m (iter_pos shr_1 q (iter_pos shr_1 q r)) = shr_m r / 2 ^ (2 * Zpos q)) as Htwice.
  { intros q r' Hr IH. rewrite IH, IH; [|done|rewrite IH by done; apply Z.div_pos; lia].
    rewrite Z.div_div by lia. f_equal. rewrite <- Z.pow_add_r by lia. f_equal. lia. }
  revert r. induction p as [p IH|p IH|]; intros r Hr; cbn [iter_pos].
  - rewrite Htwice; [|rewrite shr_1_m by done; apply Z.div_pos; lia|done].
    rewrite shr_1_m by done. by rewrite Z.div_div by lia.
  - rewrite Htwice by done. by rewrite Pos2Z.inj_xO.
  - by rewrite shr_1_m.
Qed.

Lemma shr_fexp_spec m e l :
  0 <= m ->
  let s := Z.max 0 (fexp 53 1024 (Zdigits2 m + e) - e) in
  shr_m (fst (shr_fexp 53 1024 m e l)) = m / 2 ^ s /\ snd (shr_fexp 53 1024 m e l) = e + s.
Proof.
  intros Hm. unfold shr_fexp, shr. cbv zeta.
  assert (shr_m (shr_record_of_loc m l) = m) as Hl by (destruct l as [|[]]; done).
  destruct (fexp 53 1024 (Zdigits2 m + e) - e) as [|p|p] eqn:E; cbn [fst snd].
  - rewrite Hl, Z.max_id, Z.pow_0_r, Z.div_1_r. split; lia.
  - rewrite iter_shr_m by lia. rewrite Hl, Z.max_r by lia. done.
  - rewrite Hl, Z.max_l, Z.pow_0_r, Z.div_1_r by lia. split; lia.
Qed.

Lemma round_nearest_even_bound m l : m <= round_nearest_even m l <= m + 1.
Proof. destruct l as [|[]]; cbn; try destruct (Z.even m); lia. Qed.

Lemma binary_round_aux_not_nan s m e l :
  0 <= m -> is_nan (binary_round_aux 53 1024 s m e l) = false.
Proof.
  intros Hm. unfold binary_round_aux.
  pose proof (shr_fexp_spec m e l Hm) as [H1 _].
  destruct (shr_fexp 53 1024 m e l) as [r1 e1]; cbn [fst snd] in *.
  set (m2 := round_nearest_even _ _).
  assert (0 <= m2).
  { pose proof (round_nearest_even_bound (shr_m r1) (loc_of_shr_record r1)).
    assert (0 <= shr_m r1) by (rewrite H1; apply Z.div_pos; lia). unfold m2. lia. }
  pose proof (shr_fexp_spec m2 e1 loc_Exact H) as [H3 _].
  destruct (shr_fexp 53 1024 m2 e1 loc_Exact) as [r2 e2]; cbn [fst snd] in *.
  assert (0 <= shr_m r2) by (rewrite H3; apply Z.div_pos; lia).
  destruct (shr_m r2); [done| |lia]. by destruct (e2 <=? 1024 - 53).
Qed.

(** A positive mantissa of at most 64 digits rounds to a positive finite value. *)
Lemma binary_round_aux_finite m e l :
  0 < m -> Z.log2 m + e < 64 -> e <= 0 -> -53 <= e -> 52 <= Z.log2 m ->
  is_pos_finite (binary_round_aux 53 1024 false m e l).
Proof.
  intros Hm Hd He He' Hlog. unfold binary_round_aux.
  pose proof (shr_fexp_spec m e l ltac:(lia)) as [H1 H2].
  rewrite (Zdigits2_log2 m) in * by done.
  set (s := Z.max 0 (fexp 53 1024 (Z.log2 m + 1 + e) - e)) in *.
  assert (s <= Z.log2 m - 52) as Hs by (unfold s, fexp, emin; lia).
  assert (0 <= s) by (unfold s; lia).
  destruct (shr_fexp 53 1024 m e l) as [r1 e1]; cbn [fst snd] in *.
  assert (2 ^ 52 <= shr_m r1 < 2 ^ 65) as Hr1.
  { pose proof (Z.log2_spec m Hm). rewrite H1. split.
    - apply Z.div_le_lower_bound; [lia|]. rewrite <- Z.pow_add_r by lia.
      etrans; [|apply H0]. apply Z.pow_le_mono_r; lia.
    - apply Z.div_lt_upper_bound; [lia|]. rewrite <- Z.pow_add_r by lia.
      eapply Z.lt_le_trans; [apply H0|]. apply Z.pow_le_mono_r; [lia|].
      unfold s, fexp, emin. lia. }
  set (m2 := round_nearest_even _ _).
  assert (2 ^ 52 <= m2 <= 2 ^ 65) as Hm2.
  { pose proof (round_nearest_even_bound (shr_m r1) (loc_of_shr_record r1)). unfold m2. lia. }
  pose proof (shr_fexp_spec m2 e1 loc_Exact ltac:(lia)) as [H3 H4].
  rewrite (Zdigits2_log2 m2) in * by lia.
  assert (52 <= Z.log2 m2 <= 65) as Hl2.
  { split; [apply Z.log2_le_pow2; lia|]. apply (Z.log2_le_mono m2 (2 ^ 65)). lia. }
  set (s2 := Z.max 0 (fexp 53 1024 (Z.log2 m2 + 1 + e1) - e1)) in *.
  assert (0 <= s2 <= Z.log2 m2) as Hs2 by (unfold s2, fexp, emin; lia).
  destruct (shr_fexp 53 1024 m2 e1 loc_Exact) as [r2 e2]; cbn [fst snd] in *.
  assert (0 < shr_m r2).
  { rewrite H3. apply Z.div_str_pos. split; [lia|].
    etrans; [|apply Z.log2_spec; lia]. apply Z.pow_le_mono_r; lia. }
  destruct (shr_m r2) as [|p|p]; try lia.
  assert (e2 <= 1024 - 53) by (unfold s, s2, fexp, emin in *; lia).
  destruct (Z.leb_spec e2 (1024 - 53)); [|lia]. by exists p, e2.
Qed.

Lemma f64_of_Z_finite n : 0 < n < 2 ^ 64 -> is_pos_finite (f64_of_Z n).
Proof.
  intros Hn. unfold f64_of_Z, binary_normalize. destruct n as [|p|p]; try lia.
  unfold binary_round, shl_align. rewrite digits2_pos_log2, Z.add_0_r.
  assert (Z.log2 (Zpos p) < 64) by (apply Z.log2_lt_pow2; lia).
  pose proof (Z.log2_nonneg (Zpos p)).
  rewrite Z.sub_0_r. set (d := fexp 53 1024 (Z.log2 (Zpos p) + 1)).
  assert (d = Z.log2 (Zpos p) - 52) as Hd by (unfold d, fexp, emin; lia).
  destruct d as [|q|q] eqn:E.
  - apply binary_round_aux_finite; lia.
  - apply binary_round_aux_finite; lia.
  - assert (Zpos (Pos.iter xO p q) = Zpos p * 2 ^ Zpos q) as ->.
    { rewrite <- Z.shiftl_mul_pow2 by lia. unfold Z.shiftl.
      rewrite (Pos.iter_swap_gen _ _ Zpos xO (Z.mul 2)); done. }
    apply binary_round_aux_finite; [lia| |lia|lia|]; rewrite Z.log2_mul_pow2 by lia; lia.
Qed.

Lemma f64_of_Z_0 : f64_of_Z 0 = f64_zero.
Proof. reflexivity. Qed.

(** A quotient of counts is a number. *)
Lemma f64_div_not_nan a b :
  0 <= a < 2 ^ 64 -> 0 < b < 2 ^ 64 -> is_nan (f64_div (f64_of_Z a) (f64_of_Z b)) = false.
Proof.
  intros Ha Hb. destruct (f64_of_Z_finite b Hb) as (mb & eb & ->).
  destruct (decide (a = 0)) as [->|]; [done|].
  destruct (f64_of_Z_finite a ltac:(lia)) as (ma & ea & ->).
  unfold f64_div, SFdiv, SFdiv_core_binary.
  set (e' := Z.min _ _). set (m' := match _ with Z0 => _ | _ => _ end).
  assert (0 <= m').
  { unfold m'. destruct (ea - eb - e'); [lia| |lia]. apply Z.shiftl_nonneg. lia. }
  pose proof (Z_div_mod m' (Zpos mb) ltac:(lia)) as Hdm.
  destruct (Z.div_eucl m' (Zpos mb)) as [q r].
  apply binary_round_aux_not_nan. nia.
Qed.

(** ** Comparison *)

Lemma SFcompare_not_nan a b :
  is_nan a = false -> is_nan b = false -> exists c, SFcompare a b = Some c.
Proof. destruct a, b; cbn; intros; try done; eauto. Qed.

Lemma SFcompare_refl a : is_nan a = false -> SFcompare a a = Some Eq.
Proof.
  destruct a as [s|s| |s m e]; cbn; [done|by destruct s|done|].
  intros _. rewrite Z.compare_refl. change (Pos.compare_cont Eq m m) with (m ?= m)%positive.
  rewrite Pos.compare_refl. by destruct s.
Qed.

Lemma SFcompare_antisym a b c : SFcompare a b = Some c -> SFcompare b a = Some (CompOpp c).
Proof.
  destruct a as [s|s| |s m e], b as [s'|s'| |s' m' e']; cbn;
    try (destruct s); try (destruct s'); intros [= <-]; try done;
    rewrite (Z.compare_antisym e e'); destruct (e ?= e'); cbn; try done;
    change (Pos.compare_cont Eq m m') with (m ?= m')%positive;
    change (Pos.compare_cont Eq m' m) with (m' ?= m)%positive;
    rewrite (Pos.compare_antisym m m'); by destruct (m ?= m')%positive.
Qed.

(** The rank of a number: comparison is the lexicographic order of (sign and
    kind, exponent, mantissa), the last two reversed below zero. *)
Definition f64_rank (x : f64) : Z * Z * Z :=
  match x with
  | S754_infinity true => (-2, 0, 0)
  | S754_finite true m e => (-1, - e, - Zpos m)
  | S754_zero _ => (0, 0, 0)
  | S754_finite false m e => (1, e, Zpos m)
  | S754_infinity false => (2, 0, 0)
  | S754_nan => (3, 0, 0)
  end.
Definition lex3_le (x y : Z * Z * Z) : Prop :=
  x.1.1 < y.1.1 \/ x.1.1 = y.1.1 /\ (x.1.2 < y.1.2 \/ x.1.2 = y.1.2 /\ x.2 <= y.2).

Lemma SFleb_rank a b :
  is_nan a = false -> is_nan b = false -> SFleb a b = true <-> lex3_le (f64_rank a) (f64_rank b).
Proof.
  unfold SFleb, lex3_le.
  destruct a as [s|s| |s m e], b as [s'|s'| |s' m' e']; cbn; try done; intros _ _;
    try (destruct s); try (destruct s'); cbn; try (split; [done || lia | done || lia]);
    destruct (Z.compare_spec e e'); cbn; try (split; [done || lia | done || lia]);
    change (Pos.compare_cont Eq m m') with (m ?= m')%positive;
    destruct (Pos.compare_spec m m'); cbn; split; done || lia.
Qed.

Lemma SFleb_nan_l a b : SFleb a b = true -> is_nan a = false /\ is_nan b = false.
Proof. destruct a, b; done. Qed.

(** [>=] is transitive and total on the values that are not NaN. *)
Lemma f64_ge_trans a b c : f64_ge a b = true -> f64_ge b c = true -> f64_ge a c = true.
Proof.
  unfold f64_ge. intros H1 H2. destruct (SFleb_nan_l _ _ H1), (SFleb_nan_l _ _ H2).
  rewrite SFleb_rank in * by done. unfold lex3_le in *. lia.
Qed.

Lemma f64_ge_total a b :
  is_nan a = false -> is_nan b = false -> f64_ge a b = true \/ f64_ge b a = true.
Proof. unfold f64_ge. intros Ha Hb. rewrite !SFleb_rank by done. unfold lex3_le. lia. Qed.

Lemma f64_ge_refl a : is_nan a = false -> f64_ge a a = true.
Proof. intros Ha. by destruct (f64_ge_total a a). Qed.

#[export] Hint Resolve f64_ge_refl f64_div_not_nan : dlp.

Example f64_thresholds :
  f64_percent 30 = S754_finite false 5404319552844595 (-54) /\
  f64_percent 5 = S754_finite false 7205759403792794 (-57) /\
  f64_div (f64_of_Z 3) (f64_of_Z 10) = f64_percent 30.
Proof. vm_compute. auto. Qed.
