(* ===== verification/Unicode.v ===== *)
(** The Unicode tables the text pipeline consults: the crates
    [unicode_normalization] and [unicode_properties] and the case tables of the
    standard library.  They are an interface: operations with the documented
    facts the proofs use, and an ASCII implementation of it for the witnesses. *)

From S2P Require Import Prelude Words Text.
#[local] Open Scope Z_scope.

(** [unicode_properties::GeneralCategoryGroup] *)
Inductive GeneralCategoryGroup : Set :=
  | Letter | Mark | Number | Punctuation | Symbol | Separator | Other.
#[export] Instance gcg_eq_dec : EqDecision GeneralCategoryGroup.
Proof. solve_decision. Defined.

Class Unicode := {
  (** [str::nfkc] *)
  nfkc : str -> str;
  (** [char::general_category_group] *)
  general_category_group : Z -> GeneralCategoryGroup;
  (** [char::to_lowercase], [str::to_lowercase], [str::to_uppercase] *)
  char_to_lowercase : Z -> str;
  str_to_lowercase : str -> str;
  str_to_uppercase : str -> str;
}.

(** U+0020 is a separator and the ASCII letters and digits are letters and
    numbers, in every version of the Unicode Character Database. *)
Class UnicodeLaws (U : Unicode) := {
  space_is_separator : general_category_group 32 = Separator;
  ascii_digit_is_number c :
    is_ascii_digit c = true -> general_category_group c = Number;
  ascii_letter_is_letter c :
    is_ascii_alphabetic c = true -> general_category_group c = Letter;
}.

Definition ascii_upper (c : Z) : Z := if is_ascii_lower c then c - 32 else c.

(** The restriction of the tables to ASCII. *)
Definition ascii_unicode : Unicode := {|
  nfkc := fun s => s;
  general_category_group := fun c =>
    if is_ascii_digit c then Number
    else if is_ascii_alphabetic c then Letter
    else if c =? 32 then Separator
    else Punctuation;
  char_to_lowercase := fun c => [to_ascii_lower c];
  str_to_lowercase := to_ascii_lowercase;
  str_to_uppercase := map ascii_upper;
|}.

#[export] Instance ascii_unicode_laws : UnicodeLaws ascii_unicode.
Proof.
  split; cbn; [done| |].
  - intros c ->. done.
  - intros c H. rewrite H. destruct (is_ascii_digit c) eqn:E; [|done].
    unfold is_ascii_digit, is_ascii_alphabetic, is_ascii_upper, is_ascii_lower in *.
    bool_hyps. apply orb_prop in H as [H|H]; bool_hyps; lia.
Qed.
