(* ===== verification/Fingerprint.v ===== *)
(** Document fingerprints ([src/detect/normalize.rs], [shingle.rs], [mod.rs]):
    normalization into tokens, shingling, FNV-1a hashing, winnowing and the
    containment scores. *)

From S2P Require Import Prelude Words Text F64 Unicode.
#[local] Open Scope Z_scope.

(** ** Normalization *)

Record Normalized := { canonical : str; tokens : list str }.

Section Normalize.
Context {U : Unicode}.

Definition is_letter_or_number (c : Z) : bool :=
  match general_category_group c with Letter | Number => true | _ => false end.

(** One iteration of the loop over the folded characters; the state is the
    canonical text so far and the pending separator. *)
Definition normalize_step (st : str * bool) (c : Z) : str * bool :=
  let '(canonical, pending_space) := st in
  if is_letter_or_number c then
    ((if pending_space && negb (str_is_empty canonical) then canonical ++ [32] else canonical)
       ++ [c], false)
  else (canonical, true).

Definition normalize (text : str) : Normalized :=
  let canonical :=
    (foldl normalize_step ([], false) (concat (map char_to_lowercase (nfkc text)))).1 in
  {| canonical := canonical;
     tokens := if str_is_empty canonical then [] else split_char 32 canonical |}.
End Normalize.

(** ** Shingles and hashes *)

Definition DEFAULT_K : nat := 8.
Definition DEFAULT_W : nat := 8.
Definition FNV_OFFSET_BASIS : Z := 14695981039346656037.
Definition FNV_PRIME : Z := 1099511628211.

Definition fnv_step (h b : Z) : Z := wrapping_mul (Z.lxor h b) FNV_PRIME.

Definition fnv1a64 (s : str) : Z := as_i64 (foldl fnv_step FNV_OFFSET_BASIS (as_bytes s)).

(** [None] is the panic of [assert!(k >= 1)]. *)
Definition shingles_of (tokens : list str) (k : nat) : option (list str) :=
  if (k <? 1)%nat then None
  else match tokens with
       | [] => Some []
       | _ =>
           if (length tokens <? k)%nat then Some [join [32] tokens]
           else Some (map (join [32]) (windows k tokens))
       end.

Record Fingerprint := { fp_hash : Z; fp_seq : Z }.

(** ** Winnowing *)

(** The rightmost minimum in [start, end): [<=] keeps later equal values. *)
Definition min_index_in (u : list Z) (start end_ : nat) : nat :=
  foldl (fun m i => if u !!! i <=? u !!! m then i else m) start
    (seq (S start) (end_ - S start)).

Definition mk_fp (hashes : list Z) (m : nat) : Fingerprint :=
  {| fp_hash := hashes !!! m; fp_seq := as_u32 (Z.of_nat m) |}.

(** One window of the loop; the state is the output and the previous minimum. *)
Definition winnow_step (hashes u : list Z) (w : nat)
    (st : list Fingerprint * option nat) (start : nat) : list Fingerprint * option nat :=
  let '(out, prev_min) := st in
  let m := min_index_in u start (start + w) in
  if bool_decide (prev_min <> Some m) then (out ++ [mk_fp hashes m], Some m) else st.

(** [None] is the panic of [assert!(w >= 1)]. *)
Definition winnow (hashes : list Z) (w : nat) : option (list Fingerprint) :=
  if (w <? 1)%nat then None
  else
    let n := length hashes in
    if (n =? 0)%nat then Some []
    else
      let u := map as_u64 hashes in
      if (n <? w)%nat then Some [mk_fp hashes (min_index_in u 0 n)]
      else Some (foldl (winnow_step hashes u w) ([], None) (seq 0 (S (n - w)))).1.

(** ** The pipeline and the scores *)

Record FingerprintResult := {
  fingerprints : list Fingerprint;
  shingle_count : nat;
  token_count : nat;
}.

Definition fingerprint {U : Unicode} (text : str) (k w : nat) : option FingerprintResult :=
  let normalized := normalize text in
  shingles ← shingles_of (tokens normalized) k;
  fps ← winnow (map fnv1a64 shingles) w;
  Some {| fingerprints := fps;
          shingle_count := length shingles;
          token_count := length (tokens normalized) |}.

Definition to_hash_set (fp : list Fingerprint) : gset Z := list_to_set (map fp_hash fp).

Definition intersection_size (a b : gset Z) : nat :=
  let '(small, large) := if (size a <=? size b)%nat then (a, b) else (b, a) in
  length (filter (fun h => h ∈ large) (elements small)).

Definition containment (fp_a fp_b : list Fingerprint) : f64 :=
  let a := to_hash_set fp_a in
  if bool_decide (a = ∅) then f64_zero
  else
    let b := to_hash_set fp_b in
    f64_div (f64_of_Z (Z.of_nat (intersection_size a b))) (f64_of_Z (Z.of_nat (size a))).

Record Similarity := { sim_containment : f64; sim_coverage : f64 }.

Definition similarity (fp_a fp_b : list Fingerprint) : Similarity :=
  let a := to_hash_set fp_a in
  let b := to_hash_set fp_b in
  let inter := f64_of_Z (Z.of_nat (intersection_size a b)) in
  {| sim_containment :=
       if bool_decide (a = ∅) then f64_zero else f64_div inter (f64_of_Z (Z.of_nat (size a)));
     sim_coverage :=
       if bool_decide (b = ∅) then f64_zero else f64_div inter (f64_of_Z (Z.of_nat (size b))) |}.

(** ** Reference definitions *)

(** The text cut at every character that fails [p], empty pieces dropped. *)
Fixpoint split_pred (p : Z -> bool) (s : str) : list str :=
  match s with
  | [] => [[]]
  | c :: s' =>
      if p c then
        match split_pred p s' with [] => [[c]] | w :: ws => (c :: w) :: ws end
      else [] :: split_pred p s'
  end.
Definition words (p : Z -> bool) (s : str) : list str :=
  filter (fun w => w <> []) (split_pred p s).

(** The server's [normalize] (dlp-management-server/lib/fingerprint.js):
    [.normalize('NFKC').toLowerCase().replace(/[^\p{L}\p{N}]+/gu, ' ').trim()],
    split at spaces when not empty.  [toLowerCase] maps each character like
    [char::to_lowercase] but for a capital sigma at the end of a word, the one
    rule of the Unicode SpecialCasing table that depends on the context and on no
    language. *)
Record CaseProperties := { cased : Z -> bool; case_ignorable : Z -> bool }.
Definition CAPITAL_SIGMA : Z := 0x3A3.
Definition FINAL_SIGMA : Z := 0x3C2.

Section JsReference.
Context {U : Unicode} (props : CaseProperties).

(** A cased character comes first, after case-ignorable ones. *)
Fixpoint sees_cased (s : str) : bool :=
  match s with
  | [] => false
  | c :: s' => cased props c || (case_ignorable props c && sees_cased s')
  end.
(** [before] is the text before the sigma, from its end. *)
Definition final_sigma (before after : str) : bool := sees_cased before && negb (sees_cased after).
Fixpoint js_lower (before s : str) : str :=
  match s with
  | [] => []
  | c :: s' =>
      (if (c =? CAPITAL_SIGMA) && final_sigma before s' then [FINAL_SIGMA] else char_to_lowercase c)
        ++ js_lower (c :: before) s'
  end.
Fixpoint replace_runs (in_run : bool) (s : str) : str :=
  match s with
  | [] => []
  | c :: s' =>
      if is_letter_or_number c then c :: replace_runs false s'
      else if in_run then replace_runs true s' else 32 :: replace_runs true s'
  end.
(** After the replacement a space is the only white space. *)
Fixpoint trim_start (s : str) : str :=
  match s with [] => [] | c :: s' => if c =? 32 then trim_start s' else s end.
Definition trim_end (s : str) : str :=
  foldr (fun c t => if (c =? 32) && str_is_empty t then [] else c :: t) [] s.
Definition js_normalize (text : str) : Normalized :=
  let canonical := trim_end (trim_start (replace_runs false (js_lower [] (nfkc text)))) in
  {| canonical := canonical;
     tokens := if str_is_empty canonical then [] else split_char 32 canonical |}.

(** No capital sigma ends a word of the composed text. *)
Definition no_final_sigma (s : str) : Prop :=
  forall before after, s = before ++ CAPITAL_SIGMA :: after -> final_sigma (rev before) after = false.
End JsReference.

(** [m] is the rightmost smallest position of the window. *)
Definition rightmost_min (u : list Z) (start w m : nat) : Prop :=
  (start <= m < start + w)%nat /\
  (forall j, (start <= j < start + w)%nat -> u !!! m <= u !!! j) /\
  (forall j, (m < j < start + w)%nat -> u !!! m < u !!! j).

Example fnv1a64_empty : as_u64 (fnv1a64 []) = FNV_OFFSET_BASIS.
Proof. vm_compute. done. Qed.
Example fnv1a64_a : as_u64 (fnv1a64 (lit "a")) = 0xaf63dc4c8601ec8c.
Proof. vm_compute. done. Qed.
Example fnv1a64_foobar : as_u64 (fnv1a64 (lit "foobar")) = 0x85944171f73967e8.
Proof. vm_compute. done. Qed.

(** ** Normalization: proofs *)

Section NormalizeProofs.
Context {U : Unicode} {UL : UnicodeLaws U}.

Lemma space_not_letter_or_number : is_letter_or_number 32 = false.
Proof. unfold is_letter_or_number. by rewrite space_is_separator. Qed.

Lemma join_snoc_char (sep : Z) ws w c :
  join [sep] (ws ++ [w ++ [c]]) = join [sep] (ws ++ [w]) ++ [c].
Proof.
  induction ws as [|v ws IH]; [done|].
  destruct ws as [|v' ws]; cbn in *; rewrite ?IH, <- ?app_assoc; done.
Qed.

Lemma join_snoc_word (sep : Z) ws c :
  ws <> [] -> join [sep] (ws ++ [[c]]) = join [sep] ws ++ [sep; c].
Proof.
  induction ws as [|v ws IH]; [done|]. intros _.
  destruct ws as [|v' ws]; [done|]. cbn in *. rewrite IH by done. by rewrite <- !app_assoc.
Qed.

Lemma join_is_empty (sep : Z) ws :
  Forall (fun w => w <> []) ws -> str_is_empty (join [sep] ws) = bool_decide (ws = []).
Proof. destruct 1 as [|[|c w] [|v ws] Hw Hws]; cbn; done. Qed.

Lemma split_pred_cons p s : exists v vs, split_pred p s = v :: vs.
Proof.
  induction s as [|c s (v & vs & IH)]; cbn; [eauto|].
  rewrite IH. destruct (p c); eauto.
Qed.

(** The loop from the two states it can be in: between words, where the next
    kept character opens a word, and inside the word [w]. *)
Lemma normalize_loop s :
  let p := is_letter_or_number in
  (forall ws pending, Forall (fun w => w <> []) ws -> pending = true \/ ws = [] ->
    (foldl normalize_step (join [32] ws, pending) s).1 = join [32] (ws ++ words p s)) /\
  (forall ws w, Forall (fun w => w <> []) ws -> w <> [] ->
    (foldl normalize_step (join [32] (ws ++ [w]), false) s).1 =
      match split_pred p s with
      | [] => []
      | v :: vs => join [32] (ws ++ (w ++ v) :: filter (fun w => w <> []) vs)
      end).
Proof.
  intros p. unfold words. induction s as [|c s [IHa IHb]]; cbn [foldl split_pred].
  { split; intros; cbn; by rewrite ?app_nil_r. }
  destruct (split_pred_cons p s) as (v & vs & E). fold p. rewrite E in *.
  unfold normalize_step at 2 4. fold (p c). destruct (p c); split.
  - intros ws pending Hws Hp. rewrite join_is_empty by done.
    replace (_ ++ [c]) with (join [32] (ws ++ [[c]])).
    + rewrite IHb by done. rewrite filter_cons_True by done. done.
    + case_bool_decide as Hemp.
      * subst. by rewrite andb_false_r.
      * destruct Hp as [->|]; [|done]. cbn [andb negb]. rewrite join_snoc_word by done.
        by rewrite <- app_assoc.
  - intros ws w Hws Hw. cbn [andb]. rewrite <- join_snoc_char, IHb; [|done|by destruct w].
    by rewrite <- app_assoc.
  - intros ws pending Hws Hp. rewrite IHa by auto. rewrite (filter_cons_False _ [] (v :: vs)) by (intros HH; exact (HH eq_refl)). done.
  - intros ws w Hws Hw. rewrite IHa; [|by apply Forall_app; auto|by left].
    by rewrite app_nil_r, <- app_assoc.
Qed.

Lemma split_pred_kept p s w c : w ∈ split_pred p s -> c ∈ w -> p c = true.
Proof.
  revert w. induction s as [|d s IH]; cbn; intros w Hw Hc.
  { apply elem_of_cons in Hw as [->|Hw]; by apply elem_of_nil in Hc || by apply elem_of_nil in Hw. }
  destruct (split_pred_cons p s) as (v & vs & E). rewrite E in *.
  destruct (p d) eqn:Hd; apply elem_of_cons in Hw as [->|Hw].
  - apply elem_of_cons in Hc as [->|Hc]; [done|]. eapply IH; [by left|done].
  - eapply IH; [by right|done].
  - by apply elem_of_nil in Hc.
  - by eapply IH.
Qed.

Lemma words_kept p s w c : w ∈ words p s -> c ∈ w -> p c = true.
Proof. unfold words. rewrite list_elem_of_filter. intros [_ Hin]. by eapply split_pred_kept. Qed.

Lemma words_no_separator p s w : p 32 = false -> w ∈ words p s -> 32 ∉ w /\ w <> [].
Proof.
  intros Hp Hin. split.
  - intros Hc. pose proof (words_kept _ _ _ _ Hin Hc). congruence.
  - unfold words in Hin. by apply list_elem_of_filter in Hin as [Hne _].
Qed.

Lemma normalize_words text :
  let folded := concat (map char_to_lowercase (nfkc text)) in
  tokens (normalize text) = words is_letter_or_number folded /\
  canonical (normalize text) = join [32] (words is_letter_or_number folded).
Proof.
  intros folded. unfold normalize. fold folded. cbn [tokens canonical].
  destruct (normalize_loop folded) as [H _].
  specialize (H [] false (Forall_nil_2 _) (or_intror eq_refl)). cbn [join app] in H. rewrite H.
  set (ws := words is_letter_or_number folded).
  assert (Forall (fun w => 32 ∉ w /\ w <> []) ws) as Hws.
  { apply Forall_forall. intros w. apply words_no_separator, space_not_letter_or_number. }
  rewrite join_is_empty by (eapply Forall_impl; [exact Hws|naive_solver]).
  split; [|done]. case_bool_decide as He; [by rewrite He|].
  apply split_char_join; [done|]. eapply Forall_impl; [exact Hws|naive_solver].
Qed.

Lemma js_lower_each props before s :
  (forall b a, s = b ++ CAPITAL_SIGMA :: a -> final_sigma props (rev b ++ before) a = false) ->
  js_lower props before s = concat (map char_to_lowercase s).
Proof.
  revert before. induction s as [|c s IH]; intros before Hn; [done|]. cbn [js_lower map concat].
  rewrite IH.
  - destruct (Z.eqb_spec c CAPITAL_SIGMA) as [->|]; [|done].
    by assert (final_sigma props before s = false) as -> by exact (Hn [] s eq_refl).
  - intros b a ->. specialize (Hn (c :: b) a eq_refl). cbn [rev] in Hn. by rewrite <- app_assoc in Hn.
Qed.

Lemma trim_end_cons c s : c <> 32 -> trim_end (c :: s) = c :: trim_end s.
Proof. intros Hc. cbn. by destruct (Z.eqb_spec c 32). Qed.

(** The replaced text from the two states it can be in: in a run of separators,
    and inside a word. *)
Lemma replace_runs_words s :
  let p := is_letter_or_number in
  trim_end (replace_runs true s) = join [32] (words p s) /\
  trim_end (replace_runs false s) =
    match split_pred p s with
    | [] => []
    | v :: vs => v ++ match filter (fun w => w <> []) vs with [] => [] | ws => 32 :: join [32] ws end
    end.
Proof.
  intros p. unfold words. induction s as [|c s [IHa IHb]]; [done|]. cbn [replace_runs split_pred].
  destruct (split_pred_cons p s) as (v & vs & E). fold p. rewrite E in *.
  destruct (p c) eqn:Hp.
  - assert (c <> 32) as Hc by (intros ->; unfold p in Hp; by rewrite space_not_letter_or_number in Hp).
    rewrite trim_end_cons, IHb by done. rewrite filter_cons_True by done. split; [|done].
    destruct (filter _ vs); cbn; by rewrite ?app_nil_r.
  - rewrite IHa. split; [by rewrite (filter_cons_False _ [] (v :: vs)) by (intros HH; exact (HH eq_refl))|].
    change (trim_end (32 :: replace_runs true s)) with
      (if str_is_empty (trim_end (replace_runs true s)) then [] else 32 :: trim_end (replace_runs true s)).
    rewrite IHa. rewrite join_is_empty by (apply Forall_forall; by intros w [? _]%list_elem_of_filter).
    cbn [app]. case_bool_decide as He; [by rewrite He|]. by destruct (filter _ (v :: vs)).
Qed.

Lemma trim_start_runs s :
  trim_start (replace_runs true s) = replace_runs true s /\ trim_start (replace_runs false s) = replace_runs true s.
Proof.
  induction s as [|c s [IHt IHf]]; [done|]. cbn [replace_runs].
  destruct (is_letter_or_number c) eqn:Hc; [|cbn [trim_start Z.eqb Pos.eqb]; by rewrite IHt].
  cbn [trim_start]. destruct (Z.eqb_spec c 32) as [->|]; [by rewrite space_not_letter_or_number in Hc|done].
Qed.

Lemma normalize_is_js props text :
  no_final_sigma props (nfkc text) -> normalize text = js_normalize props text.
Proof.
  intros Hn. destruct (normalize_words text) as [_ H2]. unfold normalize, js_normalize in *. cbn [canonical] in H2.
  rewrite js_lower_each by (intros b a Hs; rewrite app_nil_r; by apply Hn).
  rewrite (proj2 (trim_start_runs _)), (proj1 (replace_runs_words _)), H2. done.
Qed.
End NormalizeProofs.

(** ** Winnowing: proofs *)

Lemma rightmost_min_unique u s w m m' :
  rightmost_min u s w m -> rightmost_min u s w m' -> m = m'.
Proof.
  intros (Hm & Hle & Hlt) (Hm' & Hle' & Hlt').
  destruct (lt_eq_lt_dec m m') as [[H|H]|H]; [|done|].
  - specialize (Hlt m'). specialize (Hle' m). lia.
  - specialize (Hlt' m). specialize (Hle m'). lia.
Qed.

Lemma rightmost_min_mono u s w m m' :
  rightmost_min u s w m -> rightmost_min u (S s) w m' -> (m <= m')%nat.
Proof.
  intros (Hm & Hle & Hlt) (Hm' & Hle' & Hlt').
  destruct (decide (m <= m')%nat) as [|H]; [done|].
  specialize (Hle m'). specialize (Hlt' m). lia.
Qed.

Lemma min_index_fold u s i c m :
  (s < i)%nat -> rightmost_min u s (i - s) m ->
  rightmost_min u s (i + c - s) (foldl (fun m i => if u !!! i <=? u !!! m then i else m) m (seq i c)).
Proof.
  revert i m. induction c as [|c IH]; intros i m Hi Hm; cbn [seq foldl].
  { by rewrite Nat.add_0_r. }
  replace (i + S c)%nat with (S i + c)%nat by lia. apply IH; [lia|].
  destruct Hm as (H1 & H2 & H3). unfold rightmost_min.
  destruct (Z.leb_spec (u !!! i) (u !!! m)) as [Hle|Hgt]; (split; [lia|]; split).
  - intros j Hj. destruct (decide (j = i)) as [->|]; [lia|].
    etrans; [exact Hle|]. apply H2. lia.
  - intros j Hj. lia.
  - intros j Hj. destruct (decide (j = i)) as [->|]; [lia|]. apply H2. lia.
  - intros j Hj. destruct (decide (j = i)) as [->|]; [lia|]. apply H3. lia.
Qed.

Lemma min_index_in_spec u s w :
  (1 <= w)%nat -> rightmost_min u s w (min_index_in u s (s + w)).
Proof.
  intros Hw. unfold min_index_in.
  replace w with (S s + (s + w - S s) - s)%nat at 1 by lia.
  apply min_index_fold; [lia|]. repeat split; try lia.
  intros j Hj. assert (j = s) as -> by lia. lia.
Qed.

Lemma winnow_fold hashes u w s :
  (1 <= w)%nat ->
  exists ms,
    foldl (winnow_step hashes u w) ([], None) (seq 0 s) = (map (mk_fp hashes) ms, last ms) /\
    StronglySorted lt ms /\
    (forall m, m ∈ ms <-> exists start, (start < s)%nat /\ rightmost_min u start w m) /\
    (forall s', s = S s' -> exists m, last ms = Some m /\ rightmost_min u s' w m /\
       Forall (fun x => x <= m)%nat ms).
Proof.
  intros Hw. induction s as [|s (ms & E & Hsort & Hin & Hlast)].
  { exists []. split; [done|]. split; [constructor|]. split; [|done].
    intros m. split; [by intros ?%elem_of_nil|]. intros (? & ? & _). lia. }
  rewrite seq_S, foldl_app, E. cbn [foldl winnow_step Nat.add].
  pose proof (min_index_in_spec u s w Hw) as Hm. set (m := min_index_in u s (s + w)) in *. clearbody m.
  assert (Forall (fun x => x <= m)%nat ms) as Hle.
  { destruct s as [|s'].
    - apply Forall_forall. intros x (st & ? & _)%Hin. lia.
    - destruct (Hlast s' eq_refl) as (m0 & _ & Hm0 & Hall).
      pose proof (rightmost_min_mono _ _ _ _ _ Hm0 Hm).
      eapply Forall_impl; [exact Hall|]. cbn; lia. }
  case_bool_decide as Hne.
  - exists (ms ++ [m]). rewrite map_app, last_snoc. split; [done|]. split; [|split].
    + assert (Forall (fun x => x < m)%nat ms) as Hlt.
      { rewrite Forall_forall in *. intros x Hx. specialize (Hle x Hx).
        destruct (decide (x = m)) as [->|]; [|lia]. exfalso.
        apply Hin in Hx as (st & Hst & Hrm). destruct s as [|s']; [lia|].
        destruct (Hlast s' eq_refl) as (m0 & Hl & Hm0 & Hall). apply Hne. rewrite Hl. f_equal.
        pose proof (rightmost_min_mono _ _ _ _ _ Hm0 Hm).
        rewrite Forall_forall in Hall.
        assert (m ∈ ms) by (apply Hin; by exists st). specialize (Hall m H0). lia. }
      clear -Hsort Hlt. induction Hsort as [|x l Hs IH Hx]; cbn; [repeat constructor|].
      inversion_clear Hlt. constructor; [auto|]. apply Forall_app; auto.
    + intros x. rewrite elem_of_app, list_elem_of_singleton, Hin. split.
      * intros [(st & ? & ?)| ->]; [exists st; split; [lia|done]|exists s; split; [lia|done]].
      * intros (st & Hst & Hx). destruct (decide (st = s)) as [->|].
        -- right. by eapply rightmost_min_unique.
        -- left. exists st. split; [lia|done].
    + intros s' [= <-]. exists m. split; [done|]. split; [done|].
      apply Forall_app. split; [done|]. constructor; [lia|done].
  - exists ms. rewrite Hne. split; [done|]. split; [done|]. split.
    + intros x. rewrite Hin. split.
      * intros (st & ? & ?). exists st. split; [lia|done].
      * intros (st & Hst & Hx). destruct (decide (st = s)) as [->|]; [|exists st; split; [lia|done]].
        assert (x = m) as -> by by eapply rightmost_min_unique.
        destruct s as [|s']; [|].
        -- destruct (last_Some ms m) as [[l' ->] _]; [done|].
           apply Hin, elem_of_app. right. by left.
        -- apply Hin. destruct (last_Some ms m) as [[l' ->] _]; [done|].
           apply elem_of_app. right. by left.
    + intros s' [= <-]. by exists m.
Qed.

Lemma winnow_long hashes w :
  (1 <= w <= length hashes)%nat ->
  exists ms,
    winnow hashes w = Some (map (mk_fp hashes) ms) /\
    StronglySorted lt ms /\
    (forall m, m ∈ ms <-> exists start,
       (start + w <= length hashes)%nat /\ rightmost_min (map as_u64 hashes) start w m).
Proof.
  intros [Hw Hn]. unfold winnow.
  destruct (Nat.ltb_spec w 1); [lia|]. destruct (Nat.eqb_spec (length hashes) 0); [lia|].
  destruct (Nat.ltb_spec (length hashes) w); [lia|].
  destruct (winnow_fold hashes (map as_u64 hashes) w (S (length hashes - w)) Hw)
    as (ms & -> & Hs & Hin & _).
  exists ms. split; [done|]. split; [done|]. intros m. rewrite Hin.
  split; intros (st & ? & ?); exists st; (split; [lia|done]).
Qed.

Lemma rightmost_min_shift u1 u2 s1 s2 w m1 m2 :
  (forall j, (j < w)%nat -> u1 !!! (s1 + j)%nat = u2 !!! (s2 + j)%nat) ->
  rightmost_min u1 s1 w m1 -> rightmost_min u2 s2 w m2 -> (m1 - s1 = m2 - s2)%nat.
Proof.
  intros Heq (H1 & H1le & H1lt) H2.
  assert (rightmost_min u2 s2 w (s2 + (m1 - s1))) as H3; [|pose proof (rightmost_min_unique _ _ _ _ _ H2 H3); lia].
  assert (forall j, (s2 <= j < s2 + w)%nat -> u2 !!! j = u1 !!! (s1 + (j - s2))%nat) as Heq'.
  { intros j Hj. rewrite Heq by lia. f_equal. lia. }
  split; [lia|]. split; intros j Hj; rewrite (Heq' j) by lia; rewrite (Heq' (s2 + _)%nat) by lia;
    replace (s1 + (s2 + (m1 - s1) - s2))%nat with m1 by lia; [apply H1le|apply H1lt]; lia.
Qed.

Lemma shingles_of_long tokens k :
  (1 <= k <= length tokens)%nat ->
  shingles_of tokens k = Some (map (join [32]) (windows k tokens)).
Proof.
  intros [Hk Hl]. unfold shingles_of. destruct (Nat.ltb_spec k 1); [lia|].
  destruct tokens as [|t ts]; [cbn in Hl; lia|].
  destruct (Nat.ltb_spec (length (t :: ts)) k); [lia|done].
Qed.

(** The hash recorded for a window of the shared tokens. *)
Lemma window_hash_recorded tokens k w i :
  (1 <= k)%nat -> (1 <= w)%nat -> (i + (k + w - 1) <= length tokens)%nat ->
  exists fps m,
    winnow (map fnv1a64 (map (join [32]) (windows k tokens))) w = Some fps /\
    rightmost_min (map as_u64 (map fnv1a64 (map (join [32]) (windows k tokens)))) i w m /\
    fnv1a64 (join [32] (take k (drop m tokens))) ∈ map fp_hash fps.
Proof.
  intros Hk Hw Hi. set (hs := map fnv1a64 _).
  assert (length hs = S (length tokens) - k)%nat as Hlen
    by (unfold hs; by rewrite !length_map, length_windows).
  destruct (winnow_long hs w) as (ms & E & _ & Hin); [lia|].
  pose proof (min_index_in_spec (map as_u64 hs) i w Hw) as Hm.
  set (m := min_index_in _ i _) in *. clearbody m.
  exists (map (mk_fp hs) ms), m. split; [done|]. split; [done|].
  rewrite map_map. cbn [fp_hash mk_fp].
  apply list_elem_of_fmap. exists m. split.
  - destruct Hm as (? & _). symmetry. apply list_lookup_total_correct.
    unfold hs. rewrite !list_lookup_fmap, windows_lookup by lia. done.
  - apply Hin. exists i. split; [lia|done].
Qed.

Lemma drop_take_shared {A} (a b run c d : list A) k j :
  (j + k <= length run)%nat ->
  take k (drop (length a + j) (a ++ run ++ b)) = take k (drop (length c + j) (c ++ run ++ d)).
Proof.
  intros Hj. rewrite !drop_app_add', !drop_app_le by lia.
  rewrite !take_app_le by (rewrite length_drop; lia). done.
Qed.

(** The hash selected for a window of a shared run is selected in the other text
    too. *)
Definition shingle_hashes (k : nat) (tokens : list str) : list Z :=
  map fnv1a64 (map (join [32]) (windows k tokens)).

Lemma shingle_hashes_lookup k tokens i :
  (i + k <= length tokens)%nat ->
  shingle_hashes k tokens !! i = Some (fnv1a64 (join [32] (take k (drop i tokens)))).
Proof. intros Hi. unfold shingle_hashes. by rewrite !list_lookup_fmap, windows_lookup. Qed.

Lemma shared_window k w (a1 b1 a2 b2 run : list str) i m1 :
  (1 <= k)%nat -> (1 <= w)%nat -> (i + (k + w - 1) <= length run)%nat ->
  rightmost_min (map as_u64 (shingle_hashes k (a1 ++ run ++ b1))) (length a1 + i) w m1 ->
  exists fps, winnow (shingle_hashes k (a2 ++ run ++ b2)) w = Some fps /\
    fnv1a64 (join [32] (take k (drop m1 (a1 ++ run ++ b1)))) ∈ map fp_hash fps.
Proof.
  intros Hk Hw Hrun Hm1.
  destruct (window_hash_recorded (a2 ++ run ++ b2) k w (length a2 + i)) as (fps & m2 & E2 & Hm2 & Hin);
    [done|done|rewrite !length_app; lia|].
  exists fps. split; [exact E2|]. fold (shingle_hashes k (a2 ++ run ++ b2)) in Hm2.
  assert (m1 - (length a1 + i) = m2 - (length a2 + i))%nat as Hoff.
  { eapply rightmost_min_shift; [|exact Hm1|exact Hm2]. intros j Hj.
    rewrite !list_lookup_total_alt, !list_lookup_fmap, !shingle_hashes_lookup by (rewrite !length_app; lia).
    cbn. do 3 f_equal. rewrite <- !Nat.add_assoc. apply drop_take_shared. lia. }
  destruct Hm1 as (Hb1 & _), Hm2 as (Hb2 & _).
  replace (take k (drop m1 (a1 ++ run ++ b1))) with (take k (drop m2 (a2 ++ run ++ b2))); [done|].
  replace m2 with (length a2 + (m2 - length a2))%nat by lia.
  replace m1 with (length a1 + (m2 - length a2))%nat by lia.
  apply drop_take_shared. lia.
Qed.

Lemma elem_of_to_hash_set h fp : h ∈ to_hash_set fp <-> h ∈ map fp_hash fp.
Proof. unfold to_hash_set. by rewrite elem_of_list_to_set. Qed.

Lemma intersection_size_inter (a b : gset Z) : intersection_size a b = size (a ∩ b).
Proof.
  assert (forall a b : gset Z,
    length (filter (fun h => h ∈ b) (elements a)) = size (a ∩ b)) as H.
  { clear. intros a b. unfold size, set_size. simpl. apply Permutation_length.
    apply NoDup_Permutation.
    - apply NoDup_filter, NoDup_elements.
    - apply NoDup_elements.
    - intros x. rewrite list_elem_of_filter, !elem_of_elements. set_solver. }
  unfold intersection_size. destruct (size a <=? size b)%nat; rewrite H; [done|].
  by rewrite (comm_L (∩)).
Qed.

Lemma f64_div_self n : 0 < n < 2 ^ 64 -> f64_div (f64_of_Z n) (f64_of_Z n) = f64_of_Z 1.
Proof.
  intros Hn. destruct (f64_of_Z_finite n Hn) as (m & e & ->).
  unfold f64_div, SpecFloat.SFdiv, SpecFloat.SFdiv_core_binary. rewrite !Z.sub_diag.
  change (Z.min (SpecFloat.fexp 53 1024 0) 0) with (-53).
  change (0 - -53) with 53. cbv match.
  rewrite Z.shiftl_mul_pow2 by lia.
  assert (Z.div_eucl (Zpos m * 2 ^ 53) (Zpos m) = (2 ^ 53, 0)) as ->.
  { pose proof (Z_div_mod (Zpos m * 2 ^ 53) (Zpos m) ltac:(lia)) as H.
    destruct (Z.div_eucl _ _) as [q r]. destruct H as [H1 H2].
    destruct (Z.div_mod_unique (Zpos m) q (2 ^ 53) r 0) as [-> ->]; [lia..|done]. }
  replace (SpecFloat.new_location (Zpos m) 0) with SpecFloat.loc_Exact; [reflexivity|].
  unfold SpecFloat.new_location. by destruct (Z.even (Zpos m)).
Qed.

(** ** Properties *)

(** C6: The normalizer's loop computes what the server computes.  The tokens are
    the pieces of the composed text, lower-cased character by character, between the
    characters that are not letters or numbers, and the canonical text is those
    tokens joined by single spaces; and both are exactly those of the server's
    [normalize] unless a capital sigma ends a word of the composed text, where the
    server writes a final sigma and the agent does not ([final_sigma_diverges]). *)
Theorem normalize_reference {U : Unicode} {UL : UnicodeLaws U} (props : CaseProperties) text :
  let folded := concat (map char_to_lowercase (nfkc text)) in
  (no_final_sigma props (nfkc text) -> normalize text = js_normalize props text) /\
  tokens (normalize text) = words is_letter_or_number folded /\
  canonical (normalize text) = join [32] (tokens (normalize text)) /\
  Forall (fun t => t <> [] /\ Forall (fun c => is_letter_or_number c = true) t)
    (tokens (normalize text)).
Proof.
  intros folded. split; [apply normalize_is_js|].
  destruct (normalize_words text) as [H1 H2]. fold folded in H1, H2.
  rewrite H1, H2. split; [done|]. split; [done|].
  apply Forall_forall. intros t Ht. split.
  - exact (proj2 (words_no_separator _ _ _ space_not_letter_or_number Ht)).
  - apply Forall_forall. intros c. by eapply words_kept.
Qed.

(** The Greek word for road in capitals: the server's token ends in a final sigma,
    the agent's in a medial one, so that the two fingerprints differ. *)
Definition greek_unicode : Unicode := {|
  nfkc := fun s => s;
  general_category_group := fun c =>
    if (0x391 <=? c) && (c <=? 0x3C9) then Letter else @general_category_group ascii_unicode c;
  char_to_lowercase := fun c => if (0x391 <=? c) && (c <=? 0x3A9) then [c + 32] else [to_ascii_lower c];
  str_to_lowercase := to_ascii_lowercase;
  str_to_uppercase := map ascii_upper;
|}.
Definition greek_case : CaseProperties :=
  {| cased := fun c => (0x391 <=? c) && (c <=? 0x3C9); case_ignorable := fun _ => false |}.
Example final_sigma_diverges :
  let road := [0x39F; 0x394; 0x39F; CAPITAL_SIGMA] in
  tokens (@normalize greek_unicode road) = [[0x3BF; 0x3B4; 0x3BF; 0x3C3]] /\
  tokens (@js_normalize greek_unicode greek_case road) = [[0x3BF; 0x3B4; 0x3BF; FINAL_SIGMA]].
Proof. split; vm_compute; reflexivity. Qed.

(** Winnowing selects exactly the rightmost unsigned minimum of every window of
    [w] consecutive hashes (of the whole sequence when it is shorter), each
    position once and in increasing order. *)
Theorem winnow_selects_window_minima hashes w :
  (1 <= w)%nat ->
  let n := length hashes in
  exists ms,
    winnow hashes w = Some (map (mk_fp hashes) ms) /\
    StronglySorted lt ms /\
    (forall m, m ∈ ms <-> exists start,
       (start + (w `min` n) <= n)%nat /\ rightmost_min (map as_u64 hashes) start (w `min` n) m).
Proof.
  intros Hw n. unfold winnow. destruct (Nat.ltb_spec w 1); [lia|]. fold n.
  destruct (Nat.eqb_spec n 0) as [Hn|Hn].
  { exists []. split; [done|]. split; [constructor|]. intros m.
    split; [by intros ?%elem_of_nil|]. intros (st & _ & (? & _)). lia. }
  destruct (Nat.ltb_spec n w).
  - replace (w `min` n)%nat with n by lia. eexists [_]. split; [done|]. split; [repeat constructor|].
    pose proof (min_index_in_spec (map as_u64 hashes) 0 n ltac:(lia)) as Hm. cbn [Nat.add] in Hm.
    intros m. rewrite list_elem_of_singleton. split.
    + intros ->. exists 0%nat. split; [lia|done].
    + intros (st & ? & Hst). assert (st = 0)%nat as -> by lia. by eapply rightmost_min_unique.
  - destruct (winnow_long hashes w ltac:(lia)) as (ms & E & Hs & Hin).
    unfold winnow in E. destruct (Nat.ltb_spec w 1); [lia|]. fold n in E.
    destruct (Nat.eqb_spec n 0); [lia|]. destruct (Nat.ltb_spec n w); [lia|].
    exists ms. split; [done|]. split; [done|]. by replace (w `min` n)%nat with w by lia.
Qed.

Lemma winnow_selects_window_minima_witness :
  let hs := [3; -1; 7; 3; 2; 9] in
  (1 <= 3)%nat /\
  winnow hs 3 = Some [mk_fp hs 0; mk_fp hs 3; mk_fp hs 4] /\
  exists ms, winnow hs 3 = Some (map (mk_fp hs) ms) /\ StronglySorted lt ms.
Proof.
  intros hs. split; [lia|]. split; [vm_compute; reflexivity|].
  destruct (winnow_selects_window_minima hs 3 ltac:(lia)) as (ms & H1 & H2 & _). by exists ms.
Defined.

(** The detection guarantee of the fingerprints: two texts whose token streams
    share a run of [k + w - 1] consecutive tokens share a fingerprint hash, so
    the intersection the scores divide by is not empty. *)
Theorem shared_run_detected {U : Unicode} text1 text2 k w a1 b1 a2 b2 run r1 r2 :
  (1 <= k)%nat -> (1 <= w)%nat -> (k + w - 1 <= length run)%nat ->
  tokens (normalize text1) = a1 ++ run ++ b1 ->
  tokens (normalize text2) = a2 ++ run ++ b2 ->
  fingerprint text1 k w = Some r1 -> fingerprint text2 k w = Some r2 ->
  (0 < intersection_size (to_hash_set (fingerprints r1)) (to_hash_set (fingerprints r2)))%nat.
Proof.
  intros Hk Hw Hrun H1 H2 F1 F2. unfold fingerprint in F1, F2. rewrite H1 in F1. rewrite H2 in F2.
  rewrite shingles_of_long in F1, F2 by (rewrite !length_app; lia).
  destruct (window_hash_recorded (a1 ++ run ++ b1) k w (length a1)) as (f1 & m1 & E1 & Hm1 & Hin1);
    [done|done|rewrite !length_app; lia|].
  destruct (shared_window k w a1 b1 a2 b2 run 0 m1) as (f2 & E2 & Hin2); [done..|lia| |].
  { by rewrite Nat.add_0_r. }
  unfold shingle_hashes in E2. cbn in F1, F2. rewrite E1 in F1. rewrite E2 in F2. cbn in F1, F2.
  simplify_eq. cbn [fingerprints]. rewrite intersection_size_inter.
  destruct (decide (size (to_hash_set f1 ∩ to_hash_set f2) = 0)%nat) as [Hz|]; [|lia].
  apply size_empty_inv in Hz. apply elem_of_to_hash_set in Hin1, Hin2. set_solver.
Qed.

Lemma shared_run_detected_witness :
  let t1 := lit "memo: The QUICK, brown fox - draft" in
  let t2 := lit "see the quick brown fox!" in
  exists r1 r2,
    @fingerprint ascii_unicode t1 2 2 = Some r1 /\ @fingerprint ascii_unicode t2 2 2 = Some r2 /\
    (0 < intersection_size (to_hash_set (fingerprints r1)) (to_hash_set (fingerprints r2)))%nat.
Proof.
  intros t1 t2.
  destruct (@fingerprint ascii_unicode t1 2 2) as [r1|] eqn:E1; [|vm_compute in E1; discriminate].
  destruct (@fingerprint ascii_unicode t2 2 2) as [r2|] eqn:E2; [|vm_compute in E2; discriminate].
  exists r1, r2. split; [reflexivity|]. split; [reflexivity|].
  apply (@shared_run_detected ascii_unicode t1 t2 2 2 [lit "memo"] [lit "draft"] [lit "see"] []
    [lit "the"; lit "quick"; lit "brown"; lit "fox"] r1 r2).
  - lia.
  - lia.
  - cbn; lia.
  - vm_compute; reflexivity.
  - vm_compute; reflexivity.
  - exact E1.
  - exact E2.
Defined.

Lemma normalize_reference_witness :
  let text := lit "  Smith, John -- 42! " in
  @normalize ascii_unicode text = @js_normalize ascii_unicode greek_case text /\
  tokens (@normalize ascii_unicode text) = [lit "smith"; lit "john"; lit "42"].
Proof.
  intros text. split; [|vm_compute; reflexivity].
  apply (@normalize_reference ascii_unicode ascii_unicode_laws greek_case text).
  intros b a Hs. exfalso. assert (CAPITAL_SIGMA ∈ text) as Hin.
  { change (nfkc text) with text in Hs. rewrite Hs. apply elem_of_app. right. by left. }
  revert Hin. change (CAPITAL_SIGMA ∉ text). apply (bool_decide_unpack _). vm_compute. exact I.
Defined.

(** The containment score: no division by zero and no NaN ever; an empty
    protected document scores 0 (it can never match everything), a document
    found whole scores exactly 1, and one with nothing in common scores 0. *)
Theorem containment_score fp_a fp_b :
  Z.of_nat (length fp_a) < 2 ^ 64 ->
  let a := to_hash_set fp_a in
  let b := to_hash_set fp_b in
  is_nan (containment fp_a fp_b) = false /\
  (a = ∅ -> containment fp_a fp_b = f64_zero) /\
  (a <> ∅ -> a ⊆ b -> containment fp_a fp_b = f64_of_Z 1) /\
  (a ∩ b = ∅ -> f64_gt (containment fp_a fp_b) f64_zero = false) /\
  sim_containment (similarity fp_a fp_b) = containment fp_a fp_b /\
  sim_coverage (similarity fp_a fp_b) = containment fp_b fp_a.
Proof.
  intros Hlen a b. unfold containment, similarity. cbn [sim_containment sim_coverage].
  fold a b. rewrite !intersection_size_inter.
  assert (Z.of_nat (size a) < 2 ^ 64) as Hsa.
  { enough (size a <= length fp_a)%nat by lia. unfold a, to_hash_set.
    rewrite <- (length_map fp_hash). clear. induction (map fp_hash fp_a) as [|x l IH]; cbn.
    - by rewrite size_empty.
    - rewrite size_union_alt, size_singleton.
      assert (size (list_to_set l ∖ {[x]} : gset Z) <= size (list_to_set l : gset Z))%nat
        by (apply subseteq_size; set_solver). lia. }
  assert (size (a ∩ b) <= size a)%nat by (apply subseteq_size; set_solver).
  assert (a <> ∅ -> 0 < Z.of_nat (size a)) as Hpos.
  { intros Ha. destruct (decide (size a = 0)%nat) as [Hz|]; [|lia].
    apply size_empty_inv in Hz. set_solver. }
  split; [|split; [|split; [|split; [|split]]]].
  - case_bool_decide; [done|]. apply f64_div_not_nan; auto with lia.
  - intros Ha. by rewrite bool_decide_eq_true_2.
  - intros Ha Hab. rewrite bool_decide_eq_false_2 by done.
    replace (a ∩ b) with a by set_solver. apply f64_div_self. auto with lia.
  - intros Hab. case_bool_decide; [done|].
    rewrite Hab, size_empty. change (f64_of_Z (Z.of_nat 0)) with f64_zero.
    destruct (f64_of_Z_finite (Z.of_nat (size a))) as (m & e & ->); [auto with lia|done].
  - done.
  - case_bool_decide; [done|]. by rewrite (comm_L (∩) a b).
Qed.

Lemma containment_score_witness :
  let fp := [{| fp_hash := 5; fp_seq := 0 |}; {| fp_hash := -7; fp_seq := 3 |}] in
  Z.of_nat (length fp) < 2 ^ 64 /\ is_nan (containment fp fp) = false /\
  containment fp fp = f64_of_Z 1.
Proof.
  intros fp. split; [vm_compute; reflexivity|].
  destruct (containment_score fp fp ltac:(vm_compute; reflexivity)) as (H1 & _ & H2 & _).
  split; [exact H1|]. apply H2; [|reflexivity]. intros H.
  assert (5 ∈ to_hash_set fp) by (apply elem_of_to_hash_set; left). rewrite H in *. set_solver.
Defined.
