(* ===== verification/Bundle.v ===== *)
(** The signed index bundle ([src/detect/bundle.rs]): the DLPX1 file format,
    its verified loader, the Bloom pre-filter and the sorted lookups. *)

From S2P Require Import Prelude Words Text F64 Unicode Fingerprint.
#[local] Open Scope Z_scope.

(** ** Header *)

Record Params := { k : nat; w : nat; hash_bits : Z }.
Record Counts := { counts_idm : Z; counts_edm : Z; counts_docs : Z }.
Record Doc := {
  version_id : str;
  document_id : str;
  collection_id : str;
  title : str;
  fp_count : Z;
}.
Record EdmField := {
  field_id : Z;
  field_name : str;
  field_type : str;
  primary : bool;
}.
Record EdmSource := { source_id : str; source_name : str; fields : list EdmField }.
Record Header := {
  bundle_version : Z;
  params : Params;
  edm_salts : gmap str str;
  scope : list str;
  counts : Counts;
  docs : list Doc;
  edm_sources : list EdmSource;
}.

(** ** Binary sections *)

Record IdmEntry := { idm_hash : Z; doc_index : Z }.
Record EdmEntry := { edm_hash : Z; source_index : Z; row_id : Z; edm_field_id : Z }.
Record Bloom := { m_bits : Z; k_hashes : Z; bits : bytes }.
Record Bundle := {
  format_version : Z;
  header : Header;
  bloom : Bloom;
  idm : list IdmEntry;
  edm : list EdmEntry;
}.

Definition MAGIC : bytes := lit "DLPX1".
Definition FORMAT_VERSION : Z := 1.

(** ** Bloom filter *)

Definition FNV_OFFSET_BASIS : Z := 0xcbf29ce484222325.
Definition FNV_PRIME : Z := 0x00000100000001b3.

Definition fnv1a64_bytes (bs : bytes) : Z :=
  foldl (fun h b => wrapping_mul (Z.lxor h b) FNV_PRIME) FNV_OFFSET_BASIS bs.

Definition splitmix64 (x : Z) : Z :=
  let z := wrapping_add x 0x9E3779B97F4A7C15 in
  let z := wrapping_mul (Z.lxor z (Z.shiftr z 30)) 0xBF58476D1CE4E5B9 in
  let z := wrapping_mul (Z.lxor z (Z.shiftr z 27)) 0x94D049BB133111EB in
  Z.lxor z (Z.shiftr z 31).

Definition bloom_bit (m_bits h1 h2 i : Z) : Z :=
  wrapping_add h1 (wrapping_mul i h2) mod m_bits.

(** The loop [for i in i0..k_hashes], [n] iterations left; [None] is a panic
    (remainder by zero or an index out of the bit array). *)
Fixpoint bloom_loop (b : Bloom) (h1 h2 : Z) (n : nat) (i : Z) : option bool :=
  match n with
  | O => Some true
  | S n' =>
      if m_bits b =? 0 then None
      else
        let bit := bloom_bit (m_bits b) h1 h2 i in
        match bits b !! Z.to_nat (Z.shiftr bit 3) with
        | None => None
        | Some byte =>
            if Z.land byte (Z.shiftl 1 (Z.land bit 7)) =? 0 then Some false
            else bloom_loop b h1 h2 n' (i + 1)
        end
  end.

(** [Bloom::has] *)
Definition has (b : Bloom) (hash : Z) : option bool :=
  let key := to_le_bytes 8 (as_u64 hash) in
  let h1 := fnv1a64_bytes key in
  let h2 := splitmix64 h1 in
  bloom_loop b h1 h2 (Z.to_nat (k_hashes b)) 0.

(** ** Byte reader *)

Abbreviation error := (list Z) (only parsing).
Record Reader := { buf : bytes; off : Z }.

Definition Reader_new (b : bytes) : Reader := {| buf := b; off := 0 |}.

Definition take_n (n : Z) (what : str) (r : Reader) : result error (bytes * Reader) :=
  match checked_add (off r) n with
  | Some e =>
      if e <=? Z.of_nat (length (buf r)) then
        Ok (take (Z.to_nat n) (drop (Z.to_nat (off r)) (buf r)), {| buf := buf r; off := e |})
      else Err (lit "bundle parse error: truncated: " ++ what)
  | None => Err (lit "bundle parse error: truncated: " ++ what)
  end.

Definition read_u16 (what : str) (r : Reader) : result error (Z * Reader) :=
  '(x, r) ← take_n 2 what r; Ok (from_le_bytes x, r).
Definition read_u32 (what : str) (r : Reader) : result error (Z * Reader) :=
  '(x, r) ← take_n 4 what r; Ok (from_le_bytes x, r).

Definition parse_err (msg : str) : error := lit "bundle parse error: " ++ msg.

(** ** The libraries the loader calls

    [x509_cert], [rsa] and [serde_json]. *)
Class BundleEnv := {
  Certificate : Type;
  RsaPublicKey : Type;
  Signature : Type;
  certificate_from_pem : bytes -> option Certificate;
  spki_to_der : Certificate -> option bytes;
  rsa_from_public_key_der : bytes -> option RsaPublicKey;
  signature_try_from : bytes -> option Signature;
  (** RSASSA-PKCS1-v1_5 with SHA-256 *)
  verify : RsaPublicKey -> bytes -> Signature -> bool;
  header_from_json : bytes -> option Header;
}.

Section Load.
Context {E : BundleEnv}.

Definition verify_signature (message signature ca_cert_pem : bytes) : result error unit :=
  cert ← ok_or (certificate_from_pem ca_cert_pem) (lit "parsing CA certificate");
  spki_der ← ok_or (spki_to_der cert) (lit "encoding CA public key");
  public_key ← ok_or (rsa_from_public_key_der spki_der) (lit "CA public key is not RSA");
  signature ← ok_or (signature_try_from signature) (lit "malformed signature");
  ensure (verify public_key message signature) (lit "bundle signature verification failed").

(** What the first pass of [load] has located when it ends. *)
Record Sections := {
  s_version : Z;
  s_header : bytes;
  s_m_bits : Z;
  s_k_hashes : Z;
  s_bloom : bytes;
  s_idm : bytes;
  s_edm : bytes;
  s_signed_end : Z;
  s_signature : bytes;
}.

(** Pass 1 of [load]: section boundaries from raw lengths only. *)
Definition load_sections (bs : bytes) : result error Sections :=
  let r := Reader_new bs in
  '(magic, r) ← take_n (Z.of_nat (length MAGIC)) (lit "magic") r;
  _ ← ensure (bool_decide (magic = MAGIC)) (parse_err (lit "bad magic"));
  '(format_version, r) ← read_u16 (lit "format version") r;
  _ ← ensure (format_version =? FORMAT_VERSION)
        (parse_err (lit "unsupported format version " ++ dec format_version));
  '(header_len, r) ← read_u32 (lit "header length") r;
  '(header_bytes, r) ← take_n header_len (lit "header") r;
  '(m_bits, r) ← read_u32 (lit "bloom mBits") r;
  '(k_hashes, r) ← read_u32 (lit "bloom kHashes") r;
  _ ← ensure (negb ((m_bits <? 8) || (k_hashes <? 1) || (64 <? k_hashes)))
        (parse_err (lit "bad bloom parameters"));
  '(bloom_bytes, r) ←
    take_n (m_bits / 8 + (if m_bits mod 8 =? 0 then 0 else 1)) (lit "bloom bits") r;
  '(idm_count, r) ← read_u32 (lit "idm count") r;
  idm_len ← ok_or (checked_mul idm_count 12) (parse_err (lit "idm count overflow"));
  '(idm_bytes, r) ← take_n idm_len (lit "idm entries") r;
  '(edm_count, r) ← read_u32 (lit "edm count") r;
  edm_len ← ok_or (checked_mul edm_count 16) (parse_err (lit "edm count overflow"));
  '(edm_bytes, r) ← take_n edm_len (lit "edm entries") r;
  let signed_end := off r in
  '(sig_len, r) ← read_u32 (lit "signature length") r;
  '(signature, r) ← take_n sig_len (lit "signature") r;
  _ ← ensure (off r =? Z.of_nat (length bs)) (parse_err (lit "trailing bytes after signature"));
  Ok {| s_version := format_version; s_header := header_bytes; s_m_bits := m_bits;
        s_k_hashes := k_hashes; s_bloom := bloom_bytes; s_idm := idm_bytes;
        s_edm := edm_bytes; s_signed_end := signed_end; s_signature := signature |}.

(** [slice::chunks_exact] *)
Definition chunks_exact (n : nat) (l : bytes) : list bytes :=
  map (fun i => take n (drop (i * n) l)) (seq 0 (length l / n)).
Definition slice (a b : nat) (l : bytes) : bytes := take (b - a) (drop a l).

(** Lexicographic [<=] on tuple keys of the same length. *)
Fixpoint key_le (a b : list Z) : bool :=
  match a, b with
  | x :: a', y :: b' => (x <? y) || (x =? y) && key_le a' b'
  | _, _ => true
  end.

Definition idm_key (e : IdmEntry) : list Z := [as_u64 (idm_hash e); doc_index e].
Definition edm_key (e : EdmEntry) : list Z :=
  [as_u64 (edm_hash e); source_index e; row_id e; edm_field_id e].

Definition idm_of_rec (rec : bytes) : IdmEntry :=
  {| idm_hash := as_i64 (from_le_bytes (slice 0 8 rec));
     doc_index := from_le_bytes (slice 8 12 rec) |}.
Definition edm_of_rec (rec : bytes) : EdmEntry :=
  {| edm_hash := as_i64 (from_le_bytes (slice 0 8 rec));
     source_index := from_le_bytes (slice 8 10 rec);
     row_id := from_le_bytes (slice 10 14 rec);
     edm_field_id := from_le_bytes (slice 14 16 rec) |}.

Definition not_after (prev : option (list Z)) (key : list Z) : bool :=
  match prev with Some p => key_le key p | None => false end.

(** The two record loops; [prev] is the key of the record before. *)
Fixpoint load_idm (n_docs : Z) (prev : option (list Z)) (recs : list bytes)
    : result error (list IdmEntry) :=
  match recs with
  | [] => Ok []
  | rec :: recs' =>
      let e := idm_of_rec rec in
      _ ← ensure (negb (not_after prev (idm_key e))) (parse_err (lit "idm section not sorted"));
      _ ← ensure (negb (n_docs <=? doc_index e)) (parse_err (lit "idm docIndex out of range"));
      es ← load_idm n_docs (Some (idm_key e)) recs';
      Ok (e :: es)
  end.

Fixpoint load_edm (n_sources : Z) (prev : option (list Z)) (recs : list bytes)
    : result error (list EdmEntry) :=
  match recs with
  | [] => Ok []
  | rec :: recs' =>
      let e := edm_of_rec rec in
      _ ← ensure (negb (not_after prev (edm_key e))) (parse_err (lit "edm section not sorted"));
      _ ← ensure (negb (n_sources <=? source_index e))
            (parse_err (lit "edm sourceIndex out of range"));
      es ← load_edm n_sources (Some (edm_key e)) recs';
      Ok (e :: es)
  end.

(** Pass 2 of [load]: the content of verified sections. *)
Definition load_content (s : Sections) : result error Bundle :=
  header ← ok_or (header_from_json (s_header s)) (lit "bundle header is not valid JSON");
  _ ← ensure (negb (negb (k (params header) =? DEFAULT_K)%nat
                    || negb (w (params header) =? DEFAULT_W)%nat
                    || negb (hash_bits (params header) =? 64)))
        (parse_err (lit "bundle built with foreign matcher parameters"));
  idm ← load_idm (Z.of_nat (length (docs header))) None (chunks_exact 12 (s_idm s));
  edm ← load_edm (Z.of_nat (length (edm_sources header))) None (chunks_exact 16 (s_edm s));
  _ ← ensure (negb (negb (counts_idm (counts header) =? Z.of_nat (length idm))
                    || negb (counts_edm (counts header) =? Z.of_nat (length edm))
                    || negb (counts_docs (counts header) =? Z.of_nat (length (docs header)))))
        (parse_err (lit "header counts do not match sections"));
  Ok {| format_version := s_version s; header := header;
        bloom := {| m_bits := s_m_bits s; k_hashes := s_k_hashes s; bits := s_bloom s |};
        idm := idm; edm := edm |}.

(** [Bundle::load]: locate the sections, verify the signature over the raw
    signed prefix, and only then interpret the content. *)
Definition load (bs ca_cert_pem : bytes) : result error Bundle :=
  s ← load_sections bs;
  _ ← verify_signature (take (Z.to_nat (s_signed_end s)) bs) (s_signature s) ca_cert_pem;
  load_content s.
End Load.

(** ** Accessors and lookups *)

Definition version (b : Bundle) : Z := bundle_version (header b).
Definition bloom_params (b : Bundle) : Z * Z := (m_bits (bloom b), k_hashes (bloom b)).
Definition bloom_has (b : Bundle) (hash : Z) : option bool := has (bloom b) hash.

Definition lookup_idm (b : Bundle) (hash : Z) : list IdmEntry :=
  let key := as_u64 hash in
  let start := partition_point (fun e => as_u64 (idm_hash e) <? key) (idm b) in
  take_while (fun e => idm_hash e =? hash) (drop start (idm b)).

Definition lookup_edm (b : Bundle) (hash : Z) : list EdmEntry :=
  let key := as_u64 hash in
  let start := partition_point (fun e => as_u64 (edm_hash e) <? key) (edm b) in
  take_while (fun e => edm_hash e =? hash) (drop start (edm b)).

(** ** Specification: well-formed bundles and their encoding *)

Definition strictly_sorted {A} (key : A -> list Z) (l : list A) : Prop :=
  StronglySorted (fun a b => key_le (key b) (key a) = false) l.

Definition idm_entry_wf (h : Header) (e : IdmEntry) : Prop :=
  is_i64 (idm_hash e) /\ 0 <= doc_index e < 2 ^ 32 /\ doc_index e < Z.of_nat (length (docs h)).
Definition edm_entry_wf (h : Header) (e : EdmEntry) : Prop :=
  is_i64 (edm_hash e) /\ 0 <= source_index e < 2 ^ 16 /\ 0 <= row_id e < 2 ^ 32 /\
  0 <= edm_field_id e < 2 ^ 16 /\ source_index e < Z.of_nat (length (edm_sources h)).

Definition bloom_wf (b : Bloom) : Prop :=
  8 <= m_bits b < 2 ^ 32 /\ 1 <= k_hashes b <= 64 /\ Forall is_byte (bits b) /\
  Z.of_nat (length (bits b)) = m_bits b / 8 + (if m_bits b mod 8 =? 0 then 0 else 1).

Record bundle_wf (b : Bundle) : Prop := {
  wf_version : format_version b = FORMAT_VERSION;
  wf_params : params (header b) = {| k := DEFAULT_K; w := DEFAULT_W; hash_bits := 64 |};
  wf_bloom : bloom_wf (bloom b);
  wf_idm : Forall (idm_entry_wf (header b)) (idm b);
  wf_idm_sorted : strictly_sorted idm_key (idm b);
  wf_edm : Forall (edm_entry_wf (header b)) (edm b);
  wf_edm_sorted : strictly_sorted edm_key (edm b);
  wf_counts : counts (header b) =
    {| counts_idm := Z.of_nat (length (idm b)); counts_edm := Z.of_nat (length (edm b));
       counts_docs := Z.of_nat (length (docs (header b))) |};
}.

Definition encode_idm (e : IdmEntry) : bytes :=
  to_le_bytes 8 (as_u64 (idm_hash e)) ++ to_le_bytes 4 (doc_index e).
Definition encode_edm (e : EdmEntry) : bytes :=
  to_le_bytes 8 (as_u64 (edm_hash e)) ++ to_le_bytes 2 (source_index e)
    ++ to_le_bytes 4 (row_id e) ++ to_le_bytes 2 (edm_field_id e).
(** A section preceded by its count or length. *)
Definition counted (n : nat) (body : bytes) : bytes := to_le_bytes 4 (Z.of_nat n) ++ body.

(** The signed prefix of the DLPX1 file for header text [hb]. *)
Definition encode_signed (hb : bytes) (b : Bundle) : bytes :=
  MAGIC ++ to_le_bytes 2 FORMAT_VERSION ++ counted (length hb) hb
    ++ to_le_bytes 4 (m_bits (bloom b)) ++ to_le_bytes 4 (k_hashes (bloom b)) ++ bits (bloom b)
    ++ counted (length (idm b)) (concat (map encode_idm (idm b)))
    ++ counted (length (edm b)) (concat (map encode_edm (edm b))).
Definition encode (hb : bytes) (b : Bundle) (signature : bytes) : bytes :=
  encode_signed hb b ++ counted (length signature) signature.

(** ** The byte reader *)

(** Reading the block [x] that follows [pre]. *)
Lemma take_n_at B pre x post n what :
  B = pre ++ x ++ post -> n = Z.of_nat (length x) -> Z.of_nat (length B) < 2 ^ 64 ->
  take_n n what {| buf := B; off := Z.of_nat (length pre) |} =
    Ok (x, {| buf := B; off := Z.of_nat (length (pre ++ x)) |}).
Proof.
  intros HB -> Hlen. assert (length B = length pre + length x + length post)%nat as Hl
    by (rewrite HB, !length_app; lia).
  unfold take_n, checked_add. cbn [off buf].
  destruct (Z.ltb_spec (Z.of_nat (length pre) + Z.of_nat (length x)) (2 ^ 64)); [|lia].
  destruct (Z.leb_spec (Z.of_nat (length pre) + Z.of_nat (length x)) (Z.of_nat (length B))); [|lia].
  rewrite HB, !Nat2Z.id, drop_app_length, take_app_length. do 3 f_equal. rewrite length_app. lia.
Qed.

Lemma take_n_inv B pre rest n what x r :
  B = pre ++ rest ->
  take_n n what {| buf := B; off := Z.of_nat (length pre) |} = Ok (x, r) -> 0 <= n ->
  exists post, B = (pre ++ x) ++ post /\ n = Z.of_nat (length x) /\
    r = {| buf := B; off := Z.of_nat (length (pre ++ x)) |}.
Proof.
  intros ->. unfold take_n, checked_add. cbn [off buf].
  destruct (Z.of_nat (length pre) + n <? 2 ^ 64); [|done].
  destruct (Z.leb_spec (Z.of_nat (length pre) + n) (Z.of_nat (length (pre ++ rest)))) as [Hle|]; [|done].
  rewrite Nat2Z.id, drop_app_length. intros [= <- <-] Hn. rewrite length_app in Hle.
  exists (drop (Z.to_nat n) rest). rewrite <- app_assoc, take_drop. split; [done|].
  rewrite !length_app, !length_take. split; [lia|]. f_equal. lia.
Qed.

Lemma Forall_is_byte_app a b : Forall is_byte (a ++ b) <-> Forall is_byte a /\ Forall is_byte b.
Proof. apply Forall_app. Qed.

(** A fixed-width integer read is the encoding of its value. *)
Lemma le_bytes_read (n : nat) x :
  Forall is_byte x -> length x = n ->
  x = to_le_bytes n (from_le_bytes x) /\ 0 <= from_le_bytes x < 256 ^ Z.of_nat n.
Proof.
  intros Hb <-. split; [by rewrite to_from_le_bytes|]. by apply from_le_bytes_bound.
Qed.

Definition sections_signed (s : Sections) : bytes :=
  MAGIC ++ to_le_bytes 2 (s_version s) ++ counted (length (s_header s)) (s_header s)
    ++ to_le_bytes 4 (s_m_bits s) ++ to_le_bytes 4 (s_k_hashes s) ++ s_bloom s
    ++ counted (length (s_idm s) / 12) (s_idm s) ++ counted (length (s_edm s) / 16) (s_edm s).

Record sections_wf (s : Sections) : Prop := {
  swf_version : s_version s = FORMAT_VERSION;
  swf_header : Z.of_nat (length (s_header s)) < 2 ^ 32;
  swf_m_bits : 8 <= s_m_bits s < 2 ^ 32;
  swf_k_hashes : 1 <= s_k_hashes s <= 64;
  swf_bloom : Z.of_nat (length (s_bloom s)) =
    s_m_bits s / 8 + (if s_m_bits s mod 8 =? 0 then 0 else 1);
  swf_idm : exists n, length (s_idm s) = (n * 12)%nat /\ Z.of_nat n < 2 ^ 32;
  swf_edm : exists n, length (s_edm s) = (n * 16)%nat /\ Z.of_nat n < 2 ^ 32;
  swf_signature : Z.of_nat (length (s_signature s)) < 2 ^ 32;
  swf_signed_end : s_signed_end s = Z.of_nat (length (sections_signed s));
}.

Lemma read_u_inv (nb : nat) B pre rest what x r :
  Forall is_byte B -> B = pre ++ rest ->
  take_n (Z.of_nat nb) what {| buf := B; off := Z.of_nat (length pre) |} = Ok (x, r) ->
  exists post, B = (pre ++ to_le_bytes nb (from_le_bytes x)) ++ post /\
    0 <= from_le_bytes x < 256 ^ Z.of_nat nb /\
    r = {| buf := B; off := Z.of_nat (length (pre ++ to_le_bytes nb (from_le_bytes x))) |}.
Proof.
  intros Hb HB H.
  destruct (take_n_inv _ _ _ _ _ _ _ HB H (Nat2Z.is_nonneg nb)) as (post & HB' & Hn & ->).
  assert (Forall is_byte x) as Hx by (rewrite HB', !Forall_is_byte_app in Hb; tauto).
  destruct (le_bytes_read nb x Hx ltac:(lia)) as [Hx1 Hx2].
  exists post. rewrite <- Hx1. done.
Qed.

Lemma read_u16_inv B pre rest what v r :
  Forall is_byte B -> B = pre ++ rest ->
  read_u16 what {| buf := B; off := Z.of_nat (length pre) |} = Ok (v, r) ->
  exists post, B = (pre ++ to_le_bytes 2 v) ++ post /\ 0 <= v < 2 ^ 16 /\
    r = {| buf := B; off := Z.of_nat (length (pre ++ to_le_bytes 2 v)) |}.
Proof.
  intros Hb HB H. unfold read_u16 in H. apply bind_Ok in H as ([x r'] & H & [= <- <-]).
  by apply (read_u_inv 2 _ _ _ _ _ _ Hb HB) in H.
Qed.

Lemma read_u32_inv B pre rest what v r :
  Forall is_byte B -> B = pre ++ rest ->
  read_u32 what {| buf := B; off := Z.of_nat (length pre) |} = Ok (v, r) ->
  exists post, B = (pre ++ to_le_bytes 4 v) ++ post /\ 0 <= v < 2 ^ 32 /\
    r = {| buf := B; off := Z.of_nat (length (pre ++ to_le_bytes 4 v)) |}.
Proof.
  intros Hb HB H. unfold read_u32 in H. apply bind_Ok in H as ([x r'] & H & [= <- <-]).
  by apply (read_u_inv 4 _ _ _ _ _ _ Hb HB) in H.
Qed.

Lemma bloom_size_nonneg m P : 0 <= m < P -> 0 <= m / 8 + (if m mod 8 =? 0 then 0 else 1).
Proof. intros. pose proof (Z.div_pos m 8). destruct (m mod 8 =? 0); lia. Qed.

(** Undo the next step of a successful run of the reader. *)
Ltac inv_read H Hb HB :=
  let v := fresh "v" in let r := fresh "r" in let E := fresh "E" in
  let post := fresh "post" in let HB' := fresh "HB" in let Hv := fresh "Hv" in
  apply bind_Ok in H as ([v r] & E & H); cbv beta iota in H;
  first
    [ apply (read_u32_inv _ _ _ _ _ _ Hb HB) in E as (post & HB' & Hv & ->)
    | apply (read_u16_inv _ _ _ _ _ _ Hb HB) in E as (post & HB' & Hv & ->)
    | pose proof (take_n_inv _ _ _ _ _ _ _ HB E ltac:(first [lia | by eapply bloom_size_nonneg; eassumption])) as (post & HB' & Hv & ->); clear E ];
  clear HB; rename HB' into HB.
Ltac inv_check H :=
  let E := fresh "C" in apply bind_Ok in H as (? & E & H);
  first
    [ apply ensure_Ok in E
    | apply ok_or_Ok in E; unfold checked_mul in E;
      match type of E with (if ?c then _ else _) = _ => destruct c end;
      [injection E as <-|discriminate E] ].

Lemma load_sections_inv bs s :
  Forall is_byte bs -> load_sections bs = Ok s ->
  sections_wf s /\ bs = sections_signed s ++ counted (length (s_signature s)) (s_signature s).
Proof.
  intros Hb H. unfold load_sections, Reader_new in H.
  assert (bs = [] ++ bs) as HB by done.
  change {| buf := bs; off := 0 |} with {| buf := bs; off := Z.of_nat (length (@nil Z)) |} in H.
  inv_read H Hb HB. inv_check H. inv_read H Hb HB. inv_check H.
  inv_read H Hb HB. inv_read H Hb HB. inv_read H Hb HB. inv_read H Hb HB. inv_check H.
  inv_read H Hb HB. inv_read H Hb HB. inv_check H.
  inv_read H Hb HB. inv_read H Hb HB. inv_check H.
  inv_read H Hb HB. inv_read H Hb HB. inv_read H Hb HB. inv_check H.
  bool_hyps. subst v. cbn [off] in *. rewrite HB, (length_app _ post11), Nat2Z.inj_add in C2.
  assert (post11 = []) as -> by (destruct post11; [done|cbn in C2; lia]).
  injection H as <-. rewrite app_nil_r in HB. clear C2 Hv.
  assert (forall n (m : nat) (x : bytes), n * Z.of_nat m = Z.of_nat (length x) -> (0 < m)%nat -> 0 <= n ->
    exists c, n = Z.of_nat c /\ length x = (c * m)%nat /\ (length x / m)%nat = c) as Hcount.
  { intros n m y Hy Hm Hn. exists (Z.to_nat n).
    assert (length y = Z.to_nat n * m)%nat as Hl by nia.
    rewrite Z2Nat.id by lia. split; [done|]. split; [done|]. rewrite Hl. apply Nat.div_mul. lia. }
  destruct (Hcount v6 12%nat v7) as (n6 & -> & L6 & D6); [lia..|].
  destruct (Hcount v8 16%nat v9) as (n8 & -> & L8 & D8); [lia..|]. clear Hcount.
  split.
  - split; cbn [s_version s_header s_m_bits s_k_hashes s_bloom s_idm s_edm s_signed_end s_signature].
    + done.
    + lia.
    + lia.
    + lia.
    + done.
    + exists n6. split; [done|lia].
    + exists n8. split; [done|lia].
    + lia.
    + do 2 f_equal. unfold sections_signed, counted.
      cbn [s_version s_header s_m_bits s_k_hashes s_bloom s_idm s_edm].
      rewrite D6, D8, <- Hv2. by rewrite <- !app_assoc.
  - rewrite HB at 1. unfold sections_signed, counted.
    cbn [s_version s_header s_m_bits s_k_hashes s_bloom s_idm s_edm s_signature].
    rewrite D6, D8, <- Hv2, <- Hv11. by rewrite <- !app_assoc.
Qed.

Lemma take_n_prefix B pre x n what :
  (pre ++ x) `prefix_of` B -> n = Z.of_nat (length x) -> Z.of_nat (length B) < 2 ^ 64 ->
  take_n n what {| buf := B; off := Z.of_nat (length pre) |} =
    Ok (x, {| buf := B; off := Z.of_nat (length (pre ++ x)) |}).
Proof. intros [post HB]. apply (take_n_at B pre x post). by rewrite HB, <- app_assoc. Qed.

Lemma read_u16_prefix B pre v what :
  (pre ++ to_le_bytes 2 v) `prefix_of` B -> 0 <= v < 2 ^ 16 -> Z.of_nat (length B) < 2 ^ 64 ->
  read_u16 what {| buf := B; off := Z.of_nat (length pre) |} =
    Ok (v, {| buf := B; off := Z.of_nat (length (pre ++ to_le_bytes 2 v)) |}).
Proof.
  intros HB Hv Hl. unfold read_u16. rewrite (take_n_prefix _ _ _ _ _ HB) by done.
  cbn [mbind result_bind]. by rewrite from_to_le_bytes.
Qed.

Lemma read_u32_prefix B pre v what :
  (pre ++ to_le_bytes 4 v) `prefix_of` B -> 0 <= v < 2 ^ 32 -> Z.of_nat (length B) < 2 ^ 64 ->
  read_u32 what {| buf := B; off := Z.of_nat (length pre) |} =
    Ok (v, {| buf := B; off := Z.of_nat (length (pre ++ to_le_bytes 4 v)) |}).
Proof.
  intros HB Hv Hl. unfold read_u32. rewrite (take_n_prefix _ _ _ _ _ HB) by done.
  cbn [mbind result_bind]. by rewrite from_to_le_bytes.
Qed.

Ltac solve_prefix HB :=
  rewrite HB; rewrite <- ?app_assoc; cbn [app]; repeat apply prefix_app;
  first [reflexivity | apply prefix_app_r; reflexivity].

Ltac step_check :=
  match goal with
  | |- (ensure ?c _ ≫= _) = _ => replace c with true; [cbn [ensure mbind result_bind]|]
  | |- (ok_or (checked_mul ?a ?b) _ ≫= _) = _ =>
      replace (checked_mul a b) with (Some (a * b)); [cbn [ok_or mbind result_bind]|]
  end.

Lemma checked_mul_Some a b : a * b < 2 ^ 64 -> Some (a * b) = checked_mul a b.
Proof. intros. unfold checked_mul. destruct (Z.ltb_spec (a * b) (2 ^ 64)); [done|lia]. Qed.

Lemma load_sections_encoded s :
  let bs := sections_signed s ++ counted (length (s_signature s)) (s_signature s) in
  sections_wf s -> Z.of_nat (length bs) < 2 ^ 64 -> load_sections bs = Ok s.
Proof.
  intros bs [W1 W2 W3 W4 W5 (n6 & L6 & B6) (n8 & L8 & B8) W8 W9] Hlen.
  assert (length (s_idm s) / 12 = n6)%nat as D6 by (rewrite L6; apply Nat.div_mul; lia).
  assert (length (s_edm s) / 16 = n8)%nat as D8 by (rewrite L8; apply Nat.div_mul; lia).
  assert (bs = MAGIC ++ to_le_bytes 2 (s_version s) ++ to_le_bytes 4 (Z.of_nat (length (s_header s)))
    ++ s_header s ++ to_le_bytes 4 (s_m_bits s) ++ to_le_bytes 4 (s_k_hashes s) ++ s_bloom s
    ++ to_le_bytes 4 (Z.of_nat n6) ++ s_idm s ++ to_le_bytes 4 (Z.of_nat n8) ++ s_edm s
    ++ to_le_bytes 4 (Z.of_nat (length (s_signature s))) ++ s_signature s) as HB.
  { unfold bs, sections_signed, counted. rewrite D6, D8. by rewrite <- !app_assoc. }
  clearbody bs. unfold load_sections, Reader_new.
  change {| buf := bs; off := 0 |} with {| buf := bs; off := Z.of_nat (length (@nil Z)) |}.
  rewrite (take_n_prefix bs _ MAGIC) by (solve_prefix HB || done). cbn [mbind result_bind].
  step_check; [|by rewrite bool_decide_eq_true_2].
  rewrite (read_u16_prefix bs _ (s_version s)) by (solve_prefix HB || (rewrite W1; done) || done).
  cbn [mbind result_bind]. step_check; [|by rewrite W1].
  rewrite (read_u32_prefix bs _ (Z.of_nat (length (s_header s)))) by (solve_prefix HB || lia).
  cbn [mbind result_bind].
  rewrite (take_n_prefix bs _ (s_header s)) by (solve_prefix HB || done). cbn [mbind result_bind].
  rewrite (read_u32_prefix bs _ (s_m_bits s)) by (solve_prefix HB || lia). cbn [mbind result_bind].
  rewrite (read_u32_prefix bs _ (s_k_hashes s)) by (solve_prefix HB || lia). cbn [mbind result_bind].
  step_check.
  2:{ symmetry. apply negb_true_iff. rewrite !orb_false_iff, !Z.ltb_ge. lia. }
  rewrite (take_n_prefix bs _ (s_bloom s)) by (solve_prefix HB || done). cbn [mbind result_bind].
  rewrite (read_u32_prefix bs _ (Z.of_nat n6)) by (solve_prefix HB || lia). cbn [mbind result_bind].
  step_check; [|apply checked_mul_Some; lia].
  rewrite (take_n_prefix bs _ (s_idm s)) by (solve_prefix HB || lia). cbn [mbind result_bind].
  rewrite (read_u32_prefix bs _ (Z.of_nat n8)) by (solve_prefix HB || lia). cbn [mbind result_bind].
  step_check; [|apply checked_mul_Some; lia].
  rewrite (take_n_prefix bs _ (s_edm s)) by (solve_prefix HB || lia). cbn [mbind result_bind].
  rewrite (read_u32_prefix bs _ (Z.of_nat (length (s_signature s)))) by (solve_prefix HB || lia).
  cbn [mbind result_bind].
  rewrite (take_n_prefix bs _ (s_signature s)) by (solve_prefix HB || done). cbn [mbind result_bind].
  step_check.
  2:{ symmetry. apply Z.eqb_eq. cbn [off]. rewrite HB. by rewrite <- !app_assoc. }
  cbn [off]. f_equal. destruct s; cbn [s_version s_header s_m_bits s_k_hashes s_bloom s_idm s_edm
    s_signed_end s_signature] in *. f_equal. rewrite W9. f_equal.
  unfold sections_signed, counted.
  cbn [s_version s_header s_m_bits s_k_hashes s_bloom s_idm s_edm]. rewrite D6, D8.
  by rewrite <- !app_assoc.
Qed.

(** ** Records *)

Lemma key_lt_trans a b c :
  length a = length b -> length b = length c ->
  key_le b a = false -> key_le c b = false -> key_le c a = false.
Proof.
  revert b c. induction a as [|x a IH]; intros [|y b] [|z c]; cbn; try done.
  intros [= H1] [= H2]. rewrite !orb_false_iff, !andb_false_iff, !Z.ltb_ge, !Z.eqb_neq.
  intros [Hyx Hy] [Hzy Hz]. split; [lia|].
  destruct (decide (z = x)) as [->|]; [|by left].
  assert (x = y) as -> by lia. right. destruct Hy as [?|Hy], Hz as [?|Hz]; try lia.
  by eapply IH.
Qed.

Fixpoint sorted_from {A} (key : A -> list Z) (prev : option (list Z)) (es : list A) : Prop :=
  match es with
  | [] => True
  | e :: es' => not_after prev (key e) = false /\ sorted_from key (Some (key e)) es'
  end.

Lemma sorted_from_strict {A} (key : A -> list Z) n es :
  (forall e, length (key e) = n) ->
  sorted_from key None es <-> strictly_sorted key es.
Proof.
  intros Hn. unfold strictly_sorted.
  assert (forall p es, sorted_from key (Some (key p)) es <->
    StronglySorted (fun a b => key_le (key b) (key a) = false) (p :: es)) as Hs.
  { intros p es'. revert p. induction es' as [|e es' IH]; intros p; cbn.
    - split; [repeat constructor|done].
    - rewrite IH. split.
      + intros [Hpe Hse]. inversion_clear Hse as [|? ? Hs Hall].
        constructor; [by constructor|]. constructor; [done|].
        eapply Forall_impl; [exact Hall|]. cbn. intros x Hx.
        eapply (key_lt_trans _ (key e)); rewrite ?Hn; done.
      + inversion_clear 1 as [|? ? Hs Hall]. by inversion_clear Hall. }
  destruct es as [|e es]; cbn; [split; [constructor|done]|]. rewrite Hs. tauto.
Qed.

Ltac solve_load_records recs IH :=
  induction recs as [|rec recs IH]; intros prev es; cbn [map];
  [split; [intros H; injection H as <-; split; [done|split; [apply Forall_nil_2|exact I]]
          |by intros [-> _]]|];
  cbn [load_idm load_edm map sorted_from]; cbv zeta; rewrite bind_Ok; split;
  [ intros ([] & H1%ensure_Ok & H); apply bind_Ok in H as ([] & H2%ensure_Ok & H);
    apply bind_Ok in H as (es' & H3%IH & [= <-]); destruct H3 as (-> & H4 & H5); bool_hyps;
    split; [done|]; split; [constructor; [lia|done]|]; done
  | intros (-> & H1 & H2 & H3); inversion_clear H1; exists tt; rewrite H2; split; [done|];
    rewrite bind_Ok; exists tt; split;
    [apply ensure_Ok, negb_true_iff, Z.leb_gt; lia|];
    rewrite bind_Ok; eexists; split; [by apply IH|done] ].

Lemma load_idm_iff n prev recs es :
  load_idm n prev recs = Ok es <->
  es = map idm_of_rec recs /\ Forall (fun e => doc_index e < n) es /\ sorted_from idm_key prev es.
Proof. revert prev es. solve_load_records recs IH. Qed.

Lemma load_edm_iff n prev recs es :
  load_edm n prev recs = Ok es <->
  es = map edm_of_rec recs /\ Forall (fun e => source_index e < n) es /\ sorted_from edm_key prev es.
Proof. revert prev es. solve_load_records recs IH. Qed.

Lemma concat_chunks_exact n m (l : bytes) :
  (0 < n)%nat -> length l = (m * n)%nat -> concat (chunks_exact n l) = l.
Proof.
  intros Hn Hl. unfold chunks_exact. rewrite Hl, Nat.div_mul by lia.
  enough (forall c i, (i + c = m)%nat ->
    concat (map (fun i => take n (drop (i * n) l)) (seq i c)) = drop (i * n) l) as H
    by (apply (H m 0%nat); lia).
  induction c as [|c IH]; intros i Hi; cbn.
  - symmetry. apply drop_ge. nia.
  - rewrite IH by lia. replace (S i * n)%nat with (i * n + n)%nat by lia.
    rewrite <- drop_drop. apply take_drop.
Qed.

Lemma chunks_exact_concat n (ls : list bytes) :
  (0 < n)%nat -> Forall (fun x => length x = n) ls -> chunks_exact n (concat ls) = ls.
Proof.
  intros Hn Hall.
  assert (forall ls : list bytes, Forall (fun x => length x = n) ls ->
    length (concat ls) = (length ls * n)%nat) as Hlen.
  { induction 1 as [|x l Hx Hl IH]; cbn; [done|]. rewrite length_app. lia. }
  unfold chunks_exact. rewrite (Hlen _ Hall), Nat.div_mul by lia.
  apply list_eq. intros i. rewrite list_lookup_fmap.
  destruct (decide (i < length ls)%nat) as [Hi|Hi].
  - rewrite lookup_seq_lt by done. cbn. revert i Hi.
    induction Hall as [|x l Hx Hl IH]; intros i Hi; cbn in Hi; [lia|].
    destruct i as [|i]; cbn; [by rewrite drop_0, take_app_length'|].
    rewrite <- IH by lia. f_equal. replace (n + i * n)%nat with (length x + i * n)%nat by lia.
    by rewrite drop_app_add'.
  - rewrite lookup_seq_ge by lia. symmetry. apply lookup_ge_None. lia.
Qed.

Lemma chunks_exact_all n m (l : bytes) :
  (0 < n)%nat -> length l = (m * n)%nat ->
  length (chunks_exact n l) = m /\
  (Forall is_byte l -> Forall (fun c => length c = n /\ Forall is_byte c) (chunks_exact n l)).
Proof.
  intros Hn Hl. unfold chunks_exact. rewrite length_map, length_seq, Hl, Nat.div_mul by lia.
  split; [done|]. intros Hb. apply Forall_map, Forall_forall. intros i Hi%elem_of_seq.
  split; [rewrite length_take, length_drop; nia|]. by apply Forall_take, Forall_drop.
Qed.

Lemma slice_split a b c l : (a <= b <= c)%nat -> slice a b l ++ slice b c l = slice a c l.
Proof.
  intros H. unfold slice. replace (drop b l) with (drop (b - a) (drop a l)).
  - rewrite take_take_drop. f_equal. lia.
  - rewrite drop_drop. f_equal. lia.
Qed.

Lemma slice_all n l : length l = n -> slice 0 n l = l.
Proof. intros <-. unfold slice. rewrite Nat.sub_0_r. rewrite drop_0. apply take_ge. lia. Qed.

Lemma slice_enc a b l :
  Forall is_byte l -> (a <= b <= length l)%nat ->
  to_le_bytes (b - a) (from_le_bytes (slice a b l)) = slice a b l /\
  0 <= from_le_bytes (slice a b l) < 256 ^ Z.of_nat (b - a).
Proof.
  intros Hb Hab.
  assert (length (slice a b l) = b - a)%nat as Hl
    by (unfold slice; rewrite length_take, length_drop; lia).
  assert (Forall is_byte (slice a b l)) as Hs by by apply Forall_take, Forall_drop.
  pose proof (le_bytes_read _ _ Hs Hl) as [H1 H2]. auto.
Qed.

Lemma as_u64_slice x : 0 <= x < 2 ^ 64 -> as_u64 (as_i64 x) = x.
Proof. intros. rewrite as_u64_as_i64. by apply as_u64_id. Qed.

Lemma encode_idm_of_rec rec :
  Forall is_byte rec -> length rec = 12%nat ->
  encode_idm (idm_of_rec rec) = rec /\
  is_i64 (idm_hash (idm_of_rec rec)) /\ 0 <= doc_index (idm_of_rec rec) < 2 ^ 32.
Proof.
  intros Hb Hl. unfold encode_idm, idm_of_rec. cbn [idm_hash doc_index].
  destruct (slice_enc 0 8 rec) as [E1 B1]; [done|lia|].
  destruct (slice_enc 8 12 rec) as [E2 B2]; [done|lia|]. cbn [Nat.sub] in *.
  rewrite as_u64_slice, E1, E2, slice_split, slice_all by (done || lia).
  split; [done|]. split; [apply as_i64_bound|done].
Qed.

Lemma encode_edm_of_rec rec :
  Forall is_byte rec -> length rec = 16%nat ->
  let e := edm_of_rec rec in
  encode_edm e = rec /\ is_i64 (edm_hash e) /\ 0 <= source_index e < 2 ^ 16 /\
  0 <= row_id e < 2 ^ 32 /\ 0 <= edm_field_id e < 2 ^ 16.
Proof.
  intros Hb Hl. unfold encode_edm, edm_of_rec. cbn [edm_hash source_index row_id edm_field_id].
  destruct (slice_enc 0 8 rec) as [E1 B1]; [done|lia|].
  destruct (slice_enc 8 10 rec) as [E2 B2]; [done|lia|].
  destruct (slice_enc 10 14 rec) as [E3 B3]; [done|lia|].
  destruct (slice_enc 14 16 rec) as [E4 B4]; [done|lia|]. cbn [Nat.sub] in *.
  rewrite as_u64_slice, E1, E2, E3, E4, !slice_split, slice_all by (done || lia).
  split; [done|]. split; [apply as_i64_bound|done].
Qed.

Lemma slice_app_l a b x y : (b <= length x)%nat -> slice a b (x ++ y) = slice a b x.
Proof.
  intros H. unfold slice. destruct (decide (a <= length x)%nat).
  - rewrite drop_app_le, take_app_le by (rewrite ?length_drop; lia). done.
  - by replace (b - a)%nat with 0%nat by lia.
Qed.
Lemma slice_app_r a b x y :
  (length x <= a)%nat -> slice a b (x ++ y) = slice (a - length x) (b - length x) y.
Proof. intros H. unfold slice. rewrite drop_app_ge by lia. f_equal. lia. Qed.

Lemma length_encode_idm e : length (encode_idm e) = 12%nat.
Proof. unfold encode_idm. by rewrite length_app, !length_to_le_bytes. Qed.
Lemma length_encode_edm e : length (encode_edm e) = 16%nat.
Proof. unfold encode_edm. by rewrite !length_app, !length_to_le_bytes. Qed.

Lemma slice_to_le n x : slice 0 n (to_le_bytes n x) = to_le_bytes n x.
Proof. apply slice_all, length_to_le_bytes. Qed.

(** Read a field back from an encoded record. *)
Ltac field_of :=
  rewrite ?slice_app_r by (rewrite ?length_to_le_bytes; lia);
  rewrite ?length_to_le_bytes; cbn [Nat.sub];
  rewrite ?slice_app_l by (rewrite ?length_to_le_bytes; lia);
  rewrite slice_to_le, from_to_le_bytes by done.

Lemma idm_of_rec_encode h e : idm_entry_wf h e -> idm_of_rec (encode_idm e) = e.
Proof.
  destruct e as [hash d]. intros (H1 & H2 & _); cbn [idm_hash doc_index] in *.
  unfold idm_of_rec, encode_idm; cbn [idm_hash doc_index].
  pose proof (as_u64_bound hash) as Hu. unfold is_u64 in Hu.
  f_equal; field_of; [by apply as_i64_as_u64|done].
Qed.

Lemma edm_of_rec_encode h e : edm_entry_wf h e -> edm_of_rec (encode_edm e) = e.
Proof.
  destruct e as [hash si ri fi].
  intros (H1 & H2 & H3 & H4 & _); cbn [edm_hash source_index row_id edm_field_id] in *.
  unfold edm_of_rec, encode_edm; cbn [edm_hash source_index row_id edm_field_id].
  pose proof (as_u64_bound hash) as Hu. unfold is_u64 in Hu.
  f_equal; field_of; [by apply as_i64_as_u64|done..].
Qed.

(** ** The loader *)

Definition sections_of (hb : bytes) (b : Bundle) (signature : bytes) : Sections :=
  {| s_version := format_version b; s_header := hb; s_m_bits := m_bits (bloom b);
     s_k_hashes := k_hashes (bloom b); s_bloom := bits (bloom b);
     s_idm := concat (map encode_idm (idm b)); s_edm := concat (map encode_edm (edm b));
     s_signed_end := Z.of_nat (length (encode_signed hb b)); s_signature := signature |}.

Lemma length_concat_map {A} (f : A -> bytes) n l :
  (forall x, length (f x) = n) -> length (concat (map f l)) = (length l * n)%nat.
Proof. intros H. induction l as [|x l IH]; cbn; [done|]. rewrite length_app, H. lia. Qed.

Lemma sections_signed_of hb b signature :
  format_version b = FORMAT_VERSION -> sections_signed (sections_of hb b signature) = encode_signed hb b.
Proof.
  intros Hv. unfold sections_signed, encode_signed, counted.
  cbn [sections_of s_version s_header s_m_bits s_k_hashes s_bloom s_idm s_edm]. rewrite Hv.
  rewrite (length_concat_map encode_idm 12), (length_concat_map encode_edm 16)
    by (apply length_encode_idm || apply length_encode_edm).
  by rewrite !Nat.div_mul by lia.
Qed.

Lemma header_params_ok (p : Params) :
  negb (negb (k p =? DEFAULT_K)%nat || negb (w p =? DEFAULT_W)%nat || negb (hash_bits p =? 64))
    = true <-> p = {| k := DEFAULT_K; w := DEFAULT_W; hash_bits := 64 |}.
Proof.
  destruct p as [pk pw ph]; cbn [k w hash_bits].
  rewrite negb_true_iff, !orb_false_iff, !negb_false_iff, !Nat.eqb_eq, Z.eqb_eq.
  split; [intros [[-> ->] ->]; done|intros [= -> -> ->]; done].
Qed.

Lemma header_counts_ok (c : Counts) a b d :
  negb (negb (counts_idm c =? a) || negb (counts_edm c =? b) || negb (counts_docs c =? d))
    = true <-> c = {| counts_idm := a; counts_edm := b; counts_docs := d |}.
Proof.
  destruct c as [ci ce cd]; cbn [counts_idm counts_edm counts_docs].
  rewrite negb_true_iff, !orb_false_iff, !negb_false_iff, !Z.eqb_eq.
  split; [intros [[-> ->] ->]; done|intros [= -> -> ->]; done].
Qed.

Lemma load_content_inv {E : BundleEnv} s b :
  sections_wf s -> Forall is_byte (s_idm s) -> Forall is_byte (s_edm s) ->
  Forall is_byte (s_bloom s) -> load_content s = Ok b ->
  header_from_json (s_header s) = Some (header b) /\ bundle_wf b /\
  Z.of_nat (length (idm b)) < 2 ^ 32 /\ Z.of_nat (length (edm b)) < 2 ^ 32 /\
  s = sections_of (s_header s) b (s_signature s).
Proof.
  intros [W1 W2 W3 W4 W5 (n6 & L6 & B6) (n8 & L8 & B8) W8 W9] Hbi Hbe Hbb H.
  unfold load_content in H.
  apply bind_Ok in H as (h & Hh%ok_or_Ok & H). apply bind_Ok in H as ([] & Hp%ensure_Ok & H).
  apply bind_Ok in H as (idms & Hi%load_idm_iff & H). apply bind_Ok in H as (edms & He%load_edm_iff & H).
  apply bind_Ok in H as ([] & Hc%ensure_Ok & H). injection H as <-.
  apply header_params_ok in Hp. apply header_counts_ok in Hc.
  destruct Hi as (-> & Hir & His%(sorted_from_strict _ 2)); [|done].
  destruct He as (-> & Her & Hes%(sorted_from_strict _ 4)); [|done].
  destruct (chunks_exact_all 12 n6 (s_idm s)) as [Ln6 Fi]; [lia|done|]. specialize (Fi Hbi).
  destruct (chunks_exact_all 16 n8 (s_edm s)) as [Ln8 Fe]; [lia|done|]. specialize (Fe Hbe).
  rewrite !length_map, Ln6, Ln8 in Hc.
  assert (concat (map encode_idm (map idm_of_rec (chunks_exact 12 (s_idm s)))) = s_idm s) as Ei.
  { rewrite map_map. transitivity (concat (chunks_exact 12 (s_idm s))); [|apply (concat_chunks_exact 12 n6); [lia|done]].
    f_equal. clear -Fi. induction Fi as [|c cs [H1 H2] _ IH]; cbn [map]; [done|]. f_equal; [|exact IH].
    by apply encode_idm_of_rec. }
  assert (concat (map encode_edm (map edm_of_rec (chunks_exact 16 (s_edm s)))) = s_edm s) as Ee.
  { rewrite map_map. transitivity (concat (chunks_exact 16 (s_edm s))); [|apply (concat_chunks_exact 16 n8); [lia|done]].
    f_equal. clear -Fe. induction Fe as [|c cs [H1 H2] _ IH]; cbn [map]; [done|]. f_equal; [|exact IH].
    by apply encode_edm_of_rec. }
  cbn [header idm edm]. rewrite !length_map, Ln6, Ln8. split; [done|]. split; [|split; [done|split; [done|]]].
  - split; cbn [header idm edm bloom format_version]; try done.
    + rewrite Forall_map in *. rewrite Forall_forall in *. intros c Hin.
      destruct (Fi c Hin) as [H1 H2]. destruct (encode_idm_of_rec c H2 H1) as (_ & ? & ?).
      split; [done|]. split; [done|]. by apply Hir.
    + rewrite Forall_map in *. rewrite Forall_forall in *. intros c Hin.
      destruct (Fe c Hin) as [H1 H2]. destruct (encode_edm_of_rec c H2 H1) as (_ & ? & ? & ? & ?).
      split; [done|]. split; [done|]. split; [done|]. split; [done|]. by apply Her.
    + by rewrite !length_map, Ln6, Ln8.
  - set (b' := {| format_version := _ |}).
    assert (s_signed_end s = Z.of_nat (length (encode_signed (s_header s) b'))) as Hend.
    { rewrite W9. do 2 f_equal. unfold sections_signed, encode_signed, counted, b'.
      cbn [header idm edm bloom m_bits k_hashes bits]. rewrite Ei, Ee, !length_map, Ln6, Ln8, W1, L6, L8.
      by rewrite !Nat.div_mul by lia. }
    unfold sections_of. rewrite <- Hend. unfold b'; cbn [header idm edm bloom format_version m_bits k_hashes bits].
    rewrite Ei, Ee. by destruct s.
Qed.

Lemma load_content_encoded {E : BundleEnv} hb b signature :
  bundle_wf b -> header_from_json hb = Some (header b) ->
  load_content (sections_of hb b signature) = Ok b.
Proof.
  intros [W1 W2 W3 W4 W5 W6 W7 W8] Hh. unfold load_content.
  cbn [sections_of s_version s_header s_m_bits s_k_hashes s_bloom s_idm s_edm].
  rewrite Hh. cbn [ok_or mbind result_bind].
  rewrite (proj2 (header_params_ok _) W2). cbn [ensure mbind result_bind].
  rewrite !chunks_exact_concat;
    try lia; try (apply Forall_map, Forall_forall; intros; apply length_encode_idm || apply length_encode_edm).
  assert (load_idm (Z.of_nat (length (docs (header b)))) None (map encode_idm (idm b)) = Ok (idm b)) as ->.
  { apply load_idm_iff. split; [|split].
    - rewrite map_map. rewrite <- (map_id (idm b)) at 1. apply map_ext_in. intros e He.
      symmetry. eapply idm_of_rec_encode. rewrite Forall_forall in W4. apply W4.
      by apply list_elem_of_In.
    - eapply Forall_impl; [exact W4|]. intros e (_ & _ & ?). done.
    - by apply (sorted_from_strict idm_key 2). }
  cbn [mbind result_bind].
  assert (load_edm (Z.of_nat (length (edm_sources (header b)))) None (map encode_edm (edm b)) = Ok (edm b)) as ->.
  { apply load_edm_iff. split; [|split].
    - rewrite map_map. rewrite <- (map_id (edm b)) at 1. apply map_ext_in. intros e He.
      symmetry. eapply edm_of_rec_encode. rewrite Forall_forall in W6. apply W6.
      by apply list_elem_of_In.
    - eapply Forall_impl; [exact W6|]. intros e (_ & _ & _ & _ & ?). done.
    - by apply (sorted_from_strict edm_key 4). }
  cbn [mbind result_bind]. rewrite (proj2 (header_counts_ok _ _ _ _) W8).
  by destruct b as [? ? [] ? ?].
Qed.

(** C3: [load] accepts exactly the signed encodings of well-formed bundles: a file
    loads as [b] if and only if it is the DLPX1 encoding of [b] under some
    header text that parses to [b]'s header, followed by a signature that
    verifies over the whole encoding with the CA key, and [b] satisfies every
    structural invariant (sorted sections, indexes in range, counts, matcher
    parameters, Bloom geometry).  In particular loading inverts encoding, and
    nothing is returned for a file whose signature does not verify. *)
Theorem load_accepts_signed_encodings {E : BundleEnv} bs ca_cert_pem b :
  Forall is_byte bs -> Z.of_nat (length bs) < 2 ^ 64 ->
  load bs ca_cert_pem = Ok b <->
  exists hb signature,
    bs = encode hb b signature /\
    header_from_json hb = Some (header b) /\
    verify_signature (encode_signed hb b) signature ca_cert_pem = Ok tt /\
    bundle_wf b /\
    Z.of_nat (length hb) < 2 ^ 32 /\ Z.of_nat (length signature) < 2 ^ 32 /\
    Z.of_nat (length (idm b)) < 2 ^ 32 /\ Z.of_nat (length (edm b)) < 2 ^ 32.
Proof.
  intros Hb Hlen. split.
  - intros H. unfold load in H. apply bind_Ok in H as (s & Hs & H).
    apply bind_Ok in H as ([] & Hv & H).
    apply load_sections_inv in Hs as [Hwf Hbs]; [|done].
    assert (Forall is_byte (s_bloom s) /\ Forall is_byte (s_idm s) /\ Forall is_byte (s_edm s)) as (? & ? & ?).
    { rewrite Hbs in Hb. unfold sections_signed, counted in Hb.
      rewrite !Forall_is_byte_app in Hb. tauto. }
    destruct (load_content_inv s b) as (Hh & Hbw & Hi & He & Hsec); [done..|].
    assert (sections_signed s = encode_signed (s_header s) b) as Hss.
    { rewrite Hsec at 1. apply sections_signed_of, Hbw. }
    exists (s_header s), (s_signature s). split; [by rewrite Hbs, Hss|]. split; [done|].
    split.
    { rewrite Hbs, (swf_signed_end _ Hwf), Nat2Z.id, take_app_length, Hss in Hv. done. }
    split; [done|]. split; [apply Hwf|]. split; [apply Hwf|done].
  - intros (hb & sg & -> & Hh & Hv & Hwf & Lh & Ls & Li & Le).
    set (s := sections_of hb b sg).
    assert (sections_signed s = encode_signed hb b) as Hss by apply sections_signed_of, Hwf.
    assert (load_sections (encode hb b sg) = Ok s) as Hsec.
    { unfold encode. rewrite <- Hss. change sg with (s_signature s). apply load_sections_encoded.
      - destruct (wf_bloom _ Hwf) as (Bm & Bk & _ & Bl).
        split; cbn [s sections_of s_version s_header s_m_bits s_k_hashes s_bloom s_idm s_edm
                    s_signed_end s_signature]; try done.
        + apply Hwf.
        + exists (length (idm b)). split; [|done]. apply length_concat_map, length_encode_idm.
        + exists (length (edm b)). split; [|done]. apply length_concat_map, length_encode_edm.
        + change (Z.of_nat (length (encode_signed hb b)) = Z.of_nat (length (sections_signed s))).
          by rewrite Hss.
      - cbn [s sections_of s_signature]. rewrite Hss. exact Hlen. }
    unfold load. rewrite Hsec. cbn [mbind result_bind].
    assert (take (Z.to_nat (s_signed_end s)) (encode hb b sg) = encode_signed hb b) as ->.
    { cbn [s sections_of s_signed_end]. unfold encode. by rewrite Nat2Z.id, take_app_length. }
    cbn [s sections_of s_signature]. rewrite Hv. cbn [mbind result_bind].
    by apply load_content_encoded.
Qed.

(** A concrete environment for the witnesses: one certificate, a signature
    that is the first byte of the message, and one header text. *)
Definition sample_env (h : Header) : BundleEnv := {|
  Certificate := unit; RsaPublicKey := unit; Signature := bytes;
  certificate_from_pem := fun pem => if bool_decide (pem = lit "CA") then Some tt else None;
  spki_to_der := fun _ => Some (lit "SPKI");
  rsa_from_public_key_der := fun _ => Some tt;
  signature_try_from := fun s => Some s;
  verify := fun _ msg s => bool_decide (s = take 1 msg);
  header_from_json := fun hb => if bool_decide (hb = lit "{}") then Some h else None;
|}.
Definition sample_header : Header := {|
  bundle_version := 7;
  params := {| k := 8; w := 8; hash_bits := 64 |};
  edm_salts := ∅; scope := [];
  counts := {| counts_idm := 2; counts_edm := 0; counts_docs := 1 |};
  docs := [{| version_id := lit "v1"; document_id := lit "d1"; collection_id := lit "c1";
              title := lit "Plan"; fp_count := 4 |}];
  edm_sources := [] |}.
Definition sample_bundle : Bundle := {|
  format_version := 1; header := sample_header;
  bloom := {| m_bits := 9; k_hashes := 2; bits := [255; 1] |};
  idm := [{| idm_hash := 5; doc_index := 0 |}; {| idm_hash := -2; doc_index := 0 |}];
  edm := [] |}.

Lemma sample_bundle_wf : bundle_wf sample_bundle.
Proof. split; try done; repeat constructor; done. Qed.

Lemma load_accepts_signed_encodings_witness :
  let file := encode (lit "{}") sample_bundle [68] in
  @load (sample_env sample_header) file (lit "CA") = Ok sample_bundle /\
  @load (sample_env sample_header) (removelast file ++ [69]) (lit "CA") =
    Err (lit "bundle signature verification failed").
Proof.
  intros file. split; [|vm_compute; reflexivity].
  apply (proj2 (@load_accepts_signed_encodings (sample_env sample_header) file (lit "CA")
    sample_bundle ltac:(repeat constructor; done) ltac:(vm_compute; reflexivity))).
  exists (lit "{}"), [68]. split; [reflexivity|]. split; [reflexivity|].
  split; [vm_compute; reflexivity|]. split; [exact sample_bundle_wf|].
  repeat split; vm_compute; reflexivity.
Defined.

(** ** Lookups *)

Section SortedLookup.
Context {A : Type} (f : A -> Z).

Lemma skip_while_sorted key l :
  StronglySorted (fun a b => f a <= f b) l ->
  forall x, x ∈ skip_while (fun e => f e <? key) l -> key <= f x.
Proof.
  induction 1 as [|a l Hs IH Ha]; cbn; intros x Hx; [by apply elem_of_nil in Hx|].
  destruct (Z.ltb_spec (f a) key); [by apply IH|].
  apply elem_of_cons in Hx as [->|Hx]; [lia|].
  rewrite Forall_forall in Ha. specialize (Ha x Hx). lia.
Qed.

Lemma skip_while_suffix_sorted key l :
  StronglySorted (fun a b => f a <= f b) l ->
  StronglySorted (fun a b => f a <= f b) (skip_while (fun e => f e <? key) l).
Proof.
  induction 1 as [|a l Hs IH Ha]; cbn; [constructor|].
  destruct (f a <? key); [done|by constructor].
Qed.

Lemma take_while_sorted key l :
  StronglySorted (fun a b => f a <= f b) l -> (forall x, x ∈ l -> key <= f x) ->
  take_while (fun e => f e =? key) l = filter (fun e => f e = key) l.
Proof.
  induction 1 as [|a l Hs IH Ha]; intros Hge; cbn [take_while]; [done|].
  rewrite filter_cons. destruct (Z.eqb_spec (f a) key) as [He|Hne].
  - rewrite decide_True by done. f_equal. apply IH. intros x Hx. apply Hge. by right.
  - rewrite decide_False by done. symmetry. apply filter_none.
    apply Forall_forall. intros x Hx Hk. rewrite Forall_forall in Ha.
    specialize (Ha x Hx). specialize (Hge a (list_elem_of_here _ _)). lia.
Qed.

(** Binary search for the first record, then the run of equal keys. *)
Lemma sorted_lookup key l :
  StronglySorted (fun a b => f a <= f b) l ->
  take_while (fun e => f e =? key) (drop (partition_point (fun e => f e <? key) l) l) =
    filter (fun e => f e = key) l.
Proof.
  intros Hs. pose proof (take_while_app_skip (fun e => f e <? key) l) as Hl.
  set (l1 := take_while (fun e => f e <? key) l) in *.
  set (l2 := skip_while (fun e => f e <? key) l) in *.
  assert (forall x, x ∈ l1 -> (f x <? key) = true) as H1 by apply take_while_all.
  assert (forall x, x ∈ l2 -> key <= f x) as H2 by by apply skip_while_sorted.
  assert (StronglySorted (fun a b => f a <= f b) l2) as Hs2 by by apply skip_while_suffix_sorted.
  rewrite <- Hl. rewrite partition_point_app, drop_app_length; [|done|].
  - rewrite filter_app. rewrite (filter_none _ l1); [by apply take_while_sorted|].
    apply Forall_forall. intros x Hx Hk. specialize (H1 x Hx). bool_hyps. lia.
  - intros x Hx. specialize (H2 x Hx). by apply Z.ltb_ge.
Qed.
End SortedLookup.

Lemma sorted_by_hash {A} (hash : A -> Z) (rest : A -> list Z) l :
  strictly_sorted (fun e => as_u64 (hash e) :: rest e) l ->
  StronglySorted (fun a b => as_u64 (hash a) <= as_u64 (hash b)) l.
Proof.
  unfold strictly_sorted. induction 1 as [|a l Hs IH Ha]; constructor; [done|].
  eapply Forall_impl; [exact Ha|]. cbn. intros b. rewrite orb_false_iff, Z.ltb_ge. lia.
Qed.

Lemma hash_lookup {A} (hash : A -> Z) (rest : A -> list Z) l h :
  strictly_sorted (fun e => as_u64 (hash e) :: rest e) l ->
  (forall e, e ∈ l -> is_i64 (hash e)) -> is_i64 h ->
  take_while (fun e => hash e =? h)
    (drop (partition_point (fun e => as_u64 (hash e) <? as_u64 h) l) l) =
    filter (fun e => hash e = h) l.
Proof.
  intros Hs Hi Hh. apply sorted_by_hash in Hs.
  pose proof (sorted_lookup (fun e => as_u64 (hash e)) (as_u64 h) l Hs) as H. cbv beta in H.
  transitivity (filter (fun e => as_u64 (hash e) = as_u64 h) l).
  - rewrite <- H. generalize (partition_point (fun e => as_u64 (hash e) <? as_u64 h) l) as n.
    clear H Hs. induction l as [|e l IH]; intros [|n]; cbn [drop]; try done.
    + cbn [take_while].
      replace (as_u64 (hash e) =? as_u64 h) with (hash e =? h).
      * destruct (hash e =? h); [|done]. f_equal. apply (IH ltac:(intros; apply Hi; by right) 0%nat).
      * destruct (Z.eqb_spec (hash e) h) as [->|Hne]; [by rewrite Z.eqb_refl|].
        symmetry. apply Z.eqb_neq. intros He. apply Hne, as_u64_inj; [apply Hi; by left|done..].
    + apply IH. intros x Hx. apply Hi. by right.
  - clear H Hs. induction l as [|e l IH]; [done|]. rewrite !filter_cons.
    rewrite IH by (intros; apply Hi; by right).
    case_decide as E1; case_decide as E2; try done; exfalso.
    + apply E2, as_u64_inj; [apply Hi; by left|done..].
    + apply E1. by rewrite E2.
Qed.

Lemma lookup_idm_filter b hash :
  bundle_wf b -> is_i64 hash -> lookup_idm b hash = filter (fun e => idm_hash e = hash) (idm b).
Proof.
  intros [_ _ _ W4 W5 _ _ _] Hh. rewrite Forall_forall in W4.
  apply (hash_lookup idm_hash (fun e => [doc_index e])); [done| |done].
  intros e He. apply (W4 e He).
Qed.

Lemma lookup_edm_filter b hash :
  bundle_wf b -> is_i64 hash -> lookup_edm b hash = filter (fun e => edm_hash e = hash) (edm b).
Proof.
  intros [_ _ _ _ _ W6 W7 _] Hh. rewrite Forall_forall in W6.
  apply (hash_lookup edm_hash (fun e => [source_index e; row_id e; edm_field_id e])); [done| |done].
  intros e He. apply (W6 e He).
Qed.

(** C4: In a loaded bundle the binary search of [lookup_idm] and [lookup_edm]
    returns exactly the records of the hash, in section order, although the
    sections are ordered by the unsigned view of a signed hash. *)
Theorem lookups_return_the_records b hash :
  bundle_wf b -> is_i64 hash ->
  lookup_idm b hash = filter (fun e => idm_hash e = hash) (idm b) /\
  lookup_edm b hash = filter (fun e => edm_hash e = hash) (edm b).
Proof. intros. split; [by apply lookup_idm_filter|by apply lookup_edm_filter]. Qed.

Lemma lookups_return_the_records_witness :
  bundle_wf sample_bundle /\ is_i64 (-2) /\
  lookup_idm sample_bundle (-2) = [{| idm_hash := -2; doc_index := 0 |}].
Proof.
  split; [exact sample_bundle_wf|]. split; [split; vm_compute; congruence|].
  rewrite (proj1 (lookups_return_the_records sample_bundle (-2) sample_bundle_wf
    ltac:(split; vm_compute; congruence))). vm_compute. reflexivity.
Defined.

(** ** The Bloom filter *)

(** The reference filter: [k_hashes] bit positions per key, set by insertion
    and all tested by the query. *)
Definition bloom_positions (m_bits k_hashes hash : Z) : list Z :=
  let h1 := fnv1a64_bytes (to_le_bytes 8 (as_u64 hash)) in
  map (fun i => bloom_bit m_bits h1 (splitmix64 h1) (Z.of_nat i)) (seq 0 (Z.to_nat k_hashes)).
Definition bit_is_set (bits : bytes) (bit : Z) : bool :=
  Z.testbit (bits !!! Z.to_nat (bit / 8)) (bit mod 8).
Definition set_bit (bits : bytes) (bit : Z) : bytes :=
  alter (fun byte => Z.lor byte (2 ^ (bit mod 8))) (Z.to_nat (bit / 8)) bits.
Definition bloom_insert (m_bits k_hashes : Z) (bits : bytes) (hash : Z) : bytes :=
  foldl set_bit bits (bloom_positions m_bits k_hashes hash).

Lemma forallb_map_eq {A B} (f : A -> B) (p : B -> bool) l :
  forallb p (map f l) = forallb (fun x => p (f x)) l.
Proof. induction l as [|x l IH]; cbn; [done|]. by rewrite IH. Qed.

Lemma forallb_ext_eq {A} (p q : A -> bool) l :
  (forall x, p x = q x) -> forallb p l = forallb q l.
Proof. intros H. induction l as [|x l IH]; cbn; [done|]. by rewrite H, IH. Qed.

Lemma bloom_bit_bound m h1 h2 i : 0 < m -> 0 <= bloom_bit m h1 h2 i < m.
Proof. intros. unfold bloom_bit. apply Z.mod_pos_bound. lia. Qed.

Lemma byte_index_bound m n bit :
  0 <= bit < m -> Z.of_nat n = m / 8 + (if m mod 8 =? 0 then 0 else 1) ->
  (Z.to_nat (bit / 8) < n)%nat.
Proof.
  intros Hb Hn. pose proof (Z.div_mod m 8). pose proof (Z.mod_pos_bound m 8).
  pose proof (Z.div_mod bit 8). pose proof (Z.mod_pos_bound bit 8).
  destruct (Z.eqb_spec (m mod 8) 0); lia.
Qed.

Lemma byte_test_is_testbit byte bit :
  (Z.land byte (Z.shiftl 1 (Z.land bit 7)) =? 0) = negb (Z.testbit byte (bit mod 8)).
Proof.
  change 7 with (Z.ones 3). rewrite Z.land_ones by lia. change (2 ^ 3) with 8.
  pose proof (Z.mod_pos_bound bit 8). set (j := bit mod 8) in *. clearbody j.
  rewrite Z.shiftl_mul_pow2, Z.mul_1_l by lia.
  destruct (Z.testbit byte j) eqn:Ht; cbn.
  - apply Z.eqb_neq. intros Hz. assert (Z.testbit (Z.land byte (2 ^ j)) j = false) as Hf
      by (rewrite Hz; apply Z.bits_0).
    rewrite Z.land_spec, Z.pow2_bits_true, Ht in Hf by lia. done.
  - apply Z.eqb_eq, Z.bits_inj'. intros i Hi. rewrite Z.land_spec, Z.bits_0.
    destruct (decide (i = j)) as [->|]; [by rewrite Ht|].
    rewrite Z.pow2_bits_false by lia. by rewrite andb_false_r.
Qed.

Lemma bloom_loop_spec b h1 h2 n i :
  bloom_wf b -> 
  bloom_loop b h1 h2 n i =
    Some (forallb (fun j => bit_is_set (bits b) (bloom_bit (m_bits b) h1 h2 (i + Z.of_nat j)))
            (seq 0 n)).
Proof.
  intros (Hm & _ & _ & Hl). revert i. induction n as [|n IH]; intros i; cbn [bloom_loop seq forallb]; [done|].
  destruct (Z.eqb_spec (m_bits b) 0); [lia|].
  change (Z.of_nat 0) with 0. rewrite Z.add_0_r.
  set (bit := bloom_bit (m_bits b) h1 h2 i).
  assert (0 <= bit < m_bits b) as Hbit by (apply bloom_bit_bound; lia).
  rewrite Z.shiftr_div_pow2 by lia. change (2 ^ 3) with 8.
  destruct (lookup_lt_is_Some_2 (bits b) (Z.to_nat (bit / 8))) as [byte Hbyte];
    [by eapply byte_index_bound|].
  rewrite Hbyte, byte_test_is_testbit. unfold bit_is_set at 1.
  rewrite (list_lookup_total_correct _ _ _ Hbyte).
  destruct (Z.testbit byte (bit mod 8)); cbn [negb andb]; [|done].
  rewrite IH. f_equal. rewrite <- seq_shift, forallb_map_eq. apply forallb_ext_eq. intros j.
  do 2 f_equal. lia.
Qed.

Lemma has_spec b hash :
  bloom_wf b ->
  has b hash = Some (forallb (bit_is_set (bits b)) (bloom_positions (m_bits b) (k_hashes b) hash)).
Proof.
  intros Hwf. unfold has, bloom_positions. rewrite bloom_loop_spec by done.
  by rewrite forallb_map_eq.
Qed.

Lemma bloom_has_total b hash : bloom_wf (bloom b) -> exists r, bloom_has b hash = Some r.
Proof. intros Hwf. unfold bloom_has. rewrite has_spec by done. by eexists. Qed.

(** Setting a bit keeps the bits already set. *)
Lemma set_bit_mono bits a b :
  0 <= a -> 0 <= b -> bit_is_set bits a = true -> bit_is_set (set_bit bits b) a = true.
Proof.
  unfold bit_is_set, set_bit. intros Ha Hb H.
  destruct (decide (Z.to_nat (a / 8) < length bits)%nat) as [Hlt|Hge].
  - destruct (lookup_lt_is_Some_2 bits (Z.to_nat (a / 8))) as [x Hx]; [done|].
    rewrite (list_lookup_total_correct _ _ _ Hx) in H.
    destruct (decide (Z.to_nat (a / 8) = Z.to_nat (b / 8))) as [He|Hne].
    + rewrite <- He. rewrite (list_lookup_total_correct _ _ (Z.lor x (2 ^ (b mod 8)))).
      * by rewrite Z.lor_spec, H.
      * by rewrite list_lookup_alter_eq, Hx.
    + rewrite (list_lookup_total_correct _ _ x); [done|]. by rewrite list_lookup_alter_ne.
  - rewrite list_lookup_total_alt in *.
    rewrite (lookup_ge_None_2 bits) in H by lia.
    rewrite lookup_ge_None_2 by (rewrite length_alter; lia). done.
Qed.

Lemma set_bit_set bits a :
  0 <= a -> (Z.to_nat (a / 8) < length bits)%nat -> bit_is_set (set_bit bits a) a = true.
Proof.
  unfold bit_is_set, set_bit. intros Ha Hlt.
  destruct (lookup_lt_is_Some_2 bits (Z.to_nat (a / 8))) as [x Hx]; [done|].
  rewrite (list_lookup_total_correct _ _ (Z.lor x (2 ^ (a mod 8)))).
  - pose proof (Z.mod_pos_bound a 8). rewrite Z.lor_spec, Z.pow2_bits_true by lia. apply orb_true_r.
  - by rewrite list_lookup_alter_eq, Hx.
Qed.

Lemma length_set_bits l bits : length (foldl set_bit bits l) = length bits.
Proof. revert bits. induction l as [|a l IH]; intros bits; cbn [foldl]; [done|].
  rewrite IH. unfold set_bit. by rewrite length_alter.
Qed.

Lemma set_bits_mono l bits a :
  Forall (fun x => 0 <= x) l -> 0 <= a -> bit_is_set bits a = true ->
  bit_is_set (foldl set_bit bits l) a = true.
Proof.
  intros Hl Ha. revert bits. induction Hl as [|b l Hb Hl IH]; cbn; intros bits H; [done|].
  by apply IH, set_bit_mono.
Qed.

Lemma set_bits_set l bits m a :
  Forall (fun x => 0 <= x < m) l -> (forall x, 0 <= x < m -> (Z.to_nat (x / 8) < length bits)%nat) ->
  a ∈ l -> bit_is_set (foldl set_bit bits l) a = true.
Proof.
  intros Hl. revert bits. induction Hl as [|b l Hb Hl IH]; cbn; intros bits Hlen Ha;
    [by apply elem_of_nil in Ha|].
  apply elem_of_cons in Ha as [->|Ha].
  - apply set_bits_mono; [eapply Forall_impl; [exact Hl|]; cbn; lia|lia|].
    apply set_bit_set; [lia|by apply Hlen].
  - apply IH; [|done]. unfold set_bit. rewrite length_alter. done.
Qed.

Lemma bloom_positions_bound m kh hash :
  0 < m -> Forall (fun x => 0 <= x < m) (bloom_positions m kh hash).
Proof. intros. apply Forall_map, Forall_forall. intros. by apply bloom_bit_bound. Qed.

Lemma bloom_inserts_mono m kh hs bits a :
  0 < m -> 0 <= a -> bit_is_set bits a = true ->
  bit_is_set (foldl (bloom_insert m kh) bits hs) a = true.
Proof.
  intros Hm Ha. revert bits. induction hs as [|h hs IH]; cbn; intros bits H; [done|].
  apply IH, set_bits_mono; [|done..].
  eapply Forall_impl; [by apply bloom_positions_bound|]. cbn; lia.
Qed.

(** C5: The pre-filter of a well-formed bundle never panics and has no false
    negatives: whatever the initial bits, once a set of hashes has been inserted
    at the documented positions, the query answers [true] for each of them, so
    gating on it drops no match. *)
Theorem bloom_no_false_negatives b hashes hash :
  bloom_wf (bloom b) ->
  (exists r, bloom_has b hash = Some r) /\
  (hash ∈ hashes -> 
   forall bits0, bits (bloom b) = foldl (bloom_insert (m_bits (bloom b)) (k_hashes (bloom b))) bits0 hashes ->
   bloom_has b hash = Some true).
Proof.
  intros Hwf. unfold bloom_has. rewrite has_spec by done. split; [by eexists|].
  intros Hin bits0 Hbits. f_equal. apply forallb_forall. intros a Ha%list_elem_of_In.
  destruct Hwf as (Hm & Hk & _ & Hl).
  set (m := m_bits (bloom b)) in *. set (kh := k_hashes (bloom b)) in *.
  pose proof (bloom_positions_bound m kh hash ltac:(lia)) as Hb.
  rewrite Forall_forall in Hb. pose proof (Hb a Ha) as Hab. rewrite Hbits.
  assert (forall hs b0, length (foldl (bloom_insert m kh) b0 hs) = length b0) as Hlen.
  { clear. induction hs as [|h hs IH]; intros b0; cbn; [done|]. rewrite IH. apply length_set_bits. }
  assert (length (bits (bloom b)) = length bits0) as Hl0 by by rewrite Hbits.
  apply list_elem_of_split in Hin as (l1 & l2 & ->). rewrite foldl_app. cbn [foldl].
  apply bloom_inserts_mono; [lia|lia|]. unfold bloom_insert at 1.
  apply (set_bits_set _ _ m); [by apply bloom_positions_bound; lia| |done].
  intros x Hx. rewrite Hlen, <- Hl0. by eapply byte_index_bound.
Qed.

Lemma bloom_no_false_negatives_witness :
  let filled := foldl (bloom_insert 40 3) [0; 0; 0; 0; 0] [5; -2] in
  let b := {| format_version := 1; header := sample_header;
              bloom := {| m_bits := 40; k_hashes := 3; bits := filled |}; idm := []; edm := [] |} in
  bloom_wf (bloom b) /\ bloom_has b (-2) = Some true /\ bloom_has b 77 = Some false.
Proof.
  intros filled b.
  assert (bloom_wf (bloom b)) as Hwf.
  { repeat split; try (vm_compute; congruence). vm_compute. repeat constructor; congruence. }
  split; [exact Hwf|]. split; [|vm_compute; reflexivity].
  apply (proj2 (bloom_no_false_negatives b [5; -2] (-2) Hwf)
    ltac:(right; left) [0; 0; 0; 0; 0]). reflexivity.
Defined.
