(* ===== verification/Edm.v ===== *)
(** Exact Data Match ([src/detect/edm.rs]): typed normalisation of cells,
    salted cell hashes, candidate generation over the token stream and the
    proximity rule that reports a row. *)

From S2P Require Import Prelude Words Text F64 Unicode Fingerprint Bundle.
#[local] Open Scope Z_scope.

(** SHA-256 ([sha2]), a function of the bytes hashed. *)
Class Digest := { sha256 : bytes -> bytes }.

Definition PROXIMITY_WINDOW_CHARS : nat := 300.
Definition MIN_MATCHED_FIELDS : nat := 2.
Definition MAX_NGRAM_TOKENS : nat := 4.

(** ** Numbers *)

(** The digit run at the front of a text and what follows it. *)
Definition take_digits (s : str) : str * str :=
  (take_while is_ascii_digit s, skip_while is_ascii_digit s).

(** An optional sign, as the text printed for it; a plus sign prints nothing. *)
Definition take_sign (b : str) : str * str :=
  match b with
  | c :: b' => if c =? 43 then ([], b') else if c =? 45 then (lit "-", b') else ([], b)
  | [] => ([], b)
  end.

(** An optional fraction; [None] for a point without digits. *)
Definition take_frac (b : str) : option (str * str) :=
  match b with
  | c :: b' =>
      if c =? 46 then
        let '(frac, rest) := take_digits b' in
        if str_is_empty frac then None else Some (frac, rest)
      else Some ([], b)
  | [] => Some ([], b)
  end.

Definition is_grouping (c : Z) : bool := (c =? 44) || (c =? 95) || is_whitespace c.

Definition normalize_number (s : str) : option str :=
  let stripped := List.filter (fun c => negb (is_grouping c)) s in
  let '(sign, b) := take_sign stripped in
  let '(int, b) := take_digits b in
  if str_is_empty int then None
  else
    '(frac, rest) ← take_frac b;
    if negb (str_is_empty rest) then None
    else
      let int :=
        let t := trim_start_matches (fun c => c =? 48) int in
        if str_is_empty t then lit "0" else t in
      let frac := trim_end_matches (fun c => c =? 48) frac in
      let out := if str_is_empty frac then int else int ++ lit "." ++ frac in
      if bool_decide (out = lit "0") then Some (lit "0") else Some (sign ++ out).

(** ** Dates *)

Definition MONTHS : list str :=
  [lit "january"; lit "february"; lit "march"; lit "april"; lit "may"; lit "june";
   lit "july"; lit "august"; lit "september"; lit "october"; lit "november"; lit "december"].

Definition month_from_name (word : str) : option Z :=
  if (str_len word <? 3) || negb (forallb is_ascii_alphabetic word) then None
  else
    let lower := to_ascii_lowercase word in
    i ← position (fun m => starts_with (take 3 lower) m) MONTHS;
    let month := Z.of_nat i + 1 in
    if (3 <? str_len lower) && negb (bool_decide (MONTHS !! Z.to_nat (month - 1) = Some lower))
    then None
    else Some month.

Definition is_leap_year (year : Z) : bool :=
  (year mod 4 =? 0) && negb (year mod 100 =? 0) || (year mod 400 =? 0).

Definition days_in_month (year month : Z) : Z :=
  if bool_decide (month ∈ [1; 3; 5; 7; 8; 10; 12]) then 31
  else if bool_decide (month ∈ [4; 6; 9; 11]) then 30
  else if month =? 2 then (if is_leap_year year then 29 else 28)
  else 0.

Definition to_iso_date (day month year : Z) : option str :=
  if negb ((1 <=? month) && (month <=? 12)) || (day <? 1) || (days_in_month year month <? day)
  then None
  else Some (dec year ++ lit "-" ++ dec_pad2 month ++ lit "-" ++ dec_pad2 day).

(** The byte at the cursor is ['/'] or ['-']. *)
Definition date_sep (s : str) : option (Z * str) :=
  match s with
  | c :: s' => if (c =? 47) || (c =? 45) then Some (c, s') else None
  | [] => None
  end.

(** ["dd Mon yyyy"], from the white space after the day [d1]. *)
Definition date_with_month_name (d1 s : str) : option str :=
  let s := skip_while is_ascii_whitespace s in
  let word := take_while is_ascii_alphabetic s in
  let s := skip_while is_ascii_alphabetic s in
  let s' := skip_while is_ascii_whitespace s in
  let '(y, rest) := take_digits s' in
  if (3 <=? str_len word) && negb (bool_decide (s' = s)) && (str_len y =? 4) && str_is_empty rest
  then
    month ← month_from_name word;
    day ← parse_u32 d1;
    year ← parse_u32 y;
    to_iso_date day month year
  else None.

(** The numeric shapes, from the first separator on. *)
Definition date_numeric (d1 s : str) : option str :=
  '(sep1, s) ← date_sep s;
  let '(d2, s) := take_digits s in
  if str_is_empty d2 then None
  else
    '(sep2, s) ← date_sep s;
    let '(d3, rest) := take_digits s in
    if str_is_empty d3 || negb (str_is_empty rest) then None
    else if (str_len d1 <=? 2) && (str_len d2 <=? 2) && (str_len d3 =? 4) then
      day ← parse_u32 d1;
      month ← parse_u32 d2;
      year ← parse_u32 d3;
      to_iso_date day month year
    else if (str_len d1 =? 4) && (str_len d2 <=? 2) && (str_len d3 <=? 2)
            && (sep1 =? 45) && (sep2 =? 45) then
      day ← parse_u32 d3;
      month ← parse_u32 d2;
      year ← parse_u32 d1;
      to_iso_date day month year
    else None.

Definition normalize_date (s : str) : option str :=
  let '(d1, s) := take_digits s in
  if str_is_empty d1 then None
  else
    match s with
    | c :: _ =>
        if (str_len d1 <=? 2) && is_ascii_whitespace c then date_with_month_name d1 s
        else date_numeric d1 s
    | [] => None
    end.

(** ** Cells *)

Section Cells.
Context {U : Unicode} {D : Digest}.

Definition normalize_field (value field_type : str) : option str :=
  let s := trim value in
  if str_is_empty s then None
  else if bool_decide (field_type = lit "text") then
    let n := normalize s in
    if str_is_empty (canonical n) then None else Some (canonical n)
  else if bool_decide (field_type = lit "id") then
    let out := str_to_uppercase (List.filter is_letter_or_number (nfkc s)) in
    if str_is_empty out then None else Some out
  else if bool_decide (field_type = lit "number") then normalize_number s
  else if bool_decide (field_type = lit "date") then normalize_date s
  else None.

Definition hash_field (salt : bytes) (field_id : Z) (normalized_value : str) : Z :=
  let digest := sha256 (salt ++ to_be_bytes 2 field_id ++ as_bytes normalized_value) in
  as_i64 (from_be_bytes (slice 0 8 digest)).

(** [u8::from_str_radix(_, 16)] on two bytes; a leading plus sign is accepted. *)
Definition hex_val (c : Z) : option Z :=
  if is_ascii_digit c then Some (c - 48)
  else if (97 <=? c) && (c <=? 102) then Some (c - 87)
  else if (65 <=? c) && (c <=? 70) then Some (c - 55)
  else None.
Definition u8_from_hex (a b : Z) : option Z :=
  if a =? 43 then hex_val b
  else
    x ← hex_val a;
    y ← hex_val b;
    Some (16 * x + y).

Fixpoint hex_pairs (bs : bytes) : option bytes :=
  match bs with
  | a :: b :: bs' =>
      x ← u8_from_hex a b;
      xs ← hex_pairs bs';
      Some (x :: xs)
  | _ => Some []
  end.
Definition hex_decode (s : str) : option bytes :=
  if negb (str_len s mod 2 =? 0) || str_is_empty s then None else hex_pairs (as_bytes s).

(** ** Candidate generation *)

Record Candidate := { value : str; pos : nat }.

Definition all_ascii_digits (s : str) : bool := negb (str_is_empty s) && forallb is_ascii_digit s.

(** [(yyyy, m, d)], [(d, m, yyyy)] or [(d, mon-name, yyyy)]. *)
Definition date_from_window (t0 t1 t2 : str) : option str :=
  if all_ascii_digits t0 && (str_len t0 =? 4) && all_ascii_digits t1 && (str_len t1 <=? 2)
     && all_ascii_digits t2 && (str_len t2 <=? 2) then
    day ← parse_u32 t2;
    month ← parse_u32 t1;
    year ← parse_u32 t0;
    to_iso_date day month year
  else if all_ascii_digits t0 && (str_len t0 <=? 2) && all_ascii_digits t2 && (str_len t2 =? 4) then
    if all_ascii_digits t1 && (str_len t1 <=? 2) then
      day ← parse_u32 t0;
      month ← parse_u32 t1;
      year ← parse_u32 t2;
      to_iso_date day month year
    else
      match month_from_name t1 with
      | Some month =>
          day ← parse_u32 t0;
          year ← parse_u32 t2;
          to_iso_date day month year
      | None => None
      end
  else None.

(** Every window of [1..=4] tokens, glued by [glue], in the order of the loops;
    [starts] has an element per token. *)
Definition ngram_candidates (glue : list str -> str) (tokens : list str) (starts : list nat)
    : list Candidate :=
  n ← seq 1 (MAX_NGRAM_TOKENS `min` length tokens);
  i ← seq 0 (S (length tokens - n));
  [{| value := glue (take n (drop i tokens)); pos := starts !!! i |}].

Definition opt_candidate (v : option str) (p : nat) : list Candidate :=
  match v with Some v => [{| value := v; pos := p |}] | None => [] end.

(** The bodies of the two token loops, at the suffix [t :: rest] of the tokens. *)
Definition number_candidates_at (t : str) (rest : list str) (p : nat) : list Candidate :=
  opt_candidate (normalize_number t) p ++
  match rest with
  | t1 :: _ =>
      if all_ascii_digits t && all_ascii_digits t1 then
        opt_candidate (normalize_number (t ++ lit "." ++ t1)) p
      else []
  | [] => []
  end.
Definition date_candidates_at (t : str) (rest : list str) (p : nat) : list Candidate :=
  opt_candidate (normalize_date t) p ++
  match rest with
  | t1 :: t2 :: _ => opt_candidate (date_from_window t t1 t2) p
  | _ => []
  end.
Fixpoint each_token (body : str -> list str -> nat -> list Candidate) (tokens : list str)
    (starts : list nat) : list Candidate :=
  match tokens, starts with
  | t :: rest, p :: starts' => body t rest p ++ each_token body rest starts'
  | _, _ => []
  end.

Definition candidates_for_type (tokens : list str) (starts : list nat) (field_type : str)
    : list Candidate :=
  if bool_decide (field_type = lit "text") then ngram_candidates (join [32]) tokens starts
  else if bool_decide (field_type = lit "id") then
    ngram_candidates (fun ts => str_to_uppercase (concat ts)) tokens starts
  else if bool_decide (field_type = lit "number") then each_token number_candidates_at tokens starts
  else if bool_decide (field_type = lit "date") then each_token date_candidates_at tokens starts
  else [].

(** ** Matching *)

Record EdmRowHit := { hit_row_id : Z; hit_fields : list str }.
Record EdmSourceHit := {
  hit_source_id : str;
  hit_name : str;
  rows_hit : list EdmRowHit;
}.

(** A matched cell: the offset of its first token and its field. *)
Definition Cell : Type := nat * Z.
Definition cell_cmp (a b : Cell) : comparison :=
  match (a.1 ?= b.1)%nat with Eq => a.2 ?= b.2 | c => c end.

(** [Vec::dedup] *)
Fixpoint dedup (l : list Cell) : list Cell :=
  match l with
  | [] => []
  | x :: l' =>
      match dedup l' with
      | [] => [x]
      | y :: l'' => if bool_decide (x = y) then y :: l'' else x :: y :: l''
      end
  end.

(** One anchor of the proximity rule: the inner loop over the cells from the
    anchor on, with its [break]. *)
Fixpoint window_scan (primary : list Z) (anchor : nat) (cells : list Cell)
    (fields : list Z) (has_primary : bool) : list Z * bool :=
  match cells with
  | [] => (fields, has_primary)
  | (pos, field_id) :: cells' =>
      if (PROXIMITY_WINDOW_CHARS <? pos - anchor)%nat then (fields, has_primary)
      else
        window_scan primary anchor cells' (bset_insert field_id fields)
          (has_primary || bool_decide (field_id ∈ primary))
  end.

Fixpoint row_qualifies (cells : list Cell) (primary : list Z) : bool :=
  match cells with
  | [] => false
  | c :: cells' =>
      let '(fields, has_primary) := window_scan primary c.1 cells [] false in
      if (MIN_MATCHED_FIELDS <=? length fields)%nat && has_primary then true
      else row_qualifies cells' primary
  end.

(** [rows.entry(row).or_default().push((cand.pos, field.field_id))] for the
    entries of one candidate; [None] when the pre-filter panics. *)
Definition match_candidate (b : Bundle) (source_index' : Z) (salt : bytes) (field : EdmField)
    (rows : list (Z * list Cell)) (cand : Candidate) : option (list (Z * list Cell)) :=
  let hash := hash_field salt (field_id field) (value cand) in
  hit ← bloom_has b hash;
  if negb hit then Some rows
  else
    Some (foldl (fun rows entry =>
        if (source_index entry =? source_index') && (edm_field_id entry =? field_id field)
        then bt_push Z.compare (row_id entry) (pos cand, field_id field) rows
        else rows) rows (lookup_edm b hash)).

Fixpoint match_candidates (b : Bundle) (si : Z) (salt : bytes) (field : EdmField)
    (rows : list (Z * list Cell)) (cands : list Candidate) : option (list (Z * list Cell)) :=
  match cands with
  | [] => Some rows
  | cand :: cands' =>
      rows ← match_candidate b si salt field rows cand;
      match_candidates b si salt field rows cands'
  end.

Fixpoint match_fields (b : Bundle) (si : Z) (salt : bytes) (tokens : list str)
    (starts : list nat) (rows : list (Z * list Cell)) (fs : list EdmField)
    : option (list (Z * list Cell)) :=
  match fs with
  | [] => Some rows
  | field :: fs' =>
      rows ← match_candidates b si salt field rows
               (candidates_for_type tokens starts (field_type field));
      match_fields b si salt tokens starts rows fs'
  end.

Definition field_names (source : EdmSource) (field_ids : list Z) : list str :=
  omap (fun id => field_name <$> List.find (fun f => field_id f =? id) (fields source)) field_ids.

Definition row_hit (source : EdmSource) (primary : list Z) (row : Z * list Cell)
    : option EdmRowHit :=
  let cells := dedup (sort_by cell_cmp row.2) in
  if negb (row_qualifies cells primary) then None
  else Some {| hit_row_id := row.1;
               hit_fields := field_names source (bset_of_list (map snd cells)) |}.

(** The body of the loop over sources. *)
Definition match_source (b : Bundle) (tokens : list str) (starts : list nat) (si : Z)
    (source : EdmSource) : option (list EdmSourceHit) :=
  match edm_salts (header b) !! source_id source ≫= hex_decode with
  | None => Some []
  | Some salt =>
      rows ← match_fields b si salt tokens starts [] (fields source);
      let primary_ids :=
        bset_of_list (map field_id (List.filter primary (fields source))) in
      let hits := omap (row_hit source primary_ids) rows in
      if bool_decide (hits = []) then Some []
      else Some [{| hit_source_id := source_id source; hit_name := source_name source;
                    rows_hit := hits |}]
  end.

Fixpoint match_sources (b : Bundle) (tokens : list str) (starts : list nat) (si : Z)
    (sources : list EdmSource) : option (list EdmSourceHit) :=
  match sources with
  | [] => Some []
  | source :: sources' =>
      h ← match_source b tokens starts si source;
      hs ← match_sources b tokens starts (si + 1) sources';
      Some (h ++ hs)
  end.

Fixpoint token_starts (p : nat) (tokens : list str) : list nat :=
  match tokens with
  | [] => []
  | t :: ts => p :: token_starts (p + length t + 1) ts
  end.

Definition match_edm (b : Bundle) (tokens : list str) : option (list EdmSourceHit) :=
  match tokens with
  | [] => Some []
  | _ => match_sources b tokens (token_starts 0 tokens) 0 (edm_sources (header b))
  end.
End Cells.

(** ** Numbers: the canonical form *)

Definition sign_text (neg : bool) : str := if neg then lit "-" else [].
Definition frac_text (frac : str) : str := if str_is_empty frac then [] else lit "." ++ frac.

(** No leading zeros before the point, no trailing zeros after it, never
    a negative zero. *)
Definition canonical_number (out : str) : Prop :=
  exists neg int frac,
    out = sign_text neg ++ int ++ frac_text frac /\
    int <> [] /\ forallb is_ascii_digit int = true /\ forallb is_ascii_digit frac = true /\
    (int = lit "0" \/ head int <> Some 48) /\ last frac <> Some 48 /\
    (int = lit "0" -> frac = [] -> neg = false).

Definition canon_int (int : str) : str :=
  let t := trim_start_matches (fun c => c =? 48) int in if str_is_empty t then lit "0" else t.
Definition canon_frac (frac : str) : str := trim_end_matches (fun c => c =? 48) frac.
Definition canon_number (neg : bool) (int frac : str) : str :=
  let out := canon_int int ++ frac_text (canon_frac frac) in
  if bool_decide (out = lit "0") then lit "0" else sign_text neg ++ out.

Lemma take_digits_app int rest :
  forallb is_ascii_digit int = true ->
  match rest with c :: _ => is_ascii_digit c = false | [] => True end ->
  take_digits (int ++ rest) = (int, rest).
Proof.
  intros Hi Hr. rewrite forallb_forall in Hi.
  assert (forall x, x ∈ int -> is_ascii_digit x = true) as Hi'
    by (intros x Hx; by apply Hi, list_elem_of_In).
  unfold take_digits. rewrite take_while_app, skip_while_app by done.
  destruct rest as [|c rest]; cbn; [by rewrite app_nil_r|]. rewrite Hr. by rewrite app_nil_r.
Qed.

Lemma take_digits_spec s int rest :
  take_digits s = (int, rest) ->
  s = int ++ rest /\ forallb is_ascii_digit int = true /\
  match rest with c :: _ => is_ascii_digit c = false | [] => True end.
Proof.
  unfold take_digits. intros [= <- <-]. split; [by rewrite take_while_app_skip|]. split.
  - apply forallb_forall. intros x Hx%list_elem_of_In. by eapply take_while_all.
  - destruct (skip_while is_ascii_digit s) eqn:E; [done|]. by eapply skip_while_head.
Qed.

Lemma str_is_empty_spec s : str_is_empty s = bool_decide (s = []).
Proof. by destruct s. Qed.

Lemma out_text (i f : str) :
  (if str_is_empty f then i else i ++ lit "." ++ f) = i ++ frac_text f.
Proof. unfold frac_text. destruct (str_is_empty f); [by rewrite app_nil_r|done]. Qed.

(** The result of a successful run is the canonical text of what it parsed. *)
Lemma normalize_number_inv s out :
  normalize_number s = Some out ->
  exists neg int frac, int <> [] /\ forallb is_ascii_digit int = true /\
    forallb is_ascii_digit frac = true /\ out = canon_number neg int frac.
Proof.
  unfold normalize_number. set (stripped := List.filter _ s). clearbody stripped.
  assert (exists neg b, take_sign stripped = (sign_text neg, b)) as (neg & b & ->).
  { unfold take_sign. destruct stripped as [|c b]; [by exists false, []|].
    destruct (c =? 43); [by exists false, b|]. destruct (c =? 45); [by exists true, b|].
    by exists false, (c :: b). }
  destruct (take_digits b) as [int b1] eqn:E1. apply take_digits_spec in E1 as (-> & Hint & _).
  rewrite (str_is_empty_spec int). case_bool_decide as Hne; [done|].
  destruct (take_frac b1) as [[frac rest]|] eqn:Hf; [|done]. cbn [mbind option_bind].
  destruct (negb (str_is_empty rest)); [done|]. intros H.
  assert (forallb is_ascii_digit frac = true) as Hfr.
  { unfold take_frac in Hf. destruct b1 as [|c b']; [by inversion Hf|].
    destruct (c =? 46); [|by inversion Hf].
    destruct (take_digits b') as [f r] eqn:E2. apply take_digits_spec in E2 as (_ & Hd & _).
    destruct (str_is_empty f); [done|]. by inversion Hf; subst. }
  exists neg, int, frac. repeat split; try done. rewrite out_text in H.
  unfold canon_number, canon_int, canon_frac. by destruct (bool_decide _); inversion H.
Qed.

Lemma digits_not_stripped s :
  forallb is_ascii_digit s = true -> List.filter (fun c => negb (is_grouping c)) s = s.
Proof.
  induction s as [|c s IH]; cbn; [done|]. intros H. bool_hyps. rewrite IH by done.
  unfold is_ascii_digit in *. bool_hyps.
  assert (c = 48 \/ c = 49 \/ c = 50 \/ c = 51 \/ c = 52 \/ c = 53 \/ c = 54 \/ c = 55 \/ c = 56
    \/ c = 57) as Hcs by lia.
  by destruct_or! Hcs; subst.
Qed.

Lemma numeral_not_stripped neg int frac :
  forallb is_ascii_digit int = true -> forallb is_ascii_digit frac = true ->
  List.filter (fun c => negb (is_grouping c)) (sign_text neg ++ int ++ frac_text frac) =
    sign_text neg ++ int ++ frac_text frac.
Proof.
  intros Hi Hf. rewrite !List.filter_app, (digits_not_stripped int) by done. f_equal; [by destruct neg|].
  f_equal. unfold frac_text. destruct (str_is_empty frac); [done|].
  by rewrite List.filter_app, (digits_not_stripped frac).
Qed.

Lemma take_sign_numeral neg int rest :
  int <> [] -> forallb is_ascii_digit int = true ->
  take_sign (sign_text neg ++ int ++ rest) = (sign_text neg, int ++ rest).
Proof.
  intros Hne Hi. destruct neg; [done|]. destruct int as [|c int]; [done|].
  cbn in *. unfold is_ascii_digit in Hi. bool_hyps.
  destruct (Z.eqb_spec c 43); [lia|]. by destruct (Z.eqb_spec c 45); [lia|].
Qed.

Lemma take_frac_text frac :
  forallb is_ascii_digit frac = true -> take_frac (frac_text frac) = Some (frac, []).
Proof.
  intros Hf. unfold frac_text. destruct (str_is_empty frac) eqn:E; [by destruct frac|].
  change (lit "." ++ frac) with (46 :: frac). cbn [take_frac Z.eqb Pos.eqb].
  rewrite <- (app_nil_r frac) at 1. rewrite take_digits_app by done. by rewrite E.
Qed.

Lemma normalize_number_numeral neg int frac :
  int <> [] -> forallb is_ascii_digit int = true -> forallb is_ascii_digit frac = true ->
  normalize_number (sign_text neg ++ int ++ frac_text frac) = Some (canon_number neg int frac).
Proof.
  intros Hne Hi Hf. unfold normalize_number.
  rewrite numeral_not_stripped, take_sign_numeral, take_digits_app by
    (try done; unfold frac_text; by destruct (str_is_empty frac)).
  rewrite (str_is_empty_spec int), bool_decide_eq_false_2 by done.
  rewrite take_frac_text by done. cbn [mbind option_bind str_is_empty negb].
  rewrite out_text. unfold canon_number, canon_int, canon_frac. by destruct (bool_decide _).
Qed.

Lemma forallb_sub {p : Z -> bool} (a b : str) :
  (forall x, x ∈ a -> x ∈ b) -> forallb p b = true -> forallb p a = true.
Proof.
  rewrite !forallb_forall. intros Hs H x Hx. apply H, list_elem_of_In, Hs. by apply list_elem_of_In.
Qed.

Lemma elem_of_skip_while p (l : str) x : x ∈ skip_while p l -> x ∈ l.
Proof. induction l as [|y l IH]; cbn; [done|]. destruct (p y); [intros; right; auto|done]. Qed.

Lemma canon_int_spec int :
  forallb is_ascii_digit int = true ->
  canon_int int <> [] /\ forallb is_ascii_digit (canon_int int) = true /\
  (canon_int int = lit "0" \/ head (canon_int int) <> Some 48).
Proof.
  intros Hi. unfold canon_int, trim_start_matches.
  destruct (skip_while (fun c => c =? 48) int) as [|c l] eqn:E; cbn [str_is_empty]; [by auto|].
  split; [done|]. split.
  - rewrite <- E. eapply forallb_sub; [|exact Hi]. apply elem_of_skip_while.
  - right. apply skip_while_head in E. cbn. intros [= ->]. done.
Qed.

Lemma canon_frac_spec frac :
  forallb is_ascii_digit frac = true ->
  forallb is_ascii_digit (canon_frac frac) = true /\ last (canon_frac frac) <> Some 48.
Proof.
  intros Hf. unfold canon_frac, trim_end_matches. split.
  - eapply forallb_sub; [|exact Hf]. intros x.
    rewrite !list_elem_of_In, <- List.in_rev, (List.in_rev frac), <- !list_elem_of_In.
    apply elem_of_skip_while.
  - destruct (skip_while (fun c => c =? 48) (rev frac)) as [|c l] eqn:E; cbn; [done|].
    rewrite last_snoc. apply skip_while_head in E. intros [= ->]. done.
Qed.

Lemma canon_int_id int :
  int <> [] -> (int = lit "0" \/ head int <> Some 48) -> canon_int int = int.
Proof.
  intros Hne [->|Hh]; [done|]. destruct int as [|c int]; [done|]. unfold canon_int. cbn.
  destruct (Z.eqb_spec c 48); [subst; done|]. done.
Qed.

Lemma canon_frac_id frac : last frac <> Some 48 -> canon_frac frac = frac.
Proof.
  destruct frac as [|c frac _] using rev_ind; [done|]. rewrite last_snoc. intros Hc.
  unfold canon_frac, trim_end_matches. rewrite rev_app_distr. cbn.
  destruct (Z.eqb_spec c 48); [by subst|]. cbn. by rewrite rev_involutive.
Qed.

Lemma canon_number_canonical neg int frac :
  forallb is_ascii_digit int = true -> forallb is_ascii_digit frac = true ->
  canonical_number (canon_number neg int frac).
Proof.
  intros Hi Hf. apply canon_int_spec in Hi as (Hi1 & Hi2 & Hi3).
  apply canon_frac_spec in Hf as (Hf1 & Hf2). unfold canon_number.
  set (i := canon_int int) in *. set (f := canon_frac frac) in *. clearbody i f.
  case_bool_decide as H0.
  - exists false, (lit "0"), []. repeat split; try done. by left.
  - exists neg, i, f. repeat split; try done. intros -> ->. by contradict H0.
Qed.

Lemma canonical_number_fixed out : canonical_number out -> normalize_number out = Some out.
Proof.
  intros (neg & int & frac & -> & Hne & Hi & Hf & Hz & Hl & Hneg).
  rewrite normalize_number_numeral by done. f_equal. unfold canon_number.
  rewrite canon_int_id, canon_frac_id by done. case_bool_decide as H0; [|done].
  destruct frac as [|c frac]; [|unfold frac_text in H0; cbn in H0; destruct int as [|? [|??]]; done].
  cbn in *. rewrite app_nil_r in *. by rewrite Hneg.
Qed.

(** The normal forms of numbers are exactly the canonical decimal numerals:
    every result of [normalize_number] is one, and each one normalises to
    itself; so normalisation is idempotent and every stored canonical cell is
    the normal form of some text. *)
Theorem normalize_number_canonical out :
  (exists s, normalize_number s = Some out) <->
  canonical_number out.
Proof.
  split.
  - intros [s (neg & int & frac & _ & Hi & Hf & ->)%normalize_number_inv].
    by apply canon_number_canonical.
  - intros H. exists out. by apply canonical_number_fixed.
Qed.

(** ** Dates *)

Lemma parse_u32_digits s n : forallb is_ascii_digit s = true -> parse_u32 s = Some n -> n = digits_val s.
Proof.
  unfold parse_u32, parse_uint. intros Hd. destruct s as [|c s]; [done|].
  assert (match c :: s with 43 :: s' => s' | _ => c :: s end = c :: s) as ->.
  { cbn in Hd. unfold is_ascii_digit in Hd. bool_hyps.
    destruct c as [|c|]; [done| |done]. do 6 (destruct c as [c|c|]; try done; try lia). }
  rewrite bool_decide_eq_false_2, Hd by done. destruct (_ <=? _); [|done]. congruence.
Qed.

(** A date of the calendar, in the years the shapes can spell. *)
Definition valid_date (y m d : Z) : Prop :=
  0 <= y < 10000 /\ 1 <= m <= 12 /\ 1 <= d <= days_in_month y m.
Definition iso_text (y m d : Z) : str :=
  dec y ++ lit "-" ++ dec_pad2 m ++ lit "-" ++ dec_pad2 d.

Lemma to_iso_date_spec d m y out :
  to_iso_date d m y = Some out <->
  (1 <= m <= 12 /\ 1 <= d <= days_in_month y m) /\ out = iso_text y m d.
Proof.
  unfold to_iso_date, iso_text.
  destruct (Z.leb_spec 1 m), (Z.leb_spec m 12), (Z.ltb_spec d 1), (Z.ltb_spec (days_in_month y m) d);
    cbn [negb andb orb]; split; try done; try (intros [? ?]; lia); try (intros [? ->]; done).
  - by intros [= <-].
Qed.

(** The three ways a run ends in [to_iso_date]. *)
Lemma iso_from_digits ds ys out (month : option Z) :
  forallb is_ascii_digit ys = true -> str_len ys = 4 ->
  (day ← parse_u32 ds; month ← month; year ← parse_u32 ys; to_iso_date day month year) = Some out ->
  exists y m d, valid_date y m d /\ out = iso_text y m d.
Proof.
  intros Hd Hl H. destruct (parse_u32 ds) as [d|]; [|done]. destruct month as [m|]; [|done].
  cbn in H. destruct (parse_u32 ys) as [y|] eqn:Hy; [|done]. cbn in H.
  apply to_iso_date_spec in H as [Hv ->]. exists y, m, d. split; [|done]. split; [|done].
  apply parse_u32_digits in Hy as ->; [|done]. pose proof (digits_val_bound ys Hd).
  rewrite str_len_digits in Hl by done. rewrite Hl in *. change (10 ^ 4) with 10000 in *. lia.
Qed.

Lemma bind_comm {A B C} (a : option A) (b : option B) (f : A -> B -> option C) :
  (x ← a; y ← b; f x y) = (y ← b; x ← a; f x y).
Proof. by destruct a, b. Qed.

Lemma date_numeric_valid d1 s out :
  forallb is_ascii_digit d1 = true ->
  date_numeric d1 s = Some out -> exists y m d, valid_date y m d /\ out = iso_text y m d.
Proof.
  intros H1. unfold date_numeric. destruct (date_sep s) as [[sep1 s1]|]; [|done].
  cbn [mbind option_bind]. destruct (take_digits s1) as [d2 s2].
  destruct (str_is_empty d2); [done|].
  destruct (date_sep s2) as [[sep2 s3]|]; [|done]. cbn [mbind option_bind].
  destruct (take_digits s3) as [d3 rest] eqn:E3. apply take_digits_spec in E3 as (_ & H3 & _).
  destruct (_ || _); [done|]. destruct (_ && (str_len d3 =? 4)) eqn:C1.
  - bool_hyps. intros Ho. by eapply (iso_from_digits d1 d3).
  - destruct (_ && (sep2 =? 45)) eqn:C2; [|done]. bool_hyps. intros Ho. by eapply (iso_from_digits d3 d1).
Qed.

Lemma normalize_date_valid s out :
  normalize_date s = Some out -> exists y m d, valid_date y m d /\ out = iso_text y m d.
Proof.
  unfold normalize_date. destruct (take_digits s) as [d1 s1] eqn:E1.
  apply take_digits_spec in E1 as (_ & H1 & _). destruct (str_is_empty d1); [done|].
  destruct s1 as [|c s1]; [done|]. destruct (_ && _); [|by apply date_numeric_valid].
  unfold date_with_month_name. destruct (take_digits _) as [y rest] eqn:E2.
  apply take_digits_spec in E2 as (_ & H2 & _). destruct (_ && str_is_empty rest) eqn:C; [|done]. bool_hyps.
  rewrite bind_comm. intros Ho. by eapply (iso_from_digits d1 y).
Qed.

Lemma date_sep_dash s : date_sep (lit "-" ++ s) = Some (45, s).
Proof. done. Qed.

Lemma all_ascii_digits_spec s :
  all_ascii_digits s = true -> str_is_empty s = false /\ forallb is_ascii_digit s = true.
Proof. unfold all_ascii_digits. intros H. by bool_hyps. Qed.

(** All-digit fields separated by dashes are read back. *)
Lemma normalize_date_dashes d1 d2 d3 :
  all_ascii_digits d1 = true -> all_ascii_digits d2 = true -> all_ascii_digits d3 = true ->
  normalize_date (d1 ++ lit "-" ++ d2 ++ lit "-" ++ d3) =
    if (str_len d1 <=? 2) && (str_len d2 <=? 2) && (str_len d3 =? 4) then
      day ← parse_u32 d1; month ← parse_u32 d2; year ← parse_u32 d3; to_iso_date day month year
    else if (str_len d1 =? 4) && (str_len d2 <=? 2) && (str_len d3 <=? 2) then
      day ← parse_u32 d3; month ← parse_u32 d2; year ← parse_u32 d1; to_iso_date day month year
    else None.
Proof.
  intros [H1 F1]%all_ascii_digits_spec [H2 F2]%all_ascii_digits_spec [H3 F3]%all_ascii_digits_spec.
  unfold normalize_date. rewrite take_digits_app by done. rewrite H1. cbn [lit map app String.list_ascii_of_string].
  change (is_ascii_whitespace _) with false. rewrite andb_false_r. unfold date_numeric.
  change (Z.of_N _) with 45. cbn [date_sep Z.eqb Pos.eqb orb mbind option_bind].
  rewrite (take_digits_app d2 (45 :: d3)) by done. rewrite H2.
  cbn [date_sep Z.eqb Pos.eqb orb mbind option_bind].
  rewrite <- (app_nil_r d3) at 1. rewrite take_digits_app by done. rewrite H3. cbn [str_is_empty negb orb].
  by rewrite !andb_true_r.
Qed.

Lemma iso_text_fixed y m d :
  valid_date y m d -> 1000 <= y -> normalize_date (iso_text y m d) = Some (iso_text y m d).
Proof.
  intros (Hy & Hm & Hd) Hy'. unfold iso_text at 1.
  assert (days_in_month y m <= 31) as Hd31.
  { unfold days_in_month. repeat case_bool_decide; try lia. repeat case_match; lia. }
  destruct (dec_digits_spec 40 y) as (Y1 & Y2 & Y3); [lia|lia|].
  assert (length (dec y) = 4%nat) as Hl by (apply (length_dec_digits 40 y 3); [lia|cbn; lia]).
  assert (forall n, 1 <= n <= 31 -> forallb is_ascii_digit (dec_pad2 n) = true /\
    length (dec_pad2 n) = 2%nat /\ parse_u32 (dec_pad2 n) = Some n) as Hpad.
  { intros n Hn. assert (n ∈ map Z.of_nat (seq 1 31)) as Hin.
    { apply list_elem_of_fmap. exists (Z.to_nat n). split; [lia|]. apply elem_of_seq. lia. }
    assert (forallb (fun n => forallb is_ascii_digit (dec_pad2 n) && (length (dec_pad2 n) =? 2)%nat
      && bool_decide (parse_u32 (dec_pad2 n) = Some n)) (map Z.of_nat (seq 1 31)) = true) as Hall
      by (vm_compute; reflexivity).
    rewrite forallb_forall in Hall. apply list_elem_of_In, Hall in Hin. by bool_hyps. }
  destruct (Hpad m) as (M1 & M2 & M3); [lia|]. destruct (Hpad d) as (D1 & D2 & D3); [lia|].
  assert (forall s, forallb is_ascii_digit s = true -> length s <> 0%nat -> all_ascii_digits s = true) as Hall.
  { intros s Hs Hls. unfold all_ascii_digits. rewrite Hs. by destruct s. }
  rewrite normalize_date_dashes by (apply Hall; [done|lia]).
  rewrite !str_len_digits by done. rewrite Hl, M2, D2. cbn [Z.of_nat Z.leb Z.eqb andb].
  rewrite M3, D3. cbn [mbind option_bind]. unfold parse_u32. rewrite parse_uint_dec by lia.
  cbn [mbind option_bind]. by apply to_iso_date_spec.
Qed.

(** A normalised date is the [yyyy-mm-dd] text of a date that exists in the
    calendar of [days_in_month]; from year 1000 on it normalises to itself. *)
Theorem normalize_date_canonical s out :
  normalize_date s = Some out ->
  exists y m d, valid_date y m d /\ out = iso_text y m d /\
    (1000 <= y -> normalize_date out = Some out).
Proof.
  intros (y & m & d & Hv & ->)%normalize_date_valid. exists y, m, d.
  split; [done|]. split; [done|]. by apply iso_text_fixed.
Qed.

Lemma normalize_date_canonical_witness :
  normalize_date (lit "2 Jul 1990") = Some (lit "1990-07-02") /\
  exists y m d, valid_date y m d /\ lit "1990-07-02" = iso_text y m d /\
    (1000 <= y -> normalize_date (lit "1990-07-02") = Some (lit "1990-07-02")).
Proof.
  assert (normalize_date (lit "2 Jul 1990") = Some (lit "1990-07-02")) as H by (vm_compute; reflexivity).
  split; [exact H|]. apply (normalize_date_canonical _ _ H).
Defined.

Lemma str_len_app a b : str_len (a ++ b) = str_len a + str_len b.
Proof. unfold str_len, as_bytes. rewrite map_app, concat_app, length_app. lia. Qed.

Lemma alphabetic_is_ascii c : is_ascii_alphabetic c = true -> 65 <= c <= 122.
Proof.
  unfold is_ascii_alphabetic, is_ascii_upper, is_ascii_lower. intros [H|H]%orb_prop; bool_hyps; lia.
Qed.

Lemma skip_spaces c rest :
  is_ascii_alphabetic c = true \/ is_ascii_digit c = true ->
  skip_while is_ascii_whitespace (32 :: c :: rest) = c :: rest.
Proof.
  intros H. cbn. replace (is_ascii_whitespace c) with false; [done|]. symmetry.
  unfold is_ascii_whitespace. apply bool_decide_eq_false_2.
  assert (48 <= c) by (destruct H as [H|H]; [apply alphabetic_is_ascii in H; lia|];
    unfold is_ascii_digit in H; bool_hyps; lia).
  rewrite !elem_of_cons, elem_of_nil. lia.
Qed.

(** A day, a month name and a year separated by single spaces. *)
Lemma normalize_date_words t0 t1 t2 :
  all_ascii_digits t0 = true -> all_ascii_digits t2 = true ->
  t1 <> [] -> forallb is_ascii_alphabetic t1 = true ->
  normalize_date (t0 ++ lit " " ++ t1 ++ lit " " ++ t2) =
    if (str_len t0 <=? 2) && (3 <=? str_len t1) && (str_len t2 =? 4) then
      month ← month_from_name t1; day ← parse_u32 t0; year ← parse_u32 t2;
      to_iso_date day month year
    else None.
Proof.
  intros [E0 D0]%all_ascii_digits_spec [E2 D2]%all_ascii_digits_spec Hne Ha.
  change (lit " " ++ t1 ++ lit " " ++ t2) with (32 :: t1 ++ 32 :: t2).
  unfold normalize_date. rewrite take_digits_app by done. rewrite E0.
  change (is_ascii_whitespace 32) with true. rewrite andb_true_r.
  destruct (str_len t0 <=? 2) eqn:L0; cbn [andb]; [|done]. unfold date_with_month_name.
  assert (forall x, x ∈ t1 -> is_ascii_alphabetic x = true) as Ha'
    by (rewrite forallb_forall in Ha; intros x Hx; by apply Ha, list_elem_of_In).
  destruct t1 as [|c1 t1]; [done|]. cbn [app]. rewrite skip_spaces by (left; by apply Ha'; left).
  change (c1 :: t1 ++ 32 :: t2) with ((c1 :: t1) ++ 32 :: t2).
  rewrite take_while_app, skip_while_app by done. cbn [take_while skip_while].
  change (is_ascii_alphabetic 32) with false. cbn iota. rewrite app_nil_r.
  destruct t2 as [|c2 t2]; [done|]. rewrite skip_spaces by (right; cbn in D2; by bool_hyps).
  rewrite bool_decide_eq_false_2; [|intros Hb; apply (f_equal length) in Hb; cbn in Hb; lia].
  rewrite <- (app_nil_r (c2 :: t2)) at 1. rewrite take_digits_app by done.
  cbn [negb str_is_empty]. by rewrite !andb_true_r.
Qed.

(** A date that tokenisation split apart is re-assembled to the canonical text
    the stored cell has: over three tokens, [date_from_window] is
    [normalize_date] of the tokens joined by a dash when the middle one is a
    number, and joined by a space when it is a word. *)
Theorem date_window_agrees t0 t1 t2 :
  all_ascii_digits t0 = true -> all_ascii_digits t2 = true ->
  (all_ascii_digits t1 = true ->
   date_from_window t0 t1 t2 = normalize_date (t0 ++ lit "-" ++ t1 ++ lit "-" ++ t2)) /\
  (t1 <> [] -> forallb is_ascii_alphabetic t1 = true ->
   date_from_window t0 t1 t2 = normalize_date (t0 ++ lit " " ++ t1 ++ lit " " ++ t2)).
Proof.
  intros H0 H2. split; unfold date_from_window; rewrite H0, H2; cbn [andb].
  - intros H1. rewrite normalize_date_dashes, H1 by done. cbn [andb]. rewrite andb_true_r.
    destruct (Z.eqb_spec (str_len t0) 4), (Z.leb_spec (str_len t0) 2), (Z.leb_spec (str_len t1) 2),
      (Z.leb_spec (str_len t2) 2), (Z.eqb_spec (str_len t2) 4); cbn [andb]; try lia; try done.
    all: unfold month_from_name.
    all: destruct (all_ascii_digits_spec t1 H1) as [E1 D1]; destruct t1 as [|c t1]; [done|].
    all: replace (forallb is_ascii_alphabetic (c :: t1)) with false;
      [by rewrite orb_true_r|symmetry; apply andb_false_intro1].
    all: cbn in D1; bool_hyps; destruct (is_ascii_alphabetic c) eqn:Hc; [|done];
      apply alphabetic_is_ascii in Hc; unfold is_ascii_digit in *; bool_hyps; lia.
  - intros Hne Ha. rewrite normalize_date_words by done.
    assert (all_ascii_digits t1 = false) as ->.
    { unfold all_ascii_digits. apply andb_false_intro2. destruct t1 as [|c t1]; [done|].
      cbn in Ha |- *. bool_hyps. apply andb_false_intro1. destruct (is_ascii_digit c) eqn:Hc; [|done].
      apply alphabetic_is_ascii in H. unfold is_ascii_digit in *. bool_hyps. lia. }
    rewrite !andb_false_r. cbn [andb]. rewrite andb_true_r.
    destruct (str_len t0 <=? 2), (Z.eqb_spec (str_len t2) 4); cbn [andb]; try done;
      rewrite ?andb_false_r; [|done].
    rewrite andb_true_r. unfold month_from_name at 1.
    destruct (Z.leb_spec 3 (str_len t1)), (Z.ltb_spec (str_len t1) 3); try lia; [|done].
    cbn [orb]. unfold month_from_name. destruct (Z.ltb_spec (str_len t1) 3); [lia|].
    by destruct (negb _); [|destruct (mbind _ _)].
Qed.

Lemma date_window_agrees_witness :
  date_from_window (lit "2") (lit "7") (lit "1990") = Some (lit "1990-07-02") /\
  normalize_date (lit "2-7-1990") = Some (lit "1990-07-02") /\
  normalize_date (lit "2 july 1990") = Some (lit "1990-07-02").
Proof.
  pose proof (date_window_agrees (lit "2") (lit "7") (lit "1990") ltac:(reflexivity) ltac:(reflexivity))
    as [H _].
  pose proof (date_window_agrees (lit "2") (lit "july") (lit "1990") ltac:(reflexivity) ltac:(reflexivity))
    as [_ H'].
  split; [vm_compute; reflexivity|]. split.
  - etransitivity; [symmetry; exact (H ltac:(reflexivity))|]. vm_compute. reflexivity.
  - etransitivity; [symmetry; exact (H' ltac:(discriminate) ltac:(reflexivity))|]. vm_compute. reflexivity.
Defined.

(** ** The proximity rule *)

(** Two cells of different fields, one of them primary, that start within the
    window of each other. *)
Definition close_cells (primary : list Z) (c1 c2 : Cell) : Prop :=
  c1.2 ∈ primary /\ c1.2 <> c2.2 /\
  (c1.1 - c2.1 <= PROXIMITY_WINDOW_CHARS)%nat /\ (c2.1 - c1.1 <= PROXIMITY_WINDOW_CHARS)%nat.

Definition cells_sorted (cells : list Cell) : Prop :=
  StronglySorted (fun a b => (a.1 <= b.1)%nat) cells.

Definition in_window (anchor : nat) (c : Cell) : bool :=
  (c.1 - anchor <=? PROXIMITY_WINDOW_CHARS)%nat.

Lemma window_scan_spec primary anchor cells fields hp :
  cells_sorted cells ->
  let r := window_scan primary anchor cells fields hp in
  (forall f, f ∈ r.1 <-> f ∈ fields \/ exists c, c ∈ cells /\ in_window anchor c = true /\ c.2 = f) /\
  (r.2 = true <-> hp = true \/ exists c, c ∈ cells /\ in_window anchor c = true /\ c.2 ∈ primary) /\
  (StronglySorted Z.lt fields -> StronglySorted Z.lt r.1).
Proof.
  intros Hs. revert fields hp. induction Hs as [|[p f] cells Hs IH Hall]; intros fields hp; cbn [window_scan].
  - cbn. set_solver.
  - unfold in_window. destruct (Nat.ltb_spec PROXIMITY_WINDOW_CHARS (p - anchor)) as [Hgt|Hle].
    + assert (forall c, c ∈ (p, f) :: cells -> (c.1 - anchor <=? PROXIMITY_WINDOW_CHARS)%nat = false) as Hn.
      { intros c [->|Hc]%elem_of_cons; apply Nat.leb_gt; [done|].
        rewrite Forall_forall in Hall. specialize (Hall c Hc). cbn in *. lia. }
      cbn [fst snd]. split; [|split]; [split; [by left|]..|done].
      * intros [?|(c & Hc & Hw & _)]; [done|]. by rewrite Hn in Hw.
      * intros [?|(c & Hc & Hw & _)]; [done|]. by rewrite Hn in Hw.
    + destruct (IH (bset_insert f fields) (hp || bool_decide (f ∈ primary))) as (I1 & I2 & I3).
      apply Nat.leb_le in Hle. split; [|split].
      * intros g. rewrite I1, elem_of_bset_insert. split.
        -- intros [[->|?]|(c & ? & ? & ?)]; [right; exists (p, f); split; [by left|done]|by left|].
           right. exists c. split; [by right|done].
        -- intros [?|(c & [->|Hc]%elem_of_cons & ? & ?)]; [by left; right|by left; left|].
           right. by exists c.
      * rewrite I2, orb_true_iff, bool_decide_eq_true. split.
        -- intros [[?|?]|(c & ? & ? & ?)]; [by left|right; exists (p, f); split; [by left|done]|].
           right. exists c. split; [by right|done].
        -- intros [?|(c & [->|Hc]%elem_of_cons & ? & ?)]; [by left; left|by left; right|].
           right. by exists c.
      * intros Hf. apply I3. by apply bset_insert_sorted.
Qed.

Lemma sorted_two (l : list Z) :
  StronglySorted Z.lt l -> (2 <= length l)%nat <-> exists a b, a ∈ l /\ b ∈ l /\ a <> b.
Proof.
  intros Hs. split.
  - destruct l as [|a [|b l]]; cbn; [lia..|]. intros _. exists a, b.
    inversion_clear Hs as [|? ? _ Ha]. inversion_clear Ha. split; [by left|]. split; [by right; left|lia].
  - intros (a & b & Ha & Hb & Hab). destruct l as [|x [|y l]]; cbn; [by apply elem_of_nil in Ha| |lia].
    apply list_elem_of_singleton in Ha, Hb. congruence.
Qed.

Lemma row_qualifies_spec cells primary :
  cells_sorted cells ->
  row_qualifies cells primary = true <->
  exists c1 c2, c1 ∈ cells /\ c2 ∈ cells /\ close_cells primary c1 c2.
Proof.
  induction 1 as [|c cells Hs IH Hall]; cbn [row_qualifies].
  { split; [done|]. intros (c1 & c2 & Hc & _). by apply elem_of_nil in Hc. }
  assert (cells_sorted (c :: cells)) as Hs' by by constructor.
  destruct (window_scan_spec primary c.1 (c :: cells) [] false Hs') as (I1 & I2 & I3).
  destruct (window_scan primary c.1 (c :: cells) [] false) as [fs hp]. cbn [fst snd] in *.
  specialize (I3 (SSorted_nil _)). unfold MIN_MATCHED_FIELDS.
  assert (forall x, x ∈ c :: cells -> (c.1 <= x.1)%nat) as Hge.
  { intros x [->|Hx]%elem_of_cons; [done|]. rewrite Forall_forall in Hall. by apply Hall. }
  assert (((2 <=? length fs)%nat && hp = true) <->
    exists c1 c2, c1 ∈ c :: cells /\ c2 ∈ c :: cells /\ in_window c.1 c1 = true /\
      in_window c.1 c2 = true /\ c1.2 ∈ primary /\ c1.2 <> c2.2) as Hthis.
  { rewrite andb_true_iff, Nat.leb_le, sorted_two, I2 by done. split.
    - intros [(a & b & Ha & Hb & Hab) [?|(c1 & Hc1 & Hw1 & Hp)]]; [done|].
      apply I1 in Ha as [Ha|(ca & Hca & Hwa & <-)]; [by apply elem_of_nil in Ha|].
      apply I1 in Hb as [Hb|(cb & Hcb & Hwb & <-)]; [by apply elem_of_nil in Hb|].
      destruct (decide (c1.2 = ca.2)) as [He|Hne]; [|by exists c1, ca].
      exists c1, cb. repeat split; try done. congruence.
    - intros (c1 & c2 & ? & ? & ? & ? & ? & ?). split; [|right; by exists c1].
      exists c1.2, c2.2. rewrite !I1. split; [right; by exists c1|]. split; [right; by exists c2|done]. }
  destruct (_ && hp).
  - split; [intros _|done]. destruct (proj1 Hthis eq_refl) as (c1 & c2 & H1 & H2 & W1 & W2 & Hp & Hne).
    exists c1, c2. split; [done|]. split; [done|]. unfold close_cells, in_window in *. bool_hyps.
    pose proof (Hge c1 H1). pose proof (Hge c2 H2). repeat split; try done; lia.
  - rewrite IH. split.
    + intros (c1 & c2 & ? & ? & ?). exists c1, c2. split; [by right|]. split; [by right|done].
    + intros (c1 & c2 & H1 & H2 & Hp & Hne & D1 & D2).
      assert (~ (in_window c.1 c1 = true /\ in_window c.1 c2 = true)) as Hno
        by (intros [W1 W2]; enough (false = true) by done; apply Hthis; by exists c1, c2).
      unfold in_window in Hno. rewrite !Nat.leb_le in Hno.
      pose proof (Hge c1 H1). pose proof (Hge c2 H2). exists c1, c2.
      apply elem_of_cons in H1 as [->|H1]; [exfalso; apply Hno; lia|].
      apply elem_of_cons in H2 as [->|H2]; [exfalso; apply Hno; lia|]. done.
Qed.

(** ** Matching: the cells a row collects *)

Section Matching.
Context {U : Unicode} {D : Digest}.
Variable b : Bundle.
Hypothesis Hwf : bundle_wf b.

(** The candidate [cand] of [field] hits a record of row [row] of the source:
    the pre-filter lets its hash through and the section holds the record. *)
Definition candidate_hits (si : Z) (salt : bytes) (field : EdmField) (cand : Candidate) (row : Z) : Prop :=
  let hash := hash_field salt (field_id field) (value cand) in
  bloom_has b hash = Some true /\
    exists e, e ∈ edm b /\ edm_hash e = hash /\ source_index e = si /\
    edm_field_id e = field_id field /\ row_id e = row.

Definition row_cells (rows : list (Z * list Cell)) (row : Z) : list Cell :=
  default [] (bt_get Z.compare row rows).

Lemma row_cells_push rows k c row x :
  StronglySorted Z.lt rows.*1 ->
  x ∈ row_cells (bt_push Z.compare k c rows) row <-> x ∈ row_cells rows row \/ (row = k /\ x = c).
Proof.
  intros Hs. unfold row_cells, bt_push. rewrite bt_get_update by done.
  case_decide as E; subst; [|naive_solver]. cbn.
  rewrite elem_of_app, list_elem_of_singleton. naive_solver.
Qed.

Lemma push_all_spec (f : EdmEntry -> bool) (c : Cell) es rows :
  StronglySorted Z.lt rows.*1 ->
  let rows' := foldl (fun rows e => if f e then bt_push Z.compare (row_id e) c rows else rows) rows es in
  StronglySorted Z.lt rows'.*1 /\
  forall row x, x ∈ row_cells rows' row <->
    x ∈ row_cells rows row \/ (x = c /\ exists e, e ∈ es /\ f e = true /\ row_id e = row).
Proof.
  revert rows. induction es as [|e es IH]; intros rows Hs rows'; unfold rows'; clear rows'; cbn [foldl].
  - split; [done|]. intros row x. set_solver.
  - destruct (f e) eqn:Hf.
    + destruct (IH (bt_push Z.compare (row_id e) c rows)) as [I1 I2]; [by apply bt_update_sorted|].
      split; [done|]. intros row x. rewrite I2, row_cells_push by done. split.
      * intros [[?|[-> ->]]|(-> & e' & ? & ? & ?)]; [by left|right; split; [done|]; exists e; repeat split; [by left|done]|].
        right. split; [done|]. exists e'. split; [by right|done].
      * intros [?|(-> & e' & [->|He]%elem_of_cons & ? & <-)]; [by left; left|by left; right|].
        right. split; [done|]. by exists e'.
    + destruct (IH rows Hs) as [I1 I2]. split; [done|]. intros row x. rewrite I2. split.
      * intros [?|(-> & e' & ? & ? & ?)]; [by left|]. right. split; [done|]. exists e'. split; [by right|done].
      * intros [?|(-> & e' & [->|He]%elem_of_cons & ? & ?)]; [by left|congruence|].
        right. split; [done|]. by exists e'.
Qed.

Lemma match_candidate_spec si salt field rows cand :
  StronglySorted Z.lt rows.*1 ->
  exists rows', match_candidate b si salt field rows cand = Some rows' /\
    StronglySorted Z.lt rows'.*1 /\
    forall row x, x ∈ row_cells rows' row <->
      x ∈ row_cells rows row \/ (x = (pos cand, field_id field) /\ candidate_hits si salt field cand row).
Proof.
  intros Hs. unfold match_candidate, candidate_hits. cbv zeta.
  set (hash := hash_field salt (field_id field) (value cand)).
  destruct (bloom_has_total b hash) as [hit Hhit]; [apply Hwf|]. rewrite Hhit.
  cbn [mbind option_bind]. destruct hit; cbn [negb].
  2:{ exists rows. split; [done|]. split; [done|]. intros row x. split; [by left|].
      intros [?|(_ & ? & _)]; [done|congruence]. }
  eexists. split; [done|].
  destruct (push_all_spec (fun e => (source_index e =? si) && (edm_field_id e =? field_id field))
    (pos cand, field_id field) (lookup_edm b hash) rows Hs) as [P1 P2].
  split; [exact P1|]. intros row x. rewrite P2. apply or_iff_compat_l, and_iff_compat_l.
  rewrite lookup_edm_filter by (done || apply as_i64_bound). split.
  - intros (e & (He & ?)%list_elem_of_filter & Hf & ?). bool_hyps. split; [done|]. by exists e.
  - intros (_ & e & ? & ? & ? & ? & ?). exists e. rewrite list_elem_of_filter. repeat split; try done.
    rewrite andb_true_iff, !Z.eqb_eq. done.
Qed.

Lemma match_candidates_spec si salt field cands rows :
  StronglySorted Z.lt rows.*1 ->
  exists rows', match_candidates b si salt field rows cands = Some rows' /\
    StronglySorted Z.lt rows'.*1 /\
    forall row x, x ∈ row_cells rows' row <->
      x ∈ row_cells rows row \/
      exists cand, cand ∈ cands /\ x = (pos cand, field_id field) /\ candidate_hits si salt field cand row.
Proof.
  revert rows. induction cands as [|cand cands IH]; intros rows Hs; cbn [match_candidates].
  - exists rows. split; [done|]. split; [done|]. set_solver.
  - destruct (match_candidate_spec si salt field rows cand Hs) as (r1 & -> & S1 & E1).
    cbn [mbind option_bind]. destruct (IH r1 S1) as (r2 & H2 & S2 & E2). exists r2. split; [done|].
    split; [done|]. intros row x. rewrite E2, E1. set_solver.
Qed.

(** A cell of row [row] of source [si] that the scan matches. *)
Definition matched_cell (tokens : list str) (starts : list nat) (si : Z) (salt : bytes)
    (fs : list EdmField) (row : Z) (x : Cell) : Prop :=
  exists field cand, field ∈ fs /\ cand ∈ candidates_for_type tokens starts (field_type field) /\
    x = (pos cand, field_id field) /\ candidate_hits si salt field cand row.

Lemma match_fields_spec si salt tokens starts fs rows :
  StronglySorted Z.lt rows.*1 ->
  exists rows', match_fields b si salt tokens starts rows fs = Some rows' /\
    StronglySorted Z.lt rows'.*1 /\
    forall row x, x ∈ row_cells rows' row <->
      x ∈ row_cells rows row \/ matched_cell tokens starts si salt fs row x.
Proof.
  unfold matched_cell. revert rows. induction fs as [|f fs IH]; intros rows Hs; cbn [match_fields].
  - exists rows. split; [done|]. split; [done|]. set_solver.
  - destruct (match_candidates_spec si salt f (candidates_for_type tokens starts (field_type f)) rows Hs)
      as (r1 & -> & S1 & E1).
    cbn [mbind option_bind]. destruct (IH r1 S1) as (r2 & H2 & S2 & E2). exists r2. split; [done|].
    split; [done|]. intros row x. rewrite E2, E1. split.
    + intros [[?|(cand & ? & ? & ?)]|(field & cand & ? & ?)]; [by left|right; exists f, cand|right; exists field, cand];
        (split; [set_solver|done]).
    + intros [?|(field & cand & [->|?]%elem_of_cons & ? & ? & ?)]; [by left; left|left; right; by exists cand|].
      right. by exists field, cand.
Qed.

Lemma elem_of_dedup x l : x ∈ dedup l <-> x ∈ l.
Proof.
  induction l as [|y l IH]; cbn [dedup]; [done|]. destruct (dedup l) as [|z d] eqn:E.
  - rewrite list_elem_of_singleton, elem_of_cons, <- IH, elem_of_nil. naive_solver.
  - rewrite (elem_of_cons l), <- IH. case_bool_decide; subst; rewrite !elem_of_cons; naive_solver.
Qed.

Lemma dedup_sorted l : cells_sorted l -> cells_sorted (dedup l).
Proof.
  induction 1 as [|y l Hs IH Hy]; cbn [dedup]; [constructor|].
  rewrite Forall_forall in Hy. destruct (dedup l) as [|z d] eqn:E; [repeat constructor|].
  case_bool_decide; [done|]. constructor; [done|]. rewrite <- E. apply Forall_forall.
  intros x Hx. apply Hy. by apply elem_of_dedup.
Qed.

Lemma cell_cmp_le a c : cmp_le cell_cmp a c -> (a.1 <= c.1)%nat.
Proof. unfold cmp_le, cell_cmp. destruct (Nat.compare_spec a.1 c.1); [lia..|done]. Qed.

Lemma sort_cells_sorted l : cells_sorted (sort_by cell_cmp l).
Proof.
  assert (StronglySorted (cmp_le cell_cmp) (sort_by cell_cmp l)) as H.
  { apply (sort_by_sorted _ (fun _ => True)); [| |by apply Forall_forall].
    - intros [a1 a2] [c1 c2] _ _. unfold cmp_le, cell_cmp. cbn.
      destruct (Nat.compare_spec a1 c1), (Nat.compare_spec c1 a1); try lia; try done.
      intros ?%Z.compare_gt_iff ?%Z.compare_gt_iff. lia.
    - intros [a1 a2] [c1 c2] [d1 d2] _ _ _. unfold cmp_le, cell_cmp. cbn.
      destruct (Nat.compare_spec a1 c1), (Nat.compare_spec c1 d1), (Nat.compare_spec a1 d1);
        try lia; try done.
      rewrite !Z.compare_gt_iff. lia. }
  induction H as [|a l' _ IH Ha]; constructor; [done|]. eapply Forall_impl; [exact Ha|].
  intros c. apply cell_cmp_le.
Qed.

Lemma row_hit_spec source prim row cells rh :
  row_hit source prim (row, cells) = Some rh ->
  hit_row_id rh = row.
Proof. unfold row_hit. destruct (negb _); [done|]. by intros [= <-]. Qed.

Lemma row_hit_is_Some source prim row cells :
  is_Some (row_hit source prim (row, cells)) <->
  exists c1 c2, c1 ∈ cells /\ c2 ∈ cells /\ close_cells prim c1 c2.
Proof.
  unfold row_hit. cbn [fst snd].
  pose proof (row_qualifies_spec (dedup (sort_by cell_cmp cells)) prim
    (dedup_sorted _ (sort_cells_sorted _))) as Hq.
  assert (forall x, x ∈ dedup (sort_by cell_cmp cells) <-> x ∈ cells) as Hin
    by (intros x; by rewrite elem_of_dedup, elem_of_sort_by).
  destruct (row_qualifies _ prim); cbn [negb].
  - split; [|by eexists]. intros _. destruct (proj1 Hq eq_refl) as (c1 & c2 & ? & ? & ?).
    exists c1, c2. by rewrite <- !Hin.
  - split; [by intros [? ?]|]. intros (c1 & c2 & ? & ? & ?). exfalso.
    enough (false = true) by done. apply Hq. exists c1, c2. by rewrite !Hin.
Qed.

(** What a report says: row [row] of a source is among the hits. *)
Definition reported (hits : list EdmSourceHit) (sid nm : str) (row : Z) : Prop :=
  exists hit rh, hit ∈ hits /\ hit_source_id hit = sid /\ hit_name hit = nm /\
    rh ∈ rows_hit hit /\ hit_row_id rh = row.

(** The rule of the specification: two matched cells of the row, of different
    fields and one of them primary, start within the window of each other. *)
Definition colocated (tokens : list str) (starts : list nat) (si : Z) (source : EdmSource)
    (row : Z) : Prop :=
  exists salt c1 c2,
    edm_salts (header b) !! source_id source ≫= hex_decode = Some salt /\
    matched_cell tokens starts si salt (fields source) row c1 /\
    matched_cell tokens starts si salt (fields source) row c2 /\
    close_cells (map field_id (List.filter primary (fields source))) c1 c2.

Lemma close_cells_bset prim c1 c2 :
  close_cells (bset_of_list prim) c1 c2 <-> close_cells prim c1 c2.
Proof. unfold close_cells. by rewrite elem_of_bset_of_list. Qed.

(** Which rows the hits of one source name. *)
Lemma row_hits_spec source prim rows row :
  StronglySorted Z.lt rows.*1 ->
  (exists rh, rh ∈ omap (row_hit source prim) rows /\ hit_row_id rh = row) <->
  exists c1 c2, c1 ∈ row_cells rows row /\ c2 ∈ row_cells rows row /\ close_cells prim c1 c2.
Proof.
  intros Hs. split.
  - intros (rh & Hrh & Hid). apply list_elem_of_omap in Hrh as ([row' cells] & Hin & Hr).
    pose proof (row_hit_spec _ _ _ _ _ Hr) as Hid'. assert (row' = row) as -> by congruence.
    apply bt_get_elem_of in Hin; [|done]. unfold row_cells. rewrite Hin. cbn.
    apply (row_hit_is_Some source prim row cells). by eexists.
  - intros (c1 & c2 & H1 & H2 & Hc). unfold row_cells in *.
    destruct (bt_get Z.compare row rows) as [cells|] eqn:E; [|by apply elem_of_nil in H1].
    cbn in *. apply bt_get_elem_of in E; [|done].
    assert (is_Some (row_hit source prim (row, cells))) as [rh Hrh]
      by (apply row_hit_is_Some; by exists c1, c2).
    exists rh. split; [|by eapply row_hit_spec]. apply list_elem_of_omap. by exists (row, cells).
Qed.

Lemma match_source_spec tokens starts si source :
  exists hits, match_source b tokens starts si source = Some hits /\
    forall sid nm row, reported hits sid nm row <->
      source_id source = sid /\ source_name source = nm /\ colocated tokens starts si source row.
Proof.
  unfold match_source, colocated.
  destruct (edm_salts (header b) !! source_id source ≫= hex_decode) as [salt|].
  2:{ exists []. split; [done|]. intros sid nm row. split.
      - intros (hit & ? & Hh & _). by apply elem_of_nil in Hh.
      - by intros (_ & _ & ? & ? & ? & ? & _). }
  destruct (match_fields_spec si salt tokens starts (fields source) [] (SSorted_nil _)) as (rows & -> & Hs & Hc).
  cbn [mbind option_bind].
  set (prim := map field_id (List.filter primary (fields source))).
  pose proof (fun row => row_hits_spec source (bset_of_list prim) rows row Hs) as Hrows.
  set (hs := omap (row_hit source (bset_of_list prim)) rows) in *.
  assert (forall row, (exists rh, rh ∈ hs /\ hit_row_id rh = row) <->
    exists c1 c2, matched_cell tokens starts si salt (fields source) row c1 /\
      matched_cell tokens starts si salt (fields source) row c2 /\ close_cells prim c1 c2) as Hrows'.
  { intros row. rewrite Hrows. split; intros (c1 & c2 & H1 & H2 & H3); exists c1, c2;
      rewrite !Hc, close_cells_bset in *; unfold row_cells in *; cbn in *;
      rewrite ?elem_of_nil in *; naive_solver. }
  clear Hrows Hc. clearbody hs. case_bool_decide as Hne.
  - exists []. split; [done|]. intros sid nm row. split.
    + intros (hit & ? & Hh & _). by apply elem_of_nil in Hh.
    + intros (_ & _ & salt' & c1 & c2 & [= <-] & H1 & H2 & H3). exfalso.
      destruct (proj2 (Hrows' row)) as (rh & Hin & _); [by exists c1, c2|]. subst hs.
      by apply elem_of_nil in Hin.
  - eexists. split; [done|]. intros sid nm row. split.
    + intros (hit & rh & ->%list_elem_of_singleton & <- & <- & Hin & Hr). cbn in *.
      split; [done|]. split; [done|]. destruct (proj1 (Hrows' row)) as (c1 & c2 & ?); [by exists rh|].
      by exists salt, c1, c2.
    + intros (<- & <- & salt' & c1 & c2 & [= <-] & H1 & H2 & H3).
      destruct (proj2 (Hrows' row)) as (rh & Hin & Hr); [by exists c1, c2|].
      eexists _, rh. split; [by apply list_elem_of_singleton|]. done.
Qed.

Lemma match_sources_spec tokens starts si sources :
  exists hits, match_sources b tokens starts si sources = Some hits /\
    forall sid nm row, reported hits sid nm row <->
      exists i source, sources !! i = Some source /\ source_id source = sid /\
        source_name source = nm /\ colocated tokens starts (si + Z.of_nat i) source row.
Proof.
  revert si. induction sources as [|source sources IH]; intros si; cbn [match_sources].
  - exists []. split; [done|]. intros sid nm row. split; [|by intros (i & ? & ? & _)].
    intros (hit & ? & Hh & _). by apply elem_of_nil in Hh.
  - destruct (match_source_spec tokens starts si source) as (h1 & -> & E1).
    destruct (IH (si + 1)) as (h2 & -> & E2). cbn [mbind option_bind].
    exists (h1 ++ h2). split; [done|]. intros sid nm row.
    assert (reported (h1 ++ h2) sid nm row <-> reported h1 sid nm row \/ reported h2 sid nm row) as ->.
    { unfold reported. setoid_rewrite elem_of_app. naive_solver. }
    rewrite E1, E2. split.
    + intros [(? & ? & ?)|(i & src & ? & ? & ? & Hco)].
      * exists 0%nat, source. rewrite Z.add_0_r. done.
      * exists (S i), src. replace (si + Z.of_nat (S i)) with (si + 1 + Z.of_nat i) by lia. done.
    + intros ([|i] & src & Hi & ? & ? & Hco).
      * left. injection Hi as ->. by rewrite Z.add_0_r in Hco.
      * right. exists i, src. replace (si + 1 + Z.of_nat i) with (si + Z.of_nat (S i)) by lia. done.
Qed.

Lemma no_tokens_no_candidates starts ty : candidates_for_type [] starts ty = [].
Proof. unfold candidates_for_type. repeat case_bool_decide; done. Qed.

(** C8: [match_edm] on a loaded bundle never panics, and reports a row of a source
    exactly when two cells of different fields of that row, at least one of
    them primary, match candidates of the text that start within 300
    characters of each other. *)
Theorem match_edm_reports_colocated_rows tokens :
  exists hits, match_edm b tokens = Some hits /\
    forall sid nm row, reported hits sid nm row <->
      exists i source, edm_sources (header b) !! i = Some source /\ source_id source = sid /\
        source_name source = nm /\ colocated tokens (token_starts 0 tokens) (Z.of_nat i) source row.
Proof.
  destruct tokens as [|t tokens].
  - exists []. split; [done|]. intros sid nm row. split.
    + intros (hit & ? & Hh & _). by apply elem_of_nil in Hh.
    + intros (i & source & _ & _ & _ & salt & c1 & c2 & _ & (f & cand & _ & Hc & _) & _).
      rewrite no_tokens_no_candidates in Hc. by apply elem_of_nil in Hc.
  - apply (match_sources_spec (t :: tokens) (token_starts 0 (t :: tokens)) 0).
Qed.
End Matching.

(** A one-source bundle for the witness; the digest pads its input. *)
Definition toy_digest : Digest := {| sha256 := fun bs => take 32 (rev bs ++ repeat 0 32) |}.
Definition edm_sample : Bundle :=
  let src := {| source_id := lit "s"; source_name := lit "people";
    fields := [{| field_id := 1; field_name := lit "ssn"; field_type := lit "id"; primary := true |};
               {| field_id := 2; field_name := lit "name"; field_type := lit "text"; primary := false |}] |} in
  {| format_version := 1;
     header := {| bundle_version := 1; params := {| k := 8; w := 8; hash_bits := 64 |};
       edm_salts := {[ lit "s" := lit "00ff" ]}; scope := []; 
       counts := {| counts_idm := 0; counts_edm := 2; counts_docs := 0 |};
       docs := []; edm_sources := [src] |};
     bloom := {| m_bits := 8; k_hashes := 2; bits := [255] |}; idm := [];
     edm := let h1 := hash_field (D := toy_digest) [0; 255] 1 (lit "AB12") in
            let h2 := hash_field (D := toy_digest) [0; 255] 2 (lit "jo") in
            [{| edm_hash := h1; source_index := 0; row_id := 7; edm_field_id := 1 |};
             {| edm_hash := h2; source_index := 0; row_id := 7; edm_field_id := 2 |}] |}.

Lemma edm_sample_wf : bundle_wf edm_sample.
Proof.
  split; try reflexivity.
  - repeat split; try (vm_compute; congruence). repeat constructor; vm_compute; congruence.
  - constructor.
  - constructor.
  - repeat constructor; vm_compute; congruence.
  - repeat constructor; vm_compute; congruence.
Qed.

Lemma match_edm_reports_colocated_rows_witness :
  bundle_wf edm_sample /\
  match_edm (U := ascii_unicode) (D := toy_digest) edm_sample [lit "ab12"; lit "jo"] =
    Some [{| hit_source_id := lit "s"; hit_name := lit "people";
             rows_hit := [{| hit_row_id := 7; hit_fields := [lit "ssn"; lit "name"] |}] |}] /\
  exists hits, match_edm (U := ascii_unicode) (D := toy_digest) edm_sample [lit "ab12"; lit "jo"] = Some hits.
Proof.
  split; [exact edm_sample_wf|]. split; [vm_compute; reflexivity|].
  destruct (match_edm_reports_colocated_rows (U := ascii_unicode) (D := toy_digest) edm_sample
    edm_sample_wf [lit "ab12"; lit "jo"]) as (hits & H & _). exists hits. exact H.
Defined.

(** ** Salts *)

Lemma hex_val_digit d : 0 <= d < 16 -> hex_val (hex_digit d) = Some d /\ hex_digit d <> 43.
Proof.
  intros Hd. unfold hex_digit, hex_val, is_ascii_digit. destruct (Z.ltb_spec d 10).
  - destruct (Z.leb_spec 48 (48 + d)), (Z.leb_spec (48 + d) 57); try lia. cbn [andb].
    split; [f_equal|]; lia.
  - destruct (Z.leb_spec (87 + d) 57); [lia|]. rewrite andb_false_r.
    destruct (Z.leb_spec 97 (87 + d)), (Z.leb_spec (87 + d) 102); try lia. cbn [andb].
    split; [f_equal|]; lia.
Qed.

Lemma hex_ascii bs : Forall is_byte bs -> as_bytes (hex bs) = hex bs.
Proof.
  unfold as_bytes, hex. induction 1 as [|x bs Hx _ IH]; [done|]. cbn [map concat app].
  unfold is_byte in Hx. pose proof (Z.mod_pos_bound x 16). pose proof (Z.div_mod x 16).
  assert (forall d, 0 <= d < 16 -> utf8_char (hex_digit d) = [hex_digit d]) as Hu.
  { intros d Hd. unfold utf8_char. destruct (Z.ltb_spec (hex_digit d) 128) as [|Hge]; [done|].
    unfold hex_digit in Hge. destruct (d <? 10); lia. }
  rewrite !Hu by lia. cbn [app]. do 2 f_equal. exact IH.
Qed.

(** A salt printed as lower-case hexadecimal, as the server writes it into the
    header, is decoded to the same bytes. *)
Theorem hex_decode_hex bs :
  bs <> [] -> Forall is_byte bs -> hex_decode (hex bs) = Some bs.
Proof.
  intros Hne Hb. unfold hex_decode, str_len. rewrite hex_ascii, length_hex by done.
  replace (Z.of_nat (2 * length bs) mod 2) with 0
    by (rewrite Nat2Z.inj_mul, Z.mul_comm; by rewrite Z.mod_mul).
  assert (str_is_empty (hex bs) = false) as -> by by destruct bs.
  cbn [Z.eqb negb orb]. clear Hne. induction Hb as [|x bs Hx _ IH]; [done|].
  unfold hex in *. cbn [map concat app hex_pairs]. unfold is_byte in Hx.
  pose proof (Z.mod_pos_bound x 16). pose proof (Z.div_mod x 16).
  destruct (hex_val_digit (x / 16)) as [E1 N1]; [lia|].
  destruct (hex_val_digit (x mod 16)) as [E2 _]; [lia|].
  unfold u8_from_hex. rewrite (proj2 (Z.eqb_neq _ _) N1), E1, E2. cbn [mbind option_bind].
  rewrite IH. cbn [mbind option_bind]. do 2 f_equal. lia.
Qed.

Lemma hex_decode_hex_witness :
  hex_decode (lit "00ff1a") = Some [0; 255; 26].
Proof.
  apply (hex_decode_hex [0; 255; 26]); [discriminate|].
  repeat constructor; vm_compute; congruence.
Defined.
