(* ===== verification/Utf8.v ===== *)
(** Decoding of text: the standard library's [str::from_utf8],
    [String::from_utf8_lossy] and [String::from_utf16_lossy]. *)

From S2P Require Import Prelude Words Text.
#[local] Open Scope Z_scope.

(** A continuation byte, and the ranges the byte after a lead byte may take. *)
Definition is_cont (b : Z) : bool := (128 <=? b) && (b <? 192).
Definition second_ok (lead b : Z) : bool :=
  if lead =? 0xE0 then (0xA0 <=? b) && (b <=? 0xBF)
  else if lead =? 0xED then (0x80 <=? b) && (b <=? 0x9F)
  else if lead =? 0xF0 then (0x90 <=? b) && (b <=? 0xBF)
  else if lead =? 0xF4 then (0x80 <=? b) && (b <=? 0x8F)
  else is_cont b.

(** The first character of a byte string and the bytes after it, or [None] and
    the bytes after the longest prefix of it that could begin a character (the
    stretch [from_utf8_lossy] replaces by one U+FFFD). *)
Definition utf8_next (b0 : Z) (bs : bytes) : option Z * bytes :=
  if b0 <? 0x80 then (Some b0, bs)
  else if (0xC2 <=? b0) && (b0 <=? 0xDF) then
    match bs with
    | b1 :: bs1 => if is_cont b1 then (Some ((b0 - 192) * 64 + (b1 - 128)), bs1) else (None, bs)
    | [] => (None, bs)
    end
  else if (0xE0 <=? b0) && (b0 <=? 0xEF) then
    match bs with
    | b1 :: bs1 =>
        if second_ok b0 b1 then
          match bs1 with
          | b2 :: bs2 =>
              if is_cont b2
              then (Some ((b0 - 224) * 4096 + (b1 - 128) * 64 + (b2 - 128)), bs2)
              else (None, bs1)
          | [] => (None, bs1)
          end
        else (None, bs)
    | [] => (None, bs)
    end
  else if (0xF0 <=? b0) && (b0 <=? 0xF4) then
    match bs with
    | b1 :: bs1 =>
        if second_ok b0 b1 then
          match bs1 with
          | b2 :: bs2 =>
              if is_cont b2 then
                match bs2 with
                | b3 :: bs3 =>
                    if is_cont b3
                    then (Some ((b0 - 240) * 262144 + (b1 - 128) * 4096 + (b2 - 128) * 64
                                + (b3 - 128)), bs3)
                    else (None, bs2)
                | [] => (None, bs2)
                end
              else (None, bs1)
          | [] => (None, bs1)
          end
        else (None, bs)
    | [] => (None, bs)
    end
  else (None, bs).

(** Each step consumes a byte, so the length of the input is fuel enough. *)
Fixpoint utf8_chars (fuel : nat) (bs : bytes) : list (option Z) :=
  match fuel, bs with
  | S f, b0 :: bs' => let '(c, rest) := utf8_next b0 bs' in c :: utf8_chars f rest
  | _, _ => []
  end.

Definition from_utf8 (bs : bytes) : option str := mapM id (utf8_chars (length bs) bs).
Definition from_utf8_lossy (bs : bytes) : str :=
  map (default 0xFFFD) (utf8_chars (length bs) bs).

(** [String::from_utf16_lossy]: unpaired surrogates become U+FFFD. *)
Fixpoint from_utf16_lossy (units : list Z) : str :=
  match units with
  | [] => []
  | u :: us =>
      if (0xD800 <=? u) && (u <=? 0xDBFF) then
        match us with
        | v :: us' =>
            if (0xDC00 <=? v) && (v <=? 0xDFFF)
            then 0x10000 + (u - 0xD800) * 1024 + (v - 0xDC00) :: from_utf16_lossy us'
            else 0xFFFD :: from_utf16_lossy us
        | [] => [0xFFFD]
        end
      else if (0xDC00 <=? u) && (u <=? 0xDFFF) then 0xFFFD :: from_utf16_lossy us
      else u :: from_utf16_lossy us
  end.

(** [str::encode_utf16] *)
Definition utf16_char (c : Z) : list Z :=
  if c <? 0x10000 then [c]
  else [0xD800 + (c - 0x10000) / 1024; 0xDC00 + (c - 0x10000) mod 1024].
Definition encode_utf16 (s : str) : list Z := concat (map utf16_char s).

Lemma utf8_next_shrinks b0 bs : (length (utf8_next b0 bs).2 <= length bs)%nat.
Proof. unfold utf8_next. repeat case_match; cbn; subst; cbn; lia. Qed.

Lemma div_mod_split c n : 0 < n -> c / n * n + c mod n = c.
Proof. intros. rewrite (Z.div_mod c n) at 3 by lia. lia. Qed.

Ltac decide_ranges :=
  repeat match goal with
  | |- context [?a <? ?b] => destruct (Z.ltb_spec a b); try lia
  | |- context [?a <=? ?b] => destruct (Z.leb_spec a b); try lia
  | |- context [?a =? ?b] => destruct (Z.eqb_spec a b); try lia
  end; cbn [andb orb].

(** The decoder reads back what [utf8_char] writes. *)
Lemma utf8_next_char c bs :
  is_scalar c = true ->
  exists b0 tl, utf8_char c = b0 :: tl /\ utf8_next b0 (tl ++ bs) = (Some c, bs).
Proof.
  intros Hc. assert (0 <= c < 1114112 /\ (c < 55296 \/ 57344 <= c)) as Hr.
  { unfold is_scalar in Hc. apply orb_prop in Hc as [H|H]; bool_hyps; lia. }
  unfold utf8_char. pose proof (Z.mod_pos_bound c 64).
  pose proof (div_mod_split c 64).
  assert (c / 4096 = c / 64 / 64) as E1 by (rewrite Z.div_div; [done|lia..]).
  assert (c / 262144 = c / 64 / 64 / 64) as E2 by (rewrite !Z.div_div; [done|lia..]).
  rewrite E1, E2. set (q := c / 64) in *. pose proof (Z.mod_pos_bound q 64).
  pose proof (div_mod_split q 64). set (q2 := q / 64) in *.
  pose proof (Z.mod_pos_bound q2 64). pose proof (div_mod_split q2 64).
  set (q3 := q2 / 64) in *. clearbody q q2 q3.
  destruct (Z.ltb_spec c 128); [exists c, []; split; [done|]; unfold utf8_next; by decide_ranges|].
  destruct (Z.ltb_spec c 2048).
  { eexists _, _. split; [done|]. unfold utf8_next, is_cont. cbn [app]. decide_ranges. f_equal. f_equal. lia. }
  destruct (Z.ltb_spec c 65536).
  { eexists _, _. split; [done|]. unfold utf8_next, second_ok, is_cont. cbn [app].
    decide_ranges; f_equal; f_equal; lia. }
  eexists _, _. split; [done|]. unfold utf8_next, second_ok, is_cont. cbn [app].
  decide_ranges; f_equal; f_equal; lia.
Qed.

Lemma utf8_chars_encode s fuel :
  forallb is_scalar s = true -> (length (as_bytes s) <= fuel)%nat ->
  utf8_chars fuel (as_bytes s) = map Some s.
Proof.
  revert fuel. induction s as [|c s IH]; intros fuel Hs Hf; [by destruct fuel|].
  cbn in Hs. bool_hyps. unfold as_bytes in *. cbn [map concat] in *.
  destruct (utf8_next_char c (concat (map utf8_char s)) ltac:(done)) as (b0 & tl & Hc & Hn).
  rewrite Hc in *. cbn [app length] in *. destruct fuel as [|fuel]; [lia|]. cbn [utf8_chars].
  rewrite Hn. f_equal. apply IH; [done|]. rewrite length_app in Hf. lia.
Qed.

Lemma from_utf8_as_bytes s : forallb is_scalar s = true -> from_utf8 (as_bytes s) = Some s.
Proof.
  intros Hs. unfold from_utf8. rewrite utf8_chars_encode by done. apply mapM_Some.
  clear Hs. induction s; constructor; done.
Qed.

Lemma from_utf8_lossy_as_bytes s : forallb is_scalar s = true -> from_utf8_lossy (as_bytes s) = s.
Proof.
  intros Hs. unfold from_utf8_lossy. rewrite utf8_chars_encode by done. rewrite map_map.
  apply map_id.
Qed.

Lemma from_encode_utf16 s : forallb is_scalar s = true -> from_utf16_lossy (encode_utf16 s) = s.
Proof.
  induction s as [|c s IH]; intros Hs; [done|]. cbn in Hs. bool_hyps.
  unfold encode_utf16 in *. cbn [map concat]. unfold utf16_char at 1.
  assert (0 <= c < 1114112 /\ (c < 55296 \/ 57344 <= c)) as Hr.
  { unfold is_scalar in *. apply orb_prop in H as [H|H]; bool_hyps; lia. }
  destruct (Z.ltb_spec c 0x10000); cbn [app from_utf16_lossy].
  - decide_ranges; rewrite IH by done; done.
  - pose proof (Z.mod_pos_bound (c - 0x10000) 1024). pose proof (div_mod_split (c - 0x10000) 1024).
    set (q := (c - 0x10000) / 1024) in *. clearbody q.
    decide_ranges. rewrite IH by done. f_equal. lia.
Qed.
