(* ===== verification/Extract.v ===== *)
(** Text extraction ([src/detect/extract.rs]): the bounded set of formats, the
    narrow OOXML scanner, the plain-text decoder and the zip recursion with
    its caps.  The zip and PDF readers are the class [ExtractEnv]. *)

From S2P Require Import Prelude Words Text F64 Unicode Utf8.
#[local] Open Scope Z_scope.

Definition MAX_BUFFER_BYTES : Z := 100 * 1024 * 1024.
Definition ZIP_MAX_DEPTH : Z := 3.
Definition ZIP_MEMBER_CAP_BYTES : Z := 20 * 1024 * 1024.
Definition ZIP_TOTAL_TEXT_CAP : Z := 10 * 1024 * 1024.

Inductive Reason : Set :=
  | UnsupportedFormat | BinaryContent | EncryptedContainer
  | NoTextLayer | CorruptContainer | TooLarge.
#[export] Instance Reason_eq_dec : EqDecision Reason.
Proof. solve_decision. Defined.

(** [Reason::code] *)
Definition code (r : Reason) : str :=
  match r with
  | UnsupportedFormat => lit "unsupported-format"
  | BinaryContent => lit "binary-content"
  | EncryptedContainer => lit "encrypted-container"
  | NoTextLayer => lit "no-text-layer"
  | CorruptContainer => lit "corrupt-container"
  | TooLarge => lit "too-large"
  end.

Record Unreadable := unreadable { reason : Reason }.
Record ExtractedText := { et_text : str; et_format : str }.

(** ** Helpers *)

Definition text_extensions : list str :=
  map lit ["txt"; "md"; "markdown"; "csv"; "tsv"; "log"; "js"; "mjs"; "cjs"; "jsx"; "ts"; "tsx";
    "json"; "xml"; "html"; "htm"; "css"; "py"; "java"; "c"; "h"; "cpp"; "hpp"; "cc"; "cs"; "go";
    "rs"; "rb"; "php"; "pl"; "sh"; "bash"; "ps1"; "psm1"; "bat"; "cmd"; "sql"; "yaml"; "yml"; "ini";
    "cfg"; "conf"; "toml"; "properties"; "env"]%string.
Definition is_text_extension (ext : str) : bool := bool_decide (ext ∈ text_extensions).

(** The text after the last path separator, and after the last dot of it. *)
Definition base_name (filename : str) : str :=
  rev (take_while (fun c => negb ((c =? 47) || (c =? 92))) (rev filename)).
Definition rsplit_dot (base : str) : option (str * str) :=
  match skip_while (fun c => negb (c =? 46)) (rev base) with
  | [] => None
  | _ :: before => Some (rev before, rev (take_while (fun c => negb (c =? 46)) (rev base)))
  end.
Definition extension_of {U : Unicode} (filename : str) : str :=
  match rsplit_dot (base_name filename) with
  | Some (before, after) => if str_is_empty before then [] else str_to_lowercase after
  | None => []
  end.

Definition ENTITIES : list (str * Z) :=
  [(lit "&amp;", 38); (lit "&lt;", 60); (lit "&gt;", 62); (lit "&quot;", 34); (lit "&apos;", 39)].

(** The loop of [decode_xml_entities]; every round consumes a character, so the
    length of the text is fuel enough. *)
Fixpoint decode_loop (fuel : nat) (rest : str) : str :=
  match fuel with
  | O => rest
  | S f =>
      match find_split [38] rest with
      | None => rest
      | Some (before, rest) =>
          before ++
          match List.find (fun e => starts_with e.1 rest) ENTITIES with
          | Some (ent, ch) => ch :: decode_loop f (drop (length ent) rest)
          | None => 38 :: decode_loop f (drop 1 rest)
          end
      end
  end.
Definition decode_xml_entities (s : str) : str := decode_loop (length s) s.

Definition is_cfb (bs : bytes) : bool := starts_with [0xd0; 0xcf; 0x11; 0xe0] bs.

Fixpoint utf16_units (big_endian : bool) (body : bytes) : list Z :=
  match body with
  | a :: b :: body' =>
      (if big_endian then from_be_bytes [a; b] else from_le_bytes [a; b])
        :: utf16_units big_endian body'
  | _ => []
  end.
Definition decode_utf16 (body : bytes) (big_endian : bool) : result Unreadable str :=
  if negb (Z.of_nat (length body) mod 2 =? 0) then Err (unreadable BinaryContent)
  else Ok (from_utf16_lossy (utf16_units big_endian body)).

Definition decode_plain_text (bs : bytes) : result Unreadable str :=
  match strip_prefix [0xff; 0xfe] bs with
  | Some body => decode_utf16 body false
  | None =>
      match strip_prefix [0xfe; 0xff] bs with
      | Some body => decode_utf16 body true
      | None =>
          if bool_decide (0 ∈ bs) then Err (unreadable BinaryContent)
          else
            let body := default bs (strip_prefix [0xef; 0xbb; 0xbf] bs) in
            ok_or (from_utf8 body) (unreadable BinaryContent)
      end
  end.

(** ** Containers *)

(** A central-directory entry as the [zip] crate shows it raw, and the result
    of opening it for inflation: reading at most [n] bytes of it. *)
Record RawEntry := { encrypted : bool; raw_name : str; size : Z; is_dir : bool }.
Record ZipItem := {
  by_index_raw : option RawEntry;
  by_index : option (Z -> option bytes);
}.

(** What the guarded call of [pdf_extract] ends with. *)
Inductive PdfOutcome := PdfText (text : str) | PdfError (message : str) | PdfPanic.

Class ExtractEnv := {
  zip_new : bytes -> option (list ZipItem);
  pdf_extract : bytes -> PdfOutcome;
}.

Record ZipEntry := { ze_name : str; ze_data : option bytes }.

Fixpoint read_entries (should_read : str -> bool) (per_file_cap : Z) (items : list ZipItem)
    : result Unreadable (list ZipEntry) :=
  match items with
  | [] => Ok []
  | item :: items' =>
      raw ← ok_or (by_index_raw item) (unreadable CorruptContainer);
      _ ← ensure (negb (encrypted raw)) (unreadable EncryptedContainer);
      let wanted :=
        negb (is_dir raw) && negb (ends_with (lit "/") (raw_name raw)) && should_read (raw_name raw) in
      if negb wanted then read_entries should_read per_file_cap items'
      else if per_file_cap <? size raw then
        rest ← read_entries should_read per_file_cap items';
        Ok ({| ze_name := raw_name raw; ze_data := None |} :: rest)
      else
        read ← ok_or (by_index item) (unreadable CorruptContainer);
        data ← ok_or (read (per_file_cap + 1)) (unreadable CorruptContainer);
        let oversized := per_file_cap <? Z.of_nat (length data) in
        rest ← read_entries should_read per_file_cap items';
        Ok ({| ze_name := raw_name raw; ze_data := if oversized then None else Some data |} :: rest)
  end.

Section Extraction.
Context {U : Unicode} {X : ExtractEnv}.

Definition read_zip_entries (bs : bytes) (should_read : str -> bool) (per_file_cap : Z)
    : result Unreadable (list ZipEntry) :=
  archive ← ok_or (zip_new bs) (unreadable CorruptContainer);
  read_entries should_read per_file_cap archive.

(** ** OOXML *)

(** The start of the content after [<tag]: [None] when the tag name goes on
    ([continue]), [Some None] when the start tag never ends ([break]). *)
Definition after_start_tag (rest : str) : option (option str) :=
  match rest with
  | c :: r =>
      if c =? 62 then Some (Some r)
      else if is_whitespace c then
        Some ((fun p => drop 1 p.2) <$> find_split [62] rest)
      else None
  | [] => None
  end.

(** The scan, on the text from the current position on; every round passes an
    occurrence of the start tag, so the length of the text is fuel enough. *)
Fixpoint xml_scan (fuel : nat) (open close : str) (s : str) : list str :=
  match fuel with
  | O => []
  | S f =>
      match find_split open s with
      | None => []
      | Some (_, occurrence) =>
          let rest := drop (length open) occurrence in
          match after_start_tag rest with
          | None => xml_scan f open close rest
          | Some None => []
          | Some (Some content) =>
              match find_split close content with
              | Some (inner, tail) =>
                  decode_xml_entities inner :: xml_scan f open close (drop (length close) tail)
              | None => []
              end
          end
      end
  end.
Definition xml_element_text (xml tag : str) : list str :=
  xml_scan (length xml) (lit "<" ++ tag) (lit "</" ++ tag ++ lit ">") xml.

(** [str::split] for a non-empty string pattern. *)
Fixpoint split_str (fuel : nat) (pat s : str) : list str :=
  match fuel with
  | O => [s]
  | S f =>
      match find_split pat s with
      | None => [s]
      | Some (before, occ) => before :: split_str f pat (drop (length pat) occ)
      end
  end.

Definition is_docx_part (name : str) : bool :=
  if bool_decide (name = lit "word/document.xml") then true
  else
    match
      rest ← strip_prefix (lit "word/") name;
      r ← match strip_prefix (lit "header") rest with
          | Some r => Some r
          | None => strip_prefix (lit "footer") rest
          end;
      strip_suffix (lit ".xml") r
    with
    | Some digits => forallb is_ascii_digit digits
    | None => false
    end.

(** The members that were read, in name order; a later member of the same name
    replaces an earlier one. *)
Definition by_name (entries : list ZipEntry) : list (str * bytes) :=
  foldl (fun m e => match ze_data e with Some d => bt_insert str_cmp (ze_name e) d m | None => m end)
    [] entries.

Definition docx_paragraphs (xml : str) : list str :=
  List.filter (fun runs => negb (str_is_empty runs))
    (map (fun chunk => concat (xml_element_text chunk (lit "w:t")))
      (split_str (length xml) (lit "</w:p>") xml)).

Definition extract_docx (bs : bytes) : result Unreadable str :=
  entries ← read_zip_entries bs is_docx_part ZIP_MEMBER_CAP_BYTES;
  let by_name := by_name entries in
  main ← ok_or (bt_get str_cmp (lit "word/document.xml") by_name) (unreadable CorruptContainer);
  let parts := main :: map snd (List.filter (fun p =>
    negb (bool_decide (p.1 = lit "word/document.xml"))) by_name) in
  Ok (join [10] (concat (map (fun data => docx_paragraphs (from_utf8_lossy data)) parts))).

Definition is_xlsx_part (name : str) : bool :=
  if bool_decide (name = lit "xl/sharedStrings.xml") then true
  else
    match r ← strip_prefix (lit "xl/worksheets/sheet") name; strip_suffix (lit ".xml") r with
    | Some mid => negb (contains (lit "/") mid)
    | None => false
    end.

(** The inline-string blocks [<is>...</is>] of a sheet. *)
Fixpoint inline_blocks (fuel : nat) (s : str) : list str :=
  match fuel with
  | O => []
  | S f =>
      match find_split (lit "<is>") s with
      | None => []
      | Some (_, start) =>
          match find_split (lit "</is>") start with
          | Some (inner, tail) => (inner ++ lit "</is>") :: inline_blocks f (drop 5 tail)
          | None => []
          end
      end
  end.

Definition xlsx_part_text (name : str) (data : bytes) : list str :=
  let xml := from_utf8_lossy data in
  if bool_decide (name = lit "xl/sharedStrings.xml") then xml_element_text xml (lit "t")
  else concat (map (fun block => xml_element_text block (lit "t")) (inline_blocks (length xml) xml)).

Definition extract_xlsx (bs : bytes) : result Unreadable str :=
  entries ← read_zip_entries bs is_xlsx_part ZIP_MEMBER_CAP_BYTES;
  let usable := omap (fun e => (fun d => (ze_name e, d)) <$> ze_data e) entries in
  _ ← ensure (negb (bool_decide (length usable = 0%nat))) (unreadable CorruptContainer);
  Ok (join [10] (concat (map (fun p => xlsx_part_text p.1 p.2) usable))).

Definition pptx_slide_number (name : str) : option Z :=
  rest ← strip_prefix (lit "ppt/slides/slide") name;
  digits ← strip_suffix (lit ".xml") rest;
  if str_is_empty digits || negb (forallb is_ascii_digit digits) then None
  else parse_u64 digits.

Definition extract_pptx (bs : bytes) : result Unreadable str :=
  entries ← read_zip_entries bs (fun n => bool_decide (is_Some (pptx_slide_number n)))
              ZIP_MEMBER_CAP_BYTES;
  let usable :=
    omap (fun e => n ← pptx_slide_number (ze_name e); d ← ze_data e; Some (n, d)) entries in
  _ ← ensure (negb (bool_decide (length usable = 0%nat))) (unreadable CorruptContainer);
  let usable := sort_by (fun a b => a.1 ?= b.1) usable in
  Ok (join [10] (map (fun p => join [10] (xml_element_text (from_utf8_lossy p.2) (lit "a:t"))) usable)).

(** ** PDF *)

Definition extract_pdf (bs : bytes) : result Unreadable str :=
  text ← match pdf_extract bs with
         | PdfText text => Ok text
         | PdfError message =>
             let msg := str_to_lowercase message in
             if contains (lit "decrypt") msg || contains (lit "password") msg
                || contains (lit "encrypt") msg
             then Err (unreadable EncryptedContainer)
             else Err (unreadable CorruptContainer)
         | PdfPanic => Err (unreadable CorruptContainer)
         end;
  if str_is_empty (trim text) then Err (unreadable NoTextLayer) else Ok text.

(** ** Zip recursion and dispatch *)

Fixpoint clip_loop (max_chars count : Z) (s : str) : str * Z :=
  match s with
  | [] => ([], count)
  | c :: s' =>
      if count =? max_chars then ([], count)
      else let '(t, n) := clip_loop max_chars (count + 1) s' in (c :: t, n)
  end.
Definition clip_chars (text : str) (max_chars : Z) : str * Z :=
  if str_len text <=? max_chars then (text, Z.of_nat (length text)) else clip_loop max_chars 0 text.

(** A run of an extractor that may recurse: [None] when the fuel ran out, else
    its result and the budget left. *)
Definition run : Type := option (result Unreadable str * Z).

(** The member loop of [extract_zip]. *)
Fixpoint zip_members (recur : bytes -> str -> Z -> Z -> run) (depth : Z)
    (entries : list ZipEntry) (budget : Z) (pieces : list str) : run :=
  match entries with
  | [] => Some (Ok (join [10] pieces), budget)
  | entry :: entries' =>
      match ze_data entry with
      | None => zip_members recur depth entries' budget pieces
      | Some data =>
          if budget =? 0 then Some (Ok (join [10] pieces), budget)
          else
            let ext := extension_of (ze_name entry) in
            let is_zip := bool_decide (ext = lit "zip") in
            if is_zip && (ZIP_MAX_DEPTH <=? depth) then
              zip_members recur depth entries' budget pieces
            else
              let next_depth := depth + (if is_zip then 1 else 0) in
              '(r, budget) ← recur data ext next_depth budget;
              match r with
              | Ok text =>
                  if str_is_empty text then zip_members recur depth entries' budget pieces
                  else
                    let '(clipped, used) := clip_chars text budget in
                    zip_members recur depth entries' (budget - used) (pieces ++ [clipped])
              | Err err =>
                  if bool_decide (reason err = EncryptedContainer) then Some (Err err, budget)
                  else zip_members recur depth entries' budget pieces
              end
      end
  end.

Definition extract_zip (recur : bytes -> str -> Z -> Z -> run) (bs : bytes) (depth budget : Z) : run :=
  match read_zip_entries bs (fun _ => true) ZIP_MEMBER_CAP_BYTES with
  | Err err => Some (Err err, budget)
  | Ok entries => zip_members recur depth entries budget []
  end.

Fixpoint extract_by_extension (fuel : nat) (bs : bytes) (ext : str) (depth budget : Z) : run :=
  match fuel with
  | O => None
  | S f =>
      if is_text_extension ext then Some (decode_plain_text bs, budget)
      else if bool_decide (ext ∈ [lit "docx"; lit "xlsx"; lit "pptx"]) then
        if is_cfb bs then Some (Err (unreadable EncryptedContainer), budget)
        else if bool_decide (ext = lit "docx") then Some (extract_docx bs, budget)
        else if bool_decide (ext = lit "xlsx") then Some (extract_xlsx bs, budget)
        else Some (extract_pptx bs, budget)
      else if bool_decide (ext = lit "pdf") then Some (extract_pdf bs, budget)
      else if bool_decide (ext = lit "zip") then
        extract_zip (extract_by_extension f) bs depth budget
      else Some (Err (unreadable UnsupportedFormat), budget)
  end.

(** A call at depth [d] recurses to zip members only below [ZIP_MAX_DEPTH], and
    a member that is no archive recurses no further: four levels of calls. *)
Definition EXTRACT_FUEL : nat := 4.

Definition extract_text (bs : bytes) (filename : str) : option (result Unreadable ExtractedText) :=
  if MAX_BUFFER_BYTES <? Z.of_nat (length bs) then Some (Err (unreadable TooLarge))
  else
    let ext := extension_of filename in
    '(r, _) ← extract_by_extension EXTRACT_FUEL bs ext 1 ZIP_TOTAL_TEXT_CAP;
    Some (text ← r;
          Ok {| et_text := text;
                et_format := if is_text_extension ext then lit "text" else ext |}).
End Extraction.

(** ** XML entities and elements *)

Definition escape_char (c : Z) : str :=
  match List.find (fun e => e.2 =? c) ENTITIES with Some (ent, _) => ent | None => [c] end.
(** What an OOXML writer emits for a text. *)
Definition escape_xml (s : str) : str := concat (map escape_char s).

Lemma find_split_here pat s : starts_with pat s = true -> find_split pat s = Some ([], s).
Proof. intros H. destruct s; cbn [find_split]; by rewrite H. Qed.

Lemma find_split_app c pat a b :
  c ∉ a -> find_split (c :: pat) (a ++ c :: pat ++ b) = Some (a, c :: pat ++ b).
Proof.
  induction a as [|x a IH]; intros Ha.
  - apply find_split_here. apply (starts_with_app (c :: pat) b).
  - cbn [app find_split]. assert (starts_with (c :: pat) (x :: a ++ c :: pat ++ b) = false) as ->.
    { unfold starts_with. cbn [strip_prefix]. destruct (Z.eqb_spec c x); [set_solver|done]. }
    rewrite IH by set_solver. done.
Qed.

Lemma find_split_none c pat s : c ∉ s -> find_split (c :: pat) s = None.
Proof.
  induction s as [|x s IH]; intros Hs; [done|]. cbn [find_split].
  assert (starts_with (c :: pat) (x :: s) = false) as ->.
  { unfold starts_with. cbn [strip_prefix]. destruct (Z.eqb_spec c x); [set_solver|done]. }
  rewrite IH by set_solver. done.
Qed.

Lemma escape_char_cases c :
  (exists ent, In (ent, c) ENTITIES /\ escape_char c = ent /\ c <> 60) \/
  (c = 60 /\ escape_char c = lit "&lt;") \/
  (escape_char c = [c] /\ c <> 38 /\ c <> 60).
Proof.
  unfold escape_char. cbn [List.find ENTITIES snd].
  destruct (Z.eqb_spec 38 c); [left; eexists; subst; split; [by left|done]|].
  destruct (Z.eqb_spec 60 c); [by right; left|].
  destruct (Z.eqb_spec 62 c); [left; eexists; subst; split; [by right; right; left|done]|].
  destruct (Z.eqb_spec 34 c); [left; eexists; subst; split; [by right; right; right; left|done]|].
  destruct (Z.eqb_spec 39 c); [left; eexists; subst; split; [by right; right; right; right; left|done]|].
  right. right. by split_and!.
Qed.

Lemma decode_loop_entity f ent ch rest :
  In (ent, ch) ENTITIES -> decode_loop (S f) (ent ++ rest) = ch :: decode_loop f rest.
Proof.
  intros Hin. repeat destruct Hin as [[= <- <-]|Hin]; try done.
Qed.

Lemma decode_loop_plain f c s :
  c <> 38 -> decode_loop (S f) (c :: s) = c :: decode_loop (S f) s.
Proof.
  intros Hc. cbn [decode_loop find_split].
  assert (starts_with [38] (c :: s) = false) as ->.
  { unfold starts_with. cbn [strip_prefix]. by destruct (Z.eqb_spec 38 c); [lia|]. }
  destruct (find_split [38] s) as [[a occ]|]; done.
Qed.

Lemma decode_loop_escape s f :
  (length (escape_xml s) <= f)%nat -> decode_loop f (escape_xml s) = s.
Proof.
  revert f. induction s as [|c s IH]; intros f Hf; [by destruct f|].
  unfold escape_xml in *. cbn [map concat] in *. rewrite length_app in Hf.
  destruct (escape_char_cases c) as [(ent & Hin & He & _)|[[-> He]|(He & Hc & _)]]; rewrite He in *.
  - destruct f as [|f]; [|rewrite (decode_loop_entity _ _ c), IH by
      (done || (repeat destruct Hin as [[= <- <-]|Hin]; cbn in Hf; lia || done)); done].
    repeat destruct Hin as [[= <- <-]|Hin]; cbn in Hf; lia || done.
  - destruct f as [|f]; [cbn in Hf; lia|].
    rewrite (decode_loop_entity _ _ 60), IH by (cbn in Hf; lia || (by right; left)). done.
  - cbn [app length] in *. destruct f as [|f]; [lia|]. rewrite decode_loop_plain, IH by (done || lia). done.
Qed.

Lemma escape_no_lt s : 60 ∉ escape_xml s.
Proof.
  unfold escape_xml. rewrite list_elem_of_In, in_concat. intros (x & Hx & H60).
  apply in_map_iff in Hx as (c & <- & _).
  destruct (escape_char_cases c) as [(ent & Hin & He & _)|[[-> He]|(He & _ & Hc)]]; rewrite He in H60.
  - repeat destruct Hin as [[= <- <-]|Hin]; try done; cbn in H60; intuition lia.
  - cbn in H60. intuition lia.
  - cbn in H60. intuition lia.
Qed.

(** One element of a document: text of no markup before it, its attributes and
    its content. *)
Definition element_text (tag : str) (e : str * str * str) : str :=
  let '(before, attrs, content) := e in
  before ++ lit "<" ++ tag ++ (if str_is_empty attrs then [] else lit " " ++ attrs) ++ lit ">"
    ++ escape_xml content ++ lit "</" ++ tag ++ lit ">".
Definition element_wf (e : str * str * str) : Prop := 60 ∉ e.1.1 /\ 62 ∉ e.1.2.

Lemma after_start_tag_element attrs tail :
  62 ∉ attrs ->
  after_start_tag ((if str_is_empty attrs then [] else lit " " ++ attrs) ++ 62 :: tail) =
    Some (Some tail).
Proof.
  intros Ha. destruct attrs as [|a attrs]; [done|]. cbn [str_is_empty].
  change ((lit " " ++ a :: attrs) ++ 62 :: tail) with (32 :: (a :: attrs) ++ 62 :: tail).
  cbn [after_start_tag Z.eqb Pos.eqb]. change (is_whitespace 32) with true. cbn iota.
  change (32 :: (a :: attrs) ++ 62 :: tail) with ((32 :: a :: attrs) ++ 62 :: [] ++ tail).
  rewrite find_split_app by (rewrite elem_of_cons; set_solver by lia). done.
Qed.

Lemma element_layout tag before attrs content es tail :
  (element_text tag (before, attrs, content) ++ es) ++ tail =
    before ++ 60 :: tag ++ ((if str_is_empty attrs then [] else lit " " ++ attrs)
      ++ 62 :: (escape_xml content ++ (lit "</" ++ tag ++ lit ">") ++ es ++ tail)).
Proof. unfold element_text. rewrite <- !app_assoc. reflexivity. Qed.

Lemma xml_scan_elements tag es tail f :
  Forall element_wf es -> 60 ∉ tail ->
  (length (concat (map (element_text tag) es) ++ tail) <= f)%nat ->
  xml_scan f (lit "<" ++ tag) (lit "</" ++ tag ++ lit ">") (concat (map (element_text tag) es) ++ tail) =
    map snd es.
Proof.
  intros Hes Ht. revert f. induction Hes as [|[[before attrs] content] es [Hb Ha] Hes IH]; intros f Hf.
  - cbn [map concat app]. destruct f as [|f]; [done|]. cbn [xml_scan].
    change (lit "<" ++ tag) with (60 :: tag). by rewrite find_split_none.
  - cbn [map concat fst snd] in *. rewrite element_layout in Hf |- *.
    set (rest := concat (map (element_text tag) es) ++ tail) in *.
    set (open_end := (if str_is_empty attrs then [] else lit " " ++ attrs)) in *.
    set (close := lit "</" ++ tag ++ lit ">") in *.
    change (lit "<" ++ tag) with (60 :: tag) in *.
    destruct f as [|f].
    { rewrite length_app in Hf. cbn [length] in Hf. lia. }
    cbn [xml_scan]. rewrite find_split_app by done.
    change (60 :: tag ++ ?x) with ((60 :: tag) ++ x). rewrite drop_app_length.
    unfold open_end. rewrite after_start_tag_element by done.
    change close with (60 :: (lit "/" ++ tag ++ lit ">")).
    change ((60 :: (lit "/" ++ tag ++ lit ">")) ++ rest) with (60 :: (lit "/" ++ tag ++ lit ">") ++ rest).
    rewrite find_split_app by apply escape_no_lt.
    change (60 :: (lit "/" ++ tag ++ lit ">") ++ rest) with (close ++ rest). rewrite drop_app_length.
    f_equal; [by apply decode_loop_escape|]. apply IH. fold rest.
    rewrite !length_app in Hf. cbn [length] in Hf. rewrite !length_app in Hf. cbn [length] in Hf.
    rewrite !length_app in Hf. lia.
Qed.

(** The scanner returns the content of every element of a document in order,
    with its attributes ignored and its entities decoded, when the text between
    the elements holds no markup. *)
Theorem xml_element_text_roundtrip tag es tail :
  Forall element_wf es -> 60 ∉ tail ->
  xml_element_text (concat (map (element_text tag) es) ++ tail) tag = map snd es.
Proof. intros Hes Ht. unfold xml_element_text. by apply xml_scan_elements. Qed.

Lemma xml_element_text_roundtrip_witness :
  xml_element_text (lit "a<w:t>x &lt; y</w:t> <w:t xml:space='p'>R&amp;D</w:t>.") (lit "w:t") =
    [lit "x < y"; lit "R&D"].
Proof.
  refine (xml_element_text_roundtrip (lit "w:t")
    [(lit "a", [], lit "x < y"); (lit " ", lit "xml:space='p'", lit "R&D")] (lit ".") _ _).
  - repeat constructor; apply (bool_decide_unpack _); vm_compute; exact I.
  - apply (bool_decide_unpack _). vm_compute. exact I.
Defined.

(** ** Plain text *)

(** ** Plain text *)

Lemma as_bytes_cons c s : as_bytes (c :: s) = utf8_char c ++ as_bytes s.
Proof. done. Qed.

Lemma scalar_bounds c : is_scalar c = true -> 0 <= c < 1114112 /\ (c < 55296 \/ 57344 <= c).
Proof. unfold is_scalar. intros [H|H]%orb_prop; bool_hyps; lia. Qed.

(** A text whose bytes start with a byte-order mark starts with that character;
    no text starts with a UTF-16 mark. *)
Lemma as_bytes_head s b0 bs :
  forallb is_scalar s = true -> as_bytes s = b0 :: bs ->
  exists c s', s = c :: s' /\ (utf8_next b0 bs).1 = Some c.
Proof.
  destruct s as [|c s]; [done|]. intros Hs. cbn in Hs. bool_hyps. rewrite as_bytes_cons.
  destruct (utf8_next_char c (as_bytes s) ltac:(done)) as (x & tl & -> & Hn).
  intros [= <- <-]. exists c, s. by rewrite Hn.
Qed.

Lemma strip_utf16_mark s a b :
  forallb is_scalar s = true -> (a = 0xff \/ a = 0xfe) -> strip_prefix [a; b] (as_bytes s) = None.
Proof.
  intros Hs Ha. destruct (as_bytes s) as [|b0 bs] eqn:E; [done|].
  destruct (as_bytes_head _ _ _ Hs E) as (c & s' & -> & Hn). cbn [strip_prefix].
  destruct (Z.eqb_spec a b0) as [<-|]; [|done]. exfalso.
  by destruct Ha as [-> | ->]; cbn in Hn.
Qed.

Lemma strip_utf8_mark s :
  forallb is_scalar s = true -> head s <> Some 0xFEFF ->
  strip_prefix [0xef; 0xbb; 0xbf] (as_bytes s) = None.
Proof.
  intros Hs Hh. destruct (strip_prefix _ _) as [r|] eqn:E; [|done]. exfalso.
  apply strip_prefix_Some in E. cbn [app] in E.
  destruct (as_bytes_head _ _ _ Hs E) as (c & s' & -> & Hn). by cbn in Hn.
Qed.

Lemma utf8_char_nul c : is_scalar c = true -> 0 ∈ utf8_char c -> c = 0.
Proof.
  intros Hc. apply scalar_bounds in Hc. unfold utf8_char.
  pose proof (Z.mod_pos_bound c 64). pose proof (Z.mod_pos_bound (c / 64) 64).
  pose proof (Z.mod_pos_bound (c / 4096) 64).
  assert (0 <= c / 64 /\ 0 <= c / 4096 /\ 0 <= c / 262144) as (? & ? & ?)
    by (split_and!; apply Z.div_pos; lia).
  repeat case_match; bool_hyps; rewrite !elem_of_cons, elem_of_nil; lia.
Qed.

Lemma as_bytes_nul s : forallb is_scalar s = true -> 0 ∉ s -> 0 ∉ as_bytes s.
Proof.
  induction s as [|c s IH]; intros Hs H0; [done|]. cbn in Hs. bool_hyps.
  rewrite as_bytes_cons, elem_of_app. intros [Hc|Hc].
  - apply utf8_char_nul in Hc; [|done]. set_solver.
  - apply IH in Hc; [done..|set_solver].
Qed.

Definition utf16_bytes (big_endian : bool) (units : list Z) : bytes :=
  concat (map (if big_endian then to_be_bytes 2 else to_le_bytes 2) units).

Lemma utf16_units_bytes be units :
  Forall (fun u => 0 <= u < 65536) units -> utf16_units be (utf16_bytes be units) = units.
Proof.
  induction 1 as [|u us Hu _ IH]; [done|]. unfold utf16_bytes in *. cbn [map concat].
  pose proof (from_to_le_bytes 2 u ltac:(cbn; lia)) as Hr. cbn [to_le_bytes] in Hr.
  destruct be; unfold to_be_bytes in *; cbn [to_le_bytes rev app utf16_units]; f_equal; try done.
Qed.

Lemma length_utf16_bytes be units : length (utf16_bytes be units) = (2 * length units)%nat.
Proof.
  unfold utf16_bytes. induction units as [|u us IH]; [done|]. cbn [map concat length].
  rewrite length_app, IH. destruct be; cbn; lia.
Qed.

Lemma encode_utf16_bound s :
  forallb is_scalar s = true -> Forall (fun u => 0 <= u < 65536) (encode_utf16 s).
Proof.
  induction s as [|c s IH]; intros Hs; [constructor|]. cbn in Hs. bool_hyps.
  unfold encode_utf16 in *. cbn [map concat]. apply Forall_app. split; [|by apply IH].
  apply scalar_bounds in H. unfold utf16_char. destruct (Z.ltb_spec c 0x10000); [repeat constructor; lia|].
  pose proof (Z.mod_pos_bound (c - 0x10000) 1024). pose proof (div_mod_split (c - 0x10000) 1024).
  repeat constructor; lia.
Qed.

Lemma decode_utf16_encode be s :
  forallb is_scalar s = true -> decode_utf16 (utf16_bytes be (encode_utf16 s)) be = Ok s.
Proof.
  intros Hs. unfold decode_utf16. rewrite length_utf16_bytes.
  replace (Z.of_nat (2 * length (encode_utf16 s)) mod 2) with 0
    by (rewrite Nat2Z.inj_mul, Z.mul_comm; by rewrite Z.mod_mul).
  cbn [Z.eqb negb]. by rewrite utf16_units_bytes, from_encode_utf16 by (done || by apply encode_utf16_bound).
Qed.

Lemma decode_utf8_body s :
  forallb is_scalar s = true ->
  ok_or (from_utf8 (as_bytes s)) (unreadable BinaryContent) = Ok s.
Proof. intros Hs. by rewrite from_utf8_as_bytes. Qed.

(** A text file decodes to the text that was written, in UTF-8 with or without
    a byte-order mark and in UTF-16 of either byte order; only a UTF-8 file
    without a mark must not start with U+FEFF, and UTF-8 text holds no NUL. *)
Theorem decode_plain_text_roundtrip s :
  forallb is_scalar s = true ->
  (0 ∉ s -> head s <> Some 0xFEFF -> decode_plain_text (as_bytes s) = Ok s) /\
  (0 ∉ s -> decode_plain_text ([0xef; 0xbb; 0xbf] ++ as_bytes s) = Ok s) /\
  decode_plain_text ([0xff; 0xfe] ++ utf16_bytes false (encode_utf16 s)) = Ok s /\
  decode_plain_text ([0xfe; 0xff] ++ utf16_bytes true (encode_utf16 s)) = Ok s.
Proof.
  intros Hs. unfold decode_plain_text. split; [|split; [|split]].
  - intros H0 Hh. rewrite !strip_utf16_mark by auto.
    rewrite bool_decide_eq_false_2 by by apply as_bytes_nul.
    rewrite strip_utf8_mark by done. by apply decode_utf8_body.
  - intros H0. cbn [app strip_prefix Z.eqb Pos.eqb].
    rewrite bool_decide_eq_false_2
      by (rewrite !elem_of_cons; intros [|[|[|?]]]; try lia; by eapply as_bytes_nul).
    by apply decode_utf8_body.
  - cbn [app strip_prefix Z.eqb Pos.eqb]. by apply (decode_utf16_encode false).
  - cbn [app strip_prefix Z.eqb Pos.eqb]. by apply (decode_utf16_encode true).
Qed.

Lemma decode_plain_text_roundtrip_witness :
  let s := [0x41; 0x20AC; 0x1F600] in
  forallb is_scalar s = true /\
  decode_plain_text [0x41; 0xE2; 0x82; 0xAC; 0xF0; 0x9F; 0x98; 0x80] = Ok s /\
  decode_plain_text [0xff; 0xfe; 0x41; 0; 0xAC; 0x20; 0x3D; 0xD8; 0; 0xDE] = Ok s.
Proof.
  intros s. destruct (decode_plain_text_roundtrip s ltac:(reflexivity)) as (H1 & _ & H3 & _).
  split; [reflexivity|]. split; [|exact H3].
  apply H1; [apply (bool_decide_unpack _); vm_compute; exact I|vm_compute; congruence].
Defined.

(** ** Encrypted containers and the text budget *)

Definition refusal (e : Unreadable) : Prop :=
  reason e = EncryptedContainer \/ reason e = CorruptContainer.

(** A container that is read at all holds no encrypted entry. *)
Lemma read_entries_unencrypted p cap items entries :
  read_entries p cap items = Ok entries ->
  forall item, item ∈ items -> exists raw, by_index_raw item = Some raw /\ encrypted raw = false.
Proof.
  revert entries. induction items as [|it items IH]; intros entries H item Hin; [by apply elem_of_nil in Hin|].
  cbn [read_entries] in H. destruct (by_index_raw it) as [raw|] eqn:Hr; [|done].
  cbn [ok_or mbind result_bind] in H. destruct (encrypted raw) eqn:He; [done|].
  cbn [negb ensure mbind result_bind] in H.
  assert (exists es, read_entries p cap items = Ok es) as [es Hes].
  { destruct (negb _); [by eexists|]. destruct (_ <? _); inv_ok; by eexists. }
  apply elem_of_cons in Hin as [->|Hin]; [by exists raw|by eapply IH].
Qed.

Section Containers.
Context {U : Unicode} {X : ExtractEnv}.

Lemma read_zip_unencrypted bs p cap entries :
  read_zip_entries bs p cap = Ok entries ->
  exists items, zip_new bs = Some items /\
    forall item, item ∈ items -> exists raw, by_index_raw item = Some raw /\ encrypted raw = false.
Proof.
  unfold read_zip_entries. intros H. inv_ok. exists a. split; [done|]. by eapply read_entries_unencrypted.
Qed.

(** Fail secure on encryption: a container that yields text has no encrypted
    entry at all, not even a directory or a member nobody reads. *)
Theorem encrypted_entry_refuses fuel bs ext depth budget text budget' :
  ext ∈ [lit "docx"; lit "xlsx"; lit "pptx"; lit "zip"] ->
  extract_by_extension fuel bs ext depth budget = Some (Ok text, budget') ->
  exists items, zip_new bs = Some items /\
    forall item, item ∈ items -> exists raw, by_index_raw item = Some raw /\ encrypted raw = false.
Proof.
  destruct fuel as [|fuel]; [done|]. cbn [extract_by_extension]. intros Hext H.
  rewrite !elem_of_cons, elem_of_nil in Hext. destruct_or! Hext; subst ext; try done.
  all: vm_compute (is_text_extension _) in H; vm_compute (bool_decide _) in H; cbn iota in H.
  1-3: destruct (is_cfb bs); [done|]; injection H as H _.
  - unfold extract_docx in H. inv_ok. by eapply read_zip_unencrypted.
  - unfold extract_xlsx in H. inv_ok. by eapply read_zip_unencrypted.
  - unfold extract_pptx in H. inv_ok. by eapply read_zip_unencrypted.
  - unfold extract_zip in H. destruct (read_zip_entries _ _ _) eqn:E; [|done].
    by eapply read_zip_unencrypted.
Qed.

Definition total_chars (pieces : list str) : Z :=
  foldr (fun p n => Z.of_nat (length p) + n) 0 pieces.

Lemma total_chars_app a b : total_chars (a ++ b) = total_chars a + total_chars b.
Proof. unfold total_chars. induction a as [|x a IH]; cbn [app foldr]; lia. Qed.

Lemma clip_loop_spec max s : forall count, 0 <= count <= max ->
  let '(t, n) := clip_loop max count s in
  Z.of_nat (length t) = n - count /\ count <= n <= max.
Proof.
  induction s as [|c s IH]; intros count Hc; cbn [clip_loop]; [cbn; lia|].
  destruct (Z.eqb_spec count max) as [|Hne]; [cbn; lia|]. specialize (IH (count + 1) ltac:(lia)).
  destruct (clip_loop max (count + 1) s) as [t n]. cbn [length]. lia.
Qed.

Lemma str_len_chars s : Z.of_nat (length s) <= str_len s.
Proof.
  unfold str_len. apply Nat2Z.inj_le. unfold as_bytes. induction s as [|c s IH]; [done|].
  cbn [map concat length]. rewrite length_app.
  assert (0 < length (utf8_char c))%nat by (unfold utf8_char; repeat case_match; cbn; lia). lia.
Qed.

Lemma clip_chars_spec text max :
  0 <= max ->
  let '(t, n) := clip_chars text max in Z.of_nat (length t) = n /\ 0 <= n <= max.
Proof.
  intros Hm. unfold clip_chars. destruct (Z.leb_spec (str_len text) max).
  - pose proof (str_len_chars text). lia.
  - pose proof (clip_loop_spec max text 0 ltac:(lia)). destruct (clip_loop max 0 text). lia.
Qed.

(** What a recursive call promises: it ends, and only spends budget. *)
Definition spends (r : run) (budget : Z) : Prop :=
  exists res budget', r = Some (res, budget') /\ 0 <= budget' <= budget.

Lemma zip_members_spends recur depth entries budget pieces :
  0 <= budget ->
  (forall bs ext b, 0 <= b -> (ext = lit "zip" -> depth < ZIP_MAX_DEPTH) ->
    spends (recur bs ext (depth + if bool_decide (ext = lit "zip") then 1 else 0) b) b) ->
  exists res budget', zip_members recur depth entries budget pieces = Some (res, budget') /\
    0 <= budget' <= budget /\
    forall text, res = Ok text ->
      exists all, text = join [10] all /\ total_chars all <= total_chars pieces + budget - budget'.
Proof.
  intros Hb Hrec. revert budget pieces Hb.
  induction entries as [|e entries IH]; intros budget pieces Hb; cbn [zip_members].
  { eexists _, _. split; [done|]. split; [lia|]. intros text [= <-]. exists pieces. split; [done|lia]. }
  assert (forall b p, 0 <= b <= budget -> total_chars p <= total_chars pieces + budget - b ->
    exists res budget', zip_members recur depth entries b p = Some (res, budget') /\
      0 <= budget' <= budget /\ forall text, res = Ok text ->
      exists all, text = join [10] all /\ total_chars all <= total_chars pieces + budget - budget') as Hgo.
  { intros b p Hb' Hp. destruct (IH b p ltac:(lia)) as (res & b2 & -> & Hb2 & Ht).
    exists res, b2. split; [done|]. split; [lia|]. intros text Hok.
    destruct (Ht text Hok) as (all & -> & Hall). exists all. split; [done|lia]. }
  destruct (ze_data e) as [data|]; [|apply Hgo; lia].
  destruct (Z.eqb_spec budget 0) as [Hz0|Hz0].
  { eexists _, _. split; [done|]. split; [lia|]. intros text [= <-]. exists pieces. split; [done|lia]. }
  set (ext := extension_of (ze_name e)) in *.
  case_bool_decide as Hz; cbn [andb]; cbv zeta.
  - destruct (Z.leb_spec ZIP_MAX_DEPTH depth); [apply Hgo; lia|].
    pose proof (Hrec data ext budget Hb ltac:(done)) as (res & b1 & Hr & Hb1).
    rewrite bool_decide_eq_true_2 in Hr by done. rewrite Hr. cbn [mbind option_bind].
    destruct res as [text|err].
    + destruct (str_is_empty text); [apply Hgo; lia|].
      pose proof (clip_chars_spec text b1 ltac:(lia)) as Hc. destruct (clip_chars text b1) as [t n].
      apply Hgo; [lia|]. rewrite total_chars_app. cbn [total_chars foldr]. lia.
    + case_bool_decide; [|apply Hgo; lia]. eexists _, _. split; [done|]. split; [lia|done].
  - pose proof (Hrec data ext budget Hb ltac:(done)) as (res & b1 & Hr & Hb1).
    rewrite bool_decide_eq_false_2 in Hr by done. rewrite Hr. cbn [mbind option_bind].
    destruct res as [text|err].
    + destruct (str_is_empty text); [apply Hgo; lia|].
      pose proof (clip_chars_spec text b1 ltac:(lia)) as Hc. destruct (clip_chars text b1) as [t n].
      apply Hgo; [lia|]. rewrite total_chars_app. cbn [total_chars foldr]. lia.
    + case_bool_decide; [|apply Hgo; lia]. eexists _, _. split; [done|]. split; [lia|done].
Qed.

(** Fuel enough for a call: one level, and for archives a level per depth left. *)
Definition enough (fuel : nat) (ext : str) (depth : Z) : Prop :=
  (1 <= fuel)%nat /\ (ext = lit "zip" -> ZIP_MAX_DEPTH + 2 - depth <= Z.of_nat fuel /\ depth <= ZIP_MAX_DEPTH).

Lemma extract_by_extension_spends fuel bs ext depth budget :
  0 <= budget -> enough fuel ext depth ->
  exists res budget', extract_by_extension fuel bs ext depth budget = Some (res, budget') /\
    0 <= budget' <= budget /\
    (ext = lit "zip" -> forall text, res = Ok text ->
      exists all, text = join [10] all /\ total_chars all <= budget - budget').
Proof.
  revert bs ext depth budget. induction fuel as [|fuel IH]; intros bs ext depth budget Hb [Hf Hz]; [lia|].
  cbn [extract_by_extension].
  assert (forall r : result Unreadable str, ext <> lit "zip" ->
    exists res budget', Some (r, budget) = Some (res, budget') /\ 0 <= budget' <= budget /\
    (ext = lit "zip" -> forall text, res = Ok text ->
      exists all, text = join [10] all /\ total_chars all <= budget - budget')) as Hleaf.
  { intros r Hne. exists r, budget. split; [done|]. split; [lia|done]. }
  destruct (is_text_extension ext) eqn:Ht; [apply Hleaf; intros ->; vm_compute in Ht; done|].
  case_bool_decide as Ho.
  { assert (ext <> lit "zip") by (intros ->; revert Ho; apply (bool_decide_unpack _); vm_compute; exact I).
    repeat case_match; by apply Hleaf. }
  case_bool_decide as Hp; [apply Hleaf; by intros ->|].
  case_bool_decide as Hzip; [|by apply Hleaf].
  destruct (Hz Hzip) as [Hz1 Hz2]. unfold extract_zip.
  destruct (read_zip_entries bs (fun _ => true) ZIP_MEMBER_CAP_BYTES) as [entries|err].
  2:{ eexists _, _. split; [done|]. split; [lia|done]. }
  destruct (zip_members_spends (extract_by_extension fuel) depth entries budget []) as (res & b' & -> & Hb' & Hall).
  - done.
  - intros bs' ext' b Hb0 Hd. destruct (IH bs' ext' (depth + if bool_decide (ext' = lit "zip") then 1 else 0) b)
      as (res & b' & Hr & Hbb & _); [done| |by exists res, b'].
    split; [unfold ZIP_MAX_DEPTH in *; lia|]. intros He. specialize (Hd He).
    rewrite bool_decide_eq_true_2 by done. unfold ZIP_MAX_DEPTH in *. lia.
  - exists res, b'. split; [done|]. split; [done|]. intros _ text Hok.
    destruct (Hall text Hok) as (all & -> & Hle). exists all. split; [done|]. cbn [total_chars foldr] in Hle. lia.
Qed.

Lemma extract_text_total bs filename : exists r, extract_text bs filename = Some r.
Proof.
  unfold extract_text. destruct (_ <? _); [by eexists|].
  destruct (extract_by_extension_spends EXTRACT_FUEL bs (extension_of filename) 1 ZIP_TOTAL_TEXT_CAP)
    as (res & b' & -> & _).
  - vm_compute. congruence.
  - split; [vm_compute; lia|]. intros _. vm_compute. split; congruence.
  - cbn [mbind option_bind]. by eexists.
Qed.

(** C31: Extraction always ends within the depth cap, and an archive, whatever its
    nesting, yields at most [ZIP_TOTAL_TEXT_CAP] characters of member text,
    joined by newlines. *)
Theorem extract_text_bounded bs filename :
  exists r, extract_text bs filename = Some r /\
    forall t, r = Ok t -> extension_of filename = lit "zip" ->
      exists pieces, et_text t = join [10] pieces /\ total_chars pieces <= ZIP_TOTAL_TEXT_CAP.
Proof.
  unfold extract_text. destruct (_ <? _); [by eexists|].
  destruct (extract_by_extension_spends EXTRACT_FUEL bs (extension_of filename) 1 ZIP_TOTAL_TEXT_CAP)
    as (res & b' & -> & Hb & Hall).
  - vm_compute. congruence.
  - split; [vm_compute; lia|]. intros _. vm_compute. split; congruence.
  - cbn [mbind option_bind]. eexists. split; [done|]. intros t Ht Hzip. inv_ok. cbn [et_text].
    destruct (Hall Hzip a ltac:(done)) as (pieces & -> & Hle). exists pieces. split; [done|lia].
Qed.
End Containers.

(** A reader that knows one archive: a directory entry and a text member. *)
Definition sample_archive : ExtractEnv := {|
  zip_new := fun bs => if starts_with [80; 75] bs then
    Some [{| by_index_raw := Some {| encrypted := false; raw_name := lit "d/"; size := 0; is_dir := true |};
             by_index := None |};
          {| by_index_raw := Some {| encrypted := false; raw_name := lit "d/a.txt"; size := 3; is_dir := false |};
             by_index := Some (fun n => Some (lit "abc")) |}]
    else None;
  pdf_extract := fun _ => PdfPanic;
|}.

Lemma encrypted_entry_refuses_witness :
  extract_by_extension (U := ascii_unicode) (X := sample_archive) 2 [80; 75] (lit "zip") 1 100 =
    Some (Ok (lit "abc"), 97) /\
  exists items, zip_new (ExtractEnv := sample_archive) [80; 75] = Some items /\
    forall item, item ∈ items -> exists raw, by_index_raw item = Some raw /\ encrypted raw = false.
Proof.
  assert (extract_by_extension (U := ascii_unicode) (X := sample_archive) 2 [80; 75] (lit "zip") 1 100 =
    Some (Ok (lit "abc"), 97)) as H by (vm_compute; reflexivity).
  split; [exact H|].
  refine (encrypted_entry_refuses (U := ascii_unicode) (X := sample_archive) 2 [80; 75] (lit "zip") 1 100
    (lit "abc") 97 _ H).
  apply (bool_decide_unpack _). vm_compute. exact I.
Defined.
