(* ===== verification/Verdict.v ===== *)
(** The verdict ([src/detect/verdict.rs]): the one entry point the channels
    call.  It extracts the text, matches it against a loaded bundle and reports
    the protected documents and rows found. *)

From S2P Require Import Prelude Words Text F64 Unicode Fingerprint Bundle Edm Utf8 Extract.
#[local] Open Scope Z_scope.

Inductive Extraction := ExtractionOk (format : str) | ExtractionUnreadable (reason : str).

Record IdmMatch := {
  m_version_id : str;
  m_document_id : str;
  m_collection_id : str;
  m_title : str;
  m_containment : f64;
  m_coverage : f64;
  matched_count : Z;
  total_count : Z;
  matched_hashes : list str;
}.

Record Verdict := {
  file_name : str;
  file_sha256 : str;
  extraction : Extraction;
  v_idm : list IdmMatch;
  v_edm : list EdmSourceHit;
}.

(** The distinct hashes in first-seen order: the loop with its [seen] set. *)
Fixpoint distinct_hashes (seen : gset Z) (fps : list Fingerprint) : list Z :=
  match fps with
  | [] => []
  | fp :: fps' =>
      if bool_decide (fp_hash fp ∈ seen) then distinct_hashes seen fps'
      else fp_hash fp :: distinct_hashes ({[fp_hash fp]} ∪ seen) fps'
  end.

(** Bloom-gate each scanned hash and push it to the documents of its records;
    [None] when the pre-filter panics. *)
Fixpoint matched_per_doc (b : Bundle) (scanned : list Z) (per_doc : list (Z * list Z))
    : option (list (Z * list Z)) :=
  match scanned with
  | [] => Some per_doc
  | hash :: scanned' =>
      hit ← bloom_has b hash;
      if negb hit then matched_per_doc b scanned' per_doc
      else
        matched_per_doc b scanned'
          (foldl (fun m e => bt_push Z.compare (doc_index e) hash m) per_doc (lookup_idm b hash))
  end.

(** One [IdmMatch] for a document; [None] when the index is out of range. *)
Definition idm_match (b : Bundle) (n_scanned : Z) (entry : Z * list Z) : option IdmMatch :=
  doc ← docs (header b) !! Z.to_nat entry.1;
  let n := Z.of_nat (length entry.2) in
  Some {| m_version_id := version_id doc; m_document_id := document_id doc;
          m_collection_id := collection_id doc; m_title := title doc;
          m_containment :=
            if fp_count doc =? 0 then f64_zero else f64_div (f64_of_Z n) (f64_of_Z (fp_count doc));
          m_coverage :=
            if n_scanned =? 0 then f64_zero else f64_div (f64_of_Z n) (f64_of_Z n_scanned);
          matched_count := n; total_count := fp_count doc;
          matched_hashes := map dec_signed entry.2 |}.

(** Strongest containment first, then by title. *)
Definition match_cmp (a b : IdmMatch) : comparison :=
  match default Eq (partial_cmp (m_containment b) (m_containment a)) with
  | Eq => str_cmp (m_title a) (m_title b)
  | c => c
  end.

Section Matching.
Context {U : Unicode} {D : Digest} {X : ExtractEnv}.

Definition sha256_hex (bs : bytes) : str := hex (sha256 bs).

(** The distinct hashes of a text under the parameters of the bundle, and its
    tokens. *)
Definition scan (text : str) (b : Bundle) : option (list Z * list str) :=
  let normalized := normalize text in
  shingles ← shingles_of (tokens normalized) (k (params (header b)));
  fingerprints ← winnow (map fnv1a64 shingles) (w (params (header b)));
  Some (distinct_hashes ∅ fingerprints, tokens normalized).

Definition match_text (text : str) (b : Bundle) : option (list IdmMatch * list EdmSourceHit) :=
  '(scanned, tokens) ← scan text b;
  per_doc ← matched_per_doc b scanned [];
  idm ← mapM (idm_match b (Z.of_nat (length scanned))) per_doc;
  edm ← match_edm b tokens;
  Some (sort_by match_cmp idm, edm).

(** [None] where the code would panic. *)
Definition verdict_bytes (content : bytes) (filename : str) (b : Bundle) : option Verdict :=
  let file_sha256 := sha256_hex content in
  extracted ← extract_text content filename;
  match extracted with
  | Err u =>
      Some {| file_name := filename; file_sha256 := file_sha256;
              extraction := ExtractionUnreadable (code (reason u)); v_idm := []; v_edm := [] |}
  | Ok e =>
      '(idm, edm) ← match_text (et_text e) b;
      Some {| file_name := filename; file_sha256 := file_sha256;
              extraction := ExtractionOk (et_format e); v_idm := idm; v_edm := edm |}
  end.

Definition verdict_text (text : str) (b : Bundle) : option Verdict :=
  let file_sha256 := sha256_hex (as_bytes text) in
  '(idm, edm) ← match_text text b;
  Some {| file_name := []; file_sha256 := file_sha256; extraction := ExtractionOk (lit "text");
          v_idm := idm; v_edm := edm |}.

(** [verdict(path)]: [read] is what [fs::read] returned, [name] the last
    component of the path and [shown] the path as displayed. *)
Definition verdict (read : option bytes) (name : option str) (shown : str) (b : Bundle)
    : option (result str Verdict) :=
  match read with
  | None => Some (Err (lit "reading " ++ shown))
  | Some content => Ok <$> verdict_bytes content (default shown name) b
  end.

(** ** What the documents' matches are *)

(** The scanned hashes that the bundle records for document [d]. *)
Definition doc_hashes (b : Bundle) (scanned : list Z) (d : Z) : list Z :=
  filter (fun h => bloom_has b h = Some true /\
    Exists (fun e => idm_hash e = h /\ doc_index e = d) (idm b)) scanned.

Definition matched_docs (b : Bundle) (scanned : list Z) : list Z :=
  filter (fun d => doc_hashes b scanned d <> []) (seqZ 0 (Z.of_nat (length (docs (header b))))).

Lemma bt_get_push {V} kk (v : V) (m : list (Z * list V)) k' :
  StronglySorted Z.lt m.*1 ->
  bt_get Z.compare k' (bt_push Z.compare kk v m) =
    if decide (k' = kk) then Some (default [] (bt_get Z.compare kk m) ++ [v])
    else bt_get Z.compare k' m.
Proof. intros Hs. unfold bt_push. by rewrite bt_get_update. Qed.

(** Pushing one hash to the documents of a list of records without repeats. *)
Lemma push_docs (hash : Z) es (m : list (Z * list Z)) :
  StronglySorted Z.lt m.*1 -> NoDup (map doc_index es) ->
  let m' := foldl (fun m e => bt_push Z.compare (doc_index e) hash m) m es in
  StronglySorted Z.lt m'.*1 /\
  forall d, bt_get Z.compare d m' =
    if bool_decide (d ∈ map doc_index es) then Some (default [] (bt_get Z.compare d m) ++ [hash])
    else bt_get Z.compare d m.
Proof.
  revert m. induction es as [|e es IH]; intros m Hs Hnd m'; unfold m'; clear m'; cbn [foldl map].
  - split; [done|]. intros d. rewrite bool_decide_eq_false_2; [done|by intros ?%elem_of_nil].
  - cbn [map] in Hnd. apply NoDup_cons in Hnd as [Hni Hnd].
    destruct (IH (bt_push Z.compare (doc_index e) hash m)) as [I1 I2]; [by apply bt_update_sorted|done|].
    split; [exact I1|]. intros d. rewrite I2, bt_get_push by done.
    destruct (decide (d = doc_index e)) as [->|Hne].
    + rewrite bool_decide_eq_false_2 by done. by rewrite bool_decide_eq_true_2 by by left.
    + apply (f_equal2 (fun (c : bool) x => if c then x else _)); [|done].
      apply bool_decide_ext. rewrite elem_of_cons. naive_solver.
Qed.

(** Two maps in key order with the same lookups are the same list. *)
Lemma bt_ext {V} (m1 m2 : list (Z * V)) :
  StronglySorted Z.lt m1.*1 -> StronglySorted Z.lt m2.*1 ->
  (forall d, bt_get Z.compare d m1 = bt_get Z.compare d m2) -> m1 = m2.
Proof.
  revert m2. induction m1 as [|[k1 v1] m1 IH]; intros [|[k2 v2] m2] H1 H2 He; cbn in *; [done|..].
  - specialize (He k2). by rewrite Z.compare_refl in He.
  - specialize (He k1). by rewrite Z.compare_refl in He.
  - inversion_clear H1 as [|? ? S1 L1]. inversion_clear H2 as [|? ? S2 L2].
    assert (k1 = k2) as ->.
    { pose proof (He k1) as E1. pose proof (He k2) as E2. rewrite Z.compare_refl in E1, E2.
      destruct (Z.compare_spec k1 k2) as [|Hlt|Hgt]; [done|exfalso..].
      - rewrite bt_get_lt in E1; [done|]. eapply Forall_impl; [exact L2|]. cbn. lia.
      - destruct (Z.compare_spec k2 k1); try lia. rewrite bt_get_lt in E2; [done|].
        eapply Forall_impl; [exact L1|]. cbn. lia. }
    pose proof (He k2) as E. rewrite Z.compare_refl in E. injection E as ->. f_equal.
    apply IH; [done..|]. intros d. specialize (He d). destruct (Z.compare_spec d k2); [|done..].
    subst. by rewrite !bt_get_lt.
Qed.
Variable b : Bundle.
Hypothesis Hwf : bundle_wf b.

Lemma idm_records_nodup h : NoDup (map doc_index (filter (fun e => idm_hash e = h) (idm b))).
Proof.
  pose proof (wf_idm_sorted _ Hwf) as Hs. unfold strictly_sorted in Hs.
  induction Hs as [|e es Hs IH He]; [constructor|]. rewrite filter_cons. case_decide as Hh; [|done].
  cbn [map]. constructor; [|done]. rewrite list_elem_of_fmap. intros (e' & Hd & Hin).
  apply list_elem_of_filter in Hin as [Hh' Hin]. rewrite Forall_forall in He. specialize (He e' Hin).
  unfold idm_key in He. rewrite Hh, Hh', Hd in He. cbn [key_le] in He.
  rewrite Z.eqb_refl, Z.ltb_irrefl, Z.eqb_refl in He. cbn in He. by rewrite orb_true_r in He.
Qed.

Lemma elem_of_record_docs h d :
  d ∈ map doc_index (filter (fun e => idm_hash e = h) (idm b)) <->
  Exists (fun e => idm_hash e = h /\ doc_index e = d) (idm b).
Proof.
  rewrite list_elem_of_fmap, Exists_exists. setoid_rewrite list_elem_of_filter. naive_solver.
Qed.

(** The accumulated map after the hashes [seen] have been processed. *)
Definition per_doc_inv (seen : list Z) (m : list (Z * list Z)) : Prop :=
  StronglySorted Z.lt m.*1 /\
  forall d, bt_get Z.compare d m =
    if bool_decide (doc_hashes b seen d = []) then None else Some (doc_hashes b seen d).

Lemma per_doc_inv_default seen m d :
  per_doc_inv seen m -> default [] (bt_get Z.compare d m) = doc_hashes b seen d.
Proof. intros [_ H]. rewrite H. by case_bool_decide as E; [rewrite E|]. Qed.

Definition records (h d : Z) : Prop := Exists (fun e => idm_hash e = h /\ doc_index e = d) (idm b).

#[local] Instance records_dec h d : Decision (records h d).
Proof. unfold records. apply _. Defined.

Lemma doc_hashes_snoc seen h d :
  doc_hashes b (seen ++ [h]) d =
    doc_hashes b seen d ++ (if bool_decide (bloom_has b h = Some true /\ records h d) then [h] else []).
Proof.
  unfold doc_hashes. rewrite filter_app. f_equal. rewrite filter_cons, filter_nil.
  unfold records. case_decide as H1; case_bool_decide as H2; done.
Qed.

Lemma per_doc_inv_hit seen m h :
  is_i64 h -> bloom_has b h = Some true -> per_doc_inv seen m ->
  per_doc_inv (seen ++ [h])
    (foldl (fun m e => bt_push Z.compare (doc_index e) h m) m (lookup_idm b h)).
Proof.
  intros Hi Hhit Hm. rewrite lookup_idm_filter by done.
  destruct (push_docs h _ m (proj1 Hm) (idm_records_nodup h)) as [P1 P2].
  split; [exact P1|]. intros d. rewrite P2, (per_doc_inv_default _ _ _ Hm), doc_hashes_snoc.
  rewrite (bool_decide_ext _ _ (elem_of_record_docs h d)). fold (records h d).
  destruct (decide (records h d)) as [Hr|Hr].
  - rewrite (bool_decide_eq_true_2 (records h d)), (bool_decide_eq_true_2 (_ /\ _)) by done.
    rewrite bool_decide_eq_false_2; [done|]. intros ?%(f_equal length).
    rewrite length_app in *. cbn in *. lia.
  - rewrite (bool_decide_eq_false_2 (records h d)), (bool_decide_eq_false_2 (_ /\ _)) by tauto.
    rewrite app_nil_r. apply Hm.
Qed.

Lemma per_doc_inv_miss seen m h :
  bloom_has b h = Some false -> per_doc_inv seen m -> per_doc_inv (seen ++ [h]) m.
Proof.
  intros Hhit [M1 M2]. split; [exact M1|]. intros d. rewrite doc_hashes_snoc.
  rewrite (bool_decide_eq_false_2 (_ /\ _)) by (intros [? _]; congruence). rewrite app_nil_r. apply M2.
Qed.

Lemma matched_per_doc_spec scanned seen m :
  Forall is_i64 scanned -> per_doc_inv seen m ->
  exists m', matched_per_doc b scanned m = Some m' /\ per_doc_inv (seen ++ scanned) m'.
Proof.
  intros Hi. revert seen m. induction Hi as [|h hs Hh Hi IH]; intros seen m Hm; cbn [matched_per_doc].
  - exists m. by rewrite app_nil_r.
  - destruct (bloom_has_total b h (wf_bloom _ Hwf)) as [hit Hhit]. rewrite Hhit. cbn [mbind option_bind].
    replace (seen ++ h :: hs) with ((seen ++ [h]) ++ hs) by by rewrite <- app_assoc.
    destruct hit; cbn [negb]; apply IH; [by apply per_doc_inv_hit|by apply per_doc_inv_miss].
Qed.

Lemma bt_get_map_seqZ (f : Z -> list Z) (P : Z -> Prop) `{!forall x, Decision (P x)} n d :
  bt_get Z.compare d (map (fun d => (d, f d)) (filter P (seqZ 0 n))) =
    if bool_decide (0 <= d < n /\ P d) then Some (f d) else None.
Proof.
  assert (forall l, bt_get Z.compare d (map (fun d => (d, f d)) l) =
    if bool_decide (d ∈ l) then Some (f d) else None) as Hl.
  { induction l as [|x l IH]; cbn [map bt_get]; [done|]. rewrite IH.
    destruct (Z.compare_spec d x) as [->|Hx|Hx];
      [rewrite bool_decide_eq_true_2 by (by left); reflexivity|..];
      (apply (f_equal (fun c : bool => if c then _ else _))); apply bool_decide_ext;
      rewrite elem_of_cons; intuition lia. }
  rewrite Hl. apply (f_equal (fun c : bool => if c then _ else _)). apply bool_decide_ext.
  rewrite list_elem_of_filter, elem_of_seqZ. naive_solver lia.
Qed.

Lemma filter_seqZ_sorted (P : Z -> Prop) `{!forall x, Decision (P x)} n :
  StronglySorted Z.lt (filter P (seqZ 0 n)).
Proof.
  assert (forall k i, StronglySorted Z.lt (filter P (seqZ i (Z.of_nat k)))) as Hk.
  { induction k as [|k IH]; intros i; [rewrite seqZ_nil by lia; constructor|].
    rewrite seqZ_cons by lia. replace (Z.pred (Z.of_nat (S k))) with (Z.of_nat k) by lia.
    rewrite filter_cons. case_decide; [|apply IH]. constructor; [apply IH|].
    apply Forall_forall. intros x [_ Hx]%list_elem_of_filter. apply elem_of_seqZ in Hx. lia. }
  destruct (Z.le_gt_cases 0 n); [|rewrite seqZ_nil by lia; constructor].
  rewrite <- (Z2Nat.id n) by done. apply Hk.
Qed.

Lemma doc_hashes_range scanned d :
  doc_hashes b scanned d <> [] -> 0 <= d < Z.of_nat (length (docs (header b))).
Proof.
  intros Hne. destruct (doc_hashes b scanned d) as [|h l] eqn:E; [done|].
  assert (h ∈ doc_hashes b scanned d) as Hin by (rewrite E; by left).
  apply list_elem_of_filter in Hin as [[_ Hex] _]. apply Exists_exists in Hex as (e & He & _ & <-).
  pose proof (wf_idm _ Hwf) as Hw. rewrite Forall_forall in Hw. destruct (Hw e He) as (_ & ? & ?). lia.
Qed.

(** What [matched_per_doc] computes, all at once. *)
Lemma matched_per_doc_all scanned :
  Forall is_i64 scanned ->
  matched_per_doc b scanned [] =
    Some (map (fun d => (d, doc_hashes b scanned d)) (matched_docs b scanned)).
Proof.
  intros Hi. destruct (matched_per_doc_spec scanned [] []) as (m & -> & [Hs Hg]); [done| |].
  { split; [constructor|]. intros d. cbn. done. }
  f_equal. apply bt_ext; [done| |].
  - rewrite <- list_fmap_compose. unfold compose. cbn. rewrite list_fmap_id. apply filter_seqZ_sorted.
  - intros d. unfold matched_docs. rewrite Hg, bt_get_map_seqZ. cbn [app]. repeat case_bool_decide; try done; exfalso.
    + naive_solver.
    + pose proof (doc_hashes_range scanned d). naive_solver.
Qed.

Lemma distinct_hashes_i64 seen fps :
  Forall (fun fp => is_i64 (fp_hash fp)) fps -> Forall is_i64 (distinct_hashes seen fps).
Proof.
  intros H. revert seen. induction H as [|fp fps Hf H IH]; intros seen; cbn [distinct_hashes]; [done|].
  case_bool_decide; auto.
Qed.

Lemma winnow_hashes_i64 hashes w fps :
  Forall is_i64 hashes -> winnow hashes w = Some fps -> Forall (fun fp => is_i64 (fp_hash fp)) fps.
Proof.
  intros Hh. assert (forall m, is_i64 (fp_hash (mk_fp hashes m))) as Hm.
  { intros m. unfold mk_fp. cbn [fp_hash]. rewrite list_lookup_total_alt.
    destruct (hashes !! m) eqn:E; [|split; vm_compute; congruence].
    rewrite Forall_forall in Hh. eapply Hh, list_elem_of_lookup_2, E. }
  unfold winnow. destruct (w <? 1)%nat; [done|].
  destruct (length hashes =? 0)%nat; [intros [= <-]; constructor|].
  destruct (length hashes <? w)%nat; [intros [= <-]; constructor; [done|constructor]|]. intros E. apply (inj Some) in E. rewrite <- E. clear E.
  generalize (seq 0 (S (length hashes - w))) as l. intros l.
  assert (forall st, Forall (fun fp => is_i64 (fp_hash fp)) st.1 ->
    Forall (fun fp => is_i64 (fp_hash fp)) (foldl (winnow_step hashes (map as_u64 hashes) w) st l).1) as H
    by (induction l as [|x l IH]; intros st Hst; [done|]; cbn [foldl]; apply IH;
        unfold winnow_step; destruct st as [out prev]; case_bool_decide; [|done];
        apply Forall_app; split; [done|apply Forall_singleton, Hm]).
  apply H. constructor.
Qed.

Lemma scan_total text :
  exists scanned toks, scan text b = Some (scanned, toks) /\ Forall is_i64 scanned.
Proof.
  unfold scan. rewrite (wf_params _ Hwf). cbn [k w]. unfold shingles_of, DEFAULT_K, DEFAULT_W.
  cbn [Nat.ltb Nat.leb].
  match goal with |- context [mbind _ ?s] => assert (exists sh, s = Some sh) as [sh ->] end.
  { repeat case_match; by eexists. }
  cbn [mbind option_bind].
  destruct (winnow (map fnv1a64 sh) 8) as [fps|] eqn:E.
  - cbn [mbind option_bind]. eexists _, _. split; [done|]. apply distinct_hashes_i64.
    eapply winnow_hashes_i64; [|exact E]. apply Forall_map, Forall_forall. intros s _. apply as_i64_bound.
  - exfalso. revert E. unfold winnow. cbn [Nat.ltb Nat.leb]. repeat case_match; done.
Qed.

Lemma idm_match_total n entry :
  0 <= entry.1 < Z.of_nat (length (docs (header b))) -> is_Some (idm_match b n entry).
Proof.
  intros He. unfold idm_match.
  destruct (lookup_lt_is_Some_2 (docs (header b)) (Z.to_nat entry.1)) as [doc ->]; [lia|]. by eexists.
Qed.

Lemma mapM_omap {A B} (f : A -> option B) l :
  Forall (fun x => is_Some (f x)) l -> mapM f l = Some (omap f l) /\ length (omap f l) = length l.
Proof.
  induction 1 as [|x l [y Hy] Hl [IH1 IH2]]; [done|]. cbn. rewrite Hy. cbn. rewrite IH1. cbn.
  unfold omap in IH2 |- *. by rewrite IH2.
Qed.

Lemma idm_match_not_nan n entry m :
  Forall (fun d => is_u64 (fp_count d)) (docs (header b)) ->
  Z.of_nat (length entry.2) < 2 ^ 64 ->
  idm_match b n entry = Some m -> is_nan (m_containment m) = false.
Proof.
  intros Hd Hl. unfold idm_match. destruct (docs (header b) !! _) as [doc|] eqn:E; [|done].
  cbn [mbind option_bind]. intros [= <-]. cbn [m_containment].
  destruct (Z.eqb_spec (fp_count doc) 0); [done|]. rewrite Forall_forall in Hd.
  pose proof (Hd doc ltac:(by eapply list_elem_of_lookup_2)) as Hu. unfold is_u64 in Hu.
  apply f64_div_not_nan; lia.
Qed.

Lemma match_cmp_gt x y :
  is_nan (m_containment x) = false -> is_nan (m_containment y) = false ->
  match_cmp x y = Gt -> cmp_le match_cmp y x.
Proof.
  intros Hx Hy. unfold cmp_le, match_cmp, partial_cmp.
  destruct (SFcompare_not_nan (m_containment y) (m_containment x)) as [c Hc]; [done..|].
  rewrite Hc, (SFcompare_antisym _ _ _ Hc). cbn. rewrite (str_cmp_antisym (m_title x) (m_title y)).
  destruct c; cbn; try done. by destruct (str_cmp _ _).
Qed.

Lemma match_le_spec x y :
  is_nan (m_containment x) = false -> is_nan (m_containment y) = false ->
  cmp_le match_cmp x y <->
  f64_ge (m_containment x) (m_containment y) = true /\
  (f64_ge (m_containment y) (m_containment x) = true -> str_cmp (m_title x) (m_title y) <> Gt).
Proof.
  intros Hx Hy. unfold cmp_le, match_cmp, partial_cmp, f64_ge, SpecFloat.SFleb.
  destruct (SFcompare_not_nan (m_containment y) (m_containment x)) as [c Hc]; [done..|].
  rewrite Hc, (SFcompare_antisym _ _ _ Hc). cbn. destruct c; cbn; naive_solver.
Qed.

Lemma match_cmp_trans x y z :
  is_nan (m_containment x) = false -> is_nan (m_containment y) = false ->
  is_nan (m_containment z) = false ->
  cmp_le match_cmp x y -> cmp_le match_cmp y z -> cmp_le match_cmp x z.
Proof.
  intros Hx Hy Hz. rewrite !match_le_spec by done. intros [H1 H2] [H3 H4]. split.
  - by eapply f64_ge_trans.
  - intros H5. apply (str_cmp_trans _ (m_title y)).
    + apply H2. by eapply f64_ge_trans.
    + apply H4. by eapply f64_ge_trans.
Qed.

(** The matching core without panics: its matches are the documents' matches. *)
Lemma match_text_run text :
  exists scanned toks edm,
    scan text b = Some (scanned, toks) /\ match_edm b toks = Some edm /\
    let entries := map (fun d => (d, doc_hashes b scanned d)) (matched_docs b scanned) in
    let idm := omap (idm_match b (Z.of_nat (length scanned))) entries in
    match_text text b = Some (sort_by match_cmp idm, edm) /\
    length idm = length (matched_docs b scanned).
Proof.
  destruct (scan_total text) as (scanned & toks & Hscan & Hi).
  destruct (match_sources_spec b Hwf toks (token_starts 0 toks) 0 (edm_sources (header b))) as (edm0 & He & _).
  assert (exists edm, match_edm b toks = Some edm) as [edm Hedm].
  { unfold match_edm. destruct toks; by eexists. }
  exists scanned, toks, edm. split; [done|]. split; [done|]. intros entries idm.
  assert (Forall (fun x => is_Some (idm_match b (Z.of_nat (length scanned)) x)) entries) as Hsome.
  { apply Forall_map, Forall_forall. intros d [Hne Hd]%list_elem_of_filter. apply idm_match_total.
    by apply (doc_hashes_range scanned d). }
  apply mapM_omap in Hsome as [Hm Hlen]. fold idm in Hm, Hlen. split.
  - unfold match_text. rewrite Hscan. cbn [mbind option_bind].
    rewrite matched_per_doc_all by done. cbn [mbind option_bind]. fold entries.
    rewrite Hm. cbn [mbind option_bind]. by rewrite Hedm.
  - rewrite Hlen. unfold entries. by rewrite length_map.
Qed.

Lemma verdict_bytes_total content filename : exists v, verdict_bytes content filename b = Some v.
Proof.
  unfold verdict_bytes. destruct (extract_text_total content filename) as [[e|u] ->];
    cbn [mbind option_bind]; [|by eexists].
  destruct (match_text_run (et_text e)) as (scanned & toks & edm & _ & _ & -> & _). by eexists.
Qed.

(** C7: Matching a text against a loaded bundle never panics.  It reports one
    match per protected document that records some distinct scanned hash the
    pre-filter lets through, with exactly those hashes in scan order, and the
    matches are ordered by containment, strongest first, then by title. *)
Theorem match_text_reports text :
  exists scanned toks edm,
    scan text b = Some (scanned, toks) /\ match_edm b toks = Some edm /\
    let entries := map (fun d => (d, doc_hashes b scanned d)) (matched_docs b scanned) in
    let idm := omap (idm_match b (Z.of_nat (length scanned))) entries in
    match_text text b = Some (sort_by match_cmp idm, edm) /\
    length idm = length (matched_docs b scanned) /\
    (Z.of_nat (length scanned) < 2 ^ 64 ->
     Forall (fun d => is_u64 (fp_count d)) (docs (header b)) ->
     StronglySorted (cmp_le match_cmp) (sort_by match_cmp idm)).
Proof.
  destruct (match_text_run text) as (scanned & toks & edm & Hscan & Hedm & Hm & Hlen).
  exists scanned, toks, edm. split; [done|]. split; [done|]. intros entries idm.
  fold entries idm in Hm, Hlen. split; [done|]. split; [done|].
  intros Hl Hd. apply (sort_by_sorted _ (fun m => is_nan (m_containment m) = false)).
  - intros x y Hx Hy. by apply match_cmp_gt.
  - intros x y z. apply match_cmp_trans.
  - apply Forall_forall. intros m Hin. unfold idm in Hin.
    apply list_elem_of_omap in Hin as (entry & Hin & Hm').
    eapply idm_match_not_nan; [done| |exact Hm'].
    apply list_elem_of_fmap in Hin as (d & -> & _). cbn [snd].
    assert (length (doc_hashes b scanned d) <= length scanned)%nat; [|lia].
    unfold doc_hashes. apply length_filter.
Qed.
End Matching.

(** A bundle that protects one short document. *)
Definition idm_sample : Bundle :=
  {| format_version := 1;
     header := {| bundle_version := 1; params := {| k := 8; w := 8; hash_bits := 64 |};
       edm_salts := ∅; scope := [];
       counts := {| counts_idm := 1; counts_edm := 0; counts_docs := 1 |};
       docs := [{| version_id := lit "v1"; document_id := lit "d1"; collection_id := lit "c1";
                   title := lit "Plan"; fp_count := 1 |}];
       edm_sources := [] |};
     bloom := {| m_bits := 8; k_hashes := 2; bits := [255] |};
     idm := [{| idm_hash := fnv1a64 (lit "secret plan"); doc_index := 0 |}];
     edm := [] |}.

Lemma idm_sample_wf : bundle_wf idm_sample.
Proof.
  split; try reflexivity.
  - repeat split; try (vm_compute; congruence). repeat constructor; vm_compute; congruence.
  - repeat constructor; vm_compute; congruence.
  - repeat constructor.
  - constructor.
  - constructor.
Qed.

Lemma match_text_reports_witness :
  bundle_wf idm_sample /\
  ((fun r => map (fun m => (m_title m, matched_count m)) r.1) <$>
     match_text (U := ascii_unicode) (D := toy_digest) (lit "Secret: PLAN!") idm_sample) =
    Some [(lit "Plan", 1)] /\
  exists scanned toks,
    scan (U := ascii_unicode) (lit "Secret: PLAN!") idm_sample = Some (scanned, toks).
Proof.
  split; [exact idm_sample_wf|]. split; [vm_compute; reflexivity|].
  destruct (match_text_reports (U := ascii_unicode) (D := toy_digest) idm_sample idm_sample_wf
    (lit "Secret: PLAN!")) as (scanned & toks & edm & H & _).
  exists scanned, toks. exact H.
Defined.
