(* ===== verification/TrustDest.v ===== *)
(** Trusted destinations ([src/trustdest.rs]): should one settled file on an
    encrypting destination stay in plaintext, be sealed or be blocked. *)

From S2P Require Import Prelude Words Text F64 Unicode Fingerprint Bundle Edm Verdict.
#[local] Open Scope Z_scope.

Inductive EncryptMode : Set := EncryptSensitive | EncryptAll.
Inductive BlockBandPolicy : Set := BandBlock | BandSeal.
Inductive SealDecision : Set := Plain | Seal | DoBlock.
#[export] Instance EncryptMode_eq_dec : EqDecision EncryptMode.
Proof. solve_decision. Defined.
#[export] Instance BlockBandPolicy_eq_dec : EqDecision BlockBandPolicy.
Proof. solve_decision. Defined.
#[export] Instance SealDecision_eq_dec : EqDecision SealDecision.
Proof. solve_decision. Defined.

Record EncryptBands := {
  encrypt_at : f64;
  block_at : f64;
  coverage_block_at : f64;
}.
Definition default_bands : EncryptBands :=
  {| encrypt_at := f64_percent 5; block_at := f64_percent 30; coverage_block_at := f64_percent 60 |}.
Definition default_block_band : BlockBandPolicy := BandBlock.

Definition is_unreadable (e : Extraction) : bool :=
  match e with ExtractionUnreadable _ => true | ExtractionOk _ => false end.

Definition in_block_band (bands : EncryptBands) (m : IdmMatch) : bool :=
  f64_ge (m_containment m) (block_at bands) || f64_ge (m_coverage m) (coverage_block_at bands).

Definition decide_seal (mode : EncryptMode) (bands : EncryptBands)
    (on_block_band : BlockBandPolicy) (verdict : option Verdict) : SealDecision :=
  match mode with
  | EncryptAll => Seal
  | EncryptSensitive =>
      match verdict with
      | None => Seal
      | Some v =>
          if is_unreadable (extraction v) then Seal
          else if existsb (in_block_band bands) (v_idm v) then
            match on_block_band with BandBlock => DoBlock | BandSeal => Seal end
          else if negb (bool_decide (length (v_edm v) = 0%nat)) then Seal
          else if existsb (fun m => f64_ge (m_containment m) (encrypt_at bands)) (v_idm v) then Seal
          else Plain
      end
  end.

(** A verdict that shows nothing sensitive: readable, no row of a protected
    table, every document under the encrypt and block thresholds. *)
Definition clean_verdict (bands : EncryptBands) (v : Verdict) : Prop :=
  (exists format, extraction v = ExtractionOk format) /\ v_edm v = [] /\
  forall m, m ∈ v_idm v ->
    f64_ge (m_containment m) (encrypt_at bands) = false /\
    f64_ge (m_containment m) (block_at bands) = false /\
    f64_ge (m_coverage m) (coverage_block_at bands) = false.

Definition blocking_verdict (bands : EncryptBands) (v : Verdict) : Prop :=
  (exists format, extraction v = ExtractionOk format) /\
  exists m, m ∈ v_idm v /\ in_block_band bands m = true.

Lemma existsb_spec {A} (p : A -> bool) l : existsb p l = true <-> exists x, x ∈ l /\ p x = true.
Proof. rewrite existsb_exists. setoid_rewrite list_elem_of_In. done. Qed.

Lemma existsb_false_spec {A} (p : A -> bool) l :
  existsb p l = false <-> forall x, x ∈ l -> p x = false.
Proof.
  rewrite <- not_true_iff_false, existsb_spec. split.
  - intros H x Hx. apply not_true_iff_false. intros Hp. apply H. by exists x.
  - intros H (x & Hx & Hp). by rewrite (H x Hx) in Hp.
Qed.

Lemma decide_seal_plain mode bands on_block_band verdict :
  decide_seal mode bands on_block_band verdict = Plain <->
  mode = EncryptSensitive /\ exists v, verdict = Some v /\ clean_verdict bands v.
Proof.
  destruct mode; [|split; try done; by intros [? _]].
  destruct verdict as [v|]; [|split; try done; naive_solver].
  unfold decide_seal, clean_verdict.
  destruct (extraction v) as [format|reason] eqn:Hx; cbn [is_unreadable];
    [|split; [done|]; intros H; naive_solver congruence].
  destruct (existsb (in_block_band bands) (v_idm v)) eqn:Hb.
  { apply existsb_spec in Hb as (m & Hm & Hmb). split; [by destruct on_block_band|].
    intros (_ & v' & [= <-] & _ & _ & Hall). destruct (Hall m Hm) as (_ & H1 & H2).
    unfold in_block_band in Hmb. by rewrite H1, H2 in Hmb. }
  rewrite existsb_false_spec in Hb. case_bool_decide as He; cbn [negb].
  - apply nil_length_inv in He. destruct (existsb _ (v_idm v)) eqn:Hs.
    + split; [done|]. intros (_ & v' & [= <-] & _ & _ & Hall).
      apply existsb_spec in Hs as (m & Hm & Hme). destruct (Hall m Hm) as (H1 & _). congruence.
    + rewrite existsb_false_spec in Hs. split; [|done]. intros _. split; [done|].
      exists v. split; [done|]. split; [by eexists|]. split; [done|]. intros m Hm.
      specialize (Hb m Hm). unfold in_block_band in Hb. bool_hyps. auto.
  - split; [done|]. intros (_ & v' & [= <-] & _ & H0 & _). by rewrite H0 in He.
Qed.

Lemma decide_seal_block mode bands on_block_band verdict :
  decide_seal mode bands on_block_band verdict = DoBlock <->
  mode = EncryptSensitive /\ on_block_band = BandBlock /\
  exists v, verdict = Some v /\ blocking_verdict bands v.
Proof.
  destruct mode; [|split; try done; by intros [? _]].
  destruct verdict as [v|]; [|split; try done; naive_solver].
  unfold decide_seal, blocking_verdict.
  destruct (extraction v) as [format|reason] eqn:Hx; cbn [is_unreadable];
    [|split; [done|]; intros H; naive_solver congruence].
  destruct (existsb (in_block_band bands) (v_idm v)) eqn:Hb.
  - apply existsb_spec in Hb as (m & Hm & Hmb).
    destruct on_block_band; split; try done; [|naive_solver]. intros _. eauto 10.
  - rewrite existsb_false_spec in Hb. split; [by repeat case_match|].
    intros (_ & _ & v' & [= <-] & _ & m & Hm & Hmb). by rewrite (Hb m Hm) in Hmb.
Qed.

(** C17: The decision is fail secure.  Plaintext is left on a trusted destination
    only in the sensitive mode, with a verdict in hand, and when that verdict
    is clean; the file is blocked exactly when the rule keeps the block band
    and a readable verdict reaches it; everything else is sealed, in particular
    every file without a verdict or with unreadable content. *)
Theorem decide_seal_fail_secure mode bands on_block_band verdict :
  (decide_seal mode bands on_block_band verdict = Plain <->
   mode = EncryptSensitive /\ exists v, verdict = Some v /\ clean_verdict bands v) /\
  (decide_seal mode bands on_block_band verdict = DoBlock <->
   mode = EncryptSensitive /\ on_block_band = BandBlock /\
   exists v, verdict = Some v /\ blocking_verdict bands v).
Proof. split; [apply decide_seal_plain|apply decide_seal_block]. Qed.
