(* ===== verification/Device.v ===== *)
(** Device identity ([src/usb/device.rs]): the parser of a
    [STORAGE_DEVICE_DESCRIPTOR] buffer, the query of one device and the listing of
    the removable volumes. *)

From S2P Require Import Prelude Words Text Utf8.
#[local] Open Scope Z_scope.

Record DeviceIdentity := {
  drive_letter : str;
  vendor_id : str;
  product_id : str;
  serial : str;
  product_name : str;
  bus_type : str;
  removable : bool;
}.

Definition BUS_TYPE_NAMES : list (Z * str) :=
  [(0x00, lit "unknown"); (0x01, lit "scsi"); (0x02, lit "atapi"); (0x03, lit "ata");
   (0x04, lit "1394"); (0x05, lit "ssa"); (0x06, lit "fibre"); (0x07, lit "usb");
   (0x08, lit "raid"); (0x09, lit "iscsi"); (0x0A, lit "sas"); (0x0B, lit "sata");
   (0x0C, lit "sd"); (0x0D, lit "mmc"); (0x0E, lit "virtual"); (0x0F, lit "file-backed-virtual");
   (0x10, lit "spaces"); (0x11, lit "nvme"); (0x12, lit "scm"); (0x13, lit "ufs")].

(** [format!("{raw:02x}")] for a 32-bit value: at least two digits, no other
    leading zeros; eight digits cover the type. *)
Fixpoint hex_digits (fuel : nat) (n : Z) (acc : str) : str :=
  match fuel with
  | O => acc
  | S f => if n <? 16 then hex_digit n :: acc else hex_digits f (n / 16) (hex_digit (n mod 16) :: acc)
  end.
Definition hex_pad2 (n : Z) : str := if n <? 16 then [48; hex_digit n] else hex_digits 8 n [].

Definition bus_type_name (raw : Z) : str :=
  match List.find (fun p => p.1 =? raw) BUS_TYPE_NAMES with
  | Some (_, n) => n
  | None => lit "bus-0x" ++ hex_pad2 raw
  end.

Definition bus_is_removable (bus_type : str) : bool :=
  bool_decide (bus_type ∈ [lit "usb"; lit "sd"; lit "mmc"]).

Definition OFF_REMOVABLE_MEDIA : nat := 10.
Definition OFF_VENDOR_ID : nat := 12.
Definition OFF_PRODUCT_ID : nat := 16.
Definition OFF_SERIAL : nat := 24.
Definition OFF_BUS_TYPE : nat := 28.
Definition DESCRIPTOR_MIN : nat := 32.

(** Indexing out of range panics: [None]. *)
Definition read_u32_le (buf : bytes) (at_ : nat) : option Z :=
  b0 ← buf !! at_;
  b1 ← buf !! (at_ + 1)%nat;
  b2 ← buf !! (at_ + 2)%nat;
  b3 ← buf !! (at_ + 3)%nat;
  Some (from_le_bytes [b0; b1; b2; b3]).

Definition read_c_string (buf : bytes) (offset : Z) : str :=
  if (offset =? 0) || (Z.of_nat (length buf) <=? offset) then []
  else trim (from_utf8_lossy (take_while (fun b => negb (b =? 0)) (drop (Z.to_nat offset) buf))).

Definition unknown_device : DeviceIdentity :=
  {| drive_letter := []; vendor_id := []; product_id := []; serial := []; product_name := [];
     bus_type := lit "unknown"; removable := false |}.

Definition display_name (vendor product : str) : str :=
  match str_is_empty vendor, str_is_empty product with
  | false, false => vendor ++ lit " " ++ product
  | true, false => product
  | false, true => vendor
  | true, true => []
  end.

Definition parse_storage_descriptor (buf : bytes) : option DeviceIdentity :=
  if (length buf <? DESCRIPTOR_MIN)%nat then Some unknown_device
  else
    vendor_at ← read_u32_le buf OFF_VENDOR_ID;
    product_at ← read_u32_le buf OFF_PRODUCT_ID;
    serial_at ← read_u32_le buf OFF_SERIAL;
    bus_raw ← read_u32_le buf OFF_BUS_TYPE;
    removable_flag ← buf !! OFF_REMOVABLE_MEDIA;
    let vendor := read_c_string buf vendor_at in
    let product := read_c_string buf product_at in
    let bus := bus_type_name bus_raw in
    Some {| drive_letter := []; vendor_id := vendor; product_id := product;
            serial := read_c_string buf serial_at; product_name := display_name vendor product;
            bus_type := bus; removable := bus_is_removable bus || negb (removable_flag =? 0) |}.

(** ** The volumes of the machine

    The Win32 calls: the drive mask, the type of a root, opening a device, and
    its property query, which gives how many bytes it returned in a buffer of
    1024. *)

Class VolumeApi := {
  logical_drives : Z;
  drive_type : str -> Z;
  create_file_fails : str -> bool;
  query_property : str -> option (Z * bytes);
}.
Definition DRIVE_REMOVABLE : Z := 2.
Definition DRIVE_FIXED : Z := 3.

Definition with_letter (letter : str) (d : DeviceIdentity) : DeviceIdentity :=
  {| drive_letter := letter; vendor_id := vendor_id d; product_id := product_id d; serial := serial d;
     product_name := product_name d; bus_type := bus_type d; removable := removable d |}.

Section Volumes.
Context {V : VolumeApi}.

(** [None] is a panic. *)
Definition query_device_identity (drive_letter : str) : option (result str DeviceIdentity) :=
  let path := trim_end_matches (Z.eqb 47) (trim_end_matches (Z.eqb 92) drive_letter) in
  let device := lit "\\.\" ++ path in
  if create_file_fails device then Some (Err (lit "opening " ++ device))
  else
    match query_property device with
    | None => Some (Err (lit "IOCTL_STORAGE_QUERY_PROPERTY on " ++ device))
    | Some (returned, buf) =>
        if returned <? Z.of_nat DESCRIPTOR_MIN then
          Some (Err (lit "short storage descriptor (" ++ dec returned ++ lit " bytes) from " ++ device))
        else
          id ← parse_storage_descriptor (take (Z.to_nat returned) buf);
          Some (Ok (with_letter path id))
    end.

Definition letter_of (i : nat) : str := [65 + Z.of_nat i; 58].
(** One turn of the loop over the letters. *)
Definition volume_at (i : nat) : option (option DeviceIdentity) :=
  let dtype := drive_type (letter_of i ++ [92]) in
  if negb (Z.testbit logical_drives (Z.of_nat i)) then Some None
  else if negb (dtype =? DRIVE_REMOVABLE) && negb (dtype =? DRIVE_FIXED) then Some None
  else
    r ← query_device_identity (letter_of i);
    Some match r with
         | Ok id => if removable id then Some (with_letter (letter_of i) id) else None
         | Err _ => None
         end.
Fixpoint volumes_from (letters : list nat) : option (list DeviceIdentity) :=
  match letters with
  | [] => Some []
  | i :: letters' =>
      v ← volume_at i;
      out ← volumes_from letters';
      Some (match v with Some id => id :: out | None => out end)
  end.
Definition list_removable_volumes : option (list DeviceIdentity) := volumes_from (seq 0 26).
End Volumes.

(** ** A descriptor as Windows lays it out *)

Record Descriptor := {
  d_removable : Z;
  d_vendor : str;
  d_product : str;
  d_serial : str;
  d_bus : Z;
}.

(** The 32-byte head with the offsets of the strings, then the strings, each
    followed by NUL. *)
Definition encode_descriptor (d : Descriptor) : bytes :=
  let v := as_bytes (d_vendor d) ++ [0] in
  let p := as_bytes (d_product d) ++ [0] in
  let s := as_bytes (d_serial d) ++ [0] in
  let at_v := 32 in
  let at_p := at_v + Z.of_nat (length v) in
  let at_s := at_p + Z.of_nat (length p) in
  repeat 0 10 ++ [d_removable d; 0] ++ to_le_bytes 4 at_v ++ to_le_bytes 4 at_p
    ++ repeat 0 4 ++ to_le_bytes 4 at_s ++ to_le_bytes 4 (d_bus d) ++ v ++ p ++ s.

(** A string field: scalars without NUL, no white space around. *)
Definition field_wf (s : str) : Prop :=
  forallb is_scalar s = true /\ 0 ∉ as_bytes s /\ trim s = s.

Lemma read_u32_at pre x post n :
  length pre = n -> 0 <= x < 2 ^ 32 -> read_u32_le (pre ++ to_le_bytes 4 x ++ post) n = Some x.
Proof.
  intros <- Hx. unfold read_u32_le.
  assert (forall i b, to_le_bytes 4 x !! i = Some b ->
    (pre ++ to_le_bytes 4 x ++ post) !! (length pre + i)%nat = Some b) as H.
  { intros i b Hb. rewrite lookup_app_r by lia. replace (length pre + i - length pre)%nat with i by lia.
    by apply lookup_app_l_Some. }
  pose proof (H 0%nat _ eq_refl) as H0. rewrite Nat.add_0_r in H0.
  rewrite H0, (H 1%nat _ eq_refl), (H 2%nat _ eq_refl), (H 3%nat _ eq_refl).
  cbn [mbind option_bind]. f_equal. apply (from_to_le_bytes 4 x). exact Hx.
Qed.

Lemma read_c_string_at pre s post off :
  off = Z.of_nat (length pre) -> off <> 0 -> field_wf s ->
  read_c_string (pre ++ (as_bytes s ++ [0]) ++ post) off = s.
Proof.
  intros -> Hne (Hs & H0 & Ht). unfold read_c_string.
  destruct (Z.eqb_spec (Z.of_nat (length pre)) 0); [done|]. rewrite !length_app. cbn [length].
  destruct (Z.leb_spec (Z.of_nat (length pre + (length (as_bytes s) + 1 + length post)))
    (Z.of_nat (length pre))); [lia|]. cbn [orb]. rewrite Nat2Z.id, drop_app_length, <- app_assoc.
  rewrite take_while_app.
  - cbn [app take_while]. rewrite app_nil_r, from_utf8_lossy_as_bytes by done. done.
  - intros x Hx. destruct (Z.eqb_spec x 0); [by subst|done].
Qed.

(** The parts of an encoded descriptor, found at their offsets. *)
Section Layout.
Context (head v p s : bytes) (at_p at_s bus : Z).
Let B := head ++ to_le_bytes 4 32 ++ to_le_bytes 4 at_p ++ repeat 0 4 ++ to_le_bytes 4 at_s
  ++ to_le_bytes 4 bus ++ v ++ p ++ s.
Hypothesis Hhead : length head = 12%nat.

Let l4 x : length (to_le_bytes 4 x) = 4%nat := length_to_le_bytes 4 x.

Lemma layout_words :
  0 <= at_p < 2 ^ 32 -> 0 <= at_s < 2 ^ 32 -> 0 <= bus < 2 ^ 32 ->
  read_u32_le B 12 = Some 32 /\ read_u32_le B 16 = Some at_p /\
  read_u32_le B 24 = Some at_s /\ read_u32_le B 28 = Some bus.
Proof.
  intros Hp Hs Hb. split_and!.
  - unfold B. apply read_u32_at; [done|lia].
  - assert (B = (head ++ to_le_bytes 4 32) ++ to_le_bytes 4 at_p ++ (repeat 0 4 ++ to_le_bytes 4 at_s
      ++ to_le_bytes 4 bus ++ v ++ p ++ s)) as -> by (unfold B; by rewrite <- app_assoc).
    apply read_u32_at; [|done]. by rewrite length_app, l4, Hhead.
  - assert (B = (head ++ to_le_bytes 4 32 ++ to_le_bytes 4 at_p ++ repeat 0 4) ++ to_le_bytes 4 at_s
      ++ (to_le_bytes 4 bus ++ v ++ p ++ s)) as -> by (unfold B; by rewrite <- !app_assoc).
    apply read_u32_at; [|done]. by rewrite !length_app, !l4, Hhead.
  - assert (B = (head ++ to_le_bytes 4 32 ++ to_le_bytes 4 at_p ++ repeat 0 4 ++ to_le_bytes 4 at_s)
      ++ to_le_bytes 4 bus ++ (v ++ p ++ s)) as -> by (unfold B; by rewrite <- !app_assoc).
    apply read_u32_at; [|done]. by rewrite !length_app, !l4, Hhead.
Qed.

Lemma layout_strings : exists pre,
  length pre = 32%nat /\ B = pre ++ v ++ p ++ s.
Proof.
  exists (head ++ to_le_bytes 4 32 ++ to_le_bytes 4 at_p ++ repeat 0 4 ++ to_le_bytes 4 at_s
    ++ to_le_bytes 4 bus). split; [by rewrite !length_app, !l4, Hhead|].
  unfold B. by rewrite <- !app_assoc.
Qed.
End Layout.

(** The parser reads back what a descriptor says, and classifies the device by
    its bus before the media flag: USB, SD and MMC devices are removable even
    when they report fixed media. *)
Theorem parse_storage_descriptor_roundtrip d :
  field_wf (d_vendor d) -> field_wf (d_product d) -> field_wf (d_serial d) ->
  0 <= d_bus d < 2 ^ 32 -> Z.of_nat (length (encode_descriptor d)) < 2 ^ 32 ->
  parse_storage_descriptor (encode_descriptor d) = Some
    {| drive_letter := []; vendor_id := d_vendor d; product_id := d_product d; serial := d_serial d;
       product_name := display_name (d_vendor d) (d_product d);
       bus_type := bus_type_name (d_bus d);
       removable := bus_is_removable (bus_type_name (d_bus d)) || negb (d_removable d =? 0) |}.
Proof.
  intros Hv Hp Hs Hb Hl. unfold parse_storage_descriptor.
  pose proof (eq_refl (encode_descriptor d)) as HB. unfold encode_descriptor in HB at 2. cbv zeta in HB.
  set (v := as_bytes (d_vendor d) ++ [0]) in *. set (p := as_bytes (d_product d) ++ [0]) in *.
  set (s := as_bytes (d_serial d) ++ [0]) in *.
  set (at_p := 32 + Z.of_nat (length v)) in *. set (at_s := at_p + Z.of_nat (length p)) in *.
  rewrite (app_assoc (repeat 0 10)) in HB.
  destruct (layout_strings (repeat 0 10 ++ [d_removable d; 0]) v p s at_p at_s (d_bus d) eq_refl)
    as (pre & Lpre & Hpre).
  rewrite <- HB in Hpre. rewrite Hpre, !length_app in Hl.
  assert (Z.of_nat (length v) + Z.of_nat (length p) + Z.of_nat (length s) + 32 < 2 ^ 32) by lia.
  destruct (layout_words (repeat 0 10 ++ [d_removable d; 0]) v p s at_p at_s (d_bus d) eq_refl)
    as (W1 & W2 & W3 & W4); [lia..|]. rewrite <- HB in W1, W2, W3, W4.
  assert (encode_descriptor d !! 10%nat = Some (d_removable d)) as W5 by by rewrite HB.
  unfold OFF_VENDOR_ID, OFF_PRODUCT_ID, OFF_SERIAL, OFF_BUS_TYPE, OFF_REMOVABLE_MEDIA.
  rewrite W1, W2, W3, W4, W5. cbn [mbind option_bind].
  rewrite Hpre, !length_app, Lpre. cbn [Nat.add Nat.ltb Nat.leb DESCRIPTOR_MIN].
  rewrite (read_c_string_at pre (d_vendor d) (p ++ s)) by (done || lia).
  rewrite (app_assoc pre v). rewrite (read_c_string_at (pre ++ v) (d_product d) s)
    by (done || rewrite ?length_app; lia).
  rewrite (app_assoc (pre ++ v) p), <- (app_nil_r s).
  rewrite (read_c_string_at ((pre ++ v) ++ p) (d_serial d) []) by (done || rewrite ?length_app; lia).
  done.
Qed.

Lemma parse_storage_descriptor_roundtrip_witness :
  let d := {| d_removable := 0; d_vendor := lit "SanDisk"; d_product := lit "Ultra";
              d_serial := lit "AA01"; d_bus := 7 |} in
  field_wf (d_vendor d) /\
  parse_storage_descriptor (encode_descriptor d) = Some
    {| drive_letter := []; vendor_id := lit "SanDisk"; product_id := lit "Ultra"; serial := lit "AA01";
       product_name := lit "SanDisk Ultra"; bus_type := lit "usb"; removable := true |}.
Proof.
  intros d.
  assert (forall s, s ∈ [lit "SanDisk"; lit "Ultra"; lit "AA01"] -> field_wf s) as Hf.
  { intros s Hs. rewrite !elem_of_cons, elem_of_nil in Hs.
    destruct_or! Hs; subst; try done; (split; [reflexivity|]; split; [|reflexivity]);
      apply (bool_decide_unpack _); vm_compute; exact I. }
  split; [apply Hf; left|].
  refine (parse_storage_descriptor_roundtrip d _ _ _ _ _).
  - apply Hf. left.
  - apply Hf. right. left.
  - apply Hf. right. right. left.
  - split; vm_compute; congruence.
  - vm_compute. reflexivity.
Defined.

(** ** The listing *)

Lemma read_u32_le_total buf n : (n + 4 <= length buf)%nat -> is_Some (read_u32_le buf n).
Proof.
  intros H. unfold read_u32_le.
  assert (forall i, (i < length buf)%nat -> exists b, buf !! i = Some b) as Hi
    by (intros i Hl; by apply lookup_lt_is_Some).
  destruct (Hi n) as [b0 H0]; [lia|]. destruct (Hi (n + 1)%nat) as [b1 H1]; [lia|].
  destruct (Hi (n + 2)%nat) as [b2 H2]; [lia|]. destruct (Hi (n + 3)%nat) as [b3 H3]; [lia|].
  rewrite H0. cbn [mbind option_bind]. rewrite H1. cbn [mbind option_bind]. rewrite H2. cbn [mbind option_bind].
  rewrite H3. by eexists.
Qed.

(** No buffer makes the parser panic. *)
Lemma parse_storage_descriptor_total buf : is_Some (parse_storage_descriptor buf).
Proof.
  unfold parse_storage_descriptor. destruct (Nat.ltb_spec (length buf) DESCRIPTOR_MIN) as [|H]; [by eexists|].
  unfold DESCRIPTOR_MIN in H.
  destruct (read_u32_le_total buf OFF_VENDOR_ID) as [a ->]; [unfold OFF_VENDOR_ID; lia|]. cbn [mbind option_bind].
  destruct (read_u32_le_total buf OFF_PRODUCT_ID) as [b ->]; [unfold OFF_PRODUCT_ID; lia|]. cbn [mbind option_bind].
  destruct (read_u32_le_total buf OFF_SERIAL) as [c ->]; [unfold OFF_SERIAL; lia|]. cbn [mbind option_bind].
  destruct (read_u32_le_total buf OFF_BUS_TYPE) as [d ->]; [unfold OFF_BUS_TYPE; lia|]. cbn [mbind option_bind].
  destruct (lookup_lt_is_Some_2 buf OFF_REMOVABLE_MEDIA) as [e ->]; [unfold OFF_REMOVABLE_MEDIA; lia|]. by eexists.
Qed.

Section Listing.
Context {V : VolumeApi}.

Lemma query_device_identity_total drive : is_Some (query_device_identity drive).
Proof.
  unfold query_device_identity. destruct (create_file_fails _); [by eexists|].
  destruct (query_property _) as [[n buf]|]; [|by eexists]. destruct (n <? _); [by eexists|].
  destruct (parse_storage_descriptor_total (take (Z.to_nat n) buf)) as [id ->]. by eexists.
Qed.

(** The volumes of some letters, each at most once, in the order of the letters. *)
Lemma volumes_from_spec letters : exists out,
  volumes_from letters = Some out /\ map drive_letter out `sublist_of` map letter_of letters /\
  forall d, d ∈ out <-> exists i, i ∈ letters /\ volume_at i = Some (Some d).
Proof.
  induction letters as [|i letters (out & IH & Hs & Hm)]; [exists []; split; [done|]; split; [constructor|]|].
  { intros d. split; [by intros ?%not_elem_of_nil|intros (i & ?%not_elem_of_nil & _); done]. }
  cbn [volumes_from]. rewrite IH. assert (is_Some (volume_at i)) as [v Hv].
  { unfold volume_at. destruct (negb _); [by eexists|]. destruct (_ && _); [by eexists|].
    destruct (query_device_identity_total (letter_of i)) as [r ->]. by eexists. }
  rewrite Hv. cbn [mbind option_bind]. eexists. split; [done|]. destruct v as [d|]; cbn [map].
  - assert (drive_letter d = letter_of i) as Hd.
    { revert Hv. unfold volume_at. destruct (negb _); [done|]. destruct (_ && _); [done|].
      destruct (query_device_identity_total (letter_of i)) as [r ->]. cbn [mbind option_bind].
      destruct r as [id|]; [|done]. destruct (removable id); [|done]. by intros [= <-]. }
    rewrite Hd. split; [by constructor|]. intros d'. rewrite elem_of_cons, Hm. split.
    + intros [->|(j & Hj & Hd')]; [exists i; split; [by left|done]|exists j; split; [by right|done]].
    + intros (j & [->|Hj]%elem_of_cons & Hd'); [left; congruence|right; eauto].
  - split; [by constructor|]. intros d'. rewrite Hm. split.
    + intros (j & Hj & Hd'). exists j. split; [by right|done].
    + intros (j & [->|Hj]%elem_of_cons & Hd'); [congruence|eauto].
Qed.

(** The listing never panics; it has the removable volumes that answer, each
    letter at most once, in alphabetical order. *)
Lemma volumes_listed_once : exists out,
  list_removable_volumes = Some out /\ NoDup (map drive_letter out) /\
  forall d, d ∈ out <-> exists i, (i < 26)%nat /\ volume_at i = Some (Some d).
Proof.
  destruct (volumes_from_spec (seq 0 26)) as (out & H & Hs & Hm). exists out. split; [exact H|]. split.
  - eapply sublist_NoDup; [|exact Hs]. apply NoDup_fmap_2_strong; [|apply NoDup_seq].
    intros i j _ _ [= Hij]. lia.
  - intros d. rewrite Hm. setoid_rewrite elem_of_seq. split; intros (i & Hi & Hd); exists i; split; lia || done.
Qed.
End Listing.
