(* ===== verification/UsbPolicy.v ===== *)
(** The USB device-control decision engine ([src/usb/policy.rs]). *)

From S2P Require Import Prelude Words Text Device.
#[local] Open Scope Z_scope.

Inductive Action : Set := AllowAudited | Encrypt | ReadOnly | Block.
#[export] Instance Action_eq_dec : EqDecision Action.
Proof. solve_decision. Defined.

Definition restrictiveness (a : Action) : Z :=
  match a with AllowAudited => 0 | Encrypt => 1 | ReadOnly => 2 | Block => 3 end.

(** [self.max_restrictive(other)] *)
Definition max_restrictive (self other : Action) : Action :=
  if restrictiveness self <? restrictiveness other then other else self.

Inductive RuleMatch :=
  | Serial (serial : str)
  | VidPid (vid pid : str)
  | BusType (bus : str)
  | Any.

Definition matches (m : RuleMatch) (dev : DeviceIdentity) : bool :=
  match m with
  | Serial s => let s := trim s in negb (str_is_empty s) && eq_ignore_ascii_case (serial dev) s
  | VidPid vid pid =>
      eq_ignore_ascii_case (vendor_id dev) (trim vid)
      && eq_ignore_ascii_case (product_id dev) (trim pid)
  | BusType b => eq_ignore_ascii_case (bus_type dev) (trim b)
  | Any => true
  end.

Record DeviceRule := { match_on : RuleMatch; action : Action; note : option str }.
Record UsbPolicy := { default_action : Action; rules : list DeviceRule }.

Definition default_policy : UsbPolicy := {| default_action := ReadOnly; rules := [] |}.

Fixpoint decide_rules (rules : list DeviceRule) (default_action : Action) (dev : DeviceIdentity)
    : Action * option DeviceRule :=
  match rules with
  | [] => (default_action, None)
  | rule :: rules' =>
      if matches (match_on rule) dev then (action rule, Some rule)
      else decide_rules rules' default_action dev
  end.
Definition decide (policy : UsbPolicy) (dev : DeviceIdentity) : Action * option DeviceRule :=
  decide_rules (rules policy) (default_action policy) dev.

Inductive DeviceClass : Set := MassStorage | Mtp | Tethering.
#[export] Instance DeviceClass_eq_dec : EqDecision DeviceClass.
Proof. solve_decision. Defined.

Definition classify (dev : DeviceIdentity) : DeviceClass :=
  if bool_decide (bus_type dev ∈ [lit "mtp"; lit "ptp"; lit "wpd"]) then Mtp
  else if bool_decide (bus_type dev ∈ [lit "rndis"; lit "ncm"; lit "tethering"]) then Tethering
  else MassStorage.

Definition decide_full (policy : UsbPolicy) (dev : DeviceIdentity)
    (mtp_action tethering_action : Action) : Action * DeviceClass :=
  match classify dev with
  | MassStorage => ((decide policy dev).1, MassStorage)
  | Mtp => (mtp_action, Mtp)
  | Tethering => (tethering_action, Tethering)
  end.

(** ** The stricter of two actions *)

Lemma restrictiveness_inj a b : restrictiveness a = restrictiveness b -> a = b.
Proof. by destruct a, b. Qed.

(** [max_restrictive] is the least upper bound of a total order: it is
    associative, commutative and idempotent, so composing restrictions in any
    order and any number of times gives one action, at least as strict as each
    of them and never stricter than all. *)
Theorem max_restrictive_join a b c :
  max_restrictive a (max_restrictive b c) = max_restrictive (max_restrictive a b) c /\
  max_restrictive a b = max_restrictive b a /\ max_restrictive a a = a /\
  restrictiveness a <= restrictiveness (max_restrictive a b) /\
  restrictiveness b <= restrictiveness (max_restrictive a b) /\
  (max_restrictive a b = a \/ max_restrictive a b = b).
Proof. destruct a, b, c; cbn; split_and!; try done; auto. Qed.

(** ** First match wins *)

Lemma decide_rules_spec rs d dev a r :
  decide_rules rs d dev = (a, r) <->
  match r with
  | Some r => exists before after, rs = before ++ r :: after /\
      Forall (fun r' => matches (match_on r') dev = false) before /\
      matches (match_on r) dev = true /\ a = action r
  | None => Forall (fun r' => matches (match_on r') dev = false) rs /\ a = d
  end.
Proof.
  induction rs as [|r0 rs IH]; cbn [decide_rules].
  - destruct r as [r|].
    + split; [done|]. by intros ([|??] & ? & ? & _).
    + split; [by intros [= ->]|]. by intros [_ ->].
  - destruct (matches (match_on r0) dev) eqn:Hm.
    + destruct r as [r|].
      * split.
        -- intros [= <- <-]. exists [], rs. done.
        -- intros ([|x before] & after & [= -> ->] & Hb & _ & ->); [done|].
           inversion_clear Hb. congruence.
      * split; [done|]. intros [Hb _]. inversion_clear Hb. congruence.
    + rewrite IH. destruct r as [r|].
      * split.
        -- intros (before & after & -> & Hb & Hr & ->). exists (r0 :: before), after.
           repeat split; [|done]. by constructor.
        -- intros ([|x before] & after & [= -> ->] & Hb & Hr & ->); [congruence|].
           inversion_clear Hb. by exists before, after.
      * rewrite Forall_cons. naive_solver.
Qed.

(** [decide] applies the first rule that matches the device, in the configured
    order, and the default exactly when none does; a device of another class is
    never judged by the mass-storage rules. *)
Theorem decide_first_match policy dev mtp tether a r :
  (decide policy dev = (a, r) <->
   match r with
   | Some r => exists before after, rules policy = before ++ r :: after /\
       Forall (fun r' => matches (match_on r') dev = false) before /\
       matches (match_on r) dev = true /\ a = action r
   | None => Forall (fun r' => matches (match_on r') dev = false) (rules policy) /\
       a = default_action policy
   end) /\
  decide_full policy dev mtp tether =
    (match classify dev with
     | MassStorage => (decide policy dev).1 | Mtp => mtp | Tethering => tether end, classify dev).
Proof.
  split; [apply decide_rules_spec|]. unfold decide_full. by destruct (classify dev).
Qed.
