(* ===== verification/Enforce.v ===== *)
(** Device enforcement ([src/usb/enforce.rs]): what an action would change, and
    the live execution over the registry and the mounted volumes.  The Win32
    calls are the class [WinApi]: which of them succeed. *)

From S2P Require Import Prelude Words Text Device UsbPolicy.
#[local] Open Scope Z_scope.

Definition WRITE_PROTECT_KEY : str :=
  lit "HKLM\SYSTEM\CurrentControlSet\Control\StorageDevicePolicies".
Definition WRITE_PROTECT_VALUE : str := lit "WriteProtect".
Definition WPD_DENY_KEY : str :=
  lit "HKLM\Software\Policies\Microsoft\Windows\RemovableStorageDevices\{6AC27878-A6FA-4155-BA85-F98F491D4F33}".
Definition WPD_DENY_READ_VALUE : str := lit "Deny_Read".
Definition WPD_DENY_WRITE_VALUE : str := lit "Deny_Write".
Definition TETHERING_DENY_KEY : str :=
  lit "HKLM\Software\Policies\Microsoft\Windows\DeviceInstall\Restrictions\DenyDeviceClasses".
Definition NET_CLASS_GUID : str := lit "{4d36e972-e325-11ce-bfc1-08002be10318}".

Inductive PlannedAction :=
  | NoChange
  | SetWriteProtect (key value_name : str) (value : Z)
  | ClearWriteProtect (key value_name : str) (value : Z)
  | DismountVolume (drive_letter : str)
  | SetWpdDeny (read write : bool)
  | ClearWpdDeny
  | BlockTethering.
#[export] Instance PlannedAction_eq_dec : EqDecision PlannedAction.
Proof. solve_decision. Defined.

Inductive Mode : Set := DryRun | Live.
Inductive ApplyOutcome :=
  | OutcomeNoChange
  | Planned (p : PlannedAction)
  | Executed (p : PlannedAction).

Definition plan (action : Action) (dev : DeviceIdentity) : PlannedAction :=
  match action with
  | AllowAudited | Encrypt => NoChange
  | ReadOnly => SetWriteProtect WRITE_PROTECT_KEY WRITE_PROTECT_VALUE 1
  | Block => DismountVolume (drive_letter dev)
  end.
Definition plan_revert_read_only : PlannedAction :=
  ClearWriteProtect WRITE_PROTECT_KEY WRITE_PROTECT_VALUE 0.
Definition plan_mtp (action : Action) : PlannedAction :=
  match action with
  | AllowAudited => NoChange
  | Encrypt | ReadOnly => SetWpdDeny false true
  | Block => SetWpdDeny true true
  end.
Definition plan_revert_mtp : PlannedAction := ClearWpdDeny.
Definition plan_tethering (action : Action) : PlannedAction :=
  match action with
  | Block => BlockTethering
  | AllowAudited | Encrypt | ReadOnly => NoChange
  end.

(** ** Live execution *)

(** A value under [HKEY_LOCAL_MACHINE]; keys and names are the ones passed to
    the API. *)
Inductive RegValue := Dword (v : Z) | Sz (s : str).
#[export] Instance RegValue_eq_dec : EqDecision RegValue.
Proof. solve_decision. Defined.

(** The system the channel may change: registry values by (subkey, name), and
    the volumes dismounted so far. *)
Record System := { registry : gmap (str * str) RegValue; dismounted : list str }.

(** Which Win32 calls return success: opening a key, writing a value, opening,
    locking and dismounting a volume. *)
Class WinApi := {
  reg_create_key : str -> bool;
  reg_set_value : str -> str -> bool;
  create_file : str -> bool;
  lock_volume : str -> bool;
  dismount : str -> bool;
}.

Section Live.
Context {W : WinApi}.

Definition set_hklm (subkey value_name : str) (v : RegValue) (s : System) : result str unit * System :=
  if negb (reg_create_key subkey) then (Err (lit "RegCreateKeyEx failed"), s)
  else if negb (reg_set_value subkey value_name) then (Err (lit "RegSetValueEx failed"), s)
  else (Ok tt, {| registry := <[(subkey, value_name) := v]> (registry s); dismounted := dismounted s |}).

Definition set_write_protect (value : Z) (s : System) : result str unit * System :=
  set_hklm (lit "SYSTEM\CurrentControlSet\Control\StorageDevicePolicies") (lit "WriteProtect")
    (Dword value) s.
Definition set_hklm_dword (subkey value_name : str) (value : Z) (s : System)
    : result str unit * System := set_hklm subkey value_name (Dword value) s.
Definition set_hklm_string (subkey value_name value : str) (s : System)
    : result str unit * System := set_hklm subkey value_name (Sz value) s.

(** [f(..)?; g(..)] on the changed system. *)
Definition and_then (r : result str unit * System) (g : System -> result str unit * System)
    : result str unit * System :=
  match r with
  | (Ok _, s) => g s
  | (Err e, s) => (Err e, s)
  end.

(** The constants carry a displayed hive name, stripped before the call. *)
Definition strip_hklm (key : str) : str := default key (strip_prefix (lit "HKLM\") key).

Definition bool_z (b : bool) : Z := if b then 1 else 0.

Definition set_wpd_deny (read write : bool) (s : System) : result str unit * System :=
  and_then (set_hklm_dword (strip_hklm WPD_DENY_KEY) WPD_DENY_READ_VALUE (bool_z read) s)
    (set_hklm_dword (strip_hklm WPD_DENY_KEY) WPD_DENY_WRITE_VALUE (bool_z write)).

Definition block_tethering (s : System) : result str unit * System :=
  and_then (set_hklm_dword (lit "Software\Policies\Microsoft\Windows\DeviceInstall\Restrictions")
      (lit "DenyDeviceClasses") 1 s)
    (set_hklm_string (strip_hklm TETHERING_DENY_KEY) (lit "1") NET_CLASS_GUID).

Definition dismount_volume (drive_letter : str) (s : System) : result str unit * System :=
  let path := trim_end_matches (fun c => c =? 47) (trim_end_matches (fun c => c =? 92) drive_letter) in
  let device := lit "\\.\" ++ path in
  if negb (create_file device) then (Err (lit "opening " ++ device ++ lit " for dismount"), s)
  else
    (* the dismount is attempted whether or not the lock was granted *)
    let s' := if dismount device
              then {| registry := registry s; dismounted := dismounted s ++ [path] |} else s in
    if negb (lock_volume device) then (Err (lit "locking " ++ device), s')
    else if negb (dismount device) then (Err (lit "dismounting " ++ device), s')
    else (Ok tt, s').

Definition execute_live (p : PlannedAction) (s : System) : result str unit * System :=
  match p with
  | NoChange => (Ok tt, s)
  | SetWriteProtect _ _ value => set_write_protect value s
  | ClearWriteProtect _ _ value => set_write_protect value s
  | DismountVolume drive_letter => dismount_volume drive_letter s
  | SetWpdDeny read write => set_wpd_deny read write s
  | ClearWpdDeny => set_wpd_deny false false s
  | BlockTethering => block_tethering s
  end.

Definition is_no_change (p : PlannedAction) : bool :=
  match p with NoChange => true | _ => false end.

Definition apply_plan (p : PlannedAction) (mode : Mode) (s : System)
    : result str ApplyOutcome * System :=
  if is_no_change p then (Ok OutcomeNoChange, s)
  else
    match mode with
    | DryRun => (Ok (Planned p), s)
    | Live =>
        let '(r, s') := execute_live p s in
        (_ ← r; Ok (Executed p), s')
    end.

(** ** What enforcement establishes *)

Definition reg_holds (s : System) (key name : str) (v : RegValue) : Prop :=
  registry s !! (strip_hklm key, name) = Some v.

(** The state an executed plan promises. *)
Definition plan_holds (p : PlannedAction) (s s' : System) : Prop :=
  match p with
  | NoChange => s' = s
  | SetWriteProtect key name v | ClearWriteProtect key name v => reg_holds s' key name (Dword v)
  | DismountVolume letter =>
      trim_end_matches (fun c => c =? 47) (trim_end_matches (fun c => c =? 92) letter) ∈ dismounted s'
  | SetWpdDeny read write =>
      reg_holds s' WPD_DENY_KEY WPD_DENY_READ_VALUE (Dword (bool_z read)) /\
      reg_holds s' WPD_DENY_KEY WPD_DENY_WRITE_VALUE (Dword (bool_z write))
  | ClearWpdDeny =>
      reg_holds s' WPD_DENY_KEY WPD_DENY_READ_VALUE (Dword 0) /\
      reg_holds s' WPD_DENY_KEY WPD_DENY_WRITE_VALUE (Dword 0)
  | BlockTethering => reg_holds s' TETHERING_DENY_KEY (lit "1") (Sz NET_CLASS_GUID)
  end.

Lemma set_hklm_Ok subkey name v s u s' :
  set_hklm subkey name v s = (Ok u, s') ->
  s' = {| registry := <[(subkey, name) := v]> (registry s); dismounted := dismounted s |}.
Proof. unfold set_hklm. repeat case_match; by intros [= <- <-]. Qed.

Lemma and_then_Ok r g u s' :
  and_then r g = (Ok u, s') -> exists u1 s1, r = (Ok u1, s1) /\ g s1 = (Ok u, s').
Proof. destruct r as [[u1|e] s1]; cbn; [|done]. intros H. by exists u1, s1. Qed.

(** The plans of this module name the keys that the execution writes. *)
Definition plan_key_wf (p : PlannedAction) : Prop :=
  match p with
  | SetWriteProtect key name _ | ClearWriteProtect key name _ =>
      key = WRITE_PROTECT_KEY /\ name = WRITE_PROTECT_VALUE
  | _ => True
  end.

Lemma execute_live_Ok p s u s' :
  plan_key_wf p -> execute_live p s = (Ok u, s') -> plan_holds p s s'.
Proof.
  destruct p as [|key name v|key name v|letter|read write| |]; cbn [execute_live plan_key_wf plan_holds].
  - by intros _ [= _ ->].
  - intros [-> ->] H. apply set_hklm_Ok in H as ->. unfold reg_holds. cbn. by rewrite lookup_insert_eq.
  - intros [-> ->] H. apply set_hklm_Ok in H as ->. unfold reg_holds. cbn. by rewrite lookup_insert_eq.
  - intros _. unfold dismount_volume. destruct (create_file _); [|done]. cbn [negb].
    destruct (lock_volume _); [|done]. destruct (dismount _); [|done]. cbn [negb].
    intros [= _ <-]. cbn [dismounted]. rewrite elem_of_app. right. by left.
  - intros _ H. apply and_then_Ok in H as (u1 & s1 & H1 & H2).
    apply set_hklm_Ok in H1 as ->. apply set_hklm_Ok in H2 as ->. unfold reg_holds. cbn [registry].
    split; [rewrite lookup_insert_ne by (intros [=]); apply lookup_insert_eq|apply lookup_insert_eq].
  - intros _ H. apply and_then_Ok in H as (u1 & s1 & H1 & H2).
    apply set_hklm_Ok in H1 as ->. apply set_hklm_Ok in H2 as ->. unfold reg_holds. cbn [registry].
    split; [rewrite lookup_insert_ne by (intros [=]); apply lookup_insert_eq|apply lookup_insert_eq].
  - intros _ H. apply and_then_Ok in H as (u1 & s1 & H1 & H2).
    apply set_hklm_Ok in H2 as ->. unfold reg_holds. cbn [registry]. apply lookup_insert_eq.
Qed.

(** Enforcement is dry-run first and honest: outside [Live] nothing changes and
    the plan is reported; in [Live] an outcome other than an error means the
    system is in the state the plan describes. *)
Theorem apply_plan_sound p mode s r s' :
  plan_key_wf p -> apply_plan p mode s = (r, s') ->
  (mode = DryRun -> s' = s /\ exists o, r = Ok o) /\
  (forall o, r = Ok o ->
    match o with
    | OutcomeNoChange => p = NoChange /\ s' = s
    | Planned q => q = p /\ mode = DryRun /\ s' = s
    | Executed q => q = p /\ mode = Live /\ plan_holds p s s'
    end).
Proof.
  unfold apply_plan. intros Hwf. destruct p as [| | | | | |]; cbn [is_no_change];
    [intros [= <- <-]; split; [intros _; split; [done|by eexists]|by intros o [= <-]]|..].
  all: destruct mode; [intros [= <- <-]; split; [intros _; split; [done|by eexists]|by intros o [= <-]]|].
  all: match goal with |- context [execute_live ?q ?t] => destruct (execute_live q t) as [[u|e] s1] eqn:E end;
    cbn [mbind result_bind]; intros [= <- <-]; split; try done;
    intros o [= <-]; split; [done|]; split; [done|]; by apply execute_live_Ok in E.
Qed.
End Live.

Definition all_ok : WinApi := {|
  reg_create_key := fun _ => true; reg_set_value := fun _ _ => true;
  create_file := fun _ => true; lock_volume := fun _ => true; dismount := fun _ => true |}.

Lemma apply_plan_sound_witness :
  let s := {| registry := ∅; dismounted := [] |} in
  exists s', apply_plan (W := all_ok) (plan ReadOnly unknown_device) Live s =
      (Ok (Executed (plan ReadOnly unknown_device)), s') /\
    reg_holds s' WRITE_PROTECT_KEY WRITE_PROTECT_VALUE (Dword 1).
Proof.
  intros s. eexists. split; [reflexivity|].
  refine (proj2 (proj2 (proj2 (apply_plan_sound (W := all_ok) (plan ReadOnly unknown_device) Live s _ _
    (conj eq_refl eq_refl) eq_refl) _ eq_refl))).
Defined.
