(* ===== verification/Watch.v ===== *)
(** Arrival and removal of removable volumes ([src/usb/watch.rs]): the diff of
    two snapshots and the polling watcher. *)

From S2P Require Import Prelude Words Text Device.
#[local] Open Scope Z_scope.

#[export] Instance DeviceIdentity_eq_dec : EqDecision DeviceIdentity.
Proof. solve_decision. Defined.

Inductive VolumeEvent := Arrived (dev : DeviceIdentity) | Removed (letter : str).

Definition find_letter (letter : str) (l : list DeviceIdentity) : option DeviceIdentity :=
  List.find (fun d => bool_decide (drive_letter d = letter)) l.

Definition removed_event (curr : list DeviceIdentity) (p : DeviceIdentity) : list VolumeEvent :=
  match find_letter (drive_letter p) curr with
  | None => [Removed (drive_letter p)]
  | Some c => if bool_decide (c <> p) then [Removed (drive_letter p)] else []
  end.
Definition arrived_event (prev : list DeviceIdentity) (c : DeviceIdentity) : list VolumeEvent :=
  match find_letter (drive_letter c) prev with
  | None => [Arrived c]
  | Some p => if bool_decide (p <> c) then [Arrived c] else []
  end.
Definition diff_volumes (prev curr : list DeviceIdentity) : list VolumeEvent :=
  concat (map (removed_event curr) prev) ++ concat (map (arrived_event prev) curr).

Record VolumeWatcher := { last_snapshot : list DeviceIdentity }.
Definition VolumeWatcher_new : VolumeWatcher := {| last_snapshot := [] |}.
Definition watcher_poll (w : VolumeWatcher) (current : list DeviceIdentity)
    : list VolumeEvent * VolumeWatcher :=
  (diff_volumes (last_snapshot w) current, {| last_snapshot := current |}).
Definition current_letters (w : VolumeWatcher) : list str := map drive_letter (last_snapshot w).

(** ** Replaying events *)

(** The mounted volumes a client that follows the events believes in. *)
Definition replay (m : gmap str DeviceIdentity) (e : VolumeEvent) : gmap str DeviceIdentity :=
  match e with
  | Arrived d => <[drive_letter d := d]> m
  | Removed letter => delete letter m
  end.
Definition volumes (l : list DeviceIdentity) : gmap str DeviceIdentity :=
  list_to_map (map (fun d => (drive_letter d, d)) l).

(** A snapshot mounts each letter once. *)
Definition snapshot_wf (l : list DeviceIdentity) : Prop := NoDup (map drive_letter l).

Lemma find_letter_volumes letter l : find_letter letter l = volumes l !! letter.
Proof.
  unfold find_letter, volumes. induction l as [|d l IH]; cbn; [done|].
  case_bool_decide as E.
  - subst. by rewrite lookup_insert_eq.
  - rewrite lookup_insert_ne by done. exact IH.
Qed.

Lemma volumes_lookup l d : snapshot_wf l -> d ∈ l -> volumes l !! drive_letter d = Some d.
Proof.
  intros Hnd Hd. apply elem_of_list_to_map.
  - by rewrite <- list_fmap_compose.
  - apply list_elem_of_fmap. by exists d.
Qed.

Lemma volumes_Some l letter d : volumes l !! letter = Some d -> d ∈ l /\ drive_letter d = letter.
Proof.
  intros H. apply elem_of_list_to_map_2, list_elem_of_fmap in H as (d' & [= -> ->] & H). done.
Qed.

Lemma removed_event_spec curr p :
  snapshot_wf curr -> removed_event curr p = if bool_decide (p ∈ curr) then [] else [Removed (drive_letter p)].
Proof.
  intros Hc. unfold removed_event. rewrite find_letter_volumes.
  destruct (volumes curr !! drive_letter p) as [c|] eqn:E.
  - apply volumes_Some in E as [Hin Hl].
    destruct (decide (c = p)) as [->|Hne].
    + rewrite bool_decide_eq_false_2 by tauto. by rewrite bool_decide_eq_true_2.
    + rewrite bool_decide_eq_true_2, bool_decide_eq_false_2; [done| |done]. intros Hp. apply Hne.
      pose proof (volumes_lookup curr p Hc Hp) as H1. pose proof (volumes_lookup curr c Hc Hin) as H2.
      rewrite Hl in H2. congruence.
  - rewrite bool_decide_eq_false_2; [done|]. intros Hin.
    by rewrite (volumes_lookup curr p Hc Hin) in E.
Qed.

Lemma arrived_event_spec prev c :
  snapshot_wf prev -> arrived_event prev c = if bool_decide (c ∈ prev) then [] else [Arrived c].
Proof.
  intros Hp. pose proof (removed_event_spec prev c Hp) as H.
  unfold arrived_event, removed_event in *. destruct (find_letter _ _) as [d|].
  - destruct (bool_decide (d <> c)), (bool_decide (c ∈ prev)); try done.
  - by destruct (bool_decide (c ∈ prev)).
Qed.

Lemma diff_volumes_filter prev curr :
  snapshot_wf prev -> snapshot_wf curr ->
  diff_volumes prev curr =
    map (fun p => Removed (drive_letter p)) (filter (fun p => p ∉ curr) prev)
    ++ map Arrived (filter (fun c => c ∉ prev) curr).
Proof.
  intros Hp Hc. unfold diff_volumes. f_equal.
  - clear Hp. induction prev as [|p prev IH]; cbn [map concat]; [done|].
    rewrite removed_event_spec, filter_cons, IH by done.
    case_bool_decide; [rewrite decide_False by tauto|rewrite decide_True by done]; done.
  - clear Hc. induction curr as [|c curr IH]; cbn [map concat]; [done|].
    rewrite arrived_event_spec, filter_cons, IH by done.
    case_bool_decide; [rewrite decide_False by tauto|rewrite decide_True by done]; done.
Qed.

Lemma replay_removed ps m letter :
  foldl replay m (map (fun p => Removed (drive_letter p)) ps) !! letter =
    if bool_decide (letter ∈ map drive_letter ps) then None else m !! letter.
Proof.
  revert m. induction ps as [|p ps IH]; intros m; cbn [map foldl].
  - by rewrite bool_decide_eq_false_2 by by apply not_elem_of_nil.
  - rewrite IH. cbn [replay]. destruct (decide (letter ∈ map drive_letter ps)) as [Hin|Hin].
    + rewrite !bool_decide_eq_true_2 by (done || by right). done.
    + rewrite (bool_decide_eq_false_2 (letter ∈ map _ ps)) by done.
      destruct (decide (letter = drive_letter p)) as [->|Hne].
      * rewrite lookup_delete_eq, bool_decide_eq_true_2; [done|by left].
      * rewrite lookup_delete_ne, bool_decide_eq_false_2; [done| |done].
        intros [?|?]%elem_of_cons; done.
Qed.

Lemma replay_arrived cs m letter :
  NoDup (map drive_letter cs) ->
  foldl replay m (map Arrived cs) !! letter =
    match volumes cs !! letter with Some c => Some c | None => m !! letter end.
Proof.
  revert m. induction cs as [|c cs IH]; intros m Hnd; cbn [map foldl]; [done|].
  cbn [map] in Hnd. apply NoDup_cons in Hnd as [Hni Hnd]. rewrite IH by done. cbn [replay].
  unfold volumes. cbn [map list_to_map foldr]. fold (volumes cs).
  destruct (decide (letter = drive_letter c)) as [->|Hne].
  - rewrite lookup_insert_eq. destruct (volumes cs !! drive_letter c) as [d|] eqn:E; [|by rewrite lookup_insert_eq].
    exfalso. apply volumes_Some in E as [Hin Hl]. apply Hni. apply list_elem_of_fmap. by exists d.
  - by rewrite !lookup_insert_ne by done.
Qed.

Lemma snapshot_wf_filter P `{!forall x, Decision (P x)} l :
  snapshot_wf l -> snapshot_wf (filter P l).
Proof.
  unfold snapshot_wf. induction l as [|d l IH]; [done|]. cbn [map]. intros [Hni Hnd]%NoDup_cons.
  rewrite filter_cons. case_decide; [|auto]. cbn [map]. apply NoDup_cons. split; [|auto].
  intros Hin. apply Hni. apply list_elem_of_fmap in Hin as (d' & He & Hin).
  apply list_elem_of_filter in Hin as [_ Hin]. apply list_elem_of_fmap. by exists d'.
Qed.

(** The events under one letter: removed when the volume there changed or went,
    arrived when it changed or came. *)
Lemma removed_letter prev curr letter :
  snapshot_wf prev -> snapshot_wf curr ->
  letter ∈ map drive_letter (filter (fun p => p ∉ curr) prev) <->
    exists p, volumes prev !! letter = Some p /\ volumes curr !! letter <> Some p.
Proof.
  intros Hp Hc. rewrite list_elem_of_fmap. split.
  - intros (p & -> & [Hn Hin]%list_elem_of_filter). exists p. split; [by apply volumes_lookup|].
    intros [Hin' _]%volumes_Some. done.
  - intros (p & Hv & Hn). apply volumes_Some in Hv as [Hin <-]. exists p. split; [done|].
    apply list_elem_of_filter. split; [|done]. intros Hin'. apply Hn. by apply volumes_lookup.
Qed.

Lemma arrived_letter prev curr letter :
  snapshot_wf prev -> snapshot_wf curr ->
  volumes (filter (fun c => c ∉ prev) curr) !! letter =
    match volumes curr !! letter with
    | Some c => if bool_decide (volumes prev !! letter = Some c) then None else Some c
    | None => None
    end.
Proof.
  intros Hp Hc. destruct (volumes (filter _ curr) !! letter) as [c|] eqn:Ha.
  - apply volumes_Some in Ha as [[Hn Hin]%list_elem_of_filter <-].
    rewrite (volumes_lookup curr c Hc Hin), bool_decide_eq_false_2; [done|].
    intros [Hin' _]%volumes_Some. done.
  - destruct (volumes curr !! letter) as [c|] eqn:Hv; [|done]. apply volumes_Some in Hv as [Hin <-].
    case_bool_decide as Hb; [done|]. exfalso.
    rewrite (volumes_lookup (filter (fun c => c ∉ prev) curr) c) in Ha;
      [done|by apply snapshot_wf_filter|]. apply list_elem_of_filter. split; [|done].
    intros Hin'. apply Hb. by apply volumes_lookup.
Qed.

(** The events of a poll are sound and complete: a client that removes and
    mounts what they say, starting from the previous snapshot, ends with exactly
    the current one, also when a stick was swapped under the same letter; and a
    device that stayed causes no event. *)
Theorem diff_volumes_replay prev curr :
  snapshot_wf prev -> snapshot_wf curr ->
  foldl replay (volumes prev) (diff_volumes prev curr) = volumes curr /\
  (forall d, Arrived d ∈ diff_volumes prev curr <-> d ∈ curr /\ d ∉ prev) /\
  (forall letter, Removed letter ∈ diff_volumes prev curr <->
     exists p, p ∈ prev /\ p ∉ curr /\ drive_letter p = letter).
Proof.
  intros Hp Hc. rewrite diff_volumes_filter by done. split; [|split].
  - apply map_eq. intros letter. rewrite foldl_app, replay_arrived by by apply snapshot_wf_filter.
    rewrite replay_removed. destruct (volumes (filter (fun c => c ∉ prev) curr) !! letter) as [c|] eqn:Ea.
    + apply volumes_Some in Ea as [Hin <-]. apply list_elem_of_filter in Hin as [_ Hin].
      symmetry. by apply volumes_lookup.
    + destruct (volumes curr !! letter) as [c|] eqn:Ec.
      * apply volumes_Some in Ec as [Hin <-].
        assert (c ∈ prev) as Hcp.
        { apply dec_stable. intros Hn. rewrite (volumes_lookup (filter (fun c => c ∉ prev) curr) c) in Ea;
            [done|by apply snapshot_wf_filter|by apply list_elem_of_filter]. }
        rewrite bool_decide_eq_false_2; [by apply volumes_lookup|].
        intros (p & Hl & [Hpn Hpp]%list_elem_of_filter)%list_elem_of_fmap. apply Hpn.
        pose proof (volumes_lookup prev p Hp Hpp) as H1. pose proof (volumes_lookup prev c Hp Hcp) as H2.
        rewrite <- Hl in H1. congruence.
      * case_bool_decide as Hr; [done|]. destruct (volumes prev !! letter) as [p|] eqn:Ep; [|done].
        exfalso. apply volumes_Some in Ep as [Hin <-]. apply Hr, list_elem_of_fmap. exists p. split; [done|].
        apply list_elem_of_filter. split; [|done]. intros Hpc.
        by rewrite (volumes_lookup curr p Hc Hpc) in Ec.
  - intros d. rewrite elem_of_app, !list_elem_of_fmap. setoid_rewrite list_elem_of_filter. naive_solver.
  - intros letter. rewrite elem_of_app, !list_elem_of_fmap. setoid_rewrite list_elem_of_filter. naive_solver.
Qed.

Lemma diff_volumes_replay_witness :
  let dev l s := {| drive_letter := l; vendor_id := []; product_id := []; serial := s;
                    product_name := []; bus_type := lit "usb"; removable := true |} in
  let a := dev (lit "E:") (lit "1") in
  let b := dev (lit "E:") (lit "2") in
  let c := dev (lit "F:") (lit "3") in
  diff_volumes [a; c] [c; b] = [Removed (lit "E:"); Arrived b] /\
  foldl replay (volumes [a; c]) (diff_volumes [a; c] [c; b]) = volumes [c; b].
Proof.
  intros dev a b c. split; [vm_compute; reflexivity|].
  refine (proj1 (diff_volumes_replay [a; c] [c; b] _ _)).
  - apply (bool_decide_unpack _). vm_compute. exact I.
  - apply (bool_decide_unpack _). vm_compute. exact I.
Defined.
