(* ===== verification/Supervise.v ===== *)
(** The health signal between the sealer and the guard ([src/supervise.rs]). *)

From S2P Require Import Prelude Words.
#[local] Open Scope Z_scope.

(** The two atomics; [start] is the origin of the millisecond clock. *)
Record SealerHealth := { last_ok_ms : Z; keyring_present : bool }.

Definition SealerHealth_new (keyring_present : bool) : SealerHealth :=
  {| last_ok_ms := 0; keyring_present := keyring_present |}.
Definition mark_alive (now_ms : Z) (h : SealerHealth) : SealerHealth :=
  {| last_ok_ms := Z.max now_ms 1; keyring_present := keyring_present h |}.
Definition set_keyring_present (present : bool) (h : SealerHealth) : SealerHealth :=
  {| last_ok_ms := last_ok_ms h; keyring_present := present |}.
Definition is_healthy_at (h : SealerHealth) (now_ms timeout_ms : Z) : bool :=
  if negb (keyring_present h) then false
  else if last_ok_ms h =? 0 then false
  else saturating_sub now_ms (last_ok_ms h) <=? timeout_ms.

(** [snapshot_config]: the shared configuration as it is when read; a lock
    poisoned by a panicking writer is recovered, never an error. *)
Inductive RwLock (A : Type) := Clean (a : A) | Poisoned (a : A).
Arguments Clean {_} _.
Arguments Poisoned {_} _.
Definition snapshot_config {A} (shared : RwLock A) : A :=
  match shared with Clean a => a | Poisoned a => a end.

(** ** Runs of the two threads *)

(** The writes of the sealer, in the order the atomics see them. *)
Inductive HealthOp := MarkAlive (now_ms : Z) | SetKeyring (present : bool).
Definition health_step (h : SealerHealth) (op : HealthOp) : SealerHealth :=
  match op with
  | MarkAlive now => mark_alive now h
  | SetKeyring p => set_keyring_present p h
  end.

Definition op_mark (op : HealthOp) : option Z := match op with MarkAlive t => Some t | _ => None end.
Definition op_keyring (op : HealthOp) : option bool := match op with SetKeyring p => Some p | _ => None end.

(** The last mark and the last keyring state a history leaves. *)
Definition last_mark (ops : list HealthOp) : option Z := last (omap op_mark ops).
Definition last_keyring (k0 : bool) (ops : list HealthOp) : bool := default k0 (last (omap op_keyring ops)).

Lemma health_history k0 ops :
  let h := foldl health_step (SealerHealth_new k0) ops in
  keyring_present h = last_keyring k0 ops /\
  last_ok_ms h = match last_mark ops with Some t => Z.max t 1 | None => 0 end.
Proof.
  unfold last_mark, last_keyring. induction ops as [|op ops IH] using rev_ind; [done|].
  cbv zeta in *. rewrite !foldl_app, !omap_app. destruct IH as [IH1 IH2]. cbn [foldl].
  destruct op; cbn; rewrite ?app_nil_r, ?last_snoc; cbn; rewrite ?IH1, ?IH2; done.
Qed.

(** The guard trusts the sealer only on evidence: at any moment it is healthy
    exactly when the last keyring state is present and the sealer marked itself
    alive at least once, within the timeout (a mark at time 0 counts as 1).  So
    it is unhealthy before the first poll, without a keyring, and after the
    sealer has been silent for longer than the timeout. *)
Theorem sealer_health_evidence k0 ops now timeout :
  is_healthy_at (foldl health_step (SealerHealth_new k0) ops) now timeout = true <->
  last_keyring k0 ops = true /\
  exists t, last_mark ops = Some t /\ saturating_sub now (Z.max t 1) <= timeout.
Proof.
  destruct (health_history k0 ops) as [H1 H2]. unfold is_healthy_at. rewrite H1, H2.
  destruct (last_keyring k0 ops); cbn [negb]; [|naive_solver].
  destruct (last_mark ops) as [t|]; [|naive_solver].
  destruct (Z.eqb_spec (Z.max t 1) 0); [lia|]. rewrite Z.leb_le. naive_solver.
Qed.
