(* ===== verification/Queue.v ===== *)
(** The bounded incident queue ([src/usb/queue.rs]): a directory of JSON files
    named by time, oldest first.  The directory is a finite map from file name
    to content; which file-system calls succeed is the class [QueueFs]. *)

From S2P Require Import Prelude Words Text.
#[local] Open Scope Z_scope.

Definition DEFAULT_CAP : nat := 1000.

Record IncidentQueue := { cap : nat }.
(** The queue directory: [None] while it does not exist. *)
Definition Dir : Type := option (gmap str str).
Definition queue_new : IncidentQueue := {| cap := DEFAULT_CAP |}.

Class QueueFs := {
  create_dir_all : bool;
  remove_file : str -> bool;
  write_file : str -> bool;
  rename_file : str -> bool;
  (** [read_to_string] of a listed file: fails for bytes that are not UTF-8 *)
  readable : str -> bool;
}.

(** [Path::extension() == "json"] *)
Definition has_json_extension (name : str) : bool :=
  ends_with (lit ".json") name && negb (bool_decide (name = lit ".json")).

(** Ordered list of queued entry files, oldest first. *)
Definition entries (d : Dir) : list str :=
  match d with
  | None => []
  | Some m => sort_by str_cmp (List.filter has_json_extension (map fst (map_to_list m)))
  end.
Definition queue_len (d : Dir) : nat := length (entries d).
Definition queue_is_empty (d : Dir) : bool := (queue_len d =? 0)%nat.

Section Queue.
Context {F : QueueFs}.

Definition remove (name : str) (m : gmap str str) : gmap str str :=
  if remove_file name then delete name m else m.

(** [while existing.len() >= cap { existing.remove(0) .. }] on the listed
    names; [None] is the panic of removing from an empty list. *)
Fixpoint drop_oldest (cap : nat) (existing : list str) (m : gmap str str) : option (gmap str str) :=
  if (cap <=? length existing)%nat then
    match existing with
    | [] => None
    | oldest :: existing' => drop_oldest cap existing' (remove oldest m)
    end
  else Some m.

(** [format!("{now:039}-{pid}")] *)
Definition stem (now pid : Z) : str :=
  repeat 48 (39 - length (dec now)) ++ dec now ++ lit "-" ++ dec pid.

Definition enqueue (q : IncidentQueue) (now pid : Z) (json_body : str) (d : Dir)
    : option (result str unit * Dir) :=
  if negb create_dir_all then Some (Err (lit "creating incident queue"), d)
  else
    let m := default ∅ d in
    m ← drop_oldest (cap q) (entries (Some m)) m;
    let tmp := stem now pid ++ lit ".tmp" in
    let dest := stem now pid ++ lit ".json" in
    if negb (write_file tmp) then Some (Err (lit "writing queued incident (temp)"), Some m)
    else
      let m := <[tmp := json_body]> m in
      if negb (rename_file tmp) then Some (Err (lit "committing queued incident"), Some m)
      else Some (Ok tt, Some (<[dest := json_body]> (delete tmp m))).

(** The flush loop over the listed names; [send] may change its own state. *)
Fixpoint flush_loop {S} (send : S -> str -> bool * S) (st : S) (names : list str)
    (m : gmap str str) (flushed : nat) : nat * S * gmap str str :=
  match names with
  | [] => (flushed, st, m)
  | name :: names' =>
      match m !! name with
      | Some body =>
          if readable name then
            let '(ok, st) := send st body in
            if ok then flush_loop send st names' (remove name m) (flushed + 1)
            else (flushed, st, m)
          else flush_loop send st names' m flushed
      | None => flush_loop send st names' m flushed
      end
  end.
Definition flush {S} (send : S -> str -> bool * S) (st : S) (d : Dir) : nat * S * Dir :=
  match d with
  | None => (0%nat, st, None)
  | Some m => let '(n, st, m) := flush_loop send st (entries d) m 0 in (n, st, Some m)
  end.
End Queue.

(** ** The abstract queue: bodies, oldest first *)

Definition body_of (m : gmap str str) (name : str) : str := default [] (m !! name).
Definition pending (d : Dir) : list str :=
  match d with None => [] | Some m => map (body_of m) (entries d) end.

(** A file system whose calls all succeed. *)
Definition fs_ok : QueueFs := {|
  create_dir_all := true; remove_file := fun _ => true; write_file := fun _ => true;
  rename_file := fun _ => true; readable := fun _ => true |}.

(** *** The sorted listing *)

Definition str_lt (a b : str) : Prop := str_cmp a b = Lt.

Lemma str_cmp_Lt_irrefl a : ~ str_lt a a.
Proof. unfold str_lt. by rewrite str_cmp_refl. Qed.

Lemma str_lt_cmp_le a b : str_lt a b -> cmp_le str_cmp a b.
Proof. unfold str_lt, cmp_le. by intros ->. Qed.

Lemma str_lt_trans a b c : str_lt a b -> str_lt b c -> str_lt a c.
Proof.
  unfold str_lt. intros H1 H2. destruct (str_cmp a c) eqn:E; [|done|].
  - apply str_cmp_eq in E as ->. by rewrite (str_cmp_antisym c b), H1 in H2.
  - exfalso. apply (str_cmp_trans a b c); congruence.
Qed.

Lemma sorted_names l :
  NoDup l -> StronglySorted str_lt (sort_by str_cmp l).
Proof.
  intros Hnd.
  assert (StronglySorted (cmp_le str_cmp) (sort_by str_cmp l)) as Hs.
  { apply (sort_by_sorted _ (fun _ => True)); [| |by apply Forall_forall].
    - intros a b _ _ Hab. unfold cmp_le. by rewrite str_cmp_antisym, Hab.
    - intros a b c _ _ _. apply str_cmp_trans. }
  assert (NoDup (sort_by str_cmp l)) as Hnd' by by rewrite sort_by_perm.
  induction Hs as [|a l' Hs IH Ha]; constructor; apply NoDup_cons in Hnd' as [Hni Hnd'];
    [by apply IH|]. rewrite Forall_forall in *. intros b Hb. specialize (Ha b Hb).
  unfold str_lt, cmp_le in *. destruct (str_cmp a b) eqn:E; [|done|done].
  apply str_cmp_eq in E. by subst.
Qed.

(** Two strictly sorted lists with the same elements are equal. *)
Lemma sorted_names_unique l1 l2 :
  StronglySorted str_lt l1 -> StronglySorted str_lt l2 -> (forall x, x ∈ l1 <-> x ∈ l2) -> l1 = l2.
Proof.
  intros H1. revert l2. induction H1 as [|a l1 H1 IH Ha]; intros l2 H2 He.
  - destruct l2 as [|b l2]; [done|]. exfalso. apply (not_elem_of_nil b). apply He. by left.
  - destruct H2 as [|b l2 H2 Hb]; [exfalso; apply (not_elem_of_nil a); apply He; by left|].
    rewrite Forall_forall in Ha, Hb.
    assert (a = b) as <-.
    { destruct (decide (a = b)) as [|Hne]; [done|]. exfalso.
      assert (a ∈ b :: l2) as Ha2 by (apply He; by left).
      assert (b ∈ a :: l1) as Hb1 by (apply He; by left).
      apply elem_of_cons in Ha2 as [?|Ha2], Hb1 as [?|Hb1]; try done.
      apply (str_cmp_Lt_irrefl a). eapply str_lt_trans; [by apply Ha|by apply Hb]. }
    f_equal. apply IH; [done|]. intros x. split; intros Hx.
    + assert (x ∈ a :: l2) as Hx2 by (apply He; by right).
      apply elem_of_cons in Hx2 as [->|]; [|done]. by apply Ha, str_cmp_Lt_irrefl in Hx.
    + assert (x ∈ a :: l1) as Hx1 by (apply He; by right).
      apply elem_of_cons in Hx1 as [->|]; [|done]. by apply Hb, str_cmp_Lt_irrefl in Hx.
Qed.

Lemma entries_sorted d : StronglySorted str_lt (entries d).
Proof.
  destruct d as [m|]; [|constructor]. apply sorted_names. unfold entries.
  pose proof (NoDup_fst_map_to_list m) as H.
  change (map fst (map_to_list m)) with ((map_to_list m).*1).
  induction ((map_to_list m).*1) as [|x l IH]; cbn; [constructor|].
  apply NoDup_cons in H as [Hni H]. destruct (has_json_extension x); [|auto].
  apply NoDup_cons. split; [|auto]. rewrite list_elem_of_In, List.filter_In, <- list_elem_of_In.
  intros [? _]. done.
Qed.

Lemma elem_of_entries m name :
  name ∈ entries (Some m) <-> is_Some (m !! name) /\ has_json_extension name = true.
Proof.
  unfold entries. rewrite elem_of_sort_by, list_elem_of_In, List.filter_In, <- list_elem_of_In.
  change (map fst (map_to_list m)) with ((map_to_list m).*1). rewrite list_elem_of_fmap.
  split; intros [H1 H2]; split; try done.
  - destruct H1 as ([k v] & -> & H1). apply elem_of_map_to_list in H1. by eexists.
  - destruct H1 as [v Hv]. exists (name, v). split; [done|]. by apply elem_of_map_to_list.
Qed.

(** A strictly sorted list with the right elements is the listing. *)
Lemma entries_unique m l :
  StronglySorted str_lt l ->
  (forall x, x ∈ l <-> is_Some (m !! x) /\ has_json_extension x = true) -> entries (Some m) = l.
Proof.
  intros Hs He. apply sorted_names_unique; [apply entries_sorted|done|].
  intros x. by rewrite elem_of_entries, He.
Qed.

Lemma sorted_head_notin a l : StronglySorted str_lt (a :: l) -> a ∉ l.
Proof.
  intros Hs Hin. inversion_clear Hs as [|? ? _ Ha]. rewrite Forall_forall in Ha.
  by apply Ha, str_cmp_Lt_irrefl in Hin.
Qed.

Lemma entries_delete_head m a l :
  entries (Some m) = a :: l -> entries (Some (delete a m)) = l.
Proof.
  intros He. pose proof (entries_sorted (Some m)) as Hs. rewrite He in Hs.
  pose proof (sorted_head_notin _ _ Hs) as Hni. apply entries_unique; [by inversion Hs|].
  intros x. split.
  - intros Hx. assert (x <> a) by (by intros ->). rewrite lookup_delete_ne by done.
    apply elem_of_entries. rewrite He. by right.
  - intros [[v Hv] Hj]. apply lookup_delete_Some in Hv as [Hne Hv].
    assert (x ∈ a :: l) as Hx by (rewrite <- He; apply elem_of_entries; split; [by eexists|done]).
    by apply elem_of_cons in Hx as [?|?].
Qed.

Lemma entries_insert_last m name v :
  has_json_extension name = true -> (forall e, e ∈ entries (Some m) -> str_lt e name) ->
  entries (Some (<[name := v]> m)) = entries (Some m) ++ [name].
Proof.
  intros Hj Hlt. apply entries_unique.
  - pose proof (entries_sorted (Some m)) as Hs. induction Hs as [|a l Hs IH Ha]; cbn [app].
    + repeat constructor.
    + constructor; [apply IH; intros e He; apply Hlt; by right|].
      apply Forall_app. split; [done|]. apply Forall_singleton, Hlt. by left.
  - intros x. rewrite elem_of_app, list_elem_of_singleton, elem_of_entries, lookup_insert_is_Some'.
    naive_solver.
Qed.

(** Files that are not entries do not show in the listing. *)
Lemma entries_ext m m' :
  (forall x, has_json_extension x = true -> is_Some (m !! x) <-> is_Some (m' !! x)) ->
  entries (Some m) = entries (Some m').
Proof.
  intros H. apply entries_unique; [apply entries_sorted|]. intros x. rewrite elem_of_entries.
  split; intros [? ?]; (split; [by apply H|done]).
Qed.

Lemma drop_oldest_ok cap m :
  (0 < cap)%nat ->
  exists m', drop_oldest (F := fs_ok) cap (entries (Some m)) m = Some m' /\
    entries (Some m') = drop (S (length (entries (Some m))) - cap) (entries (Some m)) /\
    forall x, x ∈ entries (Some m') -> m' !! x = m !! x.
Proof.
  intros Hc. remember (entries (Some m)) as l eqn:He. symmetry in He. revert m He.
  induction l as [|a l IH]; intros m He; cbn [drop_oldest length].
  - destruct (Nat.leb_spec cap 0); [lia|]. exists m. split; [done|]. by rewrite He, drop_nil.
  - destruct (Nat.leb_spec cap (S (length l))) as [Hle|Hgt].
    + change (remove (F := fs_ok) a m) with (delete a m).
      pose proof (entries_delete_head _ _ _ He) as He'. destruct (IH _ He') as (m' & -> & E & L).
      exists m'. split; [done|]. split.
      * rewrite E. replace (S (S (length l)) - cap)%nat with (S (S (length l) - cap)) by lia. done.
      * intros x Hx. rewrite L by done. apply lookup_delete_ne. intros <-.
        pose proof (entries_sorted (Some m)) as Hs. rewrite He in Hs.
        apply (sorted_head_notin _ _ Hs). rewrite E in Hx. by eapply subseteq_drop.
    + exists m. split; [done|]. split; [|done]. by replace (S (S (length l)) - cap)%nat with 0%nat by lia.
Qed.

(** *** Time order of the names *)

Lemma str_cmp_app_Lt a b x y :
  length a = length b -> str_cmp a b = Lt -> str_cmp (a ++ x) (b ++ y) = Lt.
Proof.
  revert b. induction a as [|c a IH]; intros [|d b] Hl; cbn; try done.
  destruct (c ?= d) eqn:E; [|done|done]. apply IH. cbn in Hl. lia.
Qed.

Lemma str_cmp_digits a b :
  length a = length b -> forallb is_ascii_digit a = true -> forallb is_ascii_digit b = true ->
  digits_val a < digits_val b -> str_cmp a b = Lt.
Proof.
  revert b. induction a as [|c a IH]; intros [|d b] Hl Ha Hb Hv; cbn in Hl; try done.
  cbn in Ha, Hb. bool_hyps. cbn [str_cmp].
  change (c :: a) with ([c] ++ a) in Hv. change (d :: b) with ([d] ++ b) in Hv.
  rewrite !digits_val_app in Hv. replace (length b) with (length a) in Hv by lia.
  change (digits_val [c]) with (0 * 10 + (c - 48)) in Hv.
  change (digits_val [d]) with (0 * 10 + (d - 48)) in Hv.
  pose proof (digits_val_bound a ltac:(done)). pose proof (digits_val_bound b ltac:(done)) as Hbb.
  replace (length b) with (length a) in Hbb by lia.
  destruct (Z.compare_spec c d) as [->|?|?]; [|done|exfalso; nia].
  apply IH; [lia|done|done|lia].
Qed.

Definition padded (now : Z) : str := repeat 48 (39 - length (dec now)) ++ dec now.

Lemma digits_val_zeros n s : digits_val (repeat 48 n ++ s) = digits_val s.
Proof.
  rewrite digits_val_app. replace (digits_val (repeat 48 n)) with 0; [lia|].
  induction n as [|n IH]; [done|]. cbn [repeat]. change (48 :: repeat 48 n) with ([48] ++ repeat 48 n).
  rewrite digits_val_app, <- IH. done.
Qed.

Lemma padded_spec now :
  0 <= now < 10 ^ 39 ->
  length (padded now) = 39%nat /\ forallb is_ascii_digit (padded now) = true /\
  digits_val (padded now) = now.
Proof.
  intros Hn. destruct (dec_digits_spec 40 now) as (H1 & H2 & H3); [lia|lia|]. fold (dec now) in *.
  unfold padded. rewrite digits_val_zeros, forallb_app, H2, andb_true_r. split; [|split].
  - rewrite length_app, repeat_length. enough (length (dec now) <= 39)%nat by lia.
    destruct (decide (now = 0)) as [->|Hnz]; [by vm_compute; lia|].
    assert (exists k, (k <= 38)%nat /\ 10 ^ Z.of_nat k <= now < 10 ^ Z.of_nat (S k)) as (k & Hk & Hb).
    { assert (forall n, now < 10 ^ Z.of_nat n -> exists k, (S k <= n)%nat /\
        10 ^ Z.of_nat k <= now < 10 ^ Z.of_nat (S k)) as Hex.
      { induction n as [|n IH]; intros Hlt; [cbn in Hlt; lia|].
        destruct (Z.lt_ge_cases now (10 ^ Z.of_nat n)) as [Hlt'|Hge].
        - destruct (IH Hlt') as (k & ? & ?). exists k. split; [lia|done].
        - by exists n. }
      destruct (Hex 39%nat) as (k & ? & ?); [exact (proj2 Hn)|]. exists k. split; [lia|done]. }
    unfold dec. rewrite (length_dec_digits 40 now k); [lia|lia|done].
  - clear. induction (39 - length (dec now))%nat; [done|]. cbn. done.
  - done.
Qed.

Definition entry_name (now pid : Z) : str := stem now pid ++ lit ".json".

Lemma entry_names_ordered now1 pid1 now2 pid2 :
  0 <= now1 < now2 -> now2 < 10 ^ 39 -> str_lt (entry_name now1 pid1) (entry_name now2 pid2).
Proof.
  intros H1 H2. unfold str_lt, entry_name, stem.
  destruct (padded_spec now1 ltac:(lia)) as (L1 & D1 & V1).
  destruct (padded_spec now2 ltac:(lia)) as (L2 & D2 & V2).
  replace (_ ++ lit ".json") with (padded now1 ++ (lit "-" ++ dec pid1) ++ lit ".json")
    by (unfold padded; by rewrite <- !app_assoc).
  replace (repeat 48 (39 - length (dec now2)) ++ _) with (padded now2 ++ (lit "-" ++ dec pid2))
    by (unfold padded; by rewrite <- !app_assoc).
  rewrite <- (app_assoc (padded now2)). apply str_cmp_app_Lt; [congruence|].
  apply str_cmp_digits; [congruence|done|done|lia].
Qed.

Lemma json_name s : s <> [] -> has_json_extension (s ++ lit ".json") = true.
Proof.
  intros Hs. unfold has_json_extension. rewrite ends_with_app. cbn [andb].
  rewrite bool_decide_eq_false_2; [done|]. intros H. apply Hs.
  apply (app_inv_tail (lit ".json") s []). exact H.
Qed.

Lemma tmp_name s : has_json_extension (s ++ lit ".tmp") = false.
Proof.
  unfold has_json_extension, ends_with, strip_suffix. rewrite rev_app_distr. cbn. done.
Qed.

(** The entries were queued by earlier calls. *)
Definition queued_before (d : Dir) (now : Z) : Prop :=
  forall e, e ∈ entries d -> exists now' pid', 0 <= now' < now /\ e = entry_name now' pid'.

Lemma stem_nonempty now pid : stem now pid <> [].
Proof.
  unfold stem. intros H. apply (f_equal length) in H. rewrite !length_app in H.
  change (length (lit "-")) with 1%nat in H. cbn in H. lia.
Qed.

(** A new body goes to the end, over the cap the oldest leave. *)
Lemma enqueue_appends q now pid body d :
  (0 < cap q)%nat -> 0 <= now < 10 ^ 39 -> queued_before d now ->
  exists d', enqueue (F := fs_ok) q now pid body d = Some (Ok tt, d') /\
    pending d' = drop (S (length (pending d)) - cap q) (pending d) ++ [body] /\
    (queue_len d' <= cap q)%nat /\ queued_before d' (now + 1).
Proof.
  intros Hc Hnow Hold. unfold enqueue. cbn [create_dir_all fs_ok negb].
  set (m0 := default ∅ d).
  assert (entries (Some m0) = entries d /\ pending (Some m0) = pending d) as [He0 Hp0]
    by (destruct d; done).
  destruct (drop_oldest_ok (cap q) m0 Hc) as (m & -> & Em & Lm). cbn [mbind option_bind].
  cbn [write_file rename_file fs_ok negb].
  set (tmp := stem now pid ++ lit ".tmp"). set (dest := stem now pid ++ lit ".json").
  assert (has_json_extension tmp = false) as Htmp by apply tmp_name.
  assert (has_json_extension dest = true) as Hdest by apply json_name, stem_nonempty.
  set (m1 := delete tmp (<[tmp := body]> m)).
  assert (entries (Some m1) = entries (Some m)) as Em1.
  { apply entries_ext. intros x Hx. unfold m1. rewrite lookup_delete_ne, lookup_insert_ne by congruence. done. }
  assert (forall e, e ∈ entries (Some m1) -> str_lt e dest) as Hlt.
  { intros e He. rewrite Em1, Em in He. apply subseteq_drop in He. rewrite He0 in He.
    destruct (Hold e He) as (now' & pid' & Hn & ->). apply entry_names_ordered; [done|apply Hnow]. }
  pose proof (entries_insert_last m1 dest body Hdest Hlt) as Efin. rewrite Em1, Em, He0 in Efin.
  eexists. split; [done|]. split; [|split].
  - unfold pending at 1. rewrite Efin, map_app. f_equal.
    + rewrite <- Hp0. unfold pending. rewrite length_map, He0. rewrite <- fmap_drop.
      apply list_fmap_ext. intros i x Hx. unfold body_of. f_equal.
      apply list_elem_of_lookup_2 in Hx. rewrite <- He0, <- Em in Hx.
      rewrite lookup_insert_ne.
      * unfold m1. pose proof (proj1 (elem_of_entries m x) Hx) as [_ Hj].
        rewrite lookup_delete_ne, lookup_insert_ne by congruence. by apply Lm.
      * intros <-. rewrite <- Em1 in Hx. by apply Hlt, str_cmp_Lt_irrefl in Hx.
    + cbn. unfold body_of. by rewrite lookup_insert_eq.
  - unfold queue_len. rewrite Efin, length_app, length_drop. cbn [length]. lia.
  - intros e He. rewrite Efin in He. apply elem_of_app in He as [He|He%list_elem_of_singleton].
    + apply subseteq_drop in He. destruct (Hold e He) as (n' & p' & ? & ->). exists n', p'. split; [lia|done].
    + subst e. exists now, pid. split; [lia|done].
Qed.

(** Refinement of [enqueue] to a bounded FIFO: when the clock has moved on since
    the queued entries were written and the file system works, the new body is
    appended and only the oldest bodies beyond the cap are dropped, so the
    queue never grows over its cap and the newest incidents are kept. *)
Theorem enqueue_refines_bounded_fifo q now pid body d :
  (0 < cap q)%nat -> 0 <= now < 10 ^ 39 -> queued_before d now ->
  exists d', enqueue (F := fs_ok) q now pid body d = Some (Ok tt, d') /\
    pending d' = drop (S (length (pending d)) - cap q) (pending d) ++ [body] /\
    (queue_len d' <= cap q)%nat /\ queued_before d' (now + 1).
Proof. apply enqueue_appends. Qed.

(** Delivering bodies in order until the first refusal. *)
Fixpoint deliver {S} (send : S -> str -> bool * S) (st : S) (bodies : list str) : nat * S :=
  match bodies with
  | [] => (0%nat, st)
  | b :: bodies' =>
      let '(ok, st) := send st b in
      if ok then let '(n, st) := deliver send st bodies' in (Datatypes.S n, st) else (0%nat, st)
  end.

Lemma flush_loop_ok {S} (send : S -> str -> bool * S) st m k :
  flush_loop (F := fs_ok) send st (entries (Some m)) m k =
    (let '(n, st') := deliver send st (pending (Some m)) in
     ((k + n)%nat, st', snd (flush_loop (F := fs_ok) send st (entries (Some m)) m k))) /\
  pending (Some (snd (flush_loop (F := fs_ok) send st (entries (Some m)) m k))) =
    drop (fst (deliver send st (pending (Some m)))) (pending (Some m)).
Proof.
  remember (entries (Some m)) as l eqn:He. symmetry in He. revert m He st k.
  induction l as [|a l IH]; intros m He st k.
  - assert (pending (Some m) = []) as Hp by (unfold pending; by rewrite He).
    cbn [flush_loop snd]. rewrite Hp. cbn [deliver fst drop]. by rewrite Nat.add_0_r.
  - assert (is_Some (m !! a)) as [body Hb] by (apply elem_of_entries; rewrite He; by left).
    pose proof (entries_delete_head _ _ _ He) as He'.
    assert (pending (Some m) = body :: pending (Some (delete a m))) as Hp.
    { unfold pending. rewrite He, He'. cbn [map]. unfold body_of at 1. rewrite Hb. cbn. f_equal.
      apply list_fmap_ext. intros i x Hx. unfold body_of. rewrite lookup_delete_ne; [done|].
      intros <-. apply list_elem_of_lookup_2 in Hx.
      pose proof (entries_sorted (Some m)) as Hs. rewrite He in Hs. by apply sorted_head_notin in Hs. }
    rewrite Hp. cbn [flush_loop deliver]. rewrite Hb. cbn [readable fs_ok].
    destruct (send st body) as [[] st1]; cbn [fst snd].
    + change (remove (F := fs_ok) a m) with (delete a m).
      destruct (IH _ He' st1 (k + 1)%nat) as [I1 I2].
      destruct (deliver send st1 (pending (Some (delete a m)))) as [n st2]. cbn [fst] in *.
      split; [rewrite I1 at 1; do 2 f_equal; lia|]. rewrite I2. done.
    + split; [by rewrite Nat.add_0_r|]. by rewrite Hp.
Qed.

(** A flush adds nothing to the directory. *)
Lemma flush_loop_submap {F : QueueFs} {S} (send : S -> str -> bool * S) st names m k :
  (flush_loop send st names m k).2 ⊆ m.
Proof.
  revert st m k. induction names as [|name names IH]; intros st m k; cbn [flush_loop]; [done|].
  destruct (m !! name) as [body|]; [|apply IH]. destruct (readable name); [|apply IH].
  destruct (send st body) as [[] st1]; [|done]. etrans; [apply IH|]. unfold remove.
  destruct (remove_file name); [apply delete_subseteq|done].
Qed.
Lemma flush_queued_before {F : QueueFs} {S} (send : S -> str -> bool * S) st d now :
  queued_before d now -> queued_before (flush send st d).2 now.
Proof.
  intros Hq. destruct d as [m|]; [|done]. unfold flush.
  pose proof (flush_loop_submap send st (entries (Some m)) m 0) as Hs.
  destruct (flush_loop send st (entries (Some m)) m 0) as [[n st'] m']. cbn [snd] in *.
  intros e [[b He] Hj]%elem_of_entries. apply Hq, elem_of_entries. split; [exists b; by eapply lookup_weaken|done].
Qed.

Lemma flush_delivers {S} (send : S -> str -> bool * S) st d :
  exists d', flush (F := fs_ok) send st d = (deliver send st (pending d), d') /\
    pending d' = drop (fst (deliver send st (pending d))) (pending d).
Proof.
  destruct d as [m|]; [|by exists None].
  destruct (flush_loop_ok send st m 0) as [H1 H2]. unfold flush.
  destruct (deliver send st (pending (Some m))) as [n st'] eqn:E. cbn [fst Nat.add] in *.
  rewrite H1. eexists. split; [done|]. exact H2.
Qed.

(** Refinement of [flush]: the bodies are sent oldest first, exactly the
    delivered prefix leaves the queue, and everything from the first failure on
    stays queued in order. *)
Theorem flush_refines_fifo {S} (send : S -> str -> bool * S) st d :
  exists d', flush (F := fs_ok) send st d = (deliver send st (pending d), d') /\
    pending d' = drop (fst (deliver send st (pending d))) (pending d).
Proof. exact (flush_delivers send st d). Qed.

(** *** Failing writes

    A file system whose listed files can be read and removed, while creating the
    directory, writing and renaming may fail. *)

Definition reads_and_removes (F : QueueFs) : Prop :=
  (forall n, remove_file n = true) /\ (forall n, readable n = true).

Section Failing.
Context {F : QueueFs} (HF : reads_and_removes F).

Lemma remove_works a m : remove a m = delete a m.
Proof. unfold remove. by rewrite (proj1 HF). Qed.
Lemma drop_oldest_works c l m : drop_oldest c l m = drop_oldest (F := fs_ok) c l m.
Proof.
  revert m. induction l as [|a l IH]; intros m; cbn [drop_oldest]; [done|].
  destruct (_ <=? _)%nat; [|done]. by rewrite remove_works, IH.
Qed.
Lemma flush_works {S} (send : S -> str -> bool * S) st d : flush send st d = flush (F := fs_ok) send st d.
Proof.
  destruct d as [m|]; [|done]. unfold flush. generalize 0%nat as k. intros k.
  assert (forall l st m k, flush_loop send st l m k = flush_loop (F := fs_ok) send st l m k) as ->; [|done].
  clear -HF. intros l. induction l as [|a l IH]; intros st m k; cbn [flush_loop]; [done|].
  destruct (m !! a) as [b|]; [|done]. rewrite (proj2 HF). cbn [readable fs_ok].
  destruct (send st b) as [[] st1]; [|done]. by rewrite remove_works, IH.
Qed.

(** What [enqueue] answers, and what it makes of the bodies that wait: room is
    made before the write, so a failing write still costs the oldest of a full
    queue. *)
Definition queue_answer (now pid : Z) : result str unit :=
  let tmp := stem now pid ++ lit ".tmp" in
  if negb create_dir_all then Err (lit "creating incident queue")
  else if negb (write_file tmp) then Err (lit "writing queued incident (temp)")
  else if negb (rename_file tmp) then Err (lit "committing queued incident")
  else Ok tt.
Definition fifo_step (c : nat) (l : list str) (body : str) (r : result str unit) : list str :=
  if create_dir_all then
    drop (S (length l) - c) l ++ match r with Ok _ => [body] | Err _ => [] end
  else l.

Lemma pending_dropped c m : (0 < c)%nat ->
  exists m', drop_oldest (F := fs_ok) c (entries (Some m)) m = Some m' /\
    entries (Some m') ⊆ entries (Some m) /\
    pending (Some m') = drop (S (length (pending (Some m))) - c) (pending (Some m)).
Proof.
  intros Hc. destruct (drop_oldest_ok c m Hc) as (m' & Hd & E & L). exists m'. split; [exact Hd|].
  split; [rewrite E; apply subseteq_drop|]. unfold pending. rewrite length_map, <- fmap_drop, <- E.
  apply list_fmap_ext. intros i x Hx. unfold body_of. f_equal. apply L. by eapply list_elem_of_lookup_2.
Qed.

Lemma enqueue_effect q now pid body d :
  (0 < cap q)%nat -> 0 <= now < 10 ^ 39 -> queued_before d now ->
  exists d', enqueue q now pid body d = Some (queue_answer now pid, d') /\
    pending d' = fifo_step (cap q) (pending d) body (queue_answer now pid) /\ queued_before d' (now + 1).
Proof.
  intros Hc Hn Hq. unfold enqueue, queue_answer, fifo_step.
  assert (queued_before d (now + 1)) as Hq'.
  { intros e He. destruct (Hq e He) as (n & p & ? & ->). exists n, p. split; [lia|done]. }
  destruct create_dir_all; cbn [negb]; [|by exists d].
  set (m0 := default ∅ d). assert (entries (Some m0) = entries d /\ pending (Some m0) = pending d) as [He0 Hp0] by by destruct d.
  rewrite drop_oldest_works. destruct (pending_dropped (cap q) m0 Hc) as (m & Hm & Es & Hp).
  assert (forall d', entries d' = entries (Some m) -> queued_before d' (now + 1)) as Hqb.
  { intros d' Hd e He. rewrite Hd in He. apply Hq'. rewrite <- He0. by apply Es. }
  rewrite Hp0 in Hp. set (tmp := stem now pid ++ lit ".tmp").
  destruct (write_file tmp) eqn:Hw; cbn [negb]; [destruct (rename_file tmp) eqn:Hr; cbn [negb]|].
  - destruct (enqueue_appends q now pid body d Hc Hn Hq) as (d' & He & Hpd & _ & Hb). exists d'.
    split; [|by split]. rewrite Hm. cbn [mbind option_bind]. unfold enqueue in He. cbn [create_dir_all fs_ok negb] in He.
    fold m0 in He. rewrite Hm in He. exact He.
  - rewrite Hm. cbn [mbind option_bind]. eexists. split; [done|].
    assert (entries (Some (<[tmp := body]> m)) = entries (Some m)) as He.
    { apply entries_ext. intros y Hy. rewrite lookup_insert_ne; [done|]. intros <-. unfold tmp in Hy. by rewrite tmp_name in Hy. }
    split; [|by apply Hqb]. rewrite app_nil_r, <- Hp. unfold pending. rewrite He.
    apply list_fmap_ext. intros i y Hy. unfold body_of. rewrite lookup_insert_ne; [done|]. intros <-.
    apply list_elem_of_lookup_2, elem_of_entries in Hy as [_ Hy]. unfold tmp in Hy. by rewrite tmp_name in Hy.
  - rewrite Hm. cbn [mbind option_bind]. eexists. split; [done|]. split; [by rewrite app_nil_r|by apply Hqb].
Qed.
End Failing.

Lemma enqueue_refines_bounded_fifo_witness :
  let q := {| cap := 2 |} in
  let d0 := Some (<[entry_name 5 7 := lit "a"]> (<[entry_name 6 7 := lit "b"]> ∅)) in
  pending d0 = [lit "a"; lit "b"] /\
  exists d', enqueue (F := fs_ok) q 9 7 (lit "c") d0 = Some (Ok tt, d') /\
    pending d' = [lit "b"; lit "c"].
Proof.
  intros q d0. split; [vm_compute; reflexivity|].
  destruct (enqueue_refines_bounded_fifo q 9 7 (lit "c") d0) as (d' & H & Hp & _).
  - vm_compute. lia.
  - vm_compute. split; congruence.
  - assert (entries d0 = [entry_name 5 7; entry_name 6 7]) as He by (vm_compute; reflexivity).
    intros e. rewrite He. intros [->|[->|[]%elem_of_nil]%elem_of_cons]%elem_of_cons;
      [exists 5, 7|exists 6, 7]; (split; [lia|reflexivity]).
  - exists d'. split; [exact H|]. rewrite Hp. vm_compute. reflexivity.
Defined.
