(* ===== verification/Crypto.v ===== *)
(** The crypto core ([src/crypto/keyring.rs], [src/crypto/envelope.rs]): the
    keyring with its terminal destruction and the [.dlpenc] envelope.  AES-GCM,
    base64, JSON and the random source are the class [CryptoEnv] with the laws
    [CryptoLaws]; zeroising memory is not modelled. *)

From S2P Require Import Prelude Words Text F64 Unicode Fingerprint Bundle Edm.
#[local] Open Scope Z_scope.

(** ** Errors *)

Inductive EnvelopeError :=
  | Malformed (what : str)
  | WrongKey
  | Tampered
  | UnknownKeyId (id : str)
  | KeyDestroyed (id : str)
  | HeaderTooLarge
  | SealFailed.
#[export] Instance EnvelopeError_eq_dec : EqDecision EnvelopeError.
Proof. solve_decision. Defined.

Definition EnvelopeError_display (e : EnvelopeError) : str :=
  match e with
  | Malformed what => lit "malformed envelope (" ++ what ++ lit ")"
  | WrongKey => lit "wrong key: DEK unwrap failed"
  | Tampered => lit "authentication failed: envelope tampered or truncated"
  | UnknownKeyId id => lit "unknown key id: " ++ id
  | KeyDestroyed id => lit "key destroyed (crypto-shredded): " ++ id
  | HeaderTooLarge => lit "envelope header exceeds u16 length field"
  | SealFailed => lit "internal seal failure"
  end.

(** ** Keyring *)

Record Kek := { kek_id : str; kek_bytes : bytes }.
Record Keyring := {
  keys : gmap str Kek;
  destroyed : gset str;
  active_key_id : str;
}.

Inductive KeyringError :=
  | KeyIo (message : str)
  | KeyParse (message : str)
  | BadKeyLength (key_id : str) (len : Z)
  | MissingActive (id : str).

Definition Keyring_new (active_key_id : str) : Keyring :=
  {| keys := ∅; destroyed := ∅; active_key_id := active_key_id |}.

Definition insert (kek : Kek) (r : Keyring) : Keyring :=
  if bool_decide (kek_id kek ∈ destroyed r) then r
  else {| keys := <[kek_id kek := kek]> (keys r); destroyed := destroyed r;
          active_key_id := active_key_id r |}.

Definition lookup_key (r : Keyring) (key_id : str) : result EnvelopeError Kek :=
  if bool_decide (key_id ∈ destroyed r) then Err (KeyDestroyed key_id)
  else ok_or (keys r !! key_id) (UnknownKeyId key_id).

Definition active (r : Keyring) : result EnvelopeError Kek := lookup_key r (active_key_id r).

Definition set_active (key_id : str) (r : Keyring) : result EnvelopeError unit * Keyring :=
  match lookup_key r key_id with
  | Err e => (Err e, r)
  | Ok _ => (Ok tt, {| keys := keys r; destroyed := destroyed r; active_key_id := key_id |})
  end.

(** Whether the key was held, and the ring without it. *)
Definition destroy (key_id : str) (r : Keyring) : bool * Keyring :=
  (bool_decide (is_Some (keys r !! key_id)),
   {| keys := delete key_id (keys r); destroyed := {[key_id]} ∪ destroyed r;
      active_key_id := active_key_id r |}).

(** The keyfile after JSON parsing; [df_keys] in the order the map is iterated. *)
Record DevKeyfile := {
  df_active_key_id : str;
  df_keys : list (str * str);
  df_destroyed : list str;
}.

#[export] Instance DevKeyfile_eq_dec : EqDecision DevKeyfile.
Proof. solve_decision. Defined.

(** ** The libraries *)

Record EnvelopeHeader := {
  key_id : str;
  wrapped_dek : str;
  dek_nonce : str;
  origin_agent : str;
  created_unix : Z;
  plaintext_sha256 : str;
  orig_name : str;
}.

Class CryptoEnv := {
  (** [Aes256Gcm]: [key nonce aad msg]; [None] is an error, in particular for
      a key that is not 32 bytes *)
  gcm_encrypt : bytes -> bytes -> bytes -> bytes -> option bytes;
  gcm_decrypt : bytes -> bytes -> bytes -> bytes -> option bytes;
  base64_encode : bytes -> str;
  base64_decode : str -> option bytes;
  header_to_vec : EnvelopeHeader -> option bytes;
  header_from_slice : bytes -> option EnvelopeHeader;
  keyfile_from_slice : bytes -> result str DevKeyfile;
  (** the message of a base64 error and the [{:?}] form of a string *)
  base64_error : str -> str;
  debug_str : str -> str;
}.

(** Documented behaviour: GCM is authenticated encryption with a 16-byte tag,
    deterministic in its four inputs; base64 and JSON read back what they
    write. *)
Class CryptoLaws (E : CryptoEnv) := {
  gcm_open_seal key nonce aad msg ct :
    gcm_encrypt key nonce aad msg = Some ct -> gcm_decrypt key nonce aad ct = Some msg;
  gcm_authentic key nonce aad msg ct :
    gcm_decrypt key nonce aad ct = Some msg -> gcm_encrypt key nonce aad msg = Some ct;
  gcm_length key nonce aad msg ct :
    gcm_encrypt key nonce aad msg = Some ct -> length ct = (length msg + 16)%nat;
  base64_roundtrip bs : base64_decode (base64_encode bs) = Some bs;
  header_roundtrip h hb : header_to_vec h = Some hb -> header_from_slice hb = Some h;
}.

Section Crypto.
Context {E : CryptoEnv} {D : Digest}.

Fixpoint load_keys (ring : Keyring) (ks : list (str * str)) : result KeyringError Keyring :=
  match ks with
  | [] => Ok ring
  | (id, b64) :: ks' =>
      raw ← ok_or (base64_decode b64)
               (KeyParse (lit "key " ++ debug_str id ++ lit ": " ++ base64_error b64));
      if negb (bool_decide (length raw = 32%nat)) then Err (BadKeyLength id (Z.of_nat (length raw)))
      else load_keys (insert {| kek_id := id; kek_bytes := raw |} ring) ks'
  end.

Definition from_dev_json (bs : bytes) : result KeyringError Keyring :=
  parsed ← map_err KeyParse (keyfile_from_slice bs);
  let ring := Keyring_new (df_active_key_id parsed) in
  let ring := {| keys := keys ring; destroyed := list_to_set (df_destroyed parsed);
                 active_key_id := active_key_id ring |} in
  ring ← load_keys ring (df_keys parsed);
  match lookup_key ring (df_active_key_id parsed) with
  | Err _ => Err (MissingActive (df_active_key_id parsed))
  | Ok _ => Ok ring
  end.

Definition KeyringError_display (e : KeyringError) : str :=
  match e with
  | KeyIo e => lit "keyfile read failed: " ++ e
  | KeyParse e => lit "keyfile parse failed: " ++ e
  | BadKeyLength key_id len =>
      lit "key " ++ debug_str key_id ++ lit " decodes to " ++ dec len ++ lit " bytes, expected 32"
  | MissingActive id =>
      lit "active key id " ++ debug_str id ++ lit " not present (or destroyed) in keyfile"
  end.

(** [read] is what [fs::read] gave for the path. *)
Definition load_dev_keyfile (read : result str bytes) : result KeyringError Keyring :=
  bs ← map_err KeyIo read;
  from_dev_json bs.

(** ** Envelope *)

Definition ENVELOPE_MAGIC : bytes := lit "DLPE".
Definition VERSION : Z := 0x01.
Definition NONCE_LEN : nat := 12.
Definition TAG_LEN : nat := 16.
Definition WRAPPED_DEK_LEN : nat := 32 + TAG_LEN.
Definition PREFIX_LEN : nat := 7.

(** The random source: each draw returns the bytes asked for and its next
    state. *)
Definition Rng (S : Type) : Type := nat -> S -> bytes * S.

Definition envelope_prefix (header_bytes : bytes) : bytes :=
  ENVELOPE_MAGIC ++ [VERSION] ++ to_le_bytes 2 (Z.of_nat (length header_bytes)) ++ header_bytes.

Definition seal_with_rng {S} (rng : Rng S) (st : S) (plaintext : bytes) (orig_name : str)
    (key : Kek) (agent_id : str) (now_unix : Z) : result EnvelopeError bytes * S :=
  let '(dek, st) := rng 32%nat st in
  let '(dek_nonce, st) := rng NONCE_LEN st in
  let '(body_nonce, st) := rng NONCE_LEN st in
  (wrapped_dek ← ok_or (gcm_encrypt (kek_bytes key) dek_nonce [] dek) SealFailed;
   let header := {| key_id := kek_id key; wrapped_dek := base64_encode wrapped_dek;
                    dek_nonce := base64_encode dek_nonce; origin_agent := agent_id;
                    created_unix := now_unix; plaintext_sha256 := hex (sha256 plaintext);
                    orig_name := orig_name |} in
   header_bytes ← ok_or (header_to_vec header) SealFailed;
   _ ← ensure (Z.of_nat (length header_bytes) <? 2 ^ 16) HeaderTooLarge;
   let out := envelope_prefix header_bytes in
   ciphertext_and_tag ← ok_or (gcm_encrypt dek body_nonce out plaintext) SealFailed;
   Ok (out ++ body_nonce ++ ciphertext_and_tag), st).

(** [seal]: the random source of the operating system. *)
Definition seal {S} (os_rng : Rng S) (st : S) (plaintext : bytes) (orig_name : str) (key : Kek)
    (agent_id : str) (now_unix : Z) : result EnvelopeError bytes * S :=
  seal_with_rng os_rng st plaintext orig_name key agent_id now_unix.

Record Parsed := {
  p_header : EnvelopeHeader;
  p_aad : bytes;
  p_nonce : bytes;
  p_ciphertext_and_tag : bytes;
}.

Definition parse (envelope : bytes) : result EnvelopeError Parsed :=
  _ ← ensure (negb (length envelope <? PREFIX_LEN)%nat) (Malformed (lit "truncated"));
  _ ← ensure (bool_decide (slice 0 4 envelope = ENVELOPE_MAGIC)) (Malformed (lit "magic"));
  _ ← ensure (bool_decide (envelope !! 4%nat = Some VERSION)) (Malformed (lit "version"));
  let header_len := Z.to_nat (from_le_bytes (slice 5 7 envelope)) in
  let header_end := (PREFIX_LEN + header_len)%nat in
  _ ← ensure (negb (length envelope <? header_end)%nat) (Malformed (lit "header-len-overflow"));
  header ← ok_or (header_from_slice (slice PREFIX_LEN header_end envelope))
             (Malformed (lit "header-json"));
  _ ← ensure (negb (length envelope <? header_end + NONCE_LEN + TAG_LEN)%nat)
        (Malformed (lit "truncated"));
  Ok {| p_header := header; p_aad := take header_end envelope;
        p_nonce := slice header_end (header_end + NONCE_LEN) envelope;
        p_ciphertext_and_tag := drop (header_end + NONCE_LEN) envelope |}.

Definition open (envelope : bytes) (keyring : Keyring)
    : result EnvelopeError (EnvelopeHeader * bytes) :=
  parsed ← parse envelope;
  kek ← lookup_key keyring (key_id (p_header parsed));
  wrapped ← ok_or (base64_decode (wrapped_dek (p_header parsed))) (Malformed (lit "header-field"));
  nonce ← ok_or (base64_decode (dek_nonce (p_header parsed))) (Malformed (lit "header-field"));
  _ ← ensure (negb (negb (length wrapped =? WRAPPED_DEK_LEN)%nat
                    || negb (length nonce =? NONCE_LEN)%nat)) (Malformed (lit "header-field"));
  dek ← ok_or (gcm_decrypt (kek_bytes kek) nonce [] wrapped) WrongKey;
  _ ← ensure (length dek =? 32)%nat WrongKey;
  plaintext ← ok_or (gcm_decrypt dek (p_nonce parsed) (p_aad parsed) (p_ciphertext_and_tag parsed))
                Tampered;
  Ok (p_header parsed, plaintext).

Definition peek_header (envelope : bytes) : result EnvelopeError EnvelopeHeader :=
  parsed ← parse envelope;
  Ok (p_header parsed).

(** ** Histories of a keyring *)

Inductive KeyringOp :=
  | OpInsert (kek : Kek)
  | OpSetActive (id : str)
  | OpDestroy (id : str).
Definition keyring_step (r : Keyring) (op : KeyringOp) : Keyring :=
  match op with
  | OpInsert k => insert k r
  | OpSetActive id => (set_active id r).2
  | OpDestroy id => (destroy id r).2
  end.

(** No destroyed key is held, and every key is filed under its own id. *)
Definition keyring_wf (r : Keyring) : Prop :=
  (forall id, id ∈ destroyed r -> keys r !! id = None) /\
  (forall id k, keys r !! id = Some k -> kek_id k = id).

Lemma insert_wf k r : keyring_wf r -> keyring_wf (insert k r).
Proof.
  intros [H1 H2]. unfold insert. case_bool_decide as Hd; [done|]. split; cbn.
  - intros id Hid. rewrite lookup_insert_ne; [by apply H1|]. by intros <-.
  - intros id k'. destruct (decide (kek_id k = id)) as [<-|Hne].
    + rewrite lookup_insert_eq. by intros [= <-].
    + rewrite lookup_insert_ne by done. apply H2.
Qed.

Lemma keyring_step_wf r op : keyring_wf r -> keyring_wf (keyring_step r op).
Proof.
  intros Hw. destruct op as [k|id|id]; cbn [keyring_step].
  - by apply insert_wf.
  - unfold set_active. destruct (lookup_key r id); exact Hw.
  - destruct Hw as [H1 H2]. split; cbn.
    + intros id' [->%elem_of_singleton|Hd]%elem_of_union; [apply lookup_delete_eq|].
      apply lookup_delete_None. right. by apply H1.
    + intros id' k Hk. apply lookup_delete_Some in Hk as [_ Hk]. by apply H2.
Qed.

Lemma load_keys_wf ring ks ring' :
  keyring_wf ring -> load_keys ring ks = Ok ring' ->
  keyring_wf ring' /\ destroyed ring' = destroyed ring /\ active_key_id ring' = active_key_id ring.
Proof.
  revert ring. induction ks as [|[id b64] ks IH]; intros ring Hw; cbn [load_keys]; [by intros [= <-]|].
  intros H. inv_ok. destruct (negb _); [done|]. apply IH in H as (H1 & H2 & H3); [|by apply insert_wf].
  split; [done|]. rewrite H2, H3. unfold insert. by case_bool_decide.
Qed.

Lemma destroyed_step r op id : id ∈ destroyed r -> id ∈ destroyed (keyring_step r op).
Proof.
  intros Hd. destruct op as [k|i|i]; cbn.
  - unfold insert. by case_bool_decide.
  - unfold set_active. by destruct (lookup_key r i).
  - set_solver.
Qed.

Lemma destroyed_run ops r id : id ∈ destroyed r -> id ∈ destroyed (foldl keyring_step r ops).
Proof. revert r. induction ops as [|op ops IH]; cbn; intros r Hd; [done|]. by apply IH, destroyed_step. Qed.

Lemma run_wf ops r : keyring_wf r -> keyring_wf (foldl keyring_step r ops).
Proof. revert r. induction ops as [|op ops IH]; cbn; intros r Hw; [done|]. by apply IH, keyring_step_wf. Qed.

(** Crypto-shredding is terminal.  Once an id has been destroyed, whatever is
    inserted, activated or destroyed afterwards, no key is held under it and
    looking it up says [KeyDestroyed], so neither sealing nor opening can use
    it; a keyfile that lists an id as destroyed starts in that state, and a ring
    that loads can seal. *)
Theorem destruction_is_terminal r ops ops' id bs ring :
  keyring_wf r ->
  (let r' := foldl keyring_step r (ops ++ OpDestroy id :: ops') in
   lookup_key r' id = Err (KeyDestroyed id) /\ keys r' !! id = None /\
   (active_key_id r' = id -> active r' = Err (KeyDestroyed id))) /\
  (from_dev_json bs = Ok ring ->
   keyring_wf ring /\ (exists k, active ring = Ok k) /\
   exists df, keyfile_from_slice bs = Ok df /\
     forall id, id ∈ df_destroyed df -> lookup_key ring id = Err (KeyDestroyed id)).
Proof.
  intros Hw. split.
  - cbv zeta. rewrite foldl_app. cbn [foldl].
    set (r1 := keyring_step (foldl keyring_step r ops) (OpDestroy id)).
    assert (id ∈ destroyed r1) as Hd by (cbn; set_solver).
    assert (keyring_wf r1) as Hw1 by by apply keyring_step_wf, run_wf.
    apply (destroyed_run ops') in Hd. apply (run_wf ops') in Hw1.
    set (r2 := foldl keyring_step r1 ops') in *. clearbody r2.
    assert (lookup_key r2 id = Err (KeyDestroyed id)) as Hl
      by (unfold lookup_key; by rewrite bool_decide_eq_true_2).
    split; [done|]. split; [by apply Hw1|]. unfold active. by intros ->.
  - unfold from_dev_json. intros H. destruct (keyfile_from_slice bs) as [df|e]; [|done].
    cbn [map_err mbind result_bind] in H. apply bind_Ok in H as (ring' & Hl & H).
    apply load_keys_wf in Hl as (H1 & H2 & H3).
    2:{ split; cbn; [intros; apply lookup_empty|]. intros i k. by rewrite lookup_empty. }
    destruct (lookup_key ring' (df_active_key_id df)) as [k|] eqn:Ha; [|done]. injection H as <-.
    split; [done|]. split.
    + exists k. unfold active. rewrite H3. exact Ha.
    + exists df. split; [done|]. intros i Hi. unfold lookup_key.
      rewrite H2. cbn. rewrite bool_decide_eq_true_2; [done|]. by apply elem_of_list_to_set.
Qed.

(** ** The shape of an envelope *)

Lemma length_envelope_prefix hb : length (envelope_prefix hb) = (PREFIX_LEN + length hb)%nat.
Proof. unfold envelope_prefix. rewrite !length_app, length_to_le_bytes. reflexivity. Qed.

(** What [parse] returns for an envelope laid out as prefix, nonce, rest. *)
Definition parsed_of (hb nonce ct : bytes) (h : EnvelopeHeader) : Parsed :=
  {| p_header := h; p_aad := envelope_prefix hb; p_nonce := nonce; p_ciphertext_and_tag := ct |}.

Lemma parse_encoding hb nonce ct h :
  Z.of_nat (length hb) < 2 ^ 16 -> length nonce = NONCE_LEN -> (TAG_LEN <= length ct)%nat ->
  header_from_slice hb = Some h ->
  parse (envelope_prefix hb ++ nonce ++ ct) = Ok (parsed_of hb nonce ct h).
Proof.
  intros Hl Hn Ht Hh. unfold parse.
  set (env := envelope_prefix hb ++ nonce ++ ct).
  assert (length env = PREFIX_LEN + length hb + NONCE_LEN + length ct)%nat as Hlen.
  { unfold env. rewrite !length_app, length_envelope_prefix, Hn. lia. }
  assert (slice 5 7 env = to_le_bytes 2 (Z.of_nat (length hb))) as H57 by reflexivity.
  assert (slice 0 4 env = ENVELOPE_MAGIC) as H04 by reflexivity.
  assert (env !! 4%nat = Some VERSION) as H4 by reflexivity.
  assert (slice PREFIX_LEN (PREFIX_LEN + length hb) env = hb) as Hhb.
  { unfold slice, env, envelope_prefix. rewrite Nat.add_comm, Nat.add_sub.
    change (drop PREFIX_LEN _) with (hb ++ nonce ++ ct). by rewrite take_app_length. }
  rewrite H57, H04, H4, from_to_le_bytes, Nat2Z.id by (cbn; lia). rewrite Hhb, Hh.
  cbn zeta. rewrite !bool_decide_eq_true_2 by done.
  rewrite Hlen. unfold NONCE_LEN, TAG_LEN, PREFIX_LEN in *.
  do 3 rewrite (proj2 (Nat.ltb_ge _ _)) by lia. cbn [negb ensure mbind result_bind ok_or].
  unfold parsed_of. do 2 f_equal.
  - unfold env. rewrite take_app_length'; [done|]. apply length_envelope_prefix.
  - unfold slice, env. rewrite drop_app_length' by apply length_envelope_prefix.
    rewrite take_app_length'; [done|]. lia.
  - unfold env. rewrite (app_assoc _ nonce), drop_app_length'; [done|].
    rewrite length_app, length_envelope_prefix, Hn. reflexivity.
Qed.

Lemma parse_Ok_inv env p :
  Forall is_byte env -> parse env = Ok p ->
  exists hb nonce ct h, env = envelope_prefix hb ++ nonce ++ ct /\ p = parsed_of hb nonce ct h /\
    Z.of_nat (length hb) < 2 ^ 16 /\ length nonce = NONCE_LEN /\ (TAG_LEN <= length ct)%nat /\
    header_from_slice hb = Some h.
Proof.
  intros Hb. unfold parse. intros H. inv_ok. bool_hyps.
  set (n := Z.to_nat (from_le_bytes (slice 5 7 env))) in *.
  unfold NONCE_LEN, TAG_LEN, PREFIX_LEN in *.
  assert (length (slice 5 7 env) = 2)%nat as Hl2.
  { unfold slice. rewrite length_take, length_drop. lia. }
  assert (Forall is_byte (slice 5 7 env)) as Hb2 by by apply Forall_take, Forall_drop.
  pose proof (from_le_bytes_bound _ Hb2) as Hbd. rewrite Hl2 in Hbd.
  change (256 ^ Z.of_nat 2) with (2 ^ 16) in Hbd.
  assert (length (slice 7 (7 + n) env) = n) as Hn.
  { unfold slice. rewrite length_take, length_drop. lia. }
  assert (env = ENVELOPE_MAGIC ++ [VERSION] ++ slice 5 7 env ++ drop 7 env) as Henv.
  { rewrite <- E1. clear - E0 E2.
    destruct env as [|b0 [|b1 [|b2 [|b3 [|b4 [|b5 [|b6 env']]]]]]]; cbn in *; try lia.
    rewrite drop_0. by injection E2 as ->. }
  assert (take (7 + n) env = envelope_prefix (slice 7 (7 + n) env)) as Haad.
  { unfold envelope_prefix. rewrite Hn.
    replace (to_le_bytes 2 (Z.of_nat n)) with (slice 5 7 env).
    2:{ unfold n. rewrite Z2Nat.id by lia. pose proof (to_from_le_bytes _ Hb2) as Hx.
        rewrite Hl2 in Hx. done. }
    assert (take 7 env = ENVELOPE_MAGIC ++ [VERSION] ++ slice 5 7 env) as H7.
    { rewrite Henv at 1. rewrite (app_assoc _ [VERSION]), (app_assoc _ (slice 5 7 env)).
      rewrite take_app_length' by (rewrite !length_app, Hl2; reflexivity). by rewrite <- app_assoc. }
    rewrite <- (take_drop 7 env) at 1. rewrite take_app, H7, length_app.
    rewrite take_ge by (rewrite !length_app, Hl2; cbn; lia).
    rewrite !length_app, Hl2, <- !app_assoc. reflexivity. }
  exists (slice 7 (7 + n) env), (slice (7 + n) (7 + n + 12) env), (drop (7 + n + 12) env), a3.
  split.
  { rewrite <- Haad, <- (take_drop (7 + n) env) at 1. f_equal.
    rewrite <- (take_drop 12 (drop (7 + n) env)) at 1. unfold slice.
    f_equal; [f_equal; lia|]. rewrite drop_drop. f_equal. }
  split; [unfold parsed_of; by rewrite <- Haad|]. rewrite Hn.
  split; [lia|]. split; [|split; [|done]].
  - unfold slice. rewrite length_take, length_drop. lia.
  - rewrite length_drop. lia.
Qed.

(** [open] unwraps and decrypts exactly the envelopes [seal] could have
    produced under a key of the ring. *)
Context {L : CryptoLaws E}.

(** The data key [dek] wrapped in header [h] under a key of the ring. *)
Definition wraps (ring : Keyring) (h : EnvelopeHeader) (dek : bytes) : Prop :=
  exists kek nonce wrapped, lookup_key ring (key_id h) = Ok kek /\
    base64_decode (wrapped_dek h) = Some wrapped /\ base64_decode (dek_nonce h) = Some nonce /\
    length nonce = NONCE_LEN /\ length dek = 32%nat /\
    gcm_encrypt (kek_bytes kek) nonce [] dek = Some wrapped.

Lemma open_parsed env ring hb nonce ct h dek pt :
  parse env = Ok (parsed_of hb nonce ct h) -> wraps ring h dek ->
  gcm_encrypt dek nonce (envelope_prefix hb) pt = Some ct -> open env ring = Ok (h, pt).
Proof.
  intros Hp (kek & n & w & Hk & Hw & Hn & Hln & Hld & He) Hc. unfold open.
  rewrite Hp. cbn [mbind result_bind parsed_of p_header p_aad p_nonce p_ciphertext_and_tag].
  rewrite Hk, Hw, Hn. cbn [mbind result_bind ok_or].
  assert (length w = WRAPPED_DEK_LEN) as -> by (apply gcm_length in He; rewrite He, Hld; done).
  rewrite Hln, !Nat.eqb_refl. cbn [negb orb ensure mbind result_bind ok_or].
  rewrite (gcm_open_seal _ _ _ _ _ He). cbn [mbind result_bind ok_or].
  rewrite Hld. cbn [Nat.eqb ensure mbind result_bind].
  by rewrite (gcm_open_seal _ _ _ _ _ Hc).
Qed.

(** C9: Opening is exact.  [open] returns header [h] and plaintext [pt] if and only
    if the file is the version-1 layout of a header that reads as [h], a 12-byte
    nonce and the authenticated encryption of [pt] with the whole prefix as
    associated data, under a 32-byte data key that [h] carries wrapped by a key
    the ring still holds.  So no plaintext is returned for a file in which any
    byte of the prefix, the nonce or the ciphertext differs from an encryption
    of that plaintext, nor for a destroyed key. *)
Theorem open_accepts_exactly_encryptions env ring h pt :
  Forall is_byte env ->
  open env ring = Ok (h, pt) <->
  exists hb nonce ct dek, env = envelope_prefix hb ++ nonce ++ ct /\
    Z.of_nat (length hb) < 2 ^ 16 /\ header_from_slice hb = Some h /\
    length nonce = NONCE_LEN /\ wraps ring h dek /\
    gcm_encrypt dek nonce (envelope_prefix hb) pt = Some ct.
Proof.
  intros Hb. split.
  - unfold open. intros H. inv_ok. apply (parse_Ok_inv _ _ Hb) in E0 as
      (hb & nonce & ct & h' & Henv & -> & Hl & Hn & Ht & Hh).
    cbn [parsed_of p_header p_aad p_nonce p_ciphertext_and_tag] in *.
    bool_hyps. apply gcm_authentic in E7. apply gcm_authentic in E5.
    exists hb, nonce, ct, a4. repeat (split; [done|]). split; [|done].
    exists a0, a2, a1. auto 10.
  - intros (hb & nonce & ct & dek & -> & Hl & Hh & Hn & Hw & Hc).
    eapply open_parsed; [|done..]. apply parse_encoding; [done..| |done].
    apply gcm_length in Hc. unfold TAG_LEN. lia.
Qed.

Lemma open_seal {S} (rng : Rng S) st plaintext name kek agent now ring env :
  (forall n s, length (rng n s).1 = n) ->
  lookup_key ring (kek_id kek) = Ok kek ->
  (seal_with_rng rng st plaintext name kek agent now).1 = Ok env ->
  exists h, open env ring = Ok (h, plaintext) /\ peek_header env = Ok h /\
    key_id h = kek_id kek /\ origin_agent h = agent /\ created_unix h = now /\
    orig_name h = name /\ plaintext_sha256 h = hex (sha256 plaintext).
Proof.
  intros Hr Hk. unfold seal_with_rng.
  pose proof (Hr 32%nat st) as H1. destruct (rng 32%nat st) as [dek s1].
  pose proof (Hr NONCE_LEN s1) as H2. destruct (rng NONCE_LEN s1) as [dn s2].
  pose proof (Hr NONCE_LEN s2) as H3. destruct (rng NONCE_LEN s2) as [bn s3]. cbn [fst] in *.
  intros H. apply bind_Ok in H as (w & Hw & H). apply ok_or_Ok in Hw. cbv zeta in H.
  set (h := {| key_id := kek_id kek |}) in H.
  apply bind_Ok in H as (hb & Hh & H). apply ok_or_Ok in Hh.
  apply bind_Ok in H as (u & Hl & H). apply ensure_Ok, Z.ltb_lt in Hl.
  apply bind_Ok in H as (ct & Hc & H). apply ok_or_Ok in Hc.
  assert (env = envelope_prefix hb ++ bn ++ ct) as -> by congruence. clear H.
  apply header_roundtrip in Hh.
  assert (parse (envelope_prefix hb ++ bn ++ ct) = Ok (parsed_of hb bn ct h)) as Hp.
  { apply parse_encoding; [done..| |done]. apply gcm_length in Hc. unfold TAG_LEN. lia. }
  exists h. split.
  - eapply open_parsed; [exact Hp| |exact Hc]. exists kek, dn, w.
    cbn [key_id wrapped_dek dek_nonce h]. rewrite !base64_roundtrip. auto 10.
  - unfold peek_header. rewrite Hp. auto 10.
Qed.

Lemma seal_error {S} (rng : Rng S) st plaintext name kek agent now e :
  (seal_with_rng rng st plaintext name kek agent now).1 = Err e ->
  e = SealFailed \/ e = HeaderTooLarge.
Proof.
  unfold seal_with_rng. destruct (rng 32%nat st) as [dek s1], (rng NONCE_LEN s1) as [dn s2],
    (rng NONCE_LEN s2) as [bn s3]. cbn [fst]. unfold ok_or, ensure, mbind, result_bind.
  repeat case_match; naive_solver.
Qed.

(** C10: Round trip.  Whatever the random draws of 32, 12 and 12 bytes, an envelope
    [seal_with_rng] produces under a key opens, with a ring that holds that key,
    to the original plaintext and to a header carrying the key id, agent, time,
    file name and the hex SHA-256 of the plaintext; [peek_header] reads the same
    header without any key.  Sealing only fails with [SealFailed] or
    [HeaderTooLarge]. *)
Theorem open_seal_roundtrip {S} (rng : Rng S) st plaintext name kek agent now ring :
  (forall n s, length (rng n s).1 = n) ->
  lookup_key ring (kek_id kek) = Ok kek ->
  match (seal_with_rng rng st plaintext name kek agent now).1 with
  | Ok env =>
      exists h, open env ring = Ok (h, plaintext) /\ peek_header env = Ok h /\
        key_id h = kek_id kek /\ origin_agent h = agent /\ created_unix h = now /\
        orig_name h = name /\ plaintext_sha256 h = hex (sha256 plaintext)
  | Err e => e = SealFailed \/ e = HeaderTooLarge
  end.
Proof.
  intros Hr Hk. destruct (seal_with_rng rng st plaintext name kek agent now).1 as [env|e] eqn:He.
  - by eapply open_seal.
  - by eapply seal_error.
Qed.
End Crypto.

(** ** A concrete instance for the witnesses

    A keyless checksum in place of GCM, the identity in place of base64 and
    length-prefixed fields in place of JSON; it satisfies the laws. *)

Definition toy_tag (key nonce aad msg : bytes) : bytes :=
  repeat (foldr Z.add 0 (key ++ nonce ++ aad ++ msg) mod 256) 16.
Definition toy_encrypt (key nonce aad msg : bytes) : option bytes :=
  if bool_decide (length key = 32%nat) then Some (msg ++ toy_tag key nonce aad msg) else None.
Definition toy_decrypt (key nonce aad ct : bytes) : option bytes :=
  let msg := take (length ct - 16) ct in
  if bool_decide (toy_encrypt key nonce aad msg = Some ct) then Some msg else None.
Definition put_field (s : str) : bytes := Z.of_nat (length s) :: s.
Definition get_field (bs : bytes) : option (str * bytes) :=
  match bs with
  | n :: bs' => Some (take (Z.to_nat n) bs', drop (Z.to_nat n) bs')
  | [] => None
  end.
Definition toy_header_to_vec (h : EnvelopeHeader) : option bytes :=
  Some (put_field (key_id h) ++ put_field (wrapped_dek h) ++ put_field (dek_nonce h) ++
    put_field (origin_agent h) ++ put_field (plaintext_sha256 h) ++ put_field (orig_name h) ++
    [created_unix h]).
Definition toy_header_from_slice (bs : bytes) : option EnvelopeHeader :=
  '(a, bs) ← get_field bs; '(b, bs) ← get_field bs; '(c, bs) ← get_field bs;
  '(d, bs) ← get_field bs; '(e, bs) ← get_field bs; '(f, bs) ← get_field bs;
  match bs with
  | [t] => Some {| key_id := a; wrapped_dek := b; dek_nonce := c; origin_agent := d;
                   created_unix := t; plaintext_sha256 := e; orig_name := f |}
  | _ => None
  end.
(** The keyfile [\[n\]]: one key "k", [n] as each of its bytes, "old" destroyed;
    the keyfile [\[n; 0\]] is the same with nothing destroyed. *)
Definition toy_keyfile (bs : bytes) : result str DevKeyfile :=
  match bs with
  | [n] => Ok {| df_active_key_id := lit "k"; df_keys := [(lit "k", repeat n 32)];
                 df_destroyed := [lit "old"] |}
  | [n; _] => Ok {| df_active_key_id := lit "k"; df_keys := [(lit "k", repeat n 32)];
                    df_destroyed := [] |}
  | _ => Err (lit "bad json")
  end.
Definition toy_crypto : CryptoEnv :=
  {| gcm_encrypt := toy_encrypt; gcm_decrypt := toy_decrypt; base64_encode := fun b => b;
     base64_decode := Some; header_to_vec := toy_header_to_vec;
     header_from_slice := toy_header_from_slice; keyfile_from_slice := toy_keyfile;
     base64_error := fun s => s; debug_str := fun s => s |}.

Lemma get_put_field s bs : get_field (put_field s ++ bs) = Some (s, bs).
Proof. cbn. rewrite Nat2Z.id. by rewrite take_app_length, drop_app_length. Qed.

Lemma toy_encrypt_length key nonce aad msg ct :
  toy_encrypt key nonce aad msg = Some ct ->
  length ct = (length msg + 16)%nat /\ take (length ct - 16) ct = msg.
Proof.
  unfold toy_encrypt. case_bool_decide; [|done]. intros [= <-].
  assert (length (toy_tag key nonce aad msg) = 16%nat) as Hl by apply repeat_length.
  rewrite length_app, Hl. split; [done|]. rewrite take_app_length'; [done|lia].
Qed.

#[export] Instance toy_crypto_laws : CryptoLaws toy_crypto.
Proof.
  split; cbn [gcm_encrypt gcm_decrypt base64_encode base64_decode header_to_vec header_from_slice
              toy_crypto].
  - intros key nonce aad msg ct H. unfold toy_decrypt.
    pose proof (toy_encrypt_length _ _ _ _ _ H) as [_ ->]. by rewrite bool_decide_eq_true_2.
  - intros key nonce aad msg ct. unfold toy_decrypt. case_bool_decide as H; [|done].
    by intros [= <-].
  - intros key nonce aad msg ct H. apply toy_encrypt_length in H as [H _]. exact H.
  - done.
  - intros h hb H. apply (inj Some) in H. subst hb. unfold toy_header_from_slice.
    repeat (rewrite get_put_field; cbn [mbind option_bind]). by destruct h.
Qed.

Definition toy_kek : Kek := {| kek_id := lit "k"; kek_bytes := repeat 7 32 |}.
Definition toy_ring : Keyring := insert toy_kek (Keyring_new (lit "k")).
Definition toy_rng : Rng Z := fun n s => (repeat s n, s + 1).
Definition toy_envelope : bytes :=
  match (seal_with_rng (E := toy_crypto) (D := toy_digest) toy_rng 3 (lit "secret")
           (lit "a.txt") toy_kek (lit "agent") 9).1 with
  | Ok env => env
  | Err _ => []
  end.

Lemma toy_ring_wf : keyring_wf toy_ring.
Proof. apply insert_wf. split; [set_solver|]. intros id k. cbn. by rewrite lookup_empty. Qed.

Lemma destruction_is_terminal_witness :
  lookup_key (foldl keyring_step toy_ring
    ([OpInsert toy_kek] ++ OpDestroy (lit "k") :: [OpInsert toy_kek; OpSetActive (lit "k")])) (lit "k") =
    Err (KeyDestroyed (lit "k")) /\
  exists ring, from_dev_json (E := toy_crypto) [5] = Ok ring /\ keyring_wf ring.
Proof.
  split.
  - destruct (destruction_is_terminal (E := toy_crypto) toy_ring [OpInsert toy_kek]
      [OpInsert toy_kek; OpSetActive (lit "k")] (lit "k") [] toy_ring toy_ring_wf) as [[H _] _].
    exact H.
  - assert (exists ring, from_dev_json (E := toy_crypto) [5] = Ok ring) as [ring H]
      by (eexists; vm_compute; reflexivity).
    exists ring. split; [done|].
    by apply (destruction_is_terminal (E := toy_crypto) toy_ring [] [] [] [5] ring toy_ring_wf).
Defined.

Lemma open_accepts_exactly_encryptions_witness :
  Forall is_byte toy_envelope /\
  (exists h, open (E := toy_crypto) toy_envelope toy_ring = Ok (h, lit "secret")) /\
  ~ exists h, open (E := toy_crypto) (take 50 toy_envelope) toy_ring = Ok (h, lit "secret").
Proof.
  assert (Forall is_byte toy_envelope) as Hb
    by (unfold is_byte; apply (bool_decide_unpack _); vm_compute; exact I).
  split; [exact Hb|]. split.
  - eexists. vm_compute. reflexivity.
  - intros [h H]. pose proof (open_accepts_exactly_encryptions (E := toy_crypto) (take 50 toy_envelope)
      toy_ring h (lit "secret") ltac:(by apply Forall_take)) as [Hx _].
    destruct (Hx H) as (hb & nonce & ct & dek & Henv & _).
    vm_compute in H. discriminate H.
Defined.

Lemma open_seal_roundtrip_witness :
  lookup_key toy_ring (kek_id toy_kek) = Ok toy_kek /\ toy_envelope <> [] /\
  exists h, open (E := toy_crypto) toy_envelope toy_ring = Ok (h, lit "secret") /\
    orig_name h = lit "a.txt".
Proof.
  split; [vm_compute; reflexivity|]. split; [by vm_compute|].
  pose proof (open_seal_roundtrip (E := toy_crypto) (D := toy_digest) toy_rng 3 (lit "secret")
    (lit "a.txt") toy_kek (lit "agent") 9 toy_ring (fun n s => repeat_length s n) eq_refl) as H.
  unfold toy_envelope.
  destruct (seal_with_rng _ _ _ _ _ _ _) as [[env|e] s] eqn:He; cbn [fst] in *.
  - destruct H as (h & H1 & _ & _ & _ & _ & H2 & _). exists h. auto.
  - vm_compute in He. discriminate He.
Defined.
