(* ===== verification/CopyAudit.v ===== *)
(** The copy auditor ([src/usb/audit.rs]): settle detection and dedup over a
    volume tree, the scan and scan-and-seal pipelines, the crash-safe
    seal-in-place and the bounded worker pool.  A volume is the tree of its
    directories as one poll sees it; paths are lists of Unicode components; the
    verdict source and the sealer are arguments as in the code. *)

From S2P Require Import Prelude Words Text F64 Unicode Fingerprint Bundle Edm Extract Verdict.
From S2P Require Import TrustDest Device UsbPolicy Crypto.
#[local] Open Scope Z_scope.

Inductive ActionTaken : Set := Audited | TakenReadOnly | Blocked | Encrypted.
#[export] Instance ActionTaken_eq_dec : EqDecision ActionTaken.
Proof. solve_decision. Defined.

(** [From<Action> for ActionTaken] *)
Definition action_taken_of (a : Action) : ActionTaken :=
  match a with
  | AllowAudited => Audited
  | Encrypt => Audited
  | ReadOnly => TakenReadOnly
  | Block => Blocked
  end.

Inductive IncidentKind : Set :=
  | Match
  | UnreadableOnRemovable
  | SkippedTooLarge
  | EnforcementFailed
  | MtpDevicePresent
  | ClipboardImageUninspected
  | Sealed
  | DecryptDenied
  | Decrypted.
#[export] Instance IncidentKind_eq_dec : EqDecision IncidentKind.
Proof. solve_decision. Defined.

Record UsbIncident := {
  kind : IncidentKind;
  channel : str;
  inc_file_name : str;
  inc_file_sha256 : str;
  inc_verdict : option Verdict;
  device : DeviceIdentity;
  action_taken : ActionTaken;
  inc_note : option str;
  inc_key_id : option str;
  sealed_sha256 : option str;
}.

(** ** Paths *)

Definition Path : Type := list str.
Definition file_name (p : Path) : option str := last p.
(** [path.display()] *)
Definition path_display (p : Path) : str := join (lit "\") p.
Definition with_file_name (p : Path) (name : str) : Path := take (length p - 1) p ++ [name].
(** The name a record carries for a path. *)
Definition base_name (p : Path) : str := default (path_display p) (file_name p).

Record Settled := { settled_path : Path; settled_size : Z; by_timeout : bool }.
#[export] Instance Settled_eq_dec : EqDecision Settled.
Proof. solve_decision. Defined.

Record FileState := {
  fs_size : Z;
  fs_mtime_ms : Z;
  first_seen_ms : Z;
  last_change_ms : Z;
  lock_retries : Z;
}.

(** ** The bounded dedup set *)

Definition SeenKey : Type := Path * Z * Z.

Record BoundedSeen := { seen_cap : nat; order : list SeenKey; seen_set : gset SeenKey }.
Definition BoundedSeen_new (cap : nat) : BoundedSeen :=
  {| seen_cap := cap; order := []; seen_set := ∅ |}.
Definition seen_contains (s : BoundedSeen) (key : SeenKey) : bool :=
  bool_decide (key ∈ seen_set s).

(** [while self.order.len() > self.cap { pop_front; set.remove }] *)
Fixpoint evict (cap : nat) (order : list SeenKey) (set : gset SeenKey)
    : list SeenKey * gset SeenKey :=
  match order with
  | old :: order' => if (cap <? length order)%nat then evict cap order' (set ∖ {[old]}) else (order, set)
  | [] => ([], set)
  end.

Definition seen_insert (key : SeenKey) (s : BoundedSeen) : BoundedSeen :=
  if bool_decide (key ∈ seen_set s) then s
  else
    let '(o, st) := evict (seen_cap s) (order s ++ [key]) ({[key]} ∪ seen_set s) in
    {| seen_cap := seen_cap s; order := o; seen_set := st |}.

Definition is_sealed_envelope_path (path : Path) : bool :=
  match file_name path with
  | Some name =>
      let lower := to_ascii_lowercase name in
      ends_with (lit ".dlpenc") lower || ends_with (lit ".dlpenc.tmp") lower
  | None => false
  end.

Definition MAX_LOCK_RETRIES : Z := 5.
Definition SEEN_CAP : nat := 10000.

Record CopyAuditor := {
  root : Path;
  settle_ms : Z;
  settle_timeout_ms : Z;
  tracked : gmap Path FileState;
  seen : BoundedSeen;
}.

Definition CopyAuditor_new (root : Path) (settle_ms settle_timeout_ms : Z) : CopyAuditor :=
  {| root := root; settle_ms := settle_ms; settle_timeout_ms := settle_timeout_ms;
     tracked := ∅; seen := BoundedSeen_new SEEN_CAP |}.

(** ** Walking the volume

    What [read_dir] and [metadata] find under the root during one poll.  An
    entry the iterator fails on is not in its directory's list; [mtime] is
    [None] for a time before the epoch or not available.  [DirEntry::metadata]
    does not follow links, so a link is [Other] and the walk cannot cycle. *)
Inductive Node :=
  | File (len : Z) (mtime : option Z)
  | Directory (listing : option (list (str * Node)))
  | Other
  | NoMetadata.

Definition WalkState : Type := list (Path * Node) * list SeenKey.

(** One entry of the directory [dir]: pushed on the stack or recorded. *)
Definition walk_entry (dir : Path) (st : WalkState) (entry : str * Node) : WalkState :=
  let '(stack, out) := st in
  let path := dir ++ [entry.1] in
  match entry.2 with
  | NoMetadata => (stack, out)
  | Directory _ => ((path, entry.2) :: stack, out)
  | File len mtime =>
      if is_sealed_envelope_path path then (stack, out)
      else (stack, out ++ [(path, len, default 0 mtime)])
  | Other => (stack, out)
  end.

(** [while let Some(dir) = stack.pop()]; the head of the list is the top. *)
Fixpoint walk (fuel : nat) (st : WalkState) : option (list SeenKey) :=
  match fuel with
  | O => None
  | S f =>
      match st with
      | ([], out) => Some out
      | ((dir, Directory (Some es)) :: stack, out) => walk f (foldl (walk_entry dir) (stack, out) es)
      | (_ :: stack, out) => walk f (stack, out)
      end
  end.

Fixpoint node_size (n : Node) : nat :=
  match n with
  | Directory (Some es) =>
      S ((fix sizes (es : list (str * Node)) : nat :=
            match es with [] => O | e :: es' => node_size e.2 + sizes es' end) es)
  | _ => 1
  end%nat.

(** The files under the root, with size and modification time.  The fuel is
    one more than the number of nodes; [walk_total] shows that it is enough. *)
Definition scan_tree (root : Path) (tree : Node) : list SeenKey :=
  default [] (walk (S (node_size tree)) ([(root, tree)], [])).

(** ** Polling *)

Definition baseline_existing (tree : Node) (a : CopyAuditor) : nat * CopyAuditor :=
  let current := scan_tree (root a) tree in
  (length current,
   {| root := root a; settle_ms := settle_ms a; settle_timeout_ms := settle_timeout_ms a;
      tracked := tracked a; seen := foldl (fun s key => seen_insert key s) (seen a) current |}).

Definition set_tracked (t : gmap Path FileState) (a : CopyAuditor) : CopyAuditor :=
  {| root := root a; settle_ms := settle_ms a; settle_timeout_ms := settle_timeout_ms a;
     tracked := t; seen := seen a |}.
Definition set_seen (s : BoundedSeen) (a : CopyAuditor) : CopyAuditor :=
  {| root := root a; settle_ms := settle_ms a; settle_timeout_ms := settle_timeout_ms a;
     tracked := tracked a; seen := s |}.

(** The body of the loop over the current files; [opens] says whether
    [File::open] succeeds on a path. *)
Definition poll_file (now_ms : Z) (opens : Path -> bool) (st : CopyAuditor * list Settled)
    (file : SeenKey) : CopyAuditor * list Settled :=
  let '(a, settled) := st in
  let '(path, size, mtime_ms) := file in
  let entry := default {| fs_size := size; fs_mtime_ms := mtime_ms; first_seen_ms := now_ms;
                          last_change_ms := now_ms; lock_retries := 0 |} (tracked a !! path) in
  let changed := negb (fs_size entry =? size) || negb (fs_mtime_ms entry =? mtime_ms) in
  let entry :=
    if changed then
      {| fs_size := size; fs_mtime_ms := mtime_ms; first_seen_ms := first_seen_ms entry;
         last_change_ms := now_ms; lock_retries := lock_retries entry |}
    else entry in
  let a := set_tracked (<[path := entry]> (tracked a)) a in
  if changed && (saturating_sub now_ms (first_seen_ms entry) <? settle_timeout_ms a) then (a, settled)
  else
    let stable_for := saturating_sub now_ms (last_change_ms entry) in
    let waited_total := saturating_sub now_ms (first_seen_ms entry) in
    let by_timeout := (settle_timeout_ms a <=? waited_total) && (stable_for <? settle_ms a) in
    let is_settled := (settle_ms a <=? stable_for) || by_timeout in
    if negb is_settled then (a, settled)
    else if seen_contains (seen a) file then (a, settled)
    else
      let report a :=
        (set_seen (seen_insert file (seen a)) a,
         settled ++ [{| settled_path := path; settled_size := size; by_timeout := by_timeout |}]) in
      if opens path then report a
      else
        let retries := as_u32 (lock_retries entry + 1) in
        let entry := {| fs_size := fs_size entry; fs_mtime_ms := fs_mtime_ms entry;
                        first_seen_ms := first_seen_ms entry;
                        last_change_ms := last_change_ms entry; lock_retries := retries |} in
        let a := set_tracked (<[path := entry]> (tracked a)) a in
        if retries <? MAX_LOCK_RETRIES then (a, settled) else report a.

Definition poll (now_ms : Z) (tree : Node) (opens : Path -> bool) (a : CopyAuditor)
    : CopyAuditor * list Settled :=
  let current := scan_tree (root a) tree in
  let present : gset Path := list_to_set (map (fun f => f.1.1) current) in
  let a := set_tracked (filter (fun pf => pf.1 ∈ present) (tracked a)) a in
  foldl (poll_file now_ms opens) (a, []) current.

(** ** Scanning a settled file *)

Definition has_match (v : Verdict) : bool :=
  negb (bool_decide (v_idm v = [])) || negb (bool_decide (v_edm v = [])).

Definition scan_to_incident (settled : Settled) (max_file_bytes : Z)
    (verdict_src : Path -> result str Verdict) (dev : DeviceIdentity) (action : ActionTaken)
    (chan : str) : option UsbIncident :=
  let base := base_name (settled_path settled) in
  if max_file_bytes <? settled_size settled then
    Some {| kind := SkippedTooLarge; channel := chan; inc_file_name := base; inc_file_sha256 := [];
            inc_verdict := None; device := dev; action_taken := action;
            inc_note := Some (lit "skipped-too-large:" ++ dec (settled_size settled) ++ lit ">"
                          ++ dec max_file_bytes);
            inc_key_id := None; sealed_sha256 := None |}
  else
    match verdict_src (settled_path settled) with
    | Err _ =>
        Some {| kind := UnreadableOnRemovable; channel := chan; inc_file_name := base;
                inc_file_sha256 := []; inc_verdict := None; device := dev; action_taken := action;
                inc_note := Some (lit "verdict-error"); inc_key_id := None; sealed_sha256 := None |}
    | Ok v =>
        if has_match v then
          Some {| kind := Match; channel := chan; inc_file_name := Verdict.file_name v;
                  inc_file_sha256 := file_sha256 v; inc_verdict := Some v; device := dev;
                  action_taken := action;
                  inc_note := if by_timeout settled then Some (lit "settled-by-timeout") else None;
                  inc_key_id := None; sealed_sha256 := None |}
        else if is_unreadable (extraction v) then
          Some {| kind := UnreadableOnRemovable; channel := chan;
                  inc_file_name := Verdict.file_name v; inc_file_sha256 := file_sha256 v;
                  inc_verdict := Some v; device := dev; action_taken := action;
                  inc_note := Some (lit "unreadable-on-removable"); inc_key_id := None;
                  sealed_sha256 := None |}
        else None
    end.

Record SealOutcome := {
  out_key_id : str;
  out_plaintext_sha256 : str;
  out_sealed_sha256 : str;
}.

(** The sealer is only called in the [Seal] branch. *)
Definition scan_and_seal_to_incident (settled : Settled) (max_file_bytes : Z)
    (verdict_src : Path -> result str Verdict) (dev : DeviceIdentity) (chan : str)
    (mode : EncryptMode) (bands : EncryptBands) (on_block_band : BlockBandPolicy) (key_id : str)
    (sealer : Path -> str -> result str SealOutcome) : option UsbIncident :=
  let base := base_name (settled_path settled) in
  if max_file_bytes <? settled_size settled then
    Some {| kind := SkippedTooLarge; channel := chan; inc_file_name := base; inc_file_sha256 := [];
            inc_verdict := None; device := dev; action_taken := Audited;
            inc_note := Some (lit "skipped-too-large:" ++ dec (settled_size settled) ++ lit ">"
                          ++ dec max_file_bytes ++ lit ";not-sealed");
            inc_key_id := None; sealed_sha256 := None |}
  else
    let verdict := res_ok (verdict_src (settled_path settled)) in
    let matched := from_option has_match false verdict in
    let unreadable := from_option (fun v => is_unreadable (extraction v)) false verdict in
    let name := from_option Verdict.file_name base verdict in
    let verdict_sha := from_option file_sha256 [] verdict in
    match decide_seal mode bands on_block_band verdict with
    | Plain =>
        if matched then
          Some {| kind := Match; channel := chan; inc_file_name := name;
                  inc_file_sha256 := verdict_sha; inc_verdict := verdict; device := dev;
                  action_taken := Audited;
                  inc_note := if by_timeout settled then Some (lit "settled-by-timeout") else None;
                  inc_key_id := None; sealed_sha256 := None |}
        else None
    | DoBlock =>
        Some {| kind := Match; channel := chan; inc_file_name := name;
                inc_file_sha256 := verdict_sha; inc_verdict := verdict; device := dev;
                action_taken := Audited;
                inc_note := Some (lit "block-band-on-encrypt-destination");
                inc_key_id := None; sealed_sha256 := None |}
    | Seal =>
        match sealer (settled_path settled) key_id with
        | Ok out =>
            Some {| kind := if matched then Match
                            else if unreadable then UnreadableOnRemovable else Sealed;
                    channel := chan; inc_file_name := name;
                    inc_file_sha256 :=
                      if str_is_empty verdict_sha then out_plaintext_sha256 out else verdict_sha;
                    inc_verdict := verdict; device := dev; action_taken := Encrypted;
                    inc_note := Some (lit "sealed-post-write");
                    inc_key_id := Some (out_key_id out);
                    sealed_sha256 := Some (out_sealed_sha256 out) |}
        | Err e =>
            Some {| kind := EnforcementFailed; channel := chan; inc_file_name := name;
                    inc_file_sha256 := verdict_sha; inc_verdict := verdict; device := dev;
                    action_taken := Audited;
                    inc_note := Some (lit "seal-failed(plaintext-kept): " ++ e);
                    inc_key_id := None; sealed_sha256 := None |}
        end
    end.

(** ** Sealing in place

    The volume's files are a map from path to content.  Which calls fail, and
    how much of a failed [write_all] reached the file, is a [Faults] value.  A
    run yields its result and every state of the volume it went through, so
    that a crash at any point is one of them. *)

Abbreviation Files := (gmap Path bytes) (only parsing).

Record Faults := {
  read_fails : option str;
  create_fails : option str;
  write_fails : option (str * nat);
  sync_fails : option str;
  rename_fails : option str;
  remove_tmp_fails : bool;
  remove_fails : option str;
}.

(** A computation over the volume: it extends the states gone through. *)
Definition FsM (A : Type) : Type := list Files -> Files -> result str A * list Files * Files.
#[global] Instance FsM_ret : MRet FsM := fun A a tr fs => (Ok a, tr, fs).
#[global] Instance FsM_bind : MBind FsM := fun A B f m tr fs =>
  match m tr fs with
  | (Ok a, tr, fs) => f a tr fs
  | (Err e, tr, fs) => (Err e, tr, fs)
  end.
(** Change the volume, remembering the state before. *)
Definition effect (g : Files -> Files) : FsM unit := fun tr fs => (Ok tt, tr ++ [fs], g fs).
Definition fail {A} (e : str) : FsM A := fun tr fs => (Err e, tr, fs).
Definition catch {A} (m : FsM A) (h : str -> FsM A) : FsM A := fun tr fs =>
  match m tr fs with
  | (Err e, tr, fs) => h e tr fs
  | ok => ok
  end.
Definition failing {A} (o : option str) (m : FsM A) : FsM A :=
  match o with Some e => fail e | None => m end.
Definition lift {A} (r : result str A) : FsM A :=
  match r with Ok a => mret a | Err e => fail e end.

Definition fs_read (ft : Faults) (p : Path) : FsM bytes := fun tr fs =>
  match read_fails ft with
  | Some e => (Err e, tr, fs)
  | None => match fs !! p with
            | Some b => (Ok b, tr, fs)
            | None => (Err (lit "not found"), tr, fs)
            end
  end.
Definition fs_create (ft : Faults) (p : Path) : FsM unit :=
  failing (create_fails ft) (effect <[p := []]>).
Definition fs_write_all (ft : Faults) (p : Path) (data : bytes) : FsM unit :=
  match write_fails ft with
  | Some (e, n) => _ ← effect <[p := take n data]>; fail e
  | None => effect <[p := data]>
  end.
Definition fs_sync (ft : Faults) : FsM unit := failing (sync_fails ft) (mret tt).
Definition fs_rename (ft : Faults) (p q : Path) : FsM unit :=
  failing (rename_fails ft)
    (effect (fun fs => match fs !! p with Some b => <[q := b]> (delete p fs) | None => fs end)).
Definition fs_remove (failure : option str) (p : Path) : FsM unit :=
  failing failure (effect (delete p)).
(** [let _ = remove_file(..)] *)
Definition fs_discard (ft : Faults) (p : Path) : FsM unit :=
  if remove_tmp_fails ft then mret tt else effect (delete p).

Section Seal.
Context {E : CryptoEnv} {D : Digest}.

(** [rng] and [st] stand for the random source of the operating system. *)
Definition seal_file_in_place {S} (rng : Rng S) (st : S) (ft : Faults) (path : Path) (kek : Kek)
    (agent_id : str) (now_unix : Z) : FsM SealOutcome :=
  name ← lift (ok_or (file_name path) (lit "path has no file name"));
  plaintext ← fs_read ft path;
  envelope_bytes ← lift (map_err (fun e => lit "envelope seal failed: " ++ EnvelopeError_display e)
                           (seal rng st plaintext name kek agent_id now_unix).1);
  let plaintext_sha256 := hex (sha256 plaintext) in
  let sealed_sha256 := hex (sha256 envelope_bytes) in
  let tmp_path := with_file_name path (name ++ lit ".dlpenc.tmp") in
  let final_path := with_file_name path (name ++ lit ".dlpenc") in
  _ ← catch (_ ← fs_create ft tmp_path; _ ← fs_write_all ft tmp_path envelope_bytes; fs_sync ft)
        (fun e => _ ← fs_discard ft tmp_path; fail (lit "writing sealed sibling failed: " ++ e));
  _ ← catch (fs_rename ft tmp_path final_path)
        (fun e => _ ← fs_discard ft tmp_path; fail (lit "renaming sealed sibling failed: " ++ e));
  _ ← catch (fs_remove (remove_fails ft) path)
        (fun e => fail (lit "sealed ok but plaintext delete failed: " ++ e));
  mret {| out_key_id := kek_id kek; out_plaintext_sha256 := plaintext_sha256;
          out_sealed_sha256 := sealed_sha256 |}.
End Seal.

(** ** The worker pool

    [scan_batch] as a step relation: an idle worker takes the oldest queued
    job, a busy one finishes its job and sends the incident, if any. *)

Record Pool := {
  jobs : list Settled;
  workers : list (option Settled);
  incidents : list UsbIncident;
}.

Definition clamp (lo hi x : nat) : nat := Nat.min hi (Nat.max lo x).
Definition pool_start (n : nat) (settled : list Settled) : Pool :=
  {| jobs := settled; workers := replicate (clamp 1 4 n) None; incidents := [] |}.

Inductive pool_step (scan : Settled -> option UsbIncident) : Pool -> Pool -> Prop :=
  | step_take i j js ws out :
      ws !! i = Some None ->
      pool_step scan {| jobs := j :: js; workers := ws; incidents := out |}
        {| jobs := js; workers := <[i := Some j]> ws; incidents := out |}
  | step_finish i j js ws out :
      ws !! i = Some (Some j) ->
      pool_step scan {| jobs := js; workers := ws; incidents := out |}
        {| jobs := js; workers := <[i := None]> ws;
           incidents := out ++ option_list (scan j) |}.

(** The queue is empty and every worker idle: the threads have ended and the
    receiver returns what was sent. *)
Definition pool_done (p : Pool) : Prop := jobs p = [] /\ Forall (fun w => w = None) (workers p).

(** ** The walk terminates and finds the files *)

(** [at_path n p m]: following the names of [p] down from [n] leads to [m]. *)
Inductive at_path : Node -> Path -> Node -> Prop :=
  | at_here n : at_path n [] n
  | at_child es name c p n :
      (name, c) ∈ es -> at_path c p n -> at_path (Directory (Some es)) (name :: p) n.

Definition entry_files (dir : Path) (e : str * Node) : list SeenKey :=
  match e.2 with
  | File len mtime =>
      if is_sealed_envelope_path (dir ++ [e.1]) then [] else [(dir ++ [e.1], len, default 0 mtime)]
  | _ => []
  end.
Definition entry_dirs (dir : Path) (e : str * Node) : list (Path * Node) :=
  match e.2 with Directory _ => [(dir ++ [e.1], e.2)] | _ => [] end.
Definition stack_size (stack : list (Path * Node)) : nat := sum_list_with (fun d => node_size d.2) stack.

Lemma walk_entries dir es stack out :
  foldl (walk_entry dir) (stack, out) es =
    (rev (mjoin (entry_dirs dir <$> es)) ++ stack, out ++ mjoin (entry_files dir <$> es)).
Proof.
  revert stack out. induction es as [|[name n] es IH]; intros stack out; cbn; [by rewrite app_nil_r|].
  destruct n as [len mt|l| |]; cbn [entry_files entry_dirs fst snd].
  - destruct (is_sealed_envelope_path _); rewrite IH; [done|]. by rewrite <- (app_assoc out).
  - rewrite IH. cbn. by rewrite <- app_assoc.
  - apply IH.
  - apply IH.
Qed.

Lemma node_size_dir es :
  node_size (Directory (Some es)) = S (sum_list_with (fun e : str * Node => node_size e.2) es).
Proof. reflexivity. Qed.

Lemma node_size_pos n : (1 <= node_size n)%nat.
Proof. destruct n as [?|[l|]| |]; cbn; lia. Qed.

Lemma entry_dirs_size dir es :
  (stack_size (mjoin (entry_dirs dir <$> es)) <= sum_list_with (fun e : str * Node => node_size e.2) es)%nat.
Proof.
  induction es as [|[name n] es IH]; [done|]. unfold stack_size in *.
  change (entry_dirs dir <$> (name, n) :: es) with (entry_dirs dir (name, n) :: (entry_dirs dir <$> es)).
  cbn [mjoin list_join]. rewrite sum_list_with_app. cbn [sum_list_with snd].
  apply Nat.add_le_mono; [|exact IH].
  unfold entry_dirs. cbn [snd]. destruct n; cbn [sum_list_with snd]; lia.
Qed.

(** The files reachable in a stack of directories. *)
Definition reachable (stack : list (Path * Node)) (key : SeenKey) : Prop :=
  exists dir n p len mtime, (dir, n) ∈ stack /\ at_path n p (File len mtime) /\ p <> [] /\
    key = (dir ++ p, len, default 0 mtime) /\ is_sealed_envelope_path (dir ++ p) = false.

Lemma reachable_dir dir es key :
  reachable [(dir, Directory (Some es))] key <->
  key ∈ mjoin (entry_files dir <$> es) \/ reachable (mjoin (entry_dirs dir <$> es)) key.
Proof.
  split.
  - intros (d & n & p & len & mt & [= -> ->]%list_elem_of_singleton & Hp & Hne & -> & Hs).
    inversion Hp as [|es' name c p' n' Hin Hc]; subst.
    inversion Hc as [|es' name' c' p'' n' Hin' Hc']; subst.
    + left. apply list_elem_of_join. exists [(dir ++ [name], len, default 0 mt)].
      split; [set_solver|]. apply list_elem_of_fmap. exists (name, File len mt).
      split; [|done]. unfold entry_files. cbn. by rewrite Hs.
    + right. exists (dir ++ [name]), (Directory (Some es')), (name' :: p''), len, mt.
      split.
      { apply list_elem_of_join. exists [(dir ++ [name], Directory (Some es'))].
        split; [set_solver|]. apply list_elem_of_fmap. by exists (name, Directory (Some es')). }
      rewrite <- app_assoc. cbn. done.
  - intros [H|H].
    + apply list_elem_of_join in H as (l & Hk & Hl). apply list_elem_of_fmap in Hl as ([name n] & -> & Hin).
      unfold entry_files in Hk. cbn in Hk. destruct n as [len mt|?| |]; try by set_solver.
      destruct (is_sealed_envelope_path _) eqn:Hs; [set_solver|].
      apply list_elem_of_singleton in Hk as ->.
      exists dir, (Directory (Some es)), [name], len, mt. split; [set_solver|].
      split; [|done]. econstructor; [exact Hin|constructor].
    + destruct H as (d & n & p & len & mt & H & Hp & Hne & -> & Hs).
      apply list_elem_of_join in H as (l & Hk & Hl). apply list_elem_of_fmap in Hl as ([name n'] & -> & Hin).
      unfold entry_dirs in Hk. cbn in Hk. destruct n' as [?|?| |]; try by set_solver.
      apply list_elem_of_singleton in Hk as [= -> ->].
      exists dir, (Directory (Some es)), (name :: p), len, mt.
      split; [set_solver|]. rewrite <- app_assoc in *. cbn in *.
      split; [|done]. by econstructor.
Qed.

Lemma reachable_app s1 s2 key : reachable (s1 ++ s2) key <-> reachable s1 key \/ reachable s2 key.
Proof. unfold reachable. setoid_rewrite elem_of_app. naive_solver. Qed.

Lemma reachable_rev s key : reachable (rev s) key <-> reachable s key.
Proof.
  unfold reachable. setoid_rewrite list_elem_of_In. by setoid_rewrite <- in_rev.
Qed.

Lemma reachable_leaf d n key :
  (forall es, n <> Directory (Some es)) -> ~ reachable [(d, n)] key.
Proof.
  intros Hn (d' & n' & p & len & mt & [= -> ->]%list_elem_of_singleton & Hp & Hne & _).
  inversion Hp; subst; [done|]. by eapply Hn.
Qed.

Lemma walk_spec fuel stack out :
  (stack_size stack < fuel)%nat ->
  exists res, walk fuel (stack, out) = Some res /\
    forall key, key ∈ res <-> key ∈ out \/ reachable stack key.
Proof.
  revert stack out. induction fuel as [|f IH]; intros stack out Hs; [lia|]. cbn [walk].
  destruct stack as [|[dir n] stack].
  { exists out. split; [done|]. intros key. split; [by left|].
    intros [H|(? & ? & ? & ? & ? & H & _)]; [done|by apply not_elem_of_nil in H]. }
  change (stack_size ((dir, n) :: stack)) with (node_size n + stack_size stack)%nat in Hs.
  pose proof (node_size_pos n) as Hpos.
  assert (forall key, reachable ((dir, n) :: stack) key <->
            reachable [(dir, n)] key \/ reachable stack key) as Hcons
    by (intros key; apply (reachable_app [(dir, n)])).
  assert ((exists es, n = Directory (Some es)) \/ forall es, n <> Directory (Some es)) as [[es ->]|Hleaf]
    by (destruct n as [|[es|]| |]; eauto).
  - rewrite walk_entries. rewrite node_size_dir in Hs.
    pose proof (entry_dirs_size dir es) as He.
    destruct (IH (rev (mjoin (entry_dirs dir <$> es)) ++ stack) (out ++ mjoin (entry_files dir <$> es)))
      as (res & Hw & Hres).
    { unfold stack_size in *. rewrite sum_list_with_app, rev_alt.
      fold (reverse (mjoin (entry_dirs dir <$> es))). rewrite sum_list_with_reverse. lia. }
    exists res. split; [exact Hw|]. intros key.
    rewrite Hres, elem_of_app, reachable_app, reachable_rev, Hcons, reachable_dir. tauto.
  - destruct (IH stack out) as (res & Hw & Hres); [lia|]. exists res. split.
    { destruct n as [?|[es|]| |]; try exact Hw. by destruct (Hleaf es). }
    intros key. rewrite Hres, Hcons. split; [tauto|]. intros [?|[H|?]]; [tauto| |tauto].
    by destruct (reachable_leaf dir n key Hleaf).
Qed.

(** The walk of a volume terminates on every tree and lists exactly the regular
    files below the root at any depth, each with its size and its time (0 when
    there is none), except those whose name, in any letter case, ends in
    [.dlpenc] or [.dlpenc.tmp]; an unreadable directory hides only what is
    below it. *)
Theorem scan_tree_finds_files root tree :
  walk (S (node_size tree)) ([(root, tree)], []) = Some (scan_tree root tree) /\
  forall key, key ∈ scan_tree root tree <->
    exists p len mtime, at_path tree p (File len mtime) /\ p <> [] /\
      key = (root ++ p, len, default 0 mtime) /\ is_sealed_envelope_path (root ++ p) = false.
Proof.
  destruct (walk_spec (S (node_size tree)) [(root, tree)] []) as (res & Hw & Hres).
  { unfold stack_size. cbn [sum_list_with snd]. lia. }
  unfold scan_tree. rewrite Hw. split; [done|]. intros key. cbn [default].
  rewrite Hres. unfold reachable. split.
  - intros [H|(d & n & p & len & mt & [= -> ->]%list_elem_of_singleton & H)]; [by apply not_elem_of_nil in H|].
    by exists p, len, mt.
  - intros (p & len & mt & H). right. exists root, tree, p, len, mt. split; [by apply list_elem_of_singleton|done].
Qed.

(** ** The dedup set *)

Record seen_wf (s : BoundedSeen) : Prop := {
  seen_nodup : NoDup (order s);
  seen_order : forall key, key ∈ seen_set s <-> key ∈ order s;
  seen_bound : (length (order s) <= seen_cap s)%nat;
}.

Lemma evict_room cap o st : (length o <= cap)%nat -> evict cap o st = (o, st).
Proof.
  destruct o as [|x o]; [done|]. cbn [evict length]. intros H.
  by rewrite (proj2 (Nat.ltb_ge _ _)) by lia.
Qed.

(** With room for one more key, inserting is adding to a set. *)
Lemma seen_insert_room key s :
  seen_wf s -> (length (order s) < seen_cap s)%nat ->
  seen_wf (seen_insert key s) /\ seen_cap (seen_insert key s) = seen_cap s /\
  (length (order (seen_insert key s)) <= S (length (order s)))%nat /\
  (forall x, x ∈ seen_set (seen_insert key s) <-> x = key \/ x ∈ seen_set s).
Proof.
  intros Hw Hr. unfold seen_insert. case_bool_decide as Hin.
  - split; [done|]. split; [done|]. split; [lia|]. intros x. split; [by right|by intros [->|]].
  - assert (length (order s ++ [key]) = S (length (order s))) as Hl
      by (rewrite length_app; cbn; lia).
    rewrite evict_room by lia. destruct Hw as [H1 H2 H3]. cbn. split.
    + split; cbn; [|set_solver|lia]. apply NoDup_app. split; [done|]. split; [|apply NoDup_singleton].
      intros x Hx ->%list_elem_of_singleton. by apply Hin, H2.
    + split; [done|]. split; [lia|]. set_solver.
Qed.

(** A set of keys that the dedup set stays within, so that nothing is evicted. *)
Definition room_in (K : gset SeenKey) (s : BoundedSeen) : Prop :=
  seen_wf s /\ seen_set s ⊆ K /\ (base.size K <= seen_cap s)%nat.
Lemma length_order s : seen_wf s -> length (order s) = base.size (seen_set s).
Proof.
  intros [H1 H2 _]. rewrite <- (size_list_to_set (C := gset SeenKey)) by done. f_equal.
  apply set_eq. intros k. by rewrite elem_of_list_to_set, H2.
Qed.
Lemma room_insert K key s :
  room_in K s -> key ∈ K ->
  room_in K (seen_insert key s) /\ seen_cap (seen_insert key s) = seen_cap s /\
  (forall x, x ∈ seen_set (seen_insert key s) <-> x = key \/ x ∈ seen_set s).
Proof.
  intros (Hw & Hs & Hc) Hk. destruct (base.decide (key ∈ seen_set s)) as [Hin|Hin].
  - unfold seen_insert. rewrite bool_decide_eq_true_2 by done. split; [done|]. split; [done|].
    intros x. split; [by right|by intros [->|]].
  - assert (length (order s) < seen_cap s)%nat as Hr.
    { rewrite length_order by done. enough (base.size ({[key]} ∪ seen_set s) <= base.size K)%nat as H.
      { rewrite size_union, size_singleton in H by set_solver. lia. }
      apply subseteq_size. set_solver. }
    destruct (seen_insert_room key s Hw Hr) as (H1 & H2 & _ & H4). split; [|by split].
    split; [done|]. rewrite H2. split; [|done]. intros x. rewrite H4. set_solver.
Qed.

(** When full, the oldest key makes room. *)
Lemma seen_insert_full key s old o :
  seen_wf s -> order s = old :: o -> length (order s) = seen_cap s -> key ∉ seen_set s ->
  seen_insert key s = {| seen_cap := seen_cap s; order := o ++ [key];
                         seen_set := ({[key]} ∪ seen_set s) ∖ {[old]} |}.
Proof.
  intros Hw Ho Hl Hn. unfold seen_insert. rewrite bool_decide_eq_false_2 by done.
  rewrite Ho in Hl |- *. change ((old :: o) ++ [key]) with (old :: (o ++ [key])). cbn [evict length].
  cbn [length] in Hl. rewrite length_app. cbn [length].
  rewrite (proj2 (Nat.ltb_lt _ _)) by lia. rewrite evict_room; [done|].
  rewrite length_app. cbn. lia.
Qed.

Lemma seen_insert_wf key s : (0 < seen_cap s)%nat -> seen_wf s -> seen_wf (seen_insert key s).
Proof.
  intros Hc Hw. destruct (Nat.lt_ge_cases (length (order s)) (seen_cap s)) as [Hr|Hr].
  { by apply seen_insert_room. }
  destruct (seen_contains s key) eqn:Hin; unfold seen_contains in Hin; bool_hyps.
  { unfold seen_insert. by rewrite bool_decide_eq_true_2. }
  pose proof (seen_bound _ Hw) as Hb. destruct (order s) as [|old o] eqn:Ho; [cbn in *; lia|].
  rewrite (seen_insert_full _ _ old o) by (rewrite ?Ho; try done; cbn in *; lia).
  destruct Hw as [H1 H2 H3]. rewrite Ho in *. apply NoDup_cons in H1 as [Hold H1]. split; cbn.
  - apply NoDup_app. split; [done|]. split; [|apply NoDup_singleton].
    intros x Hx ->%list_elem_of_singleton. apply Hin, H2. set_solver.
  - intros x. rewrite elem_of_difference, elem_of_union, !elem_of_singleton, H2, elem_of_app,
      elem_of_cons, list_elem_of_singleton.
    assert (key <> old) by (intros ->; apply Hin, H2; set_solver).
    split; [naive_solver|]. intros [Hx| ->]; [|auto]. split; [auto|]. by intros ->.
  - rewrite length_app. cbn in *. lia.
Qed.

(** ** One file over many polls

    What a poll does to one file does not depend on the others: its tracking
    entry afterwards and, when it is reported, its [by_timeout] flag. *)
Definition file_poll (now settle timeout : Z) (prev : option FileState) (already opens : bool)
    (size mtime : Z) : FileState * option bool :=
  let entry := default {| fs_size := size; fs_mtime_ms := mtime; first_seen_ms := now;
                          last_change_ms := now; lock_retries := 0 |} prev in
  let changed := negb (fs_size entry =? size) || negb (fs_mtime_ms entry =? mtime) in
  let entry := if changed then
      {| fs_size := size; fs_mtime_ms := mtime; first_seen_ms := first_seen_ms entry;
         last_change_ms := now; lock_retries := lock_retries entry |} else entry in
  let stable := saturating_sub now (last_change_ms entry) in
  let waited := saturating_sub now (first_seen_ms entry) in
  if changed && (waited <? timeout) then (entry, None)
  else if negb ((settle <=? stable) || ((timeout <=? waited) && (stable <? settle))) then (entry, None)
  else if already then (entry, None)
  else if opens then (entry, Some ((timeout <=? waited) && (stable <? settle)))
  else
    let retries := as_u32 (lock_retries entry + 1) in
    ({| fs_size := fs_size entry; fs_mtime_ms := fs_mtime_ms entry;
        first_seen_ms := first_seen_ms entry; last_change_ms := last_change_ms entry;
        lock_retries := retries |},
     if retries <? MAX_LOCK_RETRIES then None
     else Some ((timeout <=? waited) && (stable <? settle))).

Definition report_list (file : SeenKey) (rep : option bool) : list Settled :=
  match rep with
  | Some b => [{| settled_path := file.1.1; settled_size := file.1.2; by_timeout := b |}]
  | None => []
  end.

(** What the machine of [file] does in a poll that starts from [a]. *)
Definition machine (now : Z) (opens : Path -> bool) (a : CopyAuditor) (file : SeenKey)
    : FileState * option bool :=
  file_poll now (settle_ms a) (settle_timeout_ms a) (tracked a !! file.1.1)
    (seen_contains (seen a) file) (opens file.1.1) file.1.2 file.2.

Definition after_file (a : CopyAuditor) (file : SeenKey) (r : FileState * option bool) : CopyAuditor :=
  {| root := root a; settle_ms := settle_ms a; settle_timeout_ms := settle_timeout_ms a;
     tracked := <[file.1.1 := r.1]> (tracked a);
     seen := match r.2 with Some _ => seen_insert file (seen a) | None => seen a end |}.

Lemma poll_file_machine now opens a settled file :
  poll_file now opens (a, settled) file =
    (after_file a file (machine now opens a file),
     settled ++ report_list file (machine now opens a file).2).
Proof.
  destruct file as [[p size] mt]. unfold poll_file, machine, file_poll, after_file. cbn [fst snd].
  set (e0 := default _ (tracked a !! p)).
  set (changed := negb (fs_size e0 =? size) || negb (fs_mtime_ms e0 =? mt)).
  set (e := if changed then _ else e0).
  unfold set_tracked, set_seen, report_list. cbn [settle_ms settle_timeout_ms seen tracked root].
  destruct (changed && _); cbn [fst snd]; [by rewrite app_nil_r|].
  destruct (negb (_ || _)); cbn [fst snd]; [by rewrite app_nil_r|].
  destruct (seen_contains _ _); cbn [fst snd]; [by rewrite app_nil_r|].
  destruct (opens p); cbn [fst snd]; [done|]. rewrite insert_insert_eq.
  destruct (_ <? MAX_LOCK_RETRIES); cbn [fst snd]; by rewrite ?app_nil_r.
Qed.

Lemma machine_other K now opens a file r other :
  room_in K (seen a) -> file ∈ K ->
  file.1.1 <> other.1.1 ->
  machine now opens (after_file a file r) other = machine now opens a other.
Proof.
  intros Hr Hk Hne. unfold machine, after_file. cbn [settle_ms settle_timeout_ms seen tracked].
  rewrite lookup_insert_ne by done. f_equal.
  destruct (r.2); [|done]. unfold seen_contains. apply bool_decide_ext.
  destruct (room_insert K file (seen a) Hr Hk) as (_ & _ & Hx). rewrite Hx.
  split; [intros [->|]; done|by right].
Qed.

(** The state after a whole poll, given that no key has to be evicted. *)
Lemma poll_files K now opens files a settled :
  room_in K (seen a) -> (forall f, f ∈ files -> f ∈ K) ->
  NoDup (map (fun f : SeenKey => f.1.1) files) ->
  let r := foldl (poll_file now opens) (a, settled) files in
  r.2 = settled ++ mjoin (map (fun f => report_list f (machine now opens a f).2) files) /\
  root r.1 = root a /\ settle_ms r.1 = settle_ms a /\ settle_timeout_ms r.1 = settle_timeout_ms a /\
  room_in K (seen r.1) /\ seen_cap (seen r.1) = seen_cap (seen a) /\
  (forall key, key ∈ seen_set (seen r.1) <->
    key ∈ seen_set (seen a) \/ key ∈ files /\ is_Some (machine now opens a key).2) /\
  (forall f, f ∈ files -> tracked r.1 !! f.1.1 = Some (machine now opens a f).1) /\
  (forall p, (forall f, f ∈ files -> f.1.1 <> p) -> tracked r.1 !! p = tracked a !! p).
Proof.
  revert a settled. induction files as [|f files IH]; intros a settled Hroom HK Hnd; cbn zeta.
  { cbn. rewrite app_nil_r. do 6 (split; [done|]). split; [set_solver|]. by split; [set_solver|]. }
  cbn [foldl map length] in *. apply NoDup_cons in Hnd as [Hf Hnd].
  rewrite poll_file_machine. set (a1 := after_file a f (machine now opens a f)).
  assert (f ∈ K) as Hk by (apply HK, elem_of_cons; by left).
  destruct (room_insert K f (seen a) Hroom Hk) as (Hw1 & Hc1 & Hs1).
  assert (Hoth : forall g, g ∈ files -> machine now opens a1 g = machine now opens a g).
  { intros g Hg. apply (machine_other K); [done..|]. intros He. apply Hf. rewrite He.
    by apply list_elem_of_fmap_2 with (f := fun f : SeenKey => f.1.1). }
  assert (Hseen : room_in K (seen a1) /\ seen_cap (seen a1) = seen_cap (seen a) /\
    (forall key, key ∈ seen_set (seen a1) <->
      key ∈ seen_set (seen a) \/ key = f /\ is_Some (machine now opens a f).2)).
  { unfold a1, after_file. cbn [seen]. destruct (machine now opens a f) as [st [b|]]; cbn [snd].
    - repeat (split; [done|]). intros key. rewrite Hs1. split; [intros [->|]; eauto|intros [|[-> _]]; auto].
    - repeat (split; [done|]). intros key. split; [by left|]. intros [?|[_ [? [=]]]]; done. }
  destruct Hseen as (Hwa & Hca & Hsa).
  destruct (IH a1 (settled ++ report_list f (machine now opens a f).2) Hwa) as
    (H1 & H2 & H3 & H4 & H5 & H6 & H8 & H9 & H10); [intros g Hg; apply HK, elem_of_cons; by right|done|].
  set (r := foldl _ _ files) in *. clearbody r.
  split.
  { rewrite H1, <- app_assoc. f_equal. cbn [mjoin list_join]. f_equal. f_equal.
    apply map_ext_in. intros g Hg%list_elem_of_In. by rewrite Hoth. }
  do 5 (split; [by rewrite ?H2, ?H3, ?H4, ?H6|]). split; [|split].
  - intros key. rewrite H8, Hsa, elem_of_cons. split.
    + intros [[?|[-> ?]]|[? Hm]]; [by left|by right; auto|]. rewrite Hoth in Hm by done. auto.
    + intros [?|[[->|?] Hm]]; [auto|auto|]. right. by rewrite Hoth.
  - intros g [->|Hg]%elem_of_cons; [|by rewrite H9, Hoth].
    rewrite H10; [by unfold a1, after_file; cbn; rewrite lookup_insert_eq|].
    intros g Hg He. apply Hf. rewrite <- He.
    by apply list_elem_of_fmap_2 with (f := fun f : SeenKey => f.1.1).
  - intros p Hp. rewrite H10 by (intros g Hg; apply Hp, elem_of_cons; by right).
    unfold a1, after_file. cbn. rewrite lookup_insert_ne; [done|]. apply Hp, elem_of_cons. by left.
Qed.

(** Room for the files of a poll in the dedup set, and no path listed twice. *)
Definition poll_ok (K : gset SeenKey) (a : CopyAuditor) (tree : Node) : Prop :=
  room_in K (seen a) /\ NoDup (map (fun f : SeenKey => f.1.1) (scan_tree (root a) tree)) /\
  (forall f, f ∈ scan_tree (root a) tree -> f ∈ K).

Lemma machine_present now opens a (files : list SeenKey) f :
  f ∈ files ->
  machine now opens (set_tracked (filter (fun pf : Path * FileState =>
    pf.1 ∈ (list_to_set (map (fun f : SeenKey => f.1.1) files) : gset Path)) (tracked a)) a) f =
  machine now opens a f.
Proof.
  intros Hf. unfold machine, set_tracked. cbn [tracked settle_ms settle_timeout_ms seen]. f_equal.
  assert (f.1.1 ∈ (list_to_set (map (fun f : SeenKey => f.1.1) files) : gset Path)) as Hin.
  { apply elem_of_list_to_set. by apply list_elem_of_fmap_2 with (f := fun f : SeenKey => f.1.1). }
  destruct (tracked a !! f.1.1) as [e|] eqn:He.
  - by apply map_lookup_filter_Some.
  - apply map_lookup_filter_None. by left.
Qed.

(** A poll runs the machine of every listed file, in listing order, on the
    state before the poll, and forgets the files that are gone. *)
Lemma poll_machines K now tree opens a :
  poll_ok K a tree ->
  let files := scan_tree (root a) tree in
  let r := poll now tree opens a in
  r.2 = mjoin (map (fun f => report_list f (machine now opens a f).2) files) /\
  root r.1 = root a /\ settle_ms r.1 = settle_ms a /\ settle_timeout_ms r.1 = settle_timeout_ms a /\
  room_in K (seen r.1) /\ seen_cap (seen r.1) = seen_cap (seen a) /\
  (forall key, key ∈ seen_set (seen r.1) <->
    key ∈ seen_set (seen a) \/ key ∈ files /\ is_Some (machine now opens a key).2) /\
  (forall f, f ∈ files -> tracked r.1 !! f.1.1 = Some (machine now opens a f).1) /\
  (forall p, (forall f, f ∈ files -> f.1.1 <> p) -> tracked r.1 !! p = None).
Proof.
  intros (Hw & Hnd & Hr). cbv zeta. unfold poll.
  set (files := scan_tree (root a) tree) in *. cbv zeta.
  set (a0 := set_tracked _ a).
  destruct (poll_files K now opens files a0 [] Hw Hr Hnd) as (H1 & H2 & H3 & H4 & H5 & H6 & H8 & H9 & H10).
  assert (forall f, f ∈ files -> machine now opens a0 f = machine now opens a f) as Hm
    by (intros f Hf; by apply machine_present).
  set (r := foldl _ _ files) in *. clearbody r. cbn [app] in H1. split.
  { rewrite H1. f_equal. apply map_ext_in. intros g Hg%list_elem_of_In. by rewrite Hm. }
  do 5 (split; [done|]). split; [|split].
  - intros key. rewrite H8. split; (intros [?|[? Hs]]; [by left|right; split; [done|]]).
    + by rewrite <- Hm.
    + by rewrite Hm.
  - intros f Hf. by rewrite H9, Hm.
  - intros p Hp. rewrite H10 by done. unfold a0, set_tracked. cbn [tracked].
    apply map_lookup_filter_None. right. intros e _ Hin. cbn in Hin.
    apply elem_of_list_to_set, list_elem_of_fmap in Hin as (f & -> & Hf). by apply (Hp f).
Qed.

(** A sequence of polls: the clock, the volume and which paths can be opened
    at each. *)
Definition Poll : Type := Z * Node * (Path -> bool).
Fixpoint run_polls (a : CopyAuditor) (ps : list Poll) : CopyAuditor * list (list Settled) :=
  match ps with
  | [] => (a, [])
  | (now, tree, opens) :: ps' =>
      let '(a, out) := poll now tree opens a in
      let '(a, outs) := run_polls a ps' in (a, out :: outs)
  end.

Definition reports (p : Path) (out : list Settled) : nat :=
  length (List.filter (fun s => bool_decide (settled_path s = p)) out).

(** The polls at which a file first seen at [t0] and unchanged since is to be
    reported: once it has been stable for the shorter of the two delays, at the
    first poll that can open it, or at the fifth that cannot. *)
Fixpoint expected_reports (t0 delay : Z) (retries : Z) (ps : list (Z * bool)) : list nat :=
  match ps with
  | [] => []
  | (now, opens) :: ps' =>
      if delay <=? saturating_sub now t0 then
        if opens || (MAX_LOCK_RETRIES - 1 <=? retries) then 1%nat :: map (fun _ => 0%nat) ps'
        else 0%nat :: expected_reports t0 delay (retries + 1) ps'
      else 0%nat :: expected_reports t0 delay retries ps'
  end.

Lemma reports_app p l1 l2 : reports p (l1 ++ l2) = (reports p l1 + reports p l2)%nat.
Proof. unfold reports. by rewrite List.filter_app, length_app. Qed.

Lemma mjoin_cons {A} (x : list A) l : mjoin (x :: l) = x ++ mjoin l.
Proof. reflexivity. Qed.

Lemma reports_files (g : SeenKey -> option bool) files key :
  NoDup (map (fun f : SeenKey => f.1.1) files) -> key ∈ files ->
  reports key.1.1 (mjoin (map (fun f => report_list f (g f)) files)) =
    match g key with Some _ => 1%nat | None => 0%nat end.
Proof.
  intros Hnd Hin.
  assert (forall files : list SeenKey, key.1.1 ∉ map (fun f : SeenKey => f.1.1) files ->
    reports key.1.1 (mjoin (map (fun f => report_list f (g f)) files)) = 0%nat) as Hno.
  { clear. induction files as [|f files IH]; [done|]. cbn [map]. rewrite mjoin_cons.
    intros [Hne Hni]%not_elem_of_cons. rewrite reports_app, IH by done.
    destruct (g f); [|done]. unfold reports, report_list. cbn.
    by rewrite bool_decide_eq_false_2 by done. }
  induction files as [|f files IH]; [by apply not_elem_of_nil in Hin|].
  cbn [map] in Hnd |- *. rewrite mjoin_cons. apply NoDup_cons in Hnd as [Hf Hnd]. rewrite reports_app.
  apply elem_of_cons in Hin as [->|Hin].
  - rewrite Hno by done. destruct (g f); [|done]. unfold reports, report_list. cbn.
    by rewrite bool_decide_eq_true_2.
  - rewrite IH by done. destruct (g f); [|done]. unfold reports, report_list. cbn.
    rewrite bool_decide_eq_false_2; [done|]. intros He. apply Hf. rewrite He.
    by apply list_elem_of_fmap_2 with (f := fun f : SeenKey => f.1.1).
Qed.

Definition unchanged_since (t0 retries size mtime : Z) : FileState :=
  {| fs_size := size; fs_mtime_ms := mtime; first_seen_ms := t0; last_change_ms := t0;
     lock_retries := retries |}.

Lemma file_poll_unchanged now settle timeout prev already opens size mtime t0 n :
  prev = Some (unchanged_since t0 n size mtime) \/ prev = None /\ now = t0 /\ n = 0 ->
  0 <= n < MAX_LOCK_RETRIES ->
  let w := saturating_sub now t0 in
  let r := file_poll now settle timeout prev already opens size mtime in
  if negb already && (Z.min settle timeout <=? w) then
    if opens || (MAX_LOCK_RETRIES - 1 <=? n) then is_Some r.2
    else r = (unchanged_since t0 (n + 1) size mtime, None)
  else r = (unchanged_since t0 n size mtime, None).
Proof.
  intros Hp Hn. unfold file_poll.
  replace (default _ prev) with (unchanged_since t0 n size mtime)
    by (destruct Hp as [->|(-> & -> & ->)]; done).
  unfold unchanged_since. cbn [fs_size fs_mtime_ms first_seen_ms last_change_ms lock_retries].
  rewrite !Z.eqb_refl.
  cbn [negb orb andb fs_size fs_mtime_ms first_seen_ms last_change_ms lock_retries]. set (w := saturating_sub now t0).
  replace ((settle <=? w) || ((timeout <=? w) && (w <? settle))) with (Z.min settle timeout <=? w) by lia.
  destruct (Z.min settle timeout <=? w), already; cbn [negb andb]; try done.
  destruct opens; cbn [orb]; [by eexists|]. unfold as_u32, MAX_LOCK_RETRIES in *.
  rewrite Z.mod_small by lia. destruct (5 - 1 <=? n) eqn:H5; bool_hyps.
  - rewrite (proj2 (Z.ltb_ge _ _)) by lia. by eexists.
  - by rewrite (proj2 (Z.ltb_lt _ _)) by lia.
Qed.

(** One poll of a file that is listed, in terms of its machine. *)
Lemma poll_key K now tree opens a key :
  poll_ok K a tree -> key ∈ scan_tree (root a) tree ->
  let r := poll now tree opens a in
  let m := machine now opens a key in
  reports key.1.1 r.2 = (match m.2 with Some _ => 1%nat | None => 0%nat end) /\
  tracked r.1 !! key.1.1 = Some m.1 /\
  (key ∈ seen_set (seen r.1) <-> key ∈ seen_set (seen a) \/ is_Some m.2) /\
  root r.1 = root a /\ settle_ms r.1 = settle_ms a /\ settle_timeout_ms r.1 = settle_timeout_ms a /\
  room_in K (seen r.1) /\ seen_cap (seen r.1) = seen_cap (seen a).
Proof.
  intros Hok Hin. cbv zeta.
  destruct (poll_machines K now tree opens a Hok) as (H1 & H2 & H3 & H4 & H5 & H6 & H8 & H9 & _).
  rewrite H1, (reports_files (fun f => (machine now opens a f).2)) by (done || apply Hok).
  split; [done|]. split; [by apply H9|]. rewrite H8. split; [naive_solver|]. done.
Qed.

(** The polls see the file [key] each time, and list no path twice. *)
Definition polls_list (a : CopyAuditor) (key : SeenKey) (ps : list Poll) : Prop :=
  Forall (fun q : Poll => key ∈ scan_tree (root a) q.1.2 /\
    NoDup (map (fun f : SeenKey => f.1.1) (scan_tree (root a) q.1.2))) ps.
(** The versions of files, each a path with a size and a time, that the polls list or the
    dedup set already holds. *)
Definition versions (a : CopyAuditor) (ps : list Poll) : gset SeenKey :=
  seen_set (seen a) ∪ list_to_set (concat (map (fun q : Poll => scan_tree (root a) q.1.2) ps)).
Definition polls_see (a : CopyAuditor) (key : SeenKey) (ps : list Poll) : Prop :=
  polls_list a key ps /\ (base.size (versions a ps) <= seen_cap (seen a))%nat.

(** The same with the set fixed. *)
Definition polls_within (K : gset SeenKey) (a : CopyAuditor) (key : SeenKey) (ps : list Poll) : Prop :=
  polls_list a key ps /\ room_in K (seen a) /\
  Forall (fun q : Poll => forall f, f ∈ scan_tree (root a) q.1.2 -> f ∈ K) ps.
Lemma polls_see_within a key ps :
  seen_wf (seen a) -> polls_see a key ps -> polls_within (versions a ps) a key ps.
Proof.
  intros Hw [Hl Hs]. split; [done|]. unfold versions in *. split.
  - split; [done|]. split; [set_solver|done].
  - apply Forall_forall. intros q Hq f Hf. apply elem_of_union_r, elem_of_list_to_set.
    apply list_elem_of_In, in_concat. eexists. split; [|by apply list_elem_of_In].
    apply in_map_iff. exists q. split; [done|by apply list_elem_of_In].
Qed.

Lemma polls_within_cons K a key now tree opens ps :
  polls_within K a key ((now, tree, opens) :: ps) ->
  poll_ok K a tree /\ key ∈ scan_tree (root a) tree /\ polls_within K (poll now tree opens a).1 key ps.
Proof.
  intros (Hall & Hroom & HK). apply Forall_cons in Hall as [[Hk Hnd] Hall]. apply Forall_cons in HK as [HK0 HK].
  cbn [fst snd] in *.
  assert (poll_ok K a tree) as Hok by (split; [done|]; by split).
  split; [done|]. split; [done|].
  destruct (poll_key K now tree opens a key Hok Hk) as (_ & _ & _ & Hr & _ & _ & Hw & _).
  unfold polls_within, polls_list. by rewrite Hr.
Qed.

Lemma reported_no_more K a key ps :
  polls_within K a key ps -> key ∈ seen_set (seen a) ->
  map (reports key.1.1) (run_polls a ps).2 = map (fun _ => 0%nat) ps.
Proof.
  revert a. induction ps as [|[[now tree] opens] ps IH]; intros a Hsee Hin; [done|].
  destruct (polls_within_cons _ _ _ _ _ _ _ Hsee) as (Hok & Hk & Hsee').
  destruct (poll_key K now tree opens a key Hok Hk) as (Hrep & Htr & Hs & _).
  cbn [run_polls]. destruct (poll now tree opens a) as [a' out]. cbn [fst snd] in *.
  specialize (IH a' Hsee' (proj2 Hs (or_introl Hin))). destruct (run_polls a' ps) as [a'' outs].
  cbn [fst snd map] in *. rewrite IH, Hrep. f_equal.
  unfold machine, seen_contains, file_poll. rewrite (bool_decide_eq_true_2 (key ∈ _)) by done.
  by repeat case_match.
Qed.

Lemma unchanged_reports K ps a key t0 n :
  polls_within K a key ps -> key ∉ seen_set (seen a) -> 0 <= n < MAX_LOCK_RETRIES ->
  tracked a !! key.1.1 = Some (unchanged_since t0 n key.1.2 key.2) \/
    tracked a !! key.1.1 = None /\ n = 0 /\ (forall q, head ps = Some q -> q.1.1 = t0) ->
  map (reports key.1.1) (run_polls a ps).2 =
    expected_reports t0 (Z.min (settle_ms a) (settle_timeout_ms a)) n
      (map (fun q : Poll => (q.1.1, q.2 key.1.1)) ps).
Proof.
  revert a n. induction ps as [|[[now tree] opens] ps IH]; intros a n Hsee Hin Hn Ht; [done|].
  destruct (polls_within_cons _ _ _ _ _ _ _ Hsee) as (Hok & Hk & Hsee').
  destruct (poll_key K now tree opens a key Hok Hk) as (Hrep & Htr & Hs & _ & Hst & Hto & _).
  pose proof (file_poll_unchanged now (settle_ms a) (settle_timeout_ms a) (tracked a !! key.1.1)
    (seen_contains (seen a) key) (opens key.1.1) key.1.2 key.2 t0 n) as Hm.
  fold (machine now opens a key) in Hm. unfold seen_contains in Hm.
  rewrite (bool_decide_eq_false_2 (key ∈ _)) in Hm by done. cbn [negb andb] in Hm.
  cbn [run_polls map expected_reports fst snd]. destruct (poll now tree opens a) as [a' out].
  cbn [fst snd] in *.
  destruct (run_polls a' ps) as [a'' outs] eqn:Hrun. cbn [snd map]. rewrite Hrep.
  replace outs with (run_polls a' ps).2 by by rewrite Hrun.
  assert (forall m, machine now opens a key = (unchanged_since t0 m key.1.2 key.2, None) ->
    0 <= m < MAX_LOCK_RETRIES ->
    (match (machine now opens a key).2 with Some _ => 1%nat | None => 0%nat end) ::
      map (reports key.1.1) (run_polls a' ps).2 =
    0%nat :: expected_reports t0 (Z.min (settle_ms a) (settle_timeout_ms a)) m
      (map (fun q : Poll => (q.1.1, q.2 key.1.1)) ps)) as Hgo.
  { intros m Hmm Hm5. rewrite Hmm in *. cbn [snd fst] in *. f_equal.
    rewrite (IH a' m Hsee'); [by rewrite Hst, Hto| |done|by left].
    rewrite Hs. intros [?|[? [=]]]; done. }
  destruct (_ <=? saturating_sub now t0).
  - destruct (opens key.1.1 || _) eqn:Ho.
    + destruct Hm as [b Hb]; [|done|]. { destruct Ht as [?|(? & ? & Hh)]; [by left|right].
        split; [done|]. split; [|done]. by apply (Hh (now, tree, opens)). }
      rewrite Hb in *. f_equal. rewrite (reported_no_more K a' key ps Hsee').
      * clear. induction ps; cbn; congruence.
      * apply Hs. right. by eexists.
    + apply Hgo; [|apply orb_false_elim in Ho as [_ Ho]; bool_hyps; unfold MAX_LOCK_RETRIES in *; lia].
      apply Hm; [|done]. destruct Ht as [?|(? & ? & Hh)]; [by left|right].
      split; [done|]. split; [|done]. by apply (Hh (now, tree, opens)).
  - apply Hgo; [|done]. apply Hm; [|done]. destruct Ht as [?|(? & ? & Hh)]; [by left|right].
    split; [done|]. split; [|done]. by apply (Hh (now, tree, opens)).
Qed.

Lemma seen_insert_all K keys s :
  room_in K s -> (forall k, k ∈ keys -> k ∈ K) ->
  forall k, k ∈ seen_set (foldl (fun s key => seen_insert key s) s keys) <-> k ∈ seen_set s \/ k ∈ keys.
Proof.
  revert s. induction keys as [|key keys IH]; intros s Hr HK k; cbn [foldl].
  { rewrite elem_of_nil. tauto. }
  destruct (room_insert K key s Hr) as (Hr' & _ & Hs); [apply HK, elem_of_cons; by left|].
  rewrite IH by (try done; intros j Hj; apply HK, elem_of_cons; by right). rewrite Hs, elem_of_cons. tauto.
Qed.

(** ** The auditor's well-formedness

    The times of every tracked file are ordered and not in the future, the retry
    counter is a 32-bit value, and the dedup set is consistent and within its
    cap: however many files go through, the auditor's memory is bounded. *)
Record entry_wf (now : Z) (e : FileState) : Prop := {
  entry_times : 0 <= first_seen_ms e <= last_change_ms e;
  entry_past : last_change_ms e <= now;
  entry_retries : 0 <= lock_retries e < 2 ^ 32;
}.
Record auditor_wf (now : Z) (a : CopyAuditor) : Prop := {
  auditor_seen : seen_wf (seen a);
  auditor_cap : seen_cap (seen a) = SEEN_CAP;
  auditor_tracked : map_Forall (fun _ e => entry_wf now e) (tracked a);
}.

Lemma entry_wf_later now now' e : now <= now' -> entry_wf now e -> entry_wf now' e.
Proof. intros ? []. split; [done|lia|done]. Qed.
Lemma auditor_wf_later now now' a : now <= now' -> auditor_wf now a -> auditor_wf now' a.
Proof.
  intros Hn [H1 H2 H3]. split; [done..|]. eapply map_Forall_impl; [exact H3|].
  intros p e. by apply entry_wf_later.
Qed.

Lemma seen_cap_insert key s : seen_cap (seen_insert key s) = seen_cap s.
Proof. unfold seen_insert. case_bool_decide; [done|]. by destruct (evict _ _ _). Qed.
Lemma seen_insert_cap key s :
  seen_wf s -> seen_cap s = SEEN_CAP ->
  seen_wf (seen_insert key s) /\ seen_cap (seen_insert key s) = SEEN_CAP.
Proof.
  intros Hw Hc. rewrite seen_cap_insert. split; [|done]. apply seen_insert_wf; [|done].
  rewrite Hc. apply Nat.ltb_lt. reflexivity.
Qed.

Lemma auditor_new_wf now root settle timeout : auditor_wf now (CopyAuditor_new root settle timeout).
Proof.
  split; [|done|apply map_Forall_empty]. split; cbn; [constructor|set_solver|unfold SEEN_CAP; lia].
Qed.
Lemma baseline_wf now tree a : auditor_wf now a -> auditor_wf now (baseline_existing tree a).2.
Proof.
  intros [H1 H2 H3]. unfold baseline_existing. cbn [snd].
  assert (forall keys s, seen_wf s -> seen_cap s = SEEN_CAP ->
    seen_wf (foldl (fun s key => seen_insert key s) s keys) /\
    seen_cap (foldl (fun s key => seen_insert key s) s keys) = SEEN_CAP) as Hf.
  { induction keys as [|key keys IH]; intros s Hw Hc; [done|]. cbn [foldl].
    destruct (seen_insert_cap key s Hw Hc). by apply IH. }
  split; cbn [seen tracked]; [by apply Hf|by apply Hf|done].
Qed.

Lemma file_poll_wf now settle timeout prev already opens size mtime :
  0 <= now -> (forall e, prev = Some e -> entry_wf now e) ->
  entry_wf now (file_poll now settle timeout prev already opens size mtime).1.
Proof.
  intros Hn Hp. unfold file_poll. set (e0 := default _ prev).
  assert (entry_wf now e0) as [H1 H2 H3].
  { unfold e0. destruct prev as [e|]; [by apply Hp|]. split; cbn; lia. }
  clearbody e0. set (changed := negb (fs_size e0 =? size) || negb (fs_mtime_ms e0 =? mtime)).
  set (e := if changed then _ else e0).
  assert (entry_wf now e) as He by (unfold e; destruct changed; split; cbn [first_seen_ms last_change_ms lock_retries]; lia).
  clearbody e. clearbody changed. destruct (changed && _); [exact He|].
  destruct (negb _); [exact He|].
  destruct already; [exact He|]. destruct opens; [exact He|].
  cbn [fst]. destruct He as [E1 E2 E3]. split; cbn; [done|done|]. by apply Z.mod_pos_bound.
Qed.

Lemma poll_file_wf now opens a settled file :
  0 <= now -> auditor_wf now a ->
  auditor_wf now (poll_file now opens (a, settled) file).1 /\
  root (poll_file now opens (a, settled) file).1 = root a.
Proof.
  intros Hn [H1 H2 H3]. rewrite poll_file_machine. cbn [fst]. split; [|done].
  destruct (seen_insert_cap file (seen a) H1 H2).
  unfold after_file. split; cbn [seen tracked]; [by destruct (machine now opens a file).2..|].
  apply map_Forall_insert_2; [|done]. apply file_poll_wf; [done|]. intros e He. by apply (H3 _ _ He).
Qed.

Lemma poll_wf now now' tree opens a :
  0 <= now' -> now <= now' -> auditor_wf now a ->
  auditor_wf now' (poll now' tree opens a).1 /\ root (poll now' tree opens a).1 = root a.
Proof.
  intros Hn Hle Ha%(auditor_wf_later now now'); [|done]. unfold poll. cbv zeta.
  set (a0 := set_tracked _ a).
  assert (auditor_wf now' a0) as H0.
  { destruct Ha as [H1 H2 H3]. split; [done|done|].
    intros p e [He _]%map_lookup_filter_Some. by apply (H3 p). }
  change (root a) with (root a0). generalize (scan_tree (root a0) tree) as files. clearbody a0. clear Ha.
  generalize ([] : list Settled) as settled. intros settled files. revert a0 H0 settled.
  induction files as [|f files IH]; intros a0 H0 settled; [done|]. cbn [foldl].
  destruct (poll_file_wf now' opens a0 settled f Hn H0) as [H1 Hr].
  destruct (poll_file now' opens (a0, settled) f) as [a1 s1]. cbn [fst] in *.
  destruct (IH a1 H1 s1) as [? ->]. by rewrite Hr.
Qed.

(** C28: A copy is audited exactly once, as long as the dedup set has room.  Over
    any sequence of polls that list a file each time with the same size and time
    and list no path twice (other files come, change and go freely), and where the
    versions listed, each a path with a size and a time, together with those
    already in the dedup set are no more than its cap (the code's is 10,000): a
    file that is new at the first poll is reported exactly at the poll that
    [expected_reports] names and at no other: the first one at which it has been
    stable for the shorter of the settle delay and the timeout and can be
    opened, or the fifth such poll that cannot open it.  A version already in
    the dedup set is not reported, and after [baseline_existing] every file then
    on the volume is in it, if they fit.  A file that changes is a new version, and
    beyond the cap the oldest versions are forgotten: both are reported again. *)
Theorem copies_reported_once a key now tree opens ps :
  seen_wf (seen a) -> polls_see a key ((now, tree, opens) :: ps) ->
  (tracked a !! key.1.1 = None -> key ∉ seen_set (seen a) ->
   map (reports key.1.1) (run_polls a ((now, tree, opens) :: ps)).2 =
     expected_reports now (Z.min (settle_ms a) (settle_timeout_ms a)) 0
       ((now, opens key.1.1) :: map (fun q : Poll => (q.1.1, q.2 key.1.1)) ps)) /\
  (key ∈ seen_set (seen a) ->
   map (reports key.1.1) (run_polls a ((now, tree, opens) :: ps)).2 = 0%nat :: map (fun _ => 0%nat) ps) /\
  (forall tree0,
     (base.size (versions a [(now, tree0, opens)]) <= seen_cap (seen a))%nat ->
     forall k, k ∈ seen_set (seen (baseline_existing tree0 a).2) <->
       k ∈ seen_set (seen a) \/ k ∈ scan_tree (root a) tree0).
Proof.
  intros Hw Hsee%polls_see_within; [|done]. split; [|split].
  - intros Ht Hin.
    apply (unchanged_reports _ ((now, tree, opens) :: ps) a key now 0 Hsee); try done.
    right. split; [done|]. split; [done|]. by intros q [= <-].
  - intros Hin. by apply (reported_no_more _ a key ((now, tree, opens) :: ps) Hsee).
  - intros tree0 Hr k. unfold versions in Hr. cbn [map concat fst snd] in Hr. rewrite app_nil_r in Hr.
    apply (seen_insert_all (seen_set (seen a) ∪ list_to_set (scan_tree (root a) tree0))).
    + split; [done|]. split; [set_solver|done].
    + intros j Hj. by apply elem_of_union_r, elem_of_list_to_set.
Qed.

Definition sample_volume : Node :=
  Directory (Some [(lit "a.txt", File 5 (Some 100)); (lit "b.txt.DLPENC", File 9 None);
                   (lit "d", Directory (Some [(lit "c", File 1 None)]));
                   (lit "x", Directory None)]).
Definition sample_auditor : CopyAuditor := CopyAuditor_new [lit "E:"] 1000 5000.
Definition sample_polls : list Poll :=
  [(600, sample_volume, fun _ => true); (1000, sample_volume, fun _ => false);
   (1500, sample_volume, fun _ => true); (9000, sample_volume, fun _ => true)].

Lemma copies_reported_once_witness :
  scan_tree [lit "E:"] sample_volume =
    [([lit "E:"; lit "a.txt"], 5, 100); ([lit "E:"; lit "d"; lit "c"], 1, 0)] /\
  map (reports [lit "E:"; lit "a.txt"])
    (run_polls sample_auditor ((0, sample_volume, fun _ => true) :: sample_polls)).2 =
    [0; 0; 0; 1; 0]%nat.
Proof.
  assert (scan_tree [lit "E:"] sample_volume =
    [([lit "E:"; lit "a.txt"], 5, 100); ([lit "E:"; lit "d"; lit "c"], 1, 0)]) as Hscan
    by (vm_compute; reflexivity).
  split; [exact Hscan|].
  assert (seen_wf (seen sample_auditor)) as Hw
    by (split; cbn; [constructor|set_solver|unfold SEEN_CAP; lia]).
  destruct (copies_reported_once sample_auditor ([lit "E:"; lit "a.txt"], 5, 100) 0 sample_volume
    (fun _ => true) sample_polls Hw) as [H _].
  - split; [|apply Nat.leb_le; vm_compute; reflexivity].
    unfold polls_list, sample_polls, sample_auditor, CopyAuditor_new. cbn [root].
    repeat (apply Forall_cons; split; [cbn [fst snd]; rewrite Hscan; split;
      [apply list_elem_of_here|apply (bool_decide_unpack _); vm_compute; exact I]|]).
    constructor.
  - etrans; [apply (H eq_refl); cbn; set_solver|vm_compute; reflexivity].
Defined.

(** ** What is recorded for a settled file *)

Ltac record_facts :=
  repeat match goal with
  | |- _ /\ _ => split
  | |- _ <-> _ => split
  | |- _ -> _ => intros
  | H : _ /\ _ |- _ => destruct H
  | H : exists _, _ |- _ => destruct H
  end; try done; try lia; try congruence; eauto.

(** A readable verdict without any match. *)
Definition innocent (v : Verdict) : Prop :=
  v_idm v = [] /\ v_edm v = [] /\ exists f, extraction v = ExtractionOk f.

Lemma has_match_false v : has_match v = false <-> v_idm v = [] /\ v_edm v = [].
Proof. unfold has_match. rewrite orb_false_iff, !negb_false_iff, !bool_decide_eq_true. done. Qed.

Lemma innocent_cases v : innocent v <-> has_match v = false /\ is_unreadable (extraction v) = false.
Proof.
  unfold innocent. rewrite has_match_false. destruct (extraction v); cbn; naive_solver.
Qed.

(** What a scan records: nothing exactly for a file within the size limit whose
    verdict is available, readable and without a match; an oversized file is
    recorded unread, a match as [Match] with its verdict, anything else that
    could not be cleared as unreadable.  The record carries the given device,
    channel and disposition and never claims a seal. *)
Theorem scan_to_incident_complete s limit src dev act chan :
  (scan_to_incident s limit src dev act chan = None <->
    settled_size s <= limit /\ exists v, src (settled_path s) = Ok v /\ innocent v) /\
  forall inc, scan_to_incident s limit src dev act chan = Some inc ->
    action_taken inc = act /\ device inc = dev /\ channel inc = chan /\
    inc_key_id inc = None /\ sealed_sha256 inc = None /\
    (kind inc = SkippedTooLarge <-> limit < settled_size s) /\
    (kind inc = Match <-> settled_size s <= limit /\
       exists v, src (settled_path s) = Ok v /\ has_match v = true /\ inc_verdict inc = Some v) /\
    (kind inc <> SkippedTooLarge -> kind inc <> Match -> kind inc = UnreadableOnRemovable).
Proof.
  unfold scan_to_incident. destruct (Z.ltb_spec limit (settled_size s)) as [Hbig|Hsmall].
  { split; [split; [done|intros []; lia]|]. intros inc [= <-]. cbn. record_facts. }
  destruct (src (settled_path s)) as [v|e] eqn:Hv.
  2:{ split; [naive_solver|]. intros inc [= <-]. cbn. record_facts. }
  pose proof (innocent_cases v) as Hi.
  destruct (has_match v) eqn:Hm; [|destruct (is_unreadable (extraction v)) eqn:Hu].
  - split; [naive_solver|]. intros inc [= <-]. cbn. record_facts.
  - split; [naive_solver|]. intros inc [= <-]. cbn. record_facts.
  - split; [|done]. split; [|done]. intros _. split; [lia|]. exists v. by rewrite Hi.
Qed.

(** On an encrypting destination [Encrypted] is recorded exactly when the file
    was within the limit, the decision was to seal and the sealer succeeded; the
    record then carries the key and the two hashes the sealer gave, and no other
    record carries a key.  A failed seal is recorded as [EnforcementFailed] with
    the action [Audited].  Nothing is recorded exactly for a file within the
    limit that stays in plaintext because a readable verdict shows no match at
    all; a verdict that could not be made never leaves the file unrecorded. *)
Theorem encrypted_only_after_seal s limit src dev chan mode bands band key sealer :
  let verdict := res_ok (src (settled_path s)) in
  let decision := decide_seal mode bands band verdict in
  let sealed := sealer (settled_path s) key in
  (scan_and_seal_to_incident s limit src dev chan mode bands band key sealer = None <->
    settled_size s <= limit /\ decision = Plain /\ exists v, verdict = Some v /\ innocent v) /\
  forall inc, scan_and_seal_to_incident s limit src dev chan mode bands band key sealer = Some inc ->
    inc_verdict inc = (if limit <? settled_size s then None else verdict) /\
    (action_taken inc = Encrypted <->
       settled_size s <= limit /\ decision = Seal /\
       exists out, sealed = Ok out /\ inc_key_id inc = Some (out_key_id out) /\
         sealed_sha256 inc = Some (out_sealed_sha256 out)) /\
    (action_taken inc = Encrypted \/
       action_taken inc = Audited /\ inc_key_id inc = None /\ sealed_sha256 inc = None) /\
    (kind inc = EnforcementFailed <->
       settled_size s <= limit /\ decision = Seal /\ exists e, sealed = Err e) /\
    (settled_size s <= limit -> decision = DoBlock ->
       kind inc = Match /\ action_taken inc = Audited).
Proof.
  cbv zeta. unfold scan_and_seal_to_incident.
  destruct (Z.ltb_spec limit (settled_size s)) as [Hbig|Hsmall].
  { split; [split; [done|intros []; lia]|]. intros inc [= <-]. cbn. record_facts. }
  destruct (decide_seal mode bands band (res_ok (src (settled_path s)))) eqn:Hd.
  - destruct (src (settled_path s)) as [v|e] eqn:Hv; cbn [res_ok from_option] in *.
    + assert (is_unreadable (extraction v) = false) as Hu.
      { unfold decide_seal in Hd. destruct mode; [|done]. by destruct (is_unreadable _). }
      pose proof (innocent_cases v) as Hi. rewrite Hu in Hi. destruct (has_match v).
      * split; [naive_solver|]. intros inc [= <-]. cbn. record_facts.
      * split; [|done]. split; [|done]. intros _. repeat (split; [done|]). exists v. by rewrite Hi.
    + unfold decide_seal in Hd. by destruct mode.
  - destruct (sealer (settled_path s) key) as [out|e].
    + split; [naive_solver|]. intros inc [= <-]. cbn. record_facts.
      repeat case_match; congruence.
    + split; [naive_solver|]. intros inc [= <-]. cbn. record_facts.
  - split; [naive_solver|]. intros inc [= <-]. cbn. record_facts.
Qed.

(** ** Sealing in place never loses the plaintext *)

Lemma with_file_name_ne p a b : a <> b -> with_file_name p a <> with_file_name p b.
Proof. unfold with_file_name. intros H He%app_inv_head. by injection He. Qed.

Lemma file_name_split p name : file_name p = Some name -> p = with_file_name p name.
Proof.
  unfold file_name, with_file_name. intros H. apply last_Some in H as [l ->].
  rewrite length_app. cbn [length]. rewrite Nat.add_sub. by rewrite take_app_length.
Qed.

Lemma lit_app_ne (name a b : str) : length a <> length b -> name ++ a <> name ++ b.
Proof. intros H He%app_inv_head. by rewrite He in H. Qed.

Section SealSafety.
Context {E : CryptoEnv} {D : Digest} {L : CryptoLaws E}.

(** The content of the volume before: [path] holds [plaintext]; [ring] can open
    what [kek] seals. *)
Context {S : Type} (rng : Rng S) (st : S) (kek : Kek) (ring : Keyring).
Hypothesis rng_fills : forall n s, length (rng n s).1 = n.
Hypothesis ring_holds : lookup_key ring (kek_id kek) = Ok kek.

Definition tmp_of (path : Path) (name : str) : Path := with_file_name path (name ++ lit ".dlpenc.tmp").
Definition sealed_of (path : Path) (name : str) : Path := with_file_name path (name ++ lit ".dlpenc").

Lemma seal_paths path name :
  file_name path = Some name ->
  path <> tmp_of path name /\ path <> sealed_of path name /\ tmp_of path name <> sealed_of path name.
Proof.
  intros H%file_name_split. unfold tmp_of, sealed_of. split; [|split].
  - rewrite H at 1. apply with_file_name_ne. rewrite <- (app_nil_r name) at 1. by apply lit_app_ne.
  - rewrite H at 1. apply with_file_name_ne. rewrite <- (app_nil_r name) at 1. by apply lit_app_ne.
  - apply with_file_name_ne. by apply lit_app_ne.
Qed.

(** The plaintext can be recovered from a state of the volume: it is still at
    its path, or the envelope beside it opens to it. *)
Definition recoverable (path : Path) (name : str) (plaintext : bytes) (fs : Files) : Prop :=
  fs !! path = Some plaintext \/
  exists env h, fs !! sealed_of path name = Some env /\ open env ring = Ok (h, plaintext).

Ltac volume := repeat first
  [ rewrite lookup_insert_eq | rewrite lookup_delete_eq
  | rewrite lookup_insert_ne by congruence | rewrite lookup_delete_ne by congruence ].

Lemma seal_file_in_place_steps (ft : Faults) path name agent now fs plaintext env :
  file_name path = Some name -> fs !! path = Some plaintext -> read_fails ft = None ->
  (seal_with_rng rng st plaintext name kek agent now).1 = Ok env ->
  let '(r, tr, fs') := seal_file_in_place rng st ft path kek agent now [] fs in
  (forall f, f ∈ tr ++ [fs'] ->
     (f !! path = Some plaintext \/ f !! sealed_of path name = Some env) /\
     forall q, q <> path -> q <> tmp_of path name -> q <> sealed_of path name -> f !! q = fs !! q) /\
  match r with
  | Ok out => fs' !! path = None /\ fs' !! sealed_of path name = Some env /\
      fs' !! tmp_of path name = None /\ out_key_id out = kek_id kek /\
      out_plaintext_sha256 out = hex (sha256 plaintext) /\ out_sealed_sha256 out = hex (sha256 env)
  | Err _ => fs' !! path = Some plaintext
  end.
Proof.
  intros Hn Hp Hrd Henv. destruct (seal_paths path name Hn) as (N1 & N2 & N3).
  unfold seal_file_in_place, seal, mbind, FsM_bind, lift, fs_read. rewrite Hn. cbn [ok_or mret FsM_ret].
  unfold mret, FsM_ret. rewrite Hrd, Hp, Henv. cbn [map_err].
  fold (tmp_of path name) (sealed_of path name).
  set (tmp := tmp_of path name) in *. set (fin := sealed_of path name) in *.
  unfold catch, fs_create, fs_write_all, fs_sync, fs_rename, fs_remove, fs_discard, failing, fail,
    effect, mbind, FsM_bind, mret, FsM_ret.
  destruct (create_fails ft), (write_fails ft) as [[? ?]|], (sync_fails ft), (remove_tmp_fails ft),
    (rename_fails ft), (remove_fails ft); cbn; volume; repeat (rewrite ?lookup_insert_eq; cbn);
  (split; [intros f Hf; repeat (apply elem_of_cons in Hf as [->|Hf]); try by apply not_elem_of_nil in Hf
          |repeat split; volume; done]);
  (split; [first [left; volume; done|right; volume; done]|intros q Q1 Q2 Q3; volume; done]).
Qed.

(** C19: Sealing in place never loses the plaintext.  Whatever calls fail, whatever
    part of a failed write reached the medium, and wherever a crash stops it, in
    every state the volume goes through the plaintext is still at its path or
    the sibling envelope opens to it, and no other file changed.  An error
    leaves the plaintext in place; success means that the plaintext and the
    temporary file are gone and the envelope is there, with the reported hashes
    those of the plaintext and of the envelope. *)
Theorem seal_never_loses_plaintext (ft : Faults) path name agent now fs plaintext :
  file_name path = Some name -> fs !! path = Some plaintext ->
  let '(r, tr, fs') := seal_file_in_place rng st ft path kek agent now [] fs in
  (forall f, f ∈ tr ++ [fs'] ->
     recoverable path name plaintext f /\
     forall q, q <> path -> q <> tmp_of path name -> q <> sealed_of path name -> f !! q = fs !! q) /\
  match r with
  | Ok out => fs' !! path = None /\ fs' !! tmp_of path name = None /\
      exists env h, fs' !! sealed_of path name = Some env /\ open env ring = Ok (h, plaintext) /\
        orig_name h = name /\ out_key_id out = kek_id kek /\
        out_plaintext_sha256 out = plaintext_sha256 h /\ out_sealed_sha256 out = hex (sha256 env)
  | Err _ => fs' !! path = Some plaintext
  end.
Proof.
  intros Hn Hp. destruct (read_fails ft) as [e|] eqn:Hrd;
    [|destruct (seal_with_rng rng st plaintext name kek agent now).1 as [env|e] eqn:Henv].
  - unfold seal_file_in_place, mbind, FsM_bind, lift, fs_read. rewrite Hn. cbn. rewrite Hrd.
    split; [|done]. intros f ->%list_elem_of_singleton. split; [by left|done].
  - pose proof (seal_file_in_place_steps ft path name agent now fs plaintext env Hn Hp Hrd Henv) as H.
    destruct (seal_file_in_place rng st ft path kek agent now [] fs) as [[r tr] fs'].
    destruct H as [Hst Hr].
    destruct (open_seal rng st plaintext name kek agent now ring env rng_fills ring_holds Henv)
      as (h & Ho & _ & _ & _ & _ & Hname & Hsha).
    split.
    + intros f Hf. destruct (Hst f Hf) as [Hrec Hq]. split; [|done].
      destruct Hrec as [?|?]; [by left|right; by exists env, h].
    + destruct r as [out|e]; [|done]. destruct Hr as (H1 & H2 & H3 & H4 & H5 & H6).
      repeat (split; [done|]). exists env, h. by rewrite Hsha.
  - unfold seal_file_in_place, seal, mbind, FsM_bind, lift, fs_read. rewrite Hn. cbn.
    rewrite Hrd, Hp, Henv. cbn. split; [|done].
    intros f ->%list_elem_of_singleton. split; [by left|done].
Qed.
End SealSafety.

Definition no_faults : Faults :=
  {| read_fails := None; create_fails := None; write_fails := None; sync_fails := None;
     rename_fails := None; remove_tmp_fails := false; remove_fails := None |}.
Definition usb_path : Path := [lit "E:"; lit "a.txt"].

Lemma seal_never_loses_plaintext_witness :
  lookup_key toy_ring (kek_id toy_kek) = Ok toy_kek /\
  let '(r, tr, fs') := seal_file_in_place (E := toy_crypto) (D := toy_digest) toy_rng 3 no_faults
    usb_path toy_kek (lit "agent") 9 [] {[usb_path := lit "secret"]} in
  length tr = 4%nat /\ fs' !! usb_path = None /\
  forall f, f ∈ tr ++ [fs'] -> recoverable (E := toy_crypto) toy_ring usb_path (lit "a.txt") (lit "secret") f.
Proof.
  split; [vm_compute; reflexivity|].
  pose proof (seal_never_loses_plaintext (E := toy_crypto) (D := toy_digest) toy_rng 3 toy_kek toy_ring
    (fun n s => repeat_length s n) eq_refl no_faults usb_path (lit "a.txt") (lit "agent") 9
    {[usb_path := lit "secret"]} (lit "secret") eq_refl eq_refl) as H.
  destruct (seal_file_in_place (E := toy_crypto) (D := toy_digest) toy_rng 3 no_faults usb_path
    toy_kek (lit "agent") 9 [] {[usb_path := lit "secret"]}) as [[r tr] fs'] eqn:Hrun.
  destruct H as [H _]. split; [|split].
  - transitivity (length ((seal_file_in_place (E := toy_crypto) (D := toy_digest) toy_rng 3 no_faults
      usb_path toy_kek (lit "agent") 9 [] {[usb_path := lit "secret"]}).1.2)).
    + by rewrite Hrun.
    + vm_compute. reflexivity.
  - transitivity ((seal_file_in_place (E := toy_crypto) (D := toy_digest) toy_rng 3 no_faults
      usb_path toy_kek (lit "agent") 9 [] {[usb_path := lit "secret"]}).2 !! usb_path).
    + by rewrite Hrun.
    + vm_compute. reflexivity.
  - intros f Hf. by apply H.
Defined.

(** ** The worker pool *)

(** The jobs taken but not finished. *)
Definition in_flight (p : Pool) : list Settled := omap id (workers p).

Lemma omap_insert_None (ws : list (option Settled)) i j :
  ws !! i = Some None -> omap id (<[i := Some j]> ws) ≡ₚ j :: omap id ws.
Proof.
  intros H. apply list_elem_of_split_length in H as (l1 & l2 & -> & ->).
  rewrite insert_app_r_alt, Nat.sub_diag by lia. cbn. rewrite !omap_app. cbn.
  by rewrite Permutation_middle.
Qed.

Lemma omap_insert_Some (ws : list (option Settled)) i j :
  ws !! i = Some (Some j) -> omap id ws ≡ₚ j :: omap id (<[i := None]> ws).
Proof.
  intros H. apply list_elem_of_split_length in H as (l1 & l2 & -> & ->).
  rewrite insert_app_r_alt, Nat.sub_diag by lia. cbn. rewrite !omap_app. cbn.
  by rewrite Permutation_middle.
Qed.

(** The incidents sent and those still to come. *)
Definition outcome (scan : Settled -> option UsbIncident) (p : Pool) : list UsbIncident :=
  incidents p ++ omap scan (in_flight p ++ jobs p).

Lemma pool_step_outcome scan p q :
  pool_step scan p q -> outcome scan p ≡ₚ outcome scan q /\ length (workers p) = length (workers q).
Proof.
  unfold outcome, in_flight. intros [i j js ws out H|i j js ws out H]; cbn [workers jobs incidents];
    (split; [|by rewrite length_insert]).
  - apply Permutation_app_head. apply omap_Permutation.
    rewrite omap_insert_None by done. by rewrite <- Permutation_middle.
  - rewrite <- app_assoc. apply Permutation_app_head.
    rewrite (omap_Permutation scan _ (j :: omap id (<[i := None]> ws) ++ js))
      by (by rewrite (omap_insert_Some ws i j)).
    cbn. by destruct (scan j).
Qed.

(** What is left to do: two steps for a queued job, one for a taken one. *)
Definition pool_work (p : Pool) : nat := 2 * length (jobs p) + length (in_flight p).

Lemma pool_step_work scan p q : pool_step scan p q -> pool_work p = S (pool_work q).
Proof.
  unfold pool_work, in_flight. intros [i j js ws out H|i j js ws out H]; cbn [workers jobs].
  - rewrite (Permutation_length (omap_insert_None ws i j H)). cbn. lia.
  - rewrite (Permutation_length (omap_insert_Some ws i j H)). cbn. lia.
Qed.

Lemma pool_progress scan p : (0 < length (workers p))%nat -> pool_done p \/ exists q, pool_step scan p q.
Proof.
  destruct p as [js ws out]. cbn. intros Hl.
  destruct (Exists_dec (fun w => w <> None) ws) as [He|Hn].
  - right. apply Exists_exists in He as ([j|] & Hin & Hj); [|done].
    apply list_elem_of_lookup_1 in Hin as [i Hi]. eexists. by apply step_finish.
  - assert (Forall (fun w => w = None) ws) as Hall.
    { apply Forall_forall. intros [j|] Hin; [|done]. destruct Hn. apply Exists_exists. by exists (Some j). }
    destruct js as [|j js]; [by left|]. right.
    destruct ws as [|w ws]; [cbn in Hl; lia|]. apply Forall_cons in Hall as [-> _].
    eexists. by apply (step_take scan 0).
Qed.

Lemma pool_done_outcome scan p : pool_done p -> outcome scan p = incidents p.
Proof.
  destruct p as [js ws out]. intros [Hj Hw]. cbn in *. unfold outcome, in_flight. cbn. rewrite Hj.
  replace (omap id ws) with (@nil Settled); [by rewrite app_nil_r|].
  clear -Hw. induction Hw as [|w ws -> _ IH]; [done|]. exact IH.
Qed.

(** The worker pool loses and invents nothing: whatever the number asked for
    (at least one and at most four workers run) and however the threads
    interleave, a run makes exactly two steps per settled file, can always
    continue until it is done, and then the incidents received are those of
    scanning each settled file once, in some order. *)
Theorem scan_batch_complete n settled scan k p :
  nsteps (pool_step scan) k (pool_start n settled) p ->
  (k <= 2 * length settled)%nat /\
  (pool_done p -> incidents p ≡ₚ omap scan settled /\ k = (2 * length settled)%nat) /\
  (pool_done p \/ exists q, pool_step scan p q).
Proof.
  intros Hk.
  assert (forall k p q, nsteps (pool_step scan) k p q ->
    outcome scan p ≡ₚ outcome scan q /\ length (workers p) = length (workers q) /\
    pool_work p = (k + pool_work q)%nat) as Hrun.
  { clear. induction 1 as [p|k p q r Hs _ (IH1 & IH2 & IH3)]; [done|].
    destruct (pool_step_outcome _ _ _ Hs) as [H1 H2]. pose proof (pool_step_work _ _ _ Hs).
    split; [by rewrite H1|]. split; [congruence|lia]. }
  destruct (Hrun _ _ _ Hk) as (H1 & H2 & H3).
  assert (omap id (replicate (clamp 1 4 n) (@None Settled)) = []) as Hid
    by (clear; by induction (clamp 1 4 n)).
  unfold outcome, pool_work, in_flight, pool_start in H1, H2, H3. cbn [workers jobs incidents] in *.
  rewrite Hid in H1, H3. cbn in H1, H3. rewrite length_replicate in H2. split; [lia|]. split.
  - intros Hd. rewrite <- (pool_done_outcome scan p Hd). split; [by rewrite H1|].
    destruct p as [js ws out], Hd as [Hj Hw]. cbn in *. rewrite Hj in H3. cbn in H3.
    replace (omap id ws) with (@nil Settled) in H3; [cbn in H3; lia|].
    clear -Hw. induction Hw as [|w ws -> _ IH]; [done|]. exact IH.
  - apply pool_progress. rewrite <- H2. unfold clamp. lia.
Qed.

Lemma scan_batch_complete_witness :
  let s := {| settled_path := usb_path; settled_size := 9; by_timeout := false |} in
  let scan s := scan_to_incident s 5 (fun _ => Err (lit "no bundle")) {| drive_letter := lit "E";
    vendor_id := []; product_id := []; serial := []; product_name := []; bus_type := lit "usb";
    removable := true |} Audited (lit "usb") in
  exists p, nsteps (pool_step scan) 2 (pool_start 9 [s]) p /\ pool_done p /\ incidents p ≡ₚ omap scan [s].
Proof.
  cbv zeta. eexists. 
  match goal with |- nsteps (pool_step ?sc) _ (pool_start _ ?ss) _ /\ _ =>
    assert (nsteps (pool_step sc) 2 (pool_start 9 ss)
      {| jobs := []; workers := [None; None; None; None]; incidents := omap sc ss |}) as Hrun end.
  { eapply nsteps_l; [by apply (step_take _ 0)|]. eapply nsteps_l; [|apply nsteps_O].
    exact (step_finish _ 0 _ [] [Some _; None; None; None] [] eq_refl). }
  split; [exact Hrun|]. assert (forall x, pool_done {| jobs := []; workers := [None; None; None; None];
    incidents := x |}) as Hd by (intros x; split; [done|repeat constructor]).
  split; [apply Hd|]. by apply (scan_batch_complete 9 _ _ _ _ Hrun).
Defined.
