(* ===== verification/Decrypt.v ===== *)
(** The decrypt path of the [decrypt] subcommand ([src/decrypt.rs]): the audit
    sink and the writer are arguments, as in the code, and a run yields its
    result with the calls it made to them, in order. *)

From S2P Require Import Prelude Words Text F64 Edm Verdict Device Crypto CopyAudit.
#[local] Open Scope Z_scope.

Definition CHANNEL : str := lit "decrypt".

Inductive DecryptError :=
  | EnvelopeRefused (e : EnvelopeError)
  | AuditFailed (e : str)
  | WriteFailed (e : str).
#[export] Instance DecryptError_eq_dec : EqDecision DecryptError.
Proof. solve_decision. Defined.

Definition DecryptError_display (e : DecryptError) : str :=
  match e with
  | EnvelopeRefused e => lit "decrypt denied: " ++ EnvelopeError_display e
  | AuditFailed e => lit "decrypt aborted: audit incident could not be recorded (" ++ e
                       ++ lit "); plaintext NOT written (fail secure)"
  | WriteFailed e => lit "plaintext write failed: " ++ e
  end.

Record DecryptSummary := {
  sum_header : EnvelopeHeader;
  plaintext_len : Z;
  sum_plaintext_sha256 : str;
}.

(** Stable machine label for a denial cause. *)
Definition denial_label (e : EnvelopeError) : str :=
  match e with
  | UnknownKeyId _ => lit "unknown-key-id"
  | KeyDestroyed _ => lit "key-destroyed"
  | WrongKey => lit "wrong-key"
  | Tampered => lit "tampered"
  | Malformed _ => lit "malformed"
  | HeaderTooLarge | SealFailed => lit "internal"
  end.

Definition no_device : DeviceIdentity :=
  {| drive_letter := []; vendor_id := []; product_id := []; serial := [];
     product_name := lit "local-decrypt"; bus_type := []; removable := false |}.

Definition wire_verdict (name file_sha : str) : Verdict :=
  {| Verdict.file_name := name; file_sha256 := file_sha; extraction := ExtractionOk (lit "dlpenc");
     v_idm := []; v_edm := [] |}.

Definition decrypted_incident (header : EnvelopeHeader) (plaintext_sha256 envelope_sha256 agent_id : str)
    : UsbIncident :=
  {| kind := Decrypted; channel := CHANNEL; inc_file_name := orig_name header;
     inc_file_sha256 := plaintext_sha256;
     inc_verdict := Some (wire_verdict (orig_name header) plaintext_sha256);
     device := no_device; action_taken := Audited;
     inc_note := Some (lit "decrypted agent=" ++ agent_id ++ lit " origin=" ++ origin_agent header
                   ++ lit " sealed-at=" ++ dec (created_unix header));
     inc_key_id := Some (key_id header); sealed_sha256 := Some envelope_sha256 |}.

Definition denied_incident (envelope_name : str) (claimed_key_id : option str)
    (envelope_sha256 agent_id : str) (e : EnvelopeError) : UsbIncident :=
  {| kind := DecryptDenied; channel := CHANNEL; inc_file_name := envelope_name;
     inc_file_sha256 := []; inc_verdict := Some (wire_verdict envelope_name []);
     device := no_device; action_taken := Blocked;
     inc_note := Some (lit "decrypt-denied(" ++ denial_label e ++ lit ") agent=" ++ agent_id);
     inc_key_id := claimed_key_id; sealed_sha256 := Some envelope_sha256 |}.

(** A call made to one of the two injected functions. *)
Inductive Call :=
  | CallAudit (inc : UsbIncident)
  | CallWrite (header : EnvelopeHeader) (plaintext : bytes).

Section Decrypt.
Context {E : CryptoEnv} {D : Digest}.

Definition decrypt_envelope (envelope_bytes : bytes) (envelope_name : str) (keyring : Keyring)
    (agent_id : str) (audit : UsbIncident -> result str unit)
    (write : EnvelopeHeader -> bytes -> result str unit)
    : result DecryptError DecryptSummary * list Call :=
  let envelope_sha256 := hex (sha256 envelope_bytes) in
  let claimed_key_id := key_id <$> res_ok (peek_header envelope_bytes) in
  match open envelope_bytes keyring with
  | Err e =>
      let inc := denied_incident envelope_name claimed_key_id envelope_sha256 agent_id e in
      (Err (EnvelopeRefused e), [CallAudit inc])
  | Ok (header, plaintext) =>
      let plaintext_sha256 := hex (sha256 plaintext) in
      let inc := decrypted_incident header plaintext_sha256 envelope_sha256 agent_id in
      match audit inc with
      | Err e => (Err (AuditFailed e), [CallAudit inc])
      | Ok _ =>
          let calls := [CallAudit inc; CallWrite header plaintext] in
          match write header plaintext with
          | Err e => (Err (WriteFailed e), calls)
          | Ok _ =>
              (Ok {| sum_header := header; plaintext_len := Z.of_nat (length plaintext);
                     sum_plaintext_sha256 := plaintext_sha256 |}, calls)
          end
      end
  end.

Lemma open_destroyed env ring h :
  peek_header env = Ok h -> key_id h ∈ destroyed ring -> open env ring = Err (KeyDestroyed (key_id h)).
Proof.
  unfold peek_header, open. destruct (parse env) as [p|e]; [|done]. intros [= <-] Hd.
  cbn [mbind result_bind]. unfold lookup_key. by rewrite bool_decide_eq_true_2.
Qed.

(** No decrypt goes unaudited.  Every run makes exactly one audit call, first.
    The plaintext is written only when the envelope opened and the sink accepted
    a [Decrypted] record that names the key, the hash of that very plaintext and
    the hash of the envelope; when the envelope does not open, or the sink
    refuses, nothing is written and the caller gets an error, the refusal being
    recorded as [DecryptDenied] with the claimed key.  A destroyed key is refused
    as such, and success is reported exactly when all three steps succeeded. *)
Theorem audited_before_written env name ring agent audit write :
  let '(r, calls) := decrypt_envelope env name ring agent audit write in
  (exists inc rest, calls = CallAudit inc :: rest /\ channel inc = CHANNEL /\
     sealed_sha256 inc = Some (hex (sha256 env)) /\
     (kind inc = DecryptDenied <-> exists e, open env ring = Err e) /\
     (rest = [] \/ exists h pt, rest = [CallWrite h pt] /\ open env ring = Ok (h, pt) /\
        audit inc = Ok tt /\ kind inc = Decrypted /\ inc_key_id inc = Some (key_id h) /\
        inc_file_sha256 inc = hex (sha256 pt))) /\
  (forall e, open env ring = Err e -> r = Err (EnvelopeRefused e) /\
     forall h pt, CallWrite h pt ∉ calls) /\
  (forall h, peek_header env = Ok h -> key_id h ∈ destroyed ring ->
     r = Err (EnvelopeRefused (KeyDestroyed (key_id h))) /\
     exists inc, calls = [CallAudit inc] /\ inc_key_id inc = Some (key_id h)) /\
  ((exists s, r = Ok s) <-> exists h pt inc, open env ring = Ok (h, pt) /\
     calls = [CallAudit inc; CallWrite h pt] /\ audit inc = Ok tt /\ write h pt = Ok tt).
Proof.
  assert (forall h, peek_header env = Ok h -> key_id h ∈ destroyed ring ->
    open env ring = Err (KeyDestroyed (key_id h))) as Hdes by (intros h; apply open_destroyed).
  unfold decrypt_envelope. destruct (open env ring) as [[h pt]|e] eqn:Ho.
  - set (inc := decrypted_incident _ _ _ _).
    assert (forall h', peek_header env = Ok h' -> key_id h' ∈ destroyed ring -> False) as Hno
      by (intros h' H1 H2; by specialize (Hdes h' H1 H2)).
    assert (kind inc = DecryptDenied <-> exists e, Ok (h, pt) = @Err EnvelopeError _ e) as Hk
      by (split; [done|by intros [? ?]]).
    destruct (audit inc) as [[]|e] eqn:Ha; [destruct (write h pt) as [[]|e] eqn:Hw|].
    + split; [exists inc, [CallWrite h pt]; repeat (split; [done|]); right; by exists h, pt|].
      split; [done|]. split; [intros h' H1 H2; by destruct (Hno h')|].
      split; [intros _; by exists h, pt, inc|eauto].
    + split; [exists inc, [CallWrite h pt]; repeat (split; [done|]); right; by exists h, pt|].
      split; [done|]. split; [intros h' H1 H2; by destruct (Hno h')|].
      split; [by intros [? ?]|]. intros (h' & pt' & inc' & [= <- <-] & _ & _ & Hw'). congruence.
    + split; [exists inc, []; repeat (split; [done|]); by left|].
      split; [done|]. split; [intros h' H1 H2; by destruct (Hno h')|].
      split; [by intros [? ?]|]. by intros (? & ? & ? & _ & ? & _).
  - set (inc := denied_incident _ _ _ _ _).
    split; [exists inc, []; repeat (split; [done|]); split; [split; [by exists e|done]|by left]|].
    split.
    { intros e' [= <-]. split; [done|]. intros h pt Hc%list_elem_of_singleton. done. }
    split.
    + intros h H1 H2. specialize (Hdes h H1 H2) as [= ->]. split; [done|]. exists inc.
      split; [done|]. unfold inc, denied_incident. cbn. by rewrite H1.
    + split; [by intros [? ?]|]. by intros (? & ? & ? & ? & _).
Qed.
End Decrypt.
