(* ===== verification/RemoteTools.v ===== *)
(** The remote-access-tool signatures ([src/netfilter/remote_tools.rs]). *)

From S2P Require Import Prelude Words Text.
#[local] Open Scope Z_scope.

Inductive ToolAction : Set := Detect | BlockNetwork | Kill.
#[export] Instance ToolAction_eq_dec : EqDecision ToolAction.
Proof. solve_decision. Defined.

Record RemoteTool := {
  tool_id : str;
  tool_name : str;
  images : list str;
  publishers : list str;
  relay_domains : list str;
  ports : list Z;
}.
#[export] Instance RemoteTool_eq_dec : EqDecision RemoteTool.
Proof. solve_decision. Defined.

Definition REMOTE_TOOLS : list RemoteTool :=
  [{| tool_id := lit "anydesk"; tool_name := lit "AnyDesk"; images := [lit "anydesk.exe"];
      publishers := [lit "AnyDesk Software GmbH"];
      relay_domains := [lit "anydesk.com"; lit "net.anydesk.com"]; ports := [7070] |};
   {| tool_id := lit "rustdesk"; tool_name := lit "RustDesk"; images := [lit "rustdesk.exe"];
      publishers := [lit "Purslane Ltd"; lit "RustDesk"]; relay_domains := [lit "rustdesk.com"];
      ports := [21115; 21116; 21117; 21118; 21119] |};
   {| tool_id := lit "teamviewer"; tool_name := lit "TeamViewer";
      images := [lit "teamviewer.exe"; lit "teamviewer_service.exe"; lit "tv_w32.exe";
                 lit "tv_x64.exe"];
      publishers := [lit "TeamViewer Germany GmbH"; lit "TeamViewer GmbH"];
      relay_domains := [lit "teamviewer.com"]; ports := [5938] |};
   {| tool_id := lit "realvnc"; tool_name := lit "RealVNC";
      images := [lit "vncserver.exe"; lit "vncviewer.exe"; lit "winvnc4.exe"];
      publishers := [lit "RealVNC Limited"]; relay_domains := [lit "realvnc.com"];
      ports := [5900] |};
   {| tool_id := lit "tightvnc"; tool_name := lit "TightVNC";
      images := [lit "tvnserver.exe"; lit "tvnviewer.exe"]; publishers := [lit "GlavSoft LLC"];
      relay_domains := [lit "tightvnc.com"]; ports := [5900] |};
   {| tool_id := lit "ultravnc"; tool_name := lit "UltraVNC";
      images := [lit "winvnc.exe"; lit "uvnc_service.exe"; lit "vncviewer.exe"];
      publishers := [lit "uvnc"]; relay_domains := [lit "uvnc.com"]; ports := [5900] |};
   {| tool_id := lit "chrome-remote-desktop"; tool_name := lit "Chrome Remote Desktop";
      images := [lit "remoting_host.exe"; lit "remote_assistance_host.exe"];
      publishers := [lit "Google LLC"];
      relay_domains := [lit "remotedesktop.google.com"; lit "talkgadget.google.com"];
      ports := [443] |};
   {| tool_id := lit "rdp-out"; tool_name := lit "RDP client (mstsc, outbound)";
      images := [lit "mstsc.exe"]; publishers := [lit "Microsoft Corporation"];
      relay_domains := []; ports := [3389] |};
   {| tool_id := lit "splashtop"; tool_name := lit "Splashtop";
      images := [lit "srservice.exe"; lit "srserver.exe"; lit "strwinclt.exe";
                 lit "splashtop.exe"];
      publishers := [lit "Splashtop Inc."]; relay_domains := [lit "splashtop.com"];
      ports := [6783] |};
   {| tool_id := lit "logmein"; tool_name := lit "LogMeIn";
      images := [lit "logmein.exe"; lit "lmiguardiansvc.exe"; lit "ramaint.exe";
                 lit "logmeinsystray.exe"];
      publishers := [lit "LogMeIn, Inc."; lit "GoTo Technologies"];
      relay_domains := [lit "logmein.com"]; ports := [] |}].

(** [s.to_ascii_lowercase().replace('/', '\')] *)
Definition lower_backslash (s : str) : str :=
  map (fun c => if c =? 47 then 92 else c) (to_ascii_lowercase s).
(** [rsplit('\').next()] *)
Definition last_component (s : str) : str := default [] (last (split_char 92 s)).

Definition basename (path : str) : str := last_component (lower_backslash path).

Definition match_image (app_path : str) : option RemoteTool :=
  let base := basename app_path in
  if str_is_empty base then None
  else List.find (fun t => existsb (fun img => eq_ignore_ascii_case img base) (images t)) REMOTE_TOOLS.

Definition match_relay_domain (host : str) : option RemoteTool :=
  let h := to_ascii_lowercase (trim_end_matches (fun c => c =? 46) (trim host)) in
  if str_is_empty h then None
  else List.find (fun t => existsb (fun d => bool_decide (h = d) || ends_with (46 :: d) h)
                             (relay_domains t)) REMOTE_TOOLS.

Record ToolMatch := { match_tool_id : str; match_action : ToolAction }.

Record RemoteToolPolicy := {
  tool_default_action : ToolAction;
  overrides : gmap str ToolAction;
}.
Definition default_tool_policy : RemoteToolPolicy :=
  {| tool_default_action := Detect; overrides := ∅ |}.

Definition match_app (p : RemoteToolPolicy) (app_path : str) : option ToolMatch :=
  tool ← match_image app_path;
  let action := default (tool_default_action p) (overrides p !! tool_id tool) in
  Some {| match_tool_id := tool_id tool; match_action := action |}.

(** ** What is matched *)

Lemma split_char_no_sep sep s : sep ∉ s -> split_char sep s = [s].
Proof.
  induction s as [|c s IH]; cbn; [done|]. intros [Hc Hs]%not_elem_of_cons.
  rewrite (proj2 (Z.eqb_neq _ _)) by congruence. by rewrite IH.
Qed.

Lemma split_char_last sep dir name :
  sep ∉ name -> exists ws, split_char sep (dir ++ sep :: name) = ws ++ [name] /\ ws <> [].
Proof.
  intros Hn. induction dir as [|c dir (ws & IH & Hne)]; cbn.
  - rewrite Z.eqb_refl, split_char_no_sep by done. by exists [[]].
  - rewrite IH. destruct (c =? sep); [by exists ([] :: ws)|].
    destruct ws as [|w ws]; [done|]. by exists ((c :: w) :: ws).
Qed.

Lemma last_component_path dir name :
  92 ∉ name -> last_component (dir ++ 92 :: name) = name /\ last_component name = name.
Proof.
  intros Hn. unfold last_component. rewrite (split_char_no_sep 92 name) by done.
  destruct (split_char_last 92 dir name Hn) as (ws & -> & _). by rewrite last_snoc.
Qed.

Lemma to_ascii_lower_idemp c : to_ascii_lower (to_ascii_lower c) = to_ascii_lower c.
Proof.
  assert (is_ascii_upper c = true -> is_ascii_upper (c + 32) = false) as H
    by (unfold is_ascii_upper; intros Hc; bool_hyps; apply andb_false_iff; right; lia).
  unfold to_ascii_lower. destruct (is_ascii_upper c) eqn:Hc; [|by rewrite Hc]. by rewrite H.
Qed.

Lemma to_ascii_lowercase_idemp s : to_ascii_lowercase (to_ascii_lowercase s) = to_ascii_lowercase s.
Proof.
  unfold to_ascii_lowercase. rewrite map_map. apply map_ext. apply to_ascii_lower_idemp.
Qed.

Lemma lower_backslash_name name : 47 ∉ name -> lower_backslash name = to_ascii_lowercase name.
Proof.
  intros Hn. unfold lower_backslash, to_ascii_lowercase. rewrite map_map. apply map_ext_in.
  intros c Hc%list_elem_of_In. destruct (Z.eqb_spec (to_ascii_lower c) 47) as [He|]; [|done].
  destruct Hn. replace 47 with c; [done|]. revert He. unfold to_ascii_lower, is_ascii_upper.
  destruct (_ && _) eqn:Hu; [bool_hyps; lia|done].
Qed.

Lemma backslash_lower name : 92 ∉ name -> 92 ∉ to_ascii_lowercase name.
Proof.
  intros Hn (c & He & Hc)%list_elem_of_fmap. apply Hn. replace 92 with c; [done|].
  revert He. unfold to_ascii_lower, is_ascii_upper. destruct (_ && _) eqn:Hu; [bool_hyps; lia|done].
Qed.

Lemma images_lowercase t img : t ∈ REMOTE_TOOLS -> img ∈ images t -> to_ascii_lowercase img = img.
Proof.
  assert (Forall (fun t => Forall (fun img => to_ascii_lowercase img = img) (images t)) REMOTE_TOOLS)
    as Hall by (apply (bool_decide_unpack _); vm_compute; exact I).
  rewrite Forall_forall in Hall. intros Ht Hi. specialize (Hall t Ht).
  rewrite Forall_forall in Hall. by apply Hall.
Qed.

Lemma images_nonempty t : t ∈ REMOTE_TOOLS -> [] ∉ images t.
Proof.
  assert (Forall (fun t => [] ∉ images t) REMOTE_TOOLS) as Hall
    by (apply (bool_decide_unpack _); vm_compute; exact I).
  rewrite Forall_forall in Hall. apply Hall.
Qed.

Lemma basename_path dir sep name :
  sep = 47 \/ sep = 92 -> 47 ∉ name -> 92 ∉ name ->
  basename (dir ++ sep :: name) = to_ascii_lowercase name /\ basename name = to_ascii_lowercase name.
Proof.
  intros Hs H47 H92. unfold basename.
  assert (lower_backslash (dir ++ sep :: name) = lower_backslash dir ++ 92 :: to_ascii_lowercase name)
    as ->.
  { rewrite <- lower_backslash_name by done. unfold lower_backslash, to_ascii_lowercase.
    rewrite !map_app. by destruct Hs as [-> | ->]. }
  rewrite (lower_backslash_name name) by done.
  apply last_component_path. by apply backslash_lower.
Qed.

Lemma match_image_spec path :
  match match_image path with
  | Some t => t ∈ REMOTE_TOOLS /\ to_ascii_lowercase (basename path) ∈ images t
  | None => forall t, t ∈ REMOTE_TOOLS -> to_ascii_lowercase (basename path) ∉ images t
  end.
Proof.
  unfold match_image. destruct (str_is_empty (basename path)) eqn:He.
  { destruct (basename path); [|done]. intros t. apply images_nonempty. }
  destruct (List.find _ REMOTE_TOOLS) as [t|] eqn:Hf.
  - apply find_some in Hf as [Ht Hx]. apply list_elem_of_In in Ht. split; [done|].
    apply existsb_exists in Hx as (img & Hi & Hx). apply list_elem_of_In in Hi.
    unfold eq_ignore_ascii_case in Hx. bool_hyps.
    rewrite (images_lowercase t img) in Hx by done. by rewrite <- Hx.
  - intros t Ht Hi. apply list_elem_of_In in Ht as Ht'. eapply find_none in Hf; [|exact Ht'].
    rewrite <- not_true_iff_false in Hf. apply Hf, existsb_exists.
    exists (to_ascii_lowercase (basename path)). split; [by apply list_elem_of_In|].
    unfold eq_ignore_ascii_case. apply bool_decide_eq_true. apply to_ascii_lowercase_idemp.
Qed.

(** A process is identified by its image name alone: whatever the directory, the
    separator and the letter case, a path is matched exactly when its last
    component is an image of a listed tool; the action is the override for that
    tool, or else the default. *)
Theorem match_app_by_image p dir sep name :
  sep = 47 \/ sep = 92 -> 47 ∉ name -> 92 ∉ name ->
  match_app p (dir ++ sep :: name) = match_app p name /\
  (match_app p name = None <-> forall t, t ∈ REMOTE_TOOLS -> to_ascii_lowercase name ∉ images t) /\
  (forall m, match_app p name = Some m -> exists t, t ∈ REMOTE_TOOLS /\
     to_ascii_lowercase name ∈ images t /\ match_tool_id m = tool_id t /\
     match_action m = default (tool_default_action p) (overrides p !! tool_id t)).
Proof.
  intros Hs H47 H92. destruct (basename_path dir sep name Hs H47 H92) as [B1 B2].
  pose proof (match_image_spec name) as Hm. rewrite B2, to_ascii_lowercase_idemp in Hm.
  split; [|split].
  - unfold match_app, match_image. by rewrite B1, B2.
  - unfold match_app. destruct (match_image name) as [t|]; cbn; [|done].
    split; [done|]. intros H. by destruct (H t (proj1 Hm)), Hm.
  - unfold match_app. destruct (match_image name) as [t|]; cbn; [|done].
    intros m [= <-]. exists t. by destruct Hm.
Qed.

Lemma match_app_by_image_witness :
  exists m, match_app default_tool_policy (lit "C:\Apps\" ++ 47 :: lit "AnyDesk.EXE") = Some m /\
    match_tool_id m = lit "anydesk" /\ match_action m = Detect.
Proof.
  destruct (match_app_by_image default_tool_policy (lit "C:\Apps\") 47 (lit "AnyDesk.EXE")
    (or_introl eq_refl) ltac:(apply (bool_decide_unpack _); vm_compute; exact I)
    ltac:(apply (bool_decide_unpack _); vm_compute; exact I)) as (-> & _ & _).
  exists {| match_tool_id := lit "anydesk"; match_action := Detect |}.
  split; [vm_compute; reflexivity|done].
Defined.
