(* ===== verification/NetRules.v ===== *)
(** The network-egress decision engine ([src/netfilter/rules.rs]): CIDR
    prefixes, first-match rules, the remote-tool set and the default per mode.
    [IpAddr] parsing is the standard library's, on the text's characters. *)

From S2P Require Import Prelude Words Text RemoteTools.
#[local] Open Scope Z_scope.

Inductive NetMode : Set := Monitor | Allowlist | Blocklist.
Inductive Direction : Set := Outbound | Inbound.
Inductive RuleAction : Set := RulePermit | RuleBlock.
#[export] Instance NetMode_eq_dec : EqDecision NetMode.
Proof. solve_decision. Defined.
#[export] Instance RuleAction_eq_dec : EqDecision RuleAction.
Proof. solve_decision. Defined.

(** ** Addresses *)

(** The 32 or 128 bits of an address. *)
Inductive IpAddr : Set := V4 (bits : Z) | V6 (bits : Z).
#[export] Instance IpAddr_eq_dec : EqDecision IpAddr.
Proof. solve_decision. Defined.

(** [char::to_digit(radix)] *)
Definition to_digit (radix c : Z) : option Z :=
  let d := if is_ascii_digit c then Some (c - 48)
           else if is_ascii_lower c then Some (c - 87)
           else if is_ascii_upper c then Some (c - 55) else None in
  match d with
  | Some d => if d <? radix then Some d else None
  | None => None
  end.
Definition is_digit (radix c : Z) : bool := bool_decide (is_Some (to_digit radix c)).
Definition number_value (radix : Z) (ds : str) : Z :=
  foldl (fun acc c => acc * radix + default 0 (to_digit radix c)) 0 ds.

(** A reader takes a value off the front of the text, or leaves it alone. *)
Definition read_number (radix : Z) (max_digits : nat) (allow_zero_prefix : bool) (max : Z) (s : str)
    : option (Z * str) :=
  let ds := take_while (is_digit radix) s in
  if (max_digits <? length ds)%nat then None
  else if (length ds =? 0)%nat then None
  else if negb allow_zero_prefix && bool_decide (head ds = Some 48) && (1 <? length ds)%nat then None
  else if number_value radix ds <=? max then Some (number_value radix ds, skip_while (is_digit radix) s)
  else None.

Definition read_given_char (c : Z) (s : str) : option str :=
  match s with
  | c' :: s' => if c' =? c then Some s' else None
  | [] => None
  end.

Definition read_separator {A} (sep : Z) (index : nat) (inner : str -> option (A * str)) (s : str)
    : option (A * str) :=
  s ← (if (0 <? index)%nat then read_given_char sep s else Some s);
  inner s.

Fixpoint read_octets (n index : nat) (acc : Z) (s : str) : option (Z * str) :=
  match n with
  | O => Some (acc, s)
  | S n' =>
      '(octet, s) ← read_separator 46 index (read_number 10 3 false 255) s;
      read_octets n' (S index) (acc * 256 + octet) s
  end.
Definition read_ipv4_addr (s : str) : option (Z * str) := read_octets 4 0 0 s.

(** Up to [n] groups of 16 bits, the last two possibly as a dotted address;
    whether such an address was read, and the rest. *)
Fixpoint read_groups (n index : nat) (s : str) : list Z * bool * str :=
  match n with
  | O => ([], false, s)
  | S n' =>
      match (if (1 <=? n')%nat then read_separator 58 index read_ipv4_addr s else None) with
      | Some (v4, s') => ([v4 / 2 ^ 16; v4 mod 2 ^ 16], true, s')
      | None =>
          match read_separator 58 index (read_number 16 4 true 65535) s with
          | Some (g, s') => let '(gs, v4, s'') := read_groups n' (S index) s' in (g :: gs, v4, s'')
          | None => ([], false, s)
          end
      end
  end.

Definition groups_value (gs : list Z) : Z := foldl (fun acc g => acc * 2 ^ 16 + g) 0 gs.

Definition read_ipv6_addr (s : str) : option (Z * str) :=
  let '(groups, is_v4, s) := read_groups 8 0 s in
  if (length groups =? 8)%nat then Some (groups_value groups, s)
  else if is_v4 then None
  else
    s ← read_given_char 58 s;
    s ← read_given_char 58 s;
    let '(back, _, s) := read_groups (8 - (length groups + 1)) 0 s in
    Some (groups_value (groups ++ repeat 0 (8 - length groups - length back) ++ back), s).

(** [str::parse::<IpAddr>] *)
Definition parse_ip (s : str) : option IpAddr :=
  match
    match read_ipv4_addr s with
    | Some (b, r) => Some (V4 b, r)
    | None => match read_ipv6_addr s with Some (b, r) => Some (V6 b, r) | None => None end
    end
  with
  | Some (ip, []) => Some ip
  | _ => None
  end.

(** ** Prefixes *)

Record Cidr := { base : IpAddr; prefix : Z }.
#[export] Instance Cidr_eq_dec : EqDecision Cidr.
Proof. solve_decision. Defined.

(** [str::split_once(c)] *)
Definition split_once (c : Z) (s : str) : option (str * str) :=
  (fun p => (p.1, drop 1 p.2)) <$> find_split [c] s.

Definition addr_width (ip : IpAddr) : Z := match ip with V4 _ => 32 | V6 _ => 128 end.

Definition cidr_parse (s : str) : option Cidr :=
  let s := trim s in
  let '(addr_s, prefix_s) :=
    match split_once 47 s with
    | Some (a, p) => (trim a, Some (trim p))
    | None => (s, None)
    end in
  base ← parse_ip addr_s;
  let max := addr_width base in
  prefix ← match prefix_s with Some p => parse_uint 255 p | None => Some max end;
  if max <? prefix then None else Some {| base := base; prefix := prefix |}.

(** [MAX << (width - prefix)] at the given width, 0 for prefix 0. *)
Definition prefix_mask (width prefix : Z) : Z :=
  if prefix =? 0 then 0 else Z.shiftl (2 ^ width - 1) (width - prefix) mod 2 ^ width.

Definition cidr_contains (c : Cidr) (ip : IpAddr) : bool :=
  match base c, ip with
  | V4 b, V4 t => Z.land b (prefix_mask 32 (prefix c)) =? Z.land t (prefix_mask 32 (prefix c))
  | V6 b, V6 t => Z.land b (prefix_mask 128 (prefix c)) =? Z.land t (prefix_mask 128 (prefix c))
  | _, _ => false
  end.
Definition is_v4 (c : Cidr) : bool := match base c with V4 _ => true | V6 _ => false end.

(** ** Rules *)

Record Connection := {
  app_path : str;
  remote_ip : IpAddr;
  remote_port : Z;
  direction : Direction;
}.

Record NetRule := {
  rule_app : option str;
  rule_cidr : option Cidr;
  rule_port : option Z;
  rule_action : RuleAction;
  rule_note : option str;
}.

Definition app_matches (app_path pat : str) : bool :=
  let a := lower_backslash app_path in
  let p := lower_backslash pat in
  if str_is_empty p then false
  else if bool_decide (a = p) then true
  else
    let base := last_component a in
    bool_decide (base = p) || ends_with p a.

Definition rule_matches (r : NetRule) (conn : Connection) : bool :=
  match rule_app r with Some app => app_matches (app_path conn) app | None => true end
  && match rule_cidr r with Some c => cidr_contains c (remote_ip conn) | None => true end
  && match rule_port r with Some p => remote_port conn =? p | None => true end
  && negb (bool_decide (rule_app r = None) && bool_decide (rule_cidr r = None)
           && bool_decide (rule_port r = None)).

Definition rule_reason (r : NetRule) : str :=
  default (lit "matched " ++ match rule_action r with RulePermit => lit "Permit" | RuleBlock => lit "Block" end
             ++ lit " rule") (rule_note r).

Inductive Decision := Permit | Blocked (reason : str).
#[export] Instance Decision_eq_dec : EqDecision Decision.
Proof. solve_decision. Defined.
Definition is_block (d : Decision) : bool := match d with Blocked _ => true | Permit => false end.
Definition reason (d : Decision) : str := match d with Permit => lit "permit" | Blocked r => r end.

Record NetPolicy := {
  mode : NetMode;
  net_rules : list NetRule;
  remote_tools : RemoteToolPolicy;
}.
Definition monitor_policy : NetPolicy :=
  {| mode := Monitor; net_rules := []; remote_tools := default_tool_policy |}.

Fixpoint decide_net_rules (rules : list NetRule) (conn : Connection) : option Decision :=
  match rules with
  | [] => None
  | r :: rules' =>
      if rule_matches r conn then
        Some (match rule_action r with RulePermit => Permit | RuleBlock => Blocked (rule_reason r) end)
      else decide_net_rules rules' conn
  end.

Definition decide_net (policy : NetPolicy) (conn : Connection) : Decision :=
  match decide_net_rules (net_rules policy) conn with
  | Some d => d
  | None =>
      let fallback :=
        match mode policy with
        | Allowlist => Blocked (lit "default-deny (allowlist mode)")
        | Blocklist | Monitor => Permit
        end in
      match match_app (remote_tools policy) (app_path conn) with
      | Some m =>
          match match_action m with
          | BlockNetwork | Kill => Blocked (lit "remote-access tool: " ++ match_tool_id m)
          | Detect => fallback
          end
      | None => fallback
      end
  end.

Definition fail_secure_egress (file_unreadable dest_allowlisted : bool) : Decision :=
  if file_unreadable && negb dest_allowlisted then
    Blocked (lit "fail-secure: unreadable (encrypted) payload to non-allowlisted destination")
  else Permit.

Example parse_v6 : map parse_ip [lit "::1"; lit "2001:db8::"; lit "::ffff:1.2.3.4"; lit "1:2:3:4:5:6:7:8";
    lit "1:2:3:4:5:6:7"; lit "1.2.3.4::"; lit "01.2.3.4"; lit "1.2.3.4.5"] =
  [Some (V6 1); Some (V6 (0x20010db8 * 2 ^ 96)); Some (V6 0xffff01020304);
   Some (V6 0x00010002000300040005000600070008); None; None; None; None].
Proof. vm_compute. reflexivity. Qed.

(** ** Prefix membership *)

Definition ip_bits (ip : IpAddr) : Z := match ip with V4 b => b | V6 b => b end.
Definition ip_ok (ip : IpAddr) : Prop := 0 <= ip_bits ip < 2 ^ addr_width ip.

Lemma land_prefix_mask w p x :
  0 <= p <= w -> 0 <= x < 2 ^ w -> Z.land x (prefix_mask w p) = (x / 2 ^ (w - p)) * 2 ^ (w - p).
Proof.
  intros Hp Hx. unfold prefix_mask. destruct (Z.eqb_spec p 0) as [->|Hne].
  { rewrite Z.land_0_r, Z.sub_0_r, Z.div_small by lia. lia. }
  rewrite <- (Z.shiftr_div_pow2 x), <- Z.shiftl_mul_pow2 by lia.
  apply Z.bits_inj'. intros i Hi.
  rewrite Z.land_spec, Z.shiftl_spec by lia.
  destruct (Z.lt_ge_cases i w) as [Hlt|Hge].
  - rewrite Z.mod_pow2_bits_low, Z.shiftl_spec by lia.
    destruct (Z.lt_ge_cases i (w - p)) as [H|H].
    + rewrite !(Z.testbit_neg_r _ (i - (w - p))) by lia. by rewrite andb_false_r.
    + rewrite Z.shiftr_spec by lia. replace (i - (w - p) + (w - p)) with i by lia.
      replace (2 ^ w - 1) with (Z.ones w) by (rewrite Z.ones_equiv; lia).
      rewrite Z.ones_spec_low by lia. by rewrite andb_true_r.
  - rewrite Z.mod_pow2_bits_high by lia. rewrite andb_false_r.
    rewrite Z.shiftr_spec by lia. replace (i - (w - p) + (w - p)) with i by lia. symmetry.
    destruct (Z.eq_dec x 0) as [->|Hx0]; [apply Z.bits_0|].
    apply Z.bits_above_log2; [lia|]. assert (Z.log2 x < w) by (apply Z.log2_lt_pow2; lia). lia.
Qed.

Lemma land_mask_eq w p x y :
  0 <= p <= w -> 0 <= x < 2 ^ w -> 0 <= y < 2 ^ w ->
  (Z.land x (prefix_mask w p) =? Z.land y (prefix_mask w p)) =
    (x / 2 ^ (w - p) =? y / 2 ^ (w - p)).
Proof.
  intros Hp Hx Hy. rewrite !land_prefix_mask by done.
  assert (0 < 2 ^ (w - p)) by (apply Z.pow_pos_nonneg; lia).
  apply eq_true_iff_eq. rewrite !Z.eqb_eq. nia.
Qed.

(** ** Ranges of what is parsed *)

Lemma to_digit_bound radix c d : to_digit radix c = Some d -> 0 <= d < radix.
Proof.
  unfold to_digit, is_ascii_digit, is_ascii_lower, is_ascii_upper.
  destruct (_ && _) eqn:E1; [|destruct (_ && _) eqn:E2 in |- *;
    [|destruct (_ && _) eqn:E3 in |- *]]; bool_hyps; try done;
    destruct (Z.ltb_spec (c - 48) radix); destruct (Z.ltb_spec (c - 87) radix);
    destruct (Z.ltb_spec (c - 55) radix); intros; simplify_eq; lia.
Qed.

Lemma number_value_nonneg radix ds : 0 <= radix -> 0 <= number_value radix ds.
Proof.
  intros Hr. unfold number_value.
  enough (forall acc, 0 <= acc -> 0 <= foldl (fun acc c => acc * radix + default 0 (to_digit radix c)) acc ds)
    by auto with lia.
  induction ds as [|c ds IH]; cbn; intros acc Ha; [done|]. apply IH.
  destruct (to_digit radix c) as [d|] eqn:Hd; cbn; [apply to_digit_bound in Hd|]; nia.
Qed.

Lemma read_number_bound radix m z max s v s' :
  0 <= radix -> read_number radix m z max s = Some (v, s') -> 0 <= v <= max.
Proof.
  intros Hr. unfold read_number. pose proof (number_value_nonneg radix (take_while (is_digit radix) s) Hr).
  repeat case_match; intros; simplify_eq; bool_hyps; lia.
Qed.

Lemma read_separator_inv {A} sep i (inner : str -> option (A * str)) s r :
  read_separator sep i inner s = Some r -> exists s', inner s' = Some r.
Proof. unfold read_separator. intros (s' & _ & H)%bind_Some. eauto. Qed.

Lemma read_octets_bound n i acc s v s' :
  0 <= acc -> read_octets n i acc s = Some (v, s') -> 0 <= v < (acc + 1) * 256 ^ Z.of_nat n.
Proof.
  revert i acc s. induction n as [|n IH]; intros i acc s Ha; cbn [read_octets].
  - intros [= <- <-]. lia.
  - intros ([o s1] & Ho & H)%bind_Some. apply read_separator_inv in Ho as [s2 Ho].
    apply read_number_bound in Ho; [|lia]. apply IH in H; [|lia].
    rewrite Nat2Z.inj_succ, Z.pow_succ_r by lia. nia.
Qed.

Lemma read_groups_bound n i s gs b s' :
  read_groups n i s = (gs, b, s') ->
  (length gs <= n)%nat /\ Forall (fun g => 0 <= g < 2 ^ 16) gs.
Proof.
  revert i s gs b s'. induction n as [|n IH]; intros i s gs b s'; cbn [read_groups].
  { intros [= <- <- <-]. split; [done|constructor]. }
  destruct (if (1 <=? n)%nat then _ else _) as [[v4 s1]|] eqn:Hv.
  - intros [= <- <- <-]. destruct (Nat.leb_spec 1 n) as [Hn|]; [|done].
    apply read_separator_inv in Hv as [s2 Hv]. apply read_octets_bound in Hv; [|lia].
    change ((0 + 1) * 256 ^ Z.of_nat 4) with (2 ^ 32) in Hv. split; [cbn; lia|].
    repeat constructor; try (apply Z.mod_pos_bound; lia); [apply Z.div_pos; lia|].
    apply Z.div_lt_upper_bound; lia.
  - destruct (read_separator 58 i (read_number 16 4 true 65535) s) as [[g s1]|] eqn:Hg.
    + destruct (read_groups n (S i) s1) as [[gs' b'] s2] eqn:Hr. intros Heq. simplify_eq.
      apply IH in Hr as [Hl Hf]. apply read_separator_inv in Hg as [s3 Hg].
      apply read_number_bound in Hg; [|lia]. split; [cbn; lia|]. constructor; [lia|done].
    + intros [= <- <- <-]. split; [cbn; lia|constructor].
Qed.

Lemma groups_value_bound gs :
  Forall (fun g => 0 <= g < 2 ^ 16) gs -> 0 <= groups_value gs < 2 ^ (16 * Z.of_nat (length gs)).
Proof.
  intros Hf. unfold groups_value.
  enough (forall acc k, 0 <= k -> 0 <= acc < 2 ^ k ->
    0 <= foldl (fun acc g => acc * 2 ^ 16 + g) acc gs < 2 ^ (k + 16 * Z.of_nat (length gs))) as H
    by (apply (H 0 0); lia).
  induction Hf as [|g gs Hg _ IH]; cbn [foldl length]; intros acc k Hk Ha.
  - by rewrite Z.mul_0_r, Z.add_0_r.
  - replace (k + 16 * Z.of_nat (S (length gs))) with ((k + 16) + 16 * Z.of_nat (length gs)) by lia.
    apply IH; [lia|]. rewrite Z.pow_add_r by lia. nia.
Qed.

Lemma parse_ip_ok s ip : parse_ip s = Some ip -> ip_ok ip.
Proof.
  unfold parse_ip, ip_ok. destruct (read_ipv4_addr s) as [[b r]|] eqn:H4.
  - destruct r; [|done]. intros [= <-]. apply read_octets_bound in H4; [|lia]. cbn in *. lia.
  - destruct (read_ipv6_addr s) as [[b r]|] eqn:H6; [|done]. destruct r; [|done]. intros [= <-].
    cbn [ip_bits addr_width]. revert H6. unfold read_ipv6_addr.
    destruct (read_groups 8 0 s) as [[gs v4] s1] eqn:Hg. apply read_groups_bound in Hg as [Hl Hf].
    destruct (Nat.eqb_spec (length gs) 8) as [He|Hne].
    { intros H. simplify_eq. pose proof (groups_value_bound gs Hf) as Hb. by rewrite He in Hb. }
    destruct v4; [done|]. intros (s2 & _ & (s3 & _ & H6)%bind_Some)%bind_Some.
    destruct (read_groups _ 0 s3) as [[back v4'] s4] eqn:Hback.
    apply read_groups_bound in Hback as [Hl' Hf'].
    apply (inj Some) in H6. apply (f_equal fst) in H6. cbn [fst] in H6. subst b.
    pose proof (groups_value_bound (gs ++ repeat 0 (8 - length gs - length back) ++ back)) as Hb.
    rewrite !length_app, repeat_length in Hb.
    replace (length gs + (8 - length gs - length back + length back))%nat with 8%nat in Hb by lia.
    apply Hb. rewrite !Forall_app. split; [done|]. split; [|done].
    apply Forall_forall. intros g Hin. apply list_elem_of_In, repeat_spec in Hin. subst g. lia.
Qed.

Lemma parse_uint_bound max s v : parse_uint max s = Some v -> 0 <= v <= max.
Proof.
  unfold parse_uint. set (ds := match s with 43 :: s' => s' | _ => s end). case_bool_decide; [done|].
  destruct (forallb is_ascii_digit ds) eqn:Hd; [|done]. apply digits_val_bound in Hd.
  destruct (Z.leb_spec (digits_val ds) max); [|done]. intros [= <-]. lia.
Qed.

Lemma cidr_parse_ok s c :
  cidr_parse s = Some c -> 0 <= prefix c <= addr_width (base c) /\ ip_ok (base c).
Proof.
  unfold cidr_parse. destruct (match split_once 47 (trim s) with Some _ => _ | None => _ end) as [a p].
  intros (b & Hb & (q & Hq & H)%bind_Some)%bind_Some.
  apply parse_ip_ok in Hb. destruct (Z.ltb_spec (addr_width b) q) as [|Hle]; [done|].
  injection H as <-. cbn [prefix base]. split; [split; [|done]|done].
  destruct p as [p|]; [|injection Hq as <-; destruct b; cbn; lia].
  apply parse_uint_bound in Hq. lia.
Qed.

(** Membership in a parsed prefix is agreement on its leading bits: an address
    belongs to a rule's [addr/prefix] exactly when it is of the same family and
    its first [prefix] bits are those of [addr]; a prefix longer than the address
    is refused, so no malformed text ever widens a rule, and prefix 0 contains
    its whole family. *)
Theorem cidr_contains_prefix s c ip :
  cidr_parse s = Some c -> ip_ok ip ->
  0 <= prefix c <= addr_width (base c) /\ ip_ok (base c) /\
  (cidr_contains c ip = true <->
    addr_width ip = addr_width (base c) /\
    ip_bits ip / 2 ^ (addr_width ip - prefix c) =
      ip_bits (base c) / 2 ^ (addr_width ip - prefix c)).
Proof.
  intros (Hle & Hb)%cidr_parse_ok Hip. destruct c as [b q]. cbn [prefix base] in *.
  split; [done|]. split; [done|]. unfold cidr_contains. cbn [prefix base].
  destruct b as [b|b], ip as [t|t]; cbn [addr_width ip_bits] in *; try (split; [done|intros []; lia]);
    unfold ip_ok in *; cbn [addr_width ip_bits] in *; rewrite land_mask_eq by lia;
    rewrite Z.eqb_eq; split; [intros ->; auto| intros []; auto|intros ->; auto|intros []; auto].
Qed.

Lemma cidr_contains_prefix_witness :
  exists c, cidr_parse (lit " 10.20.0.0/16 ") = Some c /\
    cidr_contains c (V4 (10 * 2 ^ 24 + 20 * 2 ^ 16 + 77)) = true.
Proof.
  exists {| base := V4 (10 * 2 ^ 24 + 20 * 2 ^ 16); prefix := 16 |}.
  assert (cidr_parse (lit " 10.20.0.0/16 ") =
    Some {| base := V4 (10 * 2 ^ 24 + 20 * 2 ^ 16); prefix := 16 |}) as H by (vm_compute; reflexivity).
  split; [exact H|].
  apply (cidr_contains_prefix (lit " 10.20.0.0/16 ") _ (V4 (10 * 2 ^ 24 + 20 * 2 ^ 16 + 77)) H).
  - unfold ip_ok. cbn. lia.
  - split; [reflexivity|vm_compute; reflexivity].
Defined.

(** ** Dotted addresses *)

(** The text of an IPv4 address. *)
Definition dotted (b : Z) : str :=
  join [46] [dec (b / 2 ^ 24); dec (b / 2 ^ 16 mod 256); dec (b / 2 ^ 8 mod 256); dec (b mod 256)].

Definition octet_ok (o : Z) : Prop :=
  forallb (is_digit 10) (dec o) = true /\ (length (dec o) <= 3)%nat /\ dec o <> [] /\
  negb (bool_decide (head (dec o) = Some 48) && (1 <? length (dec o))%nat) = true /\
  number_value 10 (dec o) = o.

Lemma octets_ok o : 0 <= o < 256 -> octet_ok o.
Proof.
  intros Ho. assert (Forall octet_ok (seqZ 0 256)) as Hall.
  { unfold octet_ok. apply (bool_decide_unpack _). vm_compute. exact I. }
  rewrite Forall_forall in Hall. apply Hall, elem_of_seqZ. lia.
Qed.

Lemma read_octet o rest :
  0 <= o < 256 -> (forall c, head rest = Some c -> is_digit 10 c = false) ->
  read_number 10 3 false 255 (dec o ++ rest) = Some (o, rest).
Proof.
  intros Ho Hr. destruct (octets_ok o Ho) as (H1 & H2 & H3 & H4 & H5).
  assert (forall x, x ∈ dec o -> is_digit 10 x = true) as Hall.
  { intros x Hx. rewrite forallb_forall in H1. by apply H1, list_elem_of_In. }
  unfold read_number. rewrite take_while_app, skip_while_app by done.
  assert (take_while (is_digit 10) rest = []) as -> by (destruct rest; cbn; [done|by rewrite Hr]).
  assert (skip_while (is_digit 10) rest = rest) as -> by (destruct rest; cbn; [done|by rewrite Hr]).
  rewrite app_nil_r. rewrite (proj2 (Nat.ltb_ge _ _)) by lia.
  rewrite (proj2 (Nat.eqb_neq _ _)) by (by destruct (dec o)). cbn [negb andb].
  apply negb_true_iff in H4. rewrite H4, H5. by rewrite (proj2 (Z.leb_le _ _)) by lia.
Qed.

(** Every IPv4 address reads back from its dotted text, alone or with any
    prefix length up to 32 after a slash. *)
Theorem dotted_address_roundtrip b :
  0 <= b < 2 ^ 32 -> parse_ip (dotted b) = Some (V4 b).
Proof.
  intros Hb. unfold parse_ip, dotted, read_ipv4_addr. cbn [join].
  assert (forall r c, head (46 :: r) = Some c -> is_digit 10 c = false) as Hdot
    by (intros r c [= <-]; reflexivity).
  assert (0 <= b / 2 ^ 24 < 256) by (split; [apply Z.div_pos|apply Z.div_lt_upper_bound]; lia).
  assert (forall x, 0 <= x mod 256 < 256) as Hm by (intros; apply Z.mod_pos_bound; lia).
  cbn [read_octets]. unfold read_separator. cbn [Nat.ltb Nat.leb mbind option_bind].
  rewrite read_octet by (done || apply Hdot). cbn [app read_given_char mbind option_bind]. rewrite Z.eqb_refl.
  cbn [mbind option_bind].
  rewrite read_octet by (apply Hm || apply Hdot). cbn [app read_given_char mbind option_bind]. rewrite Z.eqb_refl.
  cbn [mbind option_bind].
  rewrite read_octet by (apply Hm || apply Hdot). cbn [app read_given_char mbind option_bind]. rewrite Z.eqb_refl.
  cbn [mbind option_bind].
  rewrite <- (app_nil_r (dec (b mod 256))). rewrite read_octet by (apply Hm || done).
  do 2 f_equal. change (2 ^ 24) with (256 * 256 * 256). change (2 ^ 16) with (256 * 256).
  change (2 ^ 8) with 256. rewrite <- !Z.div_div by lia.
  pose proof (Z.div_mod b 256). pose proof (Z.div_mod (b / 256) 256).
  pose proof (Z.div_mod (b / 256 / 256) 256). lia.
Qed.

Lemma dotted_address_roundtrip_witness :
  dotted (10 * 2 ^ 24 + 5) = lit "10.0.0.5" /\
  parse_ip (lit "10.0.0.5") = Some (V4 (10 * 2 ^ 24 + 5)).
Proof.
  split; [vm_compute; reflexivity|].
  exact (dotted_address_roundtrip (10 * 2 ^ 24 + 5) ltac:(lia)).
Defined.

(** ** The decision *)

(** [r] is the first rule of [rules] that matches [conn]. *)
Definition first_rule (rules : list NetRule) (conn : Connection) (r : NetRule) : Prop :=
  exists before after, rules = before ++ r :: after /\ rule_matches r conn = true /\
    Forall (fun r' => rule_matches r' conn = false) before.
Definition no_rule (rules : list NetRule) (conn : Connection) : Prop :=
  Forall (fun r => rule_matches r conn = false) rules.

Lemma decide_net_rules_spec rules conn :
  match decide_net_rules rules conn with
  | Some d => exists r, first_rule rules conn r /\
      d = match rule_action r with RulePermit => Permit | RuleBlock => Blocked (rule_reason r) end
  | None => no_rule rules conn
  end.
Proof.
  induction rules as [|r rules IH]; cbn; [constructor|].
  destruct (rule_matches r conn) eqn:Hm.
  - exists r. split; [|done]. by exists [], rules.
  - destruct (decide_net_rules rules conn).
    + destruct IH as (r' & (before & after & -> & Hr & Hall) & ->). exists r'. split; [|done].
      exists (r :: before), after. split; [done|]. split; [done|]. by constructor.
    + by constructor.
Qed.

Lemma first_rule_unique rules conn r r' :
  first_rule rules conn r -> first_rule rules conn r' -> r = r'.
Proof.
  intros (b1 & a1 & -> & H1 & F1) (b2 & a2 & He & H2 & F2). revert b2 He F2.
  induction F1 as [|x b1 Hx F1 IH]; intros b2 He F2; destruct F2 as [|y b2 Hy F2]; cbn in He.
  - by injection He.
  - injection He as -> _. congruence.
  - injection He as -> _. congruence.
  - injection He as _ He. by apply (IH b2).
Qed.

Lemma first_rule_some rules conn r : first_rule rules conn r -> ~ no_rule rules conn.
Proof.
  intros (b & a & -> & Hm & _) [_ [Hr _]%Forall_cons]%Forall_app. congruence.
Qed.

(** The process of [conn] is a remote-access tool whose action cuts its traffic. *)
Definition tool_blocked (policy : NetPolicy) (conn : Connection) : Prop :=
  exists m, match_app (remote_tools policy) (app_path conn) = Some m /\ match_action m <> Detect.

(** A connection is permitted exactly when the first explicit rule that matches
    it permits it, or no rule matches, its process is not a tool to be blocked
    and the mode is not [Allowlist].  So default-deny admits only what a rule
    names, an explicit permit overrides the tool set, and a tool set to [Detect]
    never blocks; the shipped monitoring policy permits everything. *)
Theorem decide_net_permits policy conn :
  (decide_net policy conn = Permit <->
    (exists r, first_rule (net_rules policy) conn r /\ rule_action r = RulePermit) \/
    (no_rule (net_rules policy) conn /\ ~ tool_blocked policy conn /\ mode policy <> Allowlist)) /\
  (mode policy = Allowlist ->
    (decide_net policy conn = Permit <->
     exists r, first_rule (net_rules policy) conn r /\ rule_action r = RulePermit)) /\
  (forall r, first_rule (net_rules policy) conn r -> rule_action r = RuleBlock ->
     decide_net policy conn = Blocked (rule_reason r)) /\
  decide_net monitor_policy conn = Permit.
Proof.
  assert (decide_net policy conn = Permit <->
    (exists r, first_rule (net_rules policy) conn r /\ rule_action r = RulePermit) \/
    (no_rule (net_rules policy) conn /\ ~ tool_blocked policy conn /\ mode policy <> Allowlist)) as H.
  { unfold decide_net. pose proof (decide_net_rules_spec (net_rules policy) conn) as Hs.
    destruct (decide_net_rules (net_rules policy) conn) as [d|].
    - destruct Hs as (r & Hr & ->). split.
      + intros Hp. left. exists r. split; [done|]. by destruct (rule_action r).
      + intros [(r' & Hr' & Ha)|(Hn & _)]; [|by destruct (first_rule_some _ _ _ Hr)].
        rewrite (first_rule_unique _ _ _ _ Hr Hr'). by rewrite Ha.
    - assert (forall r, ~ first_rule (net_rules policy) conn r) as Hno
        by (intros r Hr; by apply (first_rule_some _ _ _ Hr)).
      assert (match mode policy with
              | Allowlist => Blocked (lit "default-deny (allowlist mode)")
              | Blocklist | Monitor => Permit end = Permit <-> mode policy <> Allowlist) as Hf
        by (destruct (mode policy); done).
      assert (tool_blocked policy conn <-> match match_app (remote_tools policy) (app_path conn) with
        | Some m => match_action m <> Detect | None => False end) as Ht.
      { unfold tool_blocked. destruct (match_app _ _) as [m|]; [|by split; [intros (? & ? & _)|]].
        split; [by intros (m' & [= <-] & Hd)|intros Hd; by exists m]. }
      assert (forall P : Prop, (P <-> ~ tool_blocked policy conn /\ mode policy <> Allowlist) ->
        (P <-> (exists r, first_rule (net_rules policy) conn r /\ rule_action r = RulePermit) \/
          (no_rule (net_rules policy) conn /\ ~ tool_blocked policy conn /\ mode policy <> Allowlist)))
        as Hgoal.
      { intros P ->. split; [tauto|]. intros [(r & Hr' & _)|(_ & ?)]; [by destruct (Hno r)|done]. }
      apply Hgoal. rewrite Ht. destruct (match_app (remote_tools policy) (app_path conn)) as [m|].
      + destruct (match_action m); [rewrite Hf; naive_solver|naive_solver..].
      + rewrite Hf. tauto. }
  split; [exact H|]. split; [|split].
  - intros Hmode. rewrite H. split; [|by left]. by intros [?|(_ & _ & ?)].
  - intros r Hr Ha. unfold decide_net.
    pose proof (decide_net_rules_spec (net_rules policy) conn) as Hs.
    destruct (decide_net_rules (net_rules policy) conn) as [d|].
    + destruct Hs as (r' & Hr' & ->). by rewrite (first_rule_unique _ _ _ _ Hr' Hr), Ha.
    + by destruct (first_rule_some _ _ _ Hr).
  - unfold decide_net, monitor_policy. cbn. unfold match_app.
    destruct (match_image (app_path conn)); cbn; [|done]. by rewrite lookup_empty.
Qed.

(** A rule for one program also matches programs whose name ends in its name:
    the suffix test does not stop at a path separator. *)
Lemma app_suffix_other_program :
  app_matches (lit "C:\Temp\evilcurl.exe") (lit "curl.exe") = true.
Proof. vm_compute. reflexivity. Qed.
