(* ===== verification/Config.v ===== *)
(** The agent configuration ([src/config.rs]): the sections with their
    defaults, the conversion of configured rules to evaluated ones, and loading
    from a TOML file with environment overrides.  TOML parsing, the file system
    and the environment are the class [ConfigEnv]. *)

From S2P Require Import Prelude Words Text F64 Unicode Fingerprint Bundle Edm Extract Verdict.
From S2P Require Import TrustDest Device UsbPolicy RemoteTools NetRules.
#[local] Open Scope Z_scope.

(** ** Sections *)

Inductive NotifyMode : Set := NotifyStandard | NotifyMinimal | NotifyCovert.

Record NotifyConfig := {
  notify_enabled : bool;
  notify_mode : NotifyMode;
  org_name : str;
  aumid : str;
  dedup_secs : Z;
  max_per_minute : Z;
}.
Definition default_notify : NotifyConfig :=
  {| notify_enabled := true; notify_mode := NotifyStandard; org_name := lit "Data Loss Prevention";
     aumid := lit "Resec.DLP.Agent"; dedup_secs := 5; max_per_minute := 20 |}.

Record UsbRule := {
  match_serial : option str;
  match_vid : option str;
  match_pid : option str;
  match_bus_type : option str;
  match_any : bool;
  rule_usb_action : Action;
  rule_usb_note : option str;
  rule_mode : option EncryptMode;
  rule_key_id : option str;
  on_block_band : BlockBandPolicy;
}.

Record UsbConfig := {
  usb_enabled : bool;
  poll_interval_secs : Z;
  usb_settle_ms : Z;
  settle_timeout_secs : Z;
  max_file_bytes : Z;
  usb_default_action : Action;
  usb_channel_label : str;
  mtp_action : Action;
  tethering_action : Action;
  usb_rules : list UsbRule;
}.
Definition default_usb : UsbConfig :=
  {| usb_enabled := false; poll_interval_secs := 2; usb_settle_ms := 1500; settle_timeout_secs := 30;
     max_file_bytes := 104857600; usb_default_action := ReadOnly; usb_channel_label := lit "usb";
     mtp_action := Block; tethering_action := Block; usb_rules := [] |}.

Record KguardConfig := {
  kguard_block_at : f64;
  kguard_coverage_block_at : f64;
  removable_write_block_at : f64;
  sealer_health_timeout_secs : Z;
  kguard_fail_block : bool;
  kguard_channel_label : str;
  scan_fixed : bool;
  scan_network : bool;
  watch_paths : list str;
  exfil_read_block : bool;
}.
Definition default_kguard : KguardConfig :=
  {| kguard_block_at := f64_percent 30; kguard_coverage_block_at := f64_percent 60;
     removable_write_block_at := f64_percent 15; sealer_health_timeout_secs := 10;
     kguard_fail_block := false; kguard_channel_label := lit "usb-kguard"; scan_fixed := false;
     scan_network := false; watch_paths := []; exfil_read_block := false |}.

Inductive ClipboardAction : Set := ClipAllowAudited | ClipBlock.
#[export] Instance ClipboardAction_eq_dec : EqDecision ClipboardAction.
Proof. solve_decision. Defined.

Record ClipboardConfig := {
  clip_enabled : bool;
  clip_default_action : ClipboardAction;
  clip_max_bytes : Z;
  block_images : bool;
  clip_channel_label : str;
  clip_block_at : f64;
  clip_coverage_block_at : f64;
  clip_fail_block : bool;
}.
Definition default_clipboard : ClipboardConfig :=
  {| clip_enabled := false; clip_default_action := ClipAllowAudited; clip_max_bytes := 8388608;
     block_images := false; clip_channel_label := lit "clipboard"; clip_block_at := f64_percent 30;
     clip_coverage_block_at := f64_percent 60; clip_fail_block := false |}.

Record NetRuleConfig := {
  nr_app : option str;
  nr_cidr : option str;
  nr_port : option Z;
  nr_action : RuleAction;
  nr_note : option str;
}.

Record NetfilterConfig := {
  net_mode : NetMode;
  net_channel_label : str;
  remote_tool_action : ToolAction;
  remote_tool_overrides : gmap str ToolAction;
  persist : bool;
  net_rule_configs : list NetRuleConfig;
}.
Definition default_netfilter : NetfilterConfig :=
  {| net_mode := Monitor; net_channel_label := lit "network"; remote_tool_action := Detect;
     remote_tool_overrides := ∅; persist := false; net_rule_configs := [] |}.

Record CryptoConfig := {
  default_key_id : str;
  crypto_encrypt_at : f64;
  keyfile : option str;
}.
Definition default_crypto : CryptoConfig :=
  {| default_key_id := lit "class-internal/v1"; crypto_encrypt_at := f64_percent 5; keyfile := None |}.

Record TrustedOrigin := {
  origin : str;
  origin_mode : EncryptMode;
  origin_key_id : option str;
}.
Definition WebuploadConfig : Type := list TrustedOrigin.

Record Config := {
  server_url : str;
  enrollment_token : option str;
  ca_cert_path : str;
  state_dir : str;
  checkin_interval_seconds : Z;
  usb : UsbConfig;
  kguard : KguardConfig;
  clipboard : ClipboardConfig;
  netfilter : NetfilterConfig;
  notify : NotifyConfig;
  crypto : CryptoConfig;
  webupload : WebuploadConfig;
}.
Definition default_checkin : Z := 300.

(** ** Rules *)

(** Which matcher is used: serial, then vid and pid, then bus type, then any. *)
Definition to_device_rule (r : UsbRule) : option DeviceRule :=
  match_on ←
    match match_serial r with
    | Some s => Some (Serial s)
    | None =>
        match match_vid r, match_pid r with
        | Some vid, Some pid => Some (VidPid vid pid)
        | _, _ =>
            match match_bus_type r with
            | Some b => Some (BusType b)
            | None => if match_any r then Some Any else None
            end
        end
    end;
  Some {| match_on := match_on; action := rule_usb_action r; note := rule_usb_note r |}.

Definition to_policy (u : UsbConfig) : UsbPolicy :=
  {| default_action := usb_default_action u; rules := omap to_device_rule (usb_rules u) |}.

Fixpoint encrypt_params_rules (rs : list UsbRule) (dev : DeviceIdentity)
    : EncryptMode * option str * BlockBandPolicy :=
  match rs with
  | [] => (EncryptSensitive, None, BandBlock)
  | r :: rs' =>
      match to_device_rule r with
      | Some dr =>
          if matches (match_on dr) dev then
            (default EncryptSensitive (rule_mode r), rule_key_id r, on_block_band r)
          else encrypt_params_rules rs' dev
      | None => encrypt_params_rules rs' dev
      end
  end.
Definition encrypt_params (u : UsbConfig) (dev : DeviceIdentity)
    : EncryptMode * option str * BlockBandPolicy := encrypt_params_rules (usb_rules u) dev.

Definition to_net_rule (r : NetRuleConfig) : option NetRule :=
  match_cidr ← match nr_cidr r with
               | Some s => c ← cidr_parse s; Some (Some c)
               | None => Some None
               end;
  if bool_decide (nr_app r = None) && bool_decide (match_cidr = None) && bool_decide (nr_port r = None)
  then None
  else Some {| rule_app := nr_app r; rule_cidr := match_cidr; rule_port := nr_port r;
               rule_action := nr_action r; rule_note := nr_note r |}.

(** ** The whole configuration *)

Definition url (path : str) (c : Config) : str :=
  trim_end_matches (fun ch => ch =? 47) (server_url c) ++ path.
Definition enroll_url : Config -> str := url (lit "/agent/enroll").
Definition checkin_url : Config -> str := url (lit "/agent/checkin").
Definition index_url : Config -> str := url (lit "/agent/index").
Definition incidents_url : Config -> str := url (lit "/agent/incidents").
Definition trusted_config_url : Config -> str := url (lit "/agent/trusted-config").

Definition encrypt_bands (c : Config) : EncryptBands :=
  {| encrypt_at := crypto_encrypt_at (crypto c); block_at := kguard_block_at (kguard c);
     coverage_block_at := kguard_coverage_block_at (kguard c) |}.

Class ConfigEnv := {
  (** [None] when the path does not exist, else what reading it gives *)
  config_file : str -> option (option str);
  toml_from_str : str -> option Config;
  env_var : str -> option str;
}.

Section Load.
Context {E : ConfigEnv}.

Definition env_required (key : str) : result str str :=
  ok_or (env_var key) (lit "missing required env " ++ key ++ lit " (and no config file)").

Definition load_base (path : str) : result str Config :=
  match config_file path with
  | Some contents =>
      text ← ok_or contents (lit "reading config " ++ path);
      ok_or (toml_from_str text) (lit "parsing config TOML")
  | None =>
      url ← env_required (lit "DLP_AGENT_SERVER_URL");
      let token := env_var (lit "DLP_AGENT_TOKEN") in
      ca ← env_required (lit "DLP_AGENT_CA_CERT");
      dir ← env_required (lit "DLP_AGENT_STATE_DIR");
      Ok {| server_url := url; enrollment_token := token; ca_cert_path := ca; state_dir := dir;
            checkin_interval_seconds := default_checkin; usb := default_usb;
            kguard := default_kguard; clipboard := default_clipboard;
            netfilter := default_netfilter; notify := default_notify; crypto := default_crypto;
            webupload := [] |}
  end.

Definition config_load (path : str) : result str Config :=
  cfg ← load_base path;
  Ok {| server_url := default (server_url cfg) (env_var (lit "DLP_AGENT_SERVER_URL"));
        enrollment_token :=
          match env_var (lit "DLP_AGENT_TOKEN") with Some v => Some v | None => enrollment_token cfg end;
        ca_cert_path := default (ca_cert_path cfg) (env_var (lit "DLP_AGENT_CA_CERT"));
        state_dir := default (state_dir cfg) (env_var (lit "DLP_AGENT_STATE_DIR"));
        checkin_interval_seconds := checkin_interval_seconds cfg; usb := usb cfg;
        kguard := kguard cfg; clipboard := clipboard cfg; netfilter := netfilter cfg;
        notify := notify cfg; crypto := crypto cfg; webupload := webupload cfg |}.
End Load.

(** ** The deciding rule *)

(** [r] is the first rule with a matcher that matches [dev]. *)
Definition deciding_rule (rs : list UsbRule) (dev : DeviceIdentity) (r : UsbRule) (dr : DeviceRule)
    : Prop :=
  exists before after, rs = before ++ r :: after /\ to_device_rule r = Some dr /\
    matches (match_on dr) dev = true /\
    Forall (fun r' => forall dr', to_device_rule r' = Some dr' -> matches (match_on dr') dev = false)
      before.
Definition undecided (rs : list UsbRule) (dev : DeviceIdentity) : Prop :=
  Forall (fun r' => forall dr', to_device_rule r' = Some dr' -> matches (match_on dr') dev = false) rs.

Lemma deciding_or_undecided rs dev :
  (exists r dr, deciding_rule rs dev r dr) \/ undecided rs dev.
Proof.
  induction rs as [|r rs IH]; [right; constructor|].
  destruct (to_device_rule r) as [dr|] eqn:Hr; [destruct (matches (match_on dr) dev) eqn:Hm|].
  - left. exists r, dr, [], rs. auto.
  - destruct IH as [(r' & dr' & b & a & -> & H1 & H2 & H3)|H]; [left|right].
    + exists r', dr', (r :: b), a. repeat (split; [done|]). constructor; [|done]. congruence.
    + constructor; [|done]. congruence.
  - destruct IH as [(r' & dr' & b & a & -> & H1 & H2 & H3)|H]; [left|right].
    + exists r', dr', (r :: b), a. repeat (split; [done|]). constructor; [|done]. congruence.
    + constructor; [|done]. congruence.
Qed.

Lemma deciding_rule_decide rs dev r dr d :
  deciding_rule rs dev r dr ->
  decide_rules (omap to_device_rule rs) d dev = (rule_usb_action r, Some dr) /\
  encrypt_params_rules rs dev = (default EncryptSensitive (rule_mode r), rule_key_id r, on_block_band r).
Proof.
  intros (b & a & -> & Hr & Hm & Hb).
  assert (action dr = rule_usb_action r) as Ha.
  { unfold to_device_rule in Hr. apply bind_Some in Hr as (m & _ & [= <-]). done. }
  induction Hb as [|r' b Hr' _ IH]; cbn.
  - rewrite Hr. cbn. by rewrite Hm, Ha.
  - destruct (to_device_rule r') as [dr'|] eqn:E; [|exact IH]. cbn. by rewrite (Hr' dr' eq_refl).
Qed.

Lemma undecided_decide rs dev d :
  undecided rs dev ->
  decide_rules (omap to_device_rule rs) d dev = (d, None) /\
  encrypt_params_rules rs dev = (EncryptSensitive, None, BandBlock).
Proof.
  induction 1 as [|r' rs Hr' _ IH]; cbn; [done|].
  destruct (to_device_rule r') as [dr'|]; [|exact IH]. cbn. by rewrite (Hr' dr' eq_refl).
Qed.

(** The rule that decides a device's action is the rule whose sealing parameters
    apply: both walks of the configured rules stop at the first one that has a
    matcher and matches.  When none does, the action is the default and the
    parameters are the fail-secure ones; a rule without a matcher never
    decides. *)
Theorem encrypt_params_of_deciding_rule u dev :
  (exists r dr, deciding_rule (usb_rules u) dev r dr /\
     decide (to_policy u) dev = (rule_usb_action r, Some dr) /\
     encrypt_params u dev = (default EncryptSensitive (rule_mode r), rule_key_id r, on_block_band r)) \/
  (undecided (usb_rules u) dev /\ decide (to_policy u) dev = (usb_default_action u, None) /\
   encrypt_params u dev = (EncryptSensitive, None, BandBlock)).
Proof.
  destruct (deciding_or_undecided (usb_rules u) dev) as [(r & dr & H)|H]; [left|right].
  - exists r, dr. split; [done|]. by apply deciding_rule_decide.
  - split; [done|]. by apply undecided_decide.
Qed.
