(* ===== verification/TrustSync.v ===== *)
(** Trusted-destination and key sync ([src/trustsync.rs]): merging the synced
    whitelist into the USB policy, the keyring document and the persisted
    destinations file.  A JSON value is an inductive type; its text form is the
    class [JsonEnv]. *)

From S2P Require Import Prelude Words Text F64 Unicode Fingerprint Bundle Edm Extract Verdict.
From S2P Require Import TrustDest Device UsbPolicy RemoteTools NetRules Crypto Config.
#[local] Open Scope Z_scope.

Inductive SyncedMatcher :=
  | SyncedSerial (serial : str)
  | SyncedVidPid (vid pid : str).
#[export] Instance SyncedMatcher_eq_dec : EqDecision SyncedMatcher.
Proof. solve_decision. Defined.

Record SyncedDestination := {
  dest_channel : str;
  matcher : SyncedMatcher;
  dest_mode : EncryptMode;
  dest_key_id : str;
  dest_on_block_band : BlockBandPolicy;
}.
#[export] Instance SyncedDestination_eq_dec : EqDecision SyncedDestination.
Proof. solve_decision. Defined.

Record SyncedKey := { synced_id : str; key_b64 : str }.

Record TrustedConfig := {
  destinations : list SyncedDestination;
  synced_keys : list SyncedKey;
}.

(** ** The keyring document *)

Definition synced_active_key_id (t : TrustedConfig) : option str :=
  match List.find (fun k => existsb (fun d => bool_decide (dest_key_id d = synced_id k)) (destinations t))
          (synced_keys t) with
  | Some k => Some (synced_id k)
  | None => synced_id <$> head (synced_keys t)
  end.

(** The entries of the JSON object: a later key of the same id replaces the
    earlier one. *)
Definition keyring_entries (t : TrustedConfig) : gmap str str :=
  foldl (fun m k => <[synced_id k := key_b64 k]> m) ∅ (synced_keys t).

Definition keyring_doc (t : TrustedConfig) : option DevKeyfile :=
  active ← synced_active_key_id t;
  Some {| df_active_key_id := active; df_keys := map_to_list (keyring_entries t); df_destroyed := [] |}.

(** ** Merging into the USB policy *)

Definition opt_eq_trimmed (o : option str) (s : str) : bool :=
  from_option (fun x => eq_ignore_ascii_case (trim x) (trim s)) false o.

Definition same_device (m : SyncedMatcher) (rule : UsbRule) : bool :=
  match m with
  | SyncedSerial serial => opt_eq_trimmed (match_serial rule) serial
  | SyncedVidPid vid pid =>
      opt_eq_trimmed (match_vid rule) vid && opt_eq_trimmed (match_pid rule) pid
  end.

Definition local_action_for (cfg_usb : UsbConfig) (m : SyncedMatcher) : option Action :=
  rule_usb_action <$> List.find (same_device m) (usb_rules cfg_usb).

Definition to_usb_rule (d : SyncedDestination) (action : Action) : UsbRule :=
  let '(serial, vid, pid) :=
    match matcher d with
    | SyncedSerial serial => (Some serial, None, None)
    | SyncedVidPid vid pid => (None, Some vid, Some pid)
    end in
  {| match_serial := serial; match_vid := vid; match_pid := pid; match_bus_type := None;
     match_any := false; rule_usb_action := action;
     rule_usb_note := Some (lit "synced trusted destination"); rule_mode := Some (dest_mode d);
     rule_key_id := if str_is_empty (dest_key_id d) then None else Some (dest_key_id d);
     on_block_band := dest_on_block_band d |}.

Definition usb_dests (dests : list SyncedDestination) : list SyncedDestination :=
  List.filter (fun d => bool_decide (dest_channel d = lit "usb")) dests.

Definition synced_action (cfg_usb : UsbConfig) (d : SyncedDestination) : Action :=
  match local_action_for cfg_usb (matcher d) with
  | Some local => max_restrictive Encrypt local
  | None => Encrypt
  end.

Definition merge_into_usb (cfg_usb : UsbConfig) (dests : list SyncedDestination) : UsbConfig :=
  match usb_dests dests with
  | [] => cfg_usb
  | ds =>
      {| usb_enabled := true; poll_interval_secs := poll_interval_secs cfg_usb;
         usb_settle_ms := usb_settle_ms cfg_usb;
         settle_timeout_secs := settle_timeout_secs cfg_usb;
         max_file_bytes := max_file_bytes cfg_usb;
         usb_default_action := usb_default_action cfg_usb;
         usb_channel_label := usb_channel_label cfg_usb; mtp_action := mtp_action cfg_usb;
         tethering_action := tethering_action cfg_usb;
         usb_rules := map (fun d => to_usb_rule d (synced_action cfg_usb d)) ds ++ usb_rules cfg_usb |}
  end.

Definition with_synced_destinations (c : Config) (dests : list SyncedDestination) : Config :=
  {| server_url := server_url c; enrollment_token := enrollment_token c;
     ca_cert_path := ca_cert_path c; state_dir := state_dir c;
     checkin_interval_seconds := checkin_interval_seconds c;
     usb := merge_into_usb (usb c) dests; kguard := kguard c; clipboard := clipboard c;
     netfilter := netfilter c; notify := notify c; crypto := crypto c; webupload := webupload c |}.

(** ** The persisted destinations *)

Inductive Json :=
  | JNull
  | JStr (s : str)
  | JArr (l : list Json)
  | JObj (fields : list (str * Json)).

Class JsonEnv := {
  json_to_vec : Json -> option bytes;
  json_from_slice : bytes -> option Json;
  (** the document of the keyring file *)
  keyfile_to_vec : DevKeyfile -> option bytes;
}.
(** Documented behaviour: what is written reads back; the keys of an object
    come in any order. *)
Class JsonLaws (J : JsonEnv) (E : CryptoEnv) := {
  json_roundtrip v bs : json_to_vec v = Some bs -> json_from_slice bs = Some v;
  keyfile_roundtrip df bs :
    keyfile_to_vec df = Some bs ->
    exists df', keyfile_from_slice bs = Ok df' /\ df_active_key_id df' = df_active_key_id df /\
      df_destroyed df' = df_destroyed df /\ df_keys df' ≡ₚ df_keys df;
}.

Definition mode_str (m : EncryptMode) : str :=
  match m with EncryptSensitive => lit "encrypt_sensitive" | EncryptAll => lit "encrypt_all" end.
Definition band_str (b : BlockBandPolicy) : str :=
  match b with BandBlock => lit "block" | BandSeal => lit "seal" end.

Definition matcher_to_value (m : SyncedMatcher) : Json :=
  match m with
  | SyncedSerial s => JObj [(lit "serial", JStr s)]
  | SyncedVidPid v p => JObj [(lit "vid", JStr v); (lit "pid", JStr p)]
  end.
Definition dest_to_value (d : SyncedDestination) : Json :=
  JObj [(lit "channel", JStr (dest_channel d)); (lit "matcher", matcher_to_value (matcher d));
        (lit "mode", JStr (mode_str (dest_mode d))); (lit "keyId", JStr (dest_key_id d));
        (lit "onBlockBand", JStr (band_str (dest_on_block_band d)))].

(** The derived deserialisers on objects: a field by its name, unknown fields
    ignored.  (The positional array form serde also accepts is not modelled.) *)
Definition field (name : str) (v : Json) : option Json :=
  match v with
  | JObj fs => snd <$> List.find (fun f => bool_decide (f.1 = name)) fs
  | _ => None
  end.
Definition as_str (v : Json) : option str := match v with JStr s => Some s | _ => None end.
Definition mode_of_value (v : Json) : option EncryptMode :=
  s ← as_str v;
  if bool_decide (s = lit "encrypt_sensitive") then Some EncryptSensitive
  else if bool_decide (s = lit "encrypt_all") then Some EncryptAll else None.
Definition band_of_value (v : Json) : option BlockBandPolicy :=
  s ← as_str v;
  if bool_decide (s = lit "block") then Some BandBlock
  else if bool_decide (s = lit "seal") then Some BandSeal else None.
(** An untagged enum: the first variant that fits. *)
Definition matcher_of_value (v : Json) : option SyncedMatcher :=
  match s ← field (lit "serial") v; as_str s with
  | Some s => Some (SyncedSerial s)
  | None =>
      vid ← (v' ← field (lit "vid") v; as_str v');
      pid ← (p' ← field (lit "pid") v; as_str p');
      Some (SyncedVidPid vid pid)
  end.
Definition dest_of_value (v : Json) : option SyncedDestination :=
  channel ← (f ← field (lit "channel") v; as_str f);
  m ← (f ← field (lit "matcher") v; matcher_of_value f);
  mode ← (f ← field (lit "mode") v; mode_of_value f);
  key_id ← (f ← field (lit "keyId") v; as_str f);
  band ← match field (lit "onBlockBand") v with
         | Some f => band_of_value f
         | None => Some BandBlock
         end;
  Some {| dest_channel := channel; matcher := m; dest_mode := mode; dest_key_id := key_id;
          dest_on_block_band := band |}.
Definition dests_of_value (v : Json) : option (list SyncedDestination) :=
  match v with
  | JObj _ =>
      match field (lit "destinations") v with
      | None => Some []
      | Some (JArr l) => mapM dest_of_value l
      | Some _ => None
      end
  | _ => None
  end.

Section Persist.
Context {J : JsonEnv}.

Definition serialize_destinations (dests : list SyncedDestination) : bytes :=
  default ([123; 34] ++ lit "destinations" ++ [34; 58; 91; 93; 125])
    (json_to_vec (JObj [(lit "destinations", JArr (map dest_to_value dests))])).
Definition parse_destinations (bs : bytes) : option (list SyncedDestination) :=
  v ← json_from_slice bs;
  dests_of_value v.

Definition to_keyring_json (t : TrustedConfig) : option bytes :=
  doc ← keyring_doc t;
  keyfile_to_vec doc.
End Persist.

(** ** What the merge decides *)

Definition matcher_rule (m : SyncedMatcher) : RuleMatch :=
  match m with SyncedSerial s => Serial s | SyncedVidPid v p => VidPid v p end.
(** The first whitelisted destination that names the device. *)
Definition whitelisted (dests : list SyncedDestination) (dev : DeviceIdentity)
    : option SyncedDestination :=
  List.find (fun d => matches (matcher_rule (matcher d)) dev) (usb_dests dests).

Lemma to_usb_rule_device d a :
  to_device_rule (to_usb_rule d a) =
    Some {| match_on := matcher_rule (matcher d); action := a;
            note := Some (lit "synced trusted destination") |}.
Proof. unfold to_usb_rule. by destruct (matcher d). Qed.

Lemma find_synced_rules f ds rs dev def :
  let synced := map (fun d => to_usb_rule d (f d)) ds ++ rs in
  match List.find (fun d => matches (matcher_rule (matcher d)) dev) ds with
  | Some d =>
      (decide_rules (omap to_device_rule synced) def dev).1 = f d /\
      encrypt_params_rules synced dev =
        (dest_mode d, if str_is_empty (dest_key_id d) then None else Some (dest_key_id d),
         dest_on_block_band d)
  | None =>
      decide_rules (omap to_device_rule synced) def dev = decide_rules (omap to_device_rule rs) def dev /\
      encrypt_params_rules synced dev = encrypt_params_rules rs dev
  end.
Proof.
  cbv zeta. induction ds as [|d ds IH]; [done|].
  cbn [map app omap list_omap List.find encrypt_params_rules].
  rewrite to_usb_rule_device. cbn [decide_rules match_on].
  destruct (matches (matcher_rule (matcher d)) dev); [|exact IH].
  split; [done|]. unfold to_usb_rule. by destruct (matcher d).
Qed.

Lemma merge_rules u dests :
  usb_rules (merge_into_usb u dests) =
    map (fun d => to_usb_rule d (synced_action u d)) (usb_dests dests) ++ usb_rules u /\
  usb_default_action (merge_into_usb u dests) = usb_default_action u.
Proof. unfold merge_into_usb. by destruct (usb_dests dests). Qed.

Lemma merge_lookup u dests dev :
  match whitelisted dests dev with
  | Some d =>
      (decide (to_policy (merge_into_usb u dests)) dev).1 = synced_action u d /\
      encrypt_params (merge_into_usb u dests) dev =
        (dest_mode d, if str_is_empty (dest_key_id d) then None else Some (dest_key_id d),
         dest_on_block_band d)
  | None =>
      decide (to_policy (merge_into_usb u dests)) dev = decide (to_policy u) dev /\
      encrypt_params (merge_into_usb u dests) dev = encrypt_params u dev
  end.
Proof.
  destruct (merge_rules u dests) as [Hr Hd]. unfold whitelisted, decide, encrypt_params, to_policy.
  cbn [rules default_action]. rewrite Hr, Hd. apply find_synced_rules.
Qed.

(** A rule has one matcher: a serial excludes vendor and product ids. *)
Definition single_matcher (r : UsbRule) : Prop :=
  match_serial r = None \/ match_vid r = None \/ match_pid r = None.

Lemma opt_eq_trimmed_Some o s :
  opt_eq_trimmed o s = true -> exists x, o = Some x /\ to_ascii_lowercase (trim x) = to_ascii_lowercase (trim s).
Proof.
  destruct o as [x|]; [|done]. unfold opt_eq_trimmed, eq_ignore_ascii_case. cbn.
  intros H. bool_hyps. by exists x.
Qed.

Lemma same_device_matches m r dev :
  same_device m r = true -> single_matcher r -> matches (matcher_rule m) dev = true ->
  exists dr, to_device_rule r = Some dr /\ matches (match_on dr) dev = true.
Proof.
  destruct m as [s|v p]; cbn [same_device matcher_rule]; intros Hs Hsingle Hm.
  - apply opt_eq_trimmed_Some in Hs as (x & Hx & He). unfold to_device_rule. rewrite Hx. cbn.
    eexists. split; [done|]. cbn in *. unfold eq_ignore_ascii_case in *.
    apply andb_prop in Hm as [Hn Hm]. bool_hyps. rewrite He, Hm. apply andb_true_intro. split; [|by apply bool_decide_eq_true].
    apply negb_true_iff.
    destruct (trim x) as [|c x'] eqn:Hx'; [|done]. destruct (trim s); [done|discriminate He].
  - apply andb_prop in Hs as [Hv Hp]. apply opt_eq_trimmed_Some in Hv as (v' & Hv' & Hev).
    apply opt_eq_trimmed_Some in Hp as (p' & Hp' & Hep).
    assert (match_serial r = None) as Hnone
      by (destruct Hsingle as [?|[?|?]]; congruence).
    unfold to_device_rule. rewrite Hnone, Hv', Hp'. cbn. eexists. split; [done|]. cbn in *.
    unfold eq_ignore_ascii_case in *. by rewrite Hev, Hep.
Qed.

Lemma find_first {A} (f : A -> bool) before x after :
  f x = true -> exists y, List.find f (before ++ x :: after) = Some y /\ f y = true /\
    (y = x \/ y ∈ before).
Proof.
  intros Hx. induction before as [|z before IH]; cbn; [rewrite Hx; eauto|].
  destruct (f z) eqn:Hz; [exists z; set_solver|]. destruct IH as (y & H1 & H2 & H3).
  exists y. set_solver.
Qed.

(** C23: The console whitelist in force.  A device that a synced USB destination
    names gets [Encrypt], or the action of the operator's first rule for the
    same device when that is stricter, with the mode, key and block-band choice
    of that destination; every other device is decided exactly as before.  When
    the operator's rules have one matcher each and the rule that decided the
    device locally targets the same device as the destination, the merge never
    relaxes it; no destination means no change, and any USB destination turns
    the channel on. *)
Theorem merge_respects_local_rules u dests dev :
  match whitelisted dests dev with
  | Some d =>
      (decide (to_policy (merge_into_usb u dests)) dev).1 = synced_action u d /\
      restrictiveness Encrypt <= restrictiveness (synced_action u d) /\
      encrypt_params (merge_into_usb u dests) dev =
        (dest_mode d, if str_is_empty (dest_key_id d) then None else Some (dest_key_id d),
         dest_on_block_band d) /\
      usb_enabled (merge_into_usb u dests) = true /\
      (Forall single_matcher (usb_rules u) ->
       forall r dr, deciding_rule (usb_rules u) dev r dr -> same_device (matcher d) r = true ->
       restrictiveness (decide (to_policy u) dev).1 <=
         restrictiveness (decide (to_policy (merge_into_usb u dests)) dev).1)
  | None =>
      decide (to_policy (merge_into_usb u dests)) dev = decide (to_policy u) dev /\
      encrypt_params (merge_into_usb u dests) dev = encrypt_params u dev /\
      (usb_dests dests = [] -> merge_into_usb u dests = u)
  end.
Proof.
  pose proof (merge_lookup u dests dev) as Hm.
  destruct (whitelisted dests dev) as [d|] eqn:Hw.
  2:{ destruct Hm as [H1 H2]. do 2 (split; [done|]). unfold merge_into_usb. by intros ->. }
  destruct Hm as [Hd Hp]. split; [exact Hd|].
  assert (forall a, restrictiveness Encrypt <= restrictiveness (max_restrictive Encrypt a) /\
                    restrictiveness a <= restrictiveness (max_restrictive Encrypt a)) as Hmax
    by (intros []; cbn; lia).
  split.
  { unfold synced_action. destruct (local_action_for u (matcher d)); [apply Hmax|done]. }
  split; [exact Hp|].
  apply find_some in Hw as [Hin Hdm]. split.
  { unfold merge_into_usb. by destruct (usb_dests dests). }
  intros Hs r dr (b & a & Hrs & Hr & Hrm & Hb) Hsame. rewrite Hd.
  destruct (find_first (same_device (matcher d)) b r a Hsame) as (y & Hf & Hy & Hyb).
  assert (y = r) as ->.
  { destruct Hyb as [->|Hyb]; [done|]. rewrite Forall_forall in Hb, Hs.
    destruct (same_device_matches (matcher d) y dev Hy) as (dr' & Hr' & Hm'); [|done|].
    { apply Hs. rewrite Hrs. set_solver. }
    specialize (Hb y Hyb dr' Hr'). congruence. }
  destruct (deciding_rule_decide (usb_rules u) dev r dr (usb_default_action u)) as [Hdec _].
  { by exists b, a. }
  unfold decide, to_policy. cbn [rules default_action]. rewrite Hdec. cbn [fst].
  unfold synced_action, local_action_for. rewrite Hrs, Hf. apply Hmax.
Qed.

(** A local restriction expressed by another kind of matcher is not seen by the
    merge: a stick blocked by its bus type becomes an encrypting destination
    once its serial is whitelisted. *)
Definition stick : DeviceIdentity :=
  {| drive_letter := lit "E:"; vendor_id := lit "0951"; product_id := lit "1666"; serial := lit "S1";
     product_name := lit "stick"; bus_type := lit "usb"; removable := true |}.
Definition block_usb_bus : UsbConfig :=
  {| usb_enabled := true; poll_interval_secs := 2; usb_settle_ms := 1500; settle_timeout_secs := 30;
     max_file_bytes := 100; usb_default_action := ReadOnly; usb_channel_label := lit "usb";
     mtp_action := Block; tethering_action := Block;
     usb_rules := [{| match_serial := None; match_vid := None; match_pid := None;
       match_bus_type := Some (lit "usb"); match_any := false; rule_usb_action := Block;
       rule_usb_note := None; rule_mode := None; rule_key_id := None; on_block_band := BandBlock |}] |}.
Definition trust_s1 : SyncedDestination :=
  {| dest_channel := lit "usb"; matcher := SyncedSerial (lit " s1 "); dest_mode := EncryptAll;
     dest_key_id := []; dest_on_block_band := BandSeal |}.
Lemma whitelist_relaxes_other_matcher :
  (decide (to_policy block_usb_bus) stick).1 = Block /\
  (decide (to_policy (merge_into_usb block_usb_bus [trust_s1])) stick).1 = Encrypt /\
  encrypt_params (merge_into_usb block_usb_bus [trust_s1]) stick = (EncryptAll, None, BandSeal).
Proof. vm_compute. auto. Qed.

(** ** The synced keyring *)

Section SyncedKeyring.
Context {E : CryptoEnv} {J : JsonEnv} {L : JsonLaws J E}.

Lemma load_keys_spec ks (ring : Keyring) :
  (forall id b64, (id, b64) ∈ ks -> exists raw, base64_decode b64 = Some raw /\ length raw = 32%nat) ->
  NoDup ks.*1 -> destroyed ring = ∅ ->
  exists ring', load_keys ring ks = Ok ring' /\ destroyed ring' = ∅ /\
    active_key_id ring' = active_key_id ring /\
    forall id, keys ring' !! id =
      match (list_to_map ks : gmap str str) !! id with
      | Some b64 => (fun raw => {| kek_id := id; kek_bytes := raw |}) <$> base64_decode b64
      | None => keys ring !! id
      end.
Proof.
  revert ring. induction ks as [|[id b64] ks IH]; intros ring Hok Hnd Hd; cbn [load_keys].
  { exists ring. repeat (split; [done|]). intros id. cbn. by rewrite lookup_empty. }
  destruct (Hok id b64) as (raw & Hraw & Hlen); [set_solver|]. rewrite Hraw. cbn [ok_or mbind result_bind].
  rewrite bool_decide_eq_true_2 by done. cbn [negb]. apply NoDup_cons in Hnd as [Hni Hnd].
  set (kk := {| kek_id := id; kek_bytes := raw |}).
  assert (insert kk ring = {| keys := <[id := kk]> (keys ring); destroyed := destroyed ring;
      active_key_id := active_key_id ring |}) as ->
    by (unfold insert; rewrite bool_decide_eq_false_2 by (rewrite Hd; set_solver); done).
  destruct (IH {| keys := <[id := kk]> (keys ring); destroyed := destroyed ring;
      active_key_id := active_key_id ring |}) as (ring' & H1 & H2 & H3 & H4);
    [intros; apply (Hok id0 b0); set_solver|done|done|].
  exists ring'. split; [exact H1|]. split; [done|]. split; [done|]. intros id'. rewrite H4. cbn [keys list_to_map foldr fst snd].
  destruct (list_eq_dec id' id) as [->|Hne].
  - rewrite lookup_insert_eq. rewrite (not_elem_of_list_to_map_1 ks id) by done.
    by rewrite lookup_insert_eq, Hraw.
  - rewrite !lookup_insert_ne by done. done.
Qed.

(** What is entered is the text of one of the keys. *)
Lemma keyring_entries_raw t id b64 :
  keyring_entries t !! id = Some b64 -> exists k, k ∈ synced_keys t /\ key_b64 k = b64.
Proof.
  unfold keyring_entries.
  enough (forall ks (m0 : gmap str str),
    foldl (fun (m : gmap str str) k => <[synced_id k := key_b64 k]> m) m0 ks !! id = Some b64 ->
    m0 !! id = Some b64 \/ exists k, k ∈ ks /\ key_b64 k = b64) as H.
  { intros Hid. destruct (H _ _ Hid) as [He|?]; [by rewrite lookup_empty in He|done]. }
  clear. induction ks as [|k ks IH]; cbn; intros m0 H; [by left|].
  apply IH in H as [H|(k' & ? & ?)]; [|right; exists k'; set_solver].
  destruct (list_eq_dec (synced_id k) id) as [<-|Hne].
  - rewrite lookup_insert_eq in H. injection H as <-. right. exists k. set_solver.
  - rewrite lookup_insert_ne in H by done. by left.
Qed.

Lemma keyring_entries_ids t id :
  is_Some (keyring_entries t !! id) <-> exists k, k ∈ synced_keys t /\ synced_id k = id.
Proof.
  unfold keyring_entries.
  enough (forall ks m, is_Some (foldl (fun (m : gmap str str) k => <[synced_id k := key_b64 k]> m) m ks !! id) <->
    is_Some (m !! id) \/ exists k, k ∈ ks /\ synced_id k = id) as H.
  { rewrite H. rewrite lookup_empty. split; [intros [[? [=]]|]; done|by right]. }
  clear. induction ks as [|k ks IH]; intros m; cbn.
  { split; [by left|]. intros [?|(k & Hk & _)]; [done|by apply not_elem_of_nil in Hk]. }
  rewrite IH, lookup_insert_is_Some'. setoid_rewrite elem_of_cons. naive_solver.
Qed.

Lemma active_key_held t id :
  synced_active_key_id t = Some id -> is_Some (keyring_entries t !! id).
Proof.
  unfold synced_active_key_id. intros H. apply keyring_entries_ids.
  destruct (List.find _ (synced_keys t)) as [k|] eqn:Hf.
  - injection H as <-. apply find_some in Hf as [Hin _]. exists k. split; [by apply list_elem_of_In|done].
  - destruct (synced_keys t) as [|k ks]; [done|]. injection H as <-. exists k. set_solver.
Qed.

(** The synced keyring is usable as delivered.  When every delivered key is the
    base64 of 32 bytes, the sealed document loads: each id holds its last
    delivered key, no id is destroyed, any other id is unknown, and the active
    key is a held one, taken from the whitelist when a destination names any
    delivered key. *)
Theorem synced_keyring_loads t bs :
  to_keyring_json t = Some bs ->
  (forall k, k ∈ synced_keys t -> exists raw, base64_decode (key_b64 k) = Some raw /\ length raw = 32%nat) ->
  exists ring, from_dev_json bs = Ok ring /\ (exists kek, active ring = Ok kek) /\
    (forall id, lookup_key ring id =
      match keyring_entries t !! id with
      | Some b64 => ok_or ((fun raw => {| kek_id := id; kek_bytes := raw |}) <$> base64_decode b64)
                      (UnknownKeyId id)
      | None => Err (UnknownKeyId id)
      end) /\
    synced_active_key_id t = Some (active_key_id ring) /\
    ((exists k d, k ∈ synced_keys t /\ d ∈ destinations t /\ dest_key_id d = synced_id k) ->
     exists d, d ∈ destinations t /\ dest_key_id d = active_key_id ring).
Proof.
  unfold to_keyring_json, keyring_doc. intros (doc & (act & Hact & [= <-])%bind_Some & Hbs)%bind_Some Hok.
  apply keyfile_roundtrip in Hbs as (df & Hdf & Ha & Hd & Hk). cbn [df_active_key_id df_keys df_destroyed] in *.
  set (m := keyring_entries t) in *.
  assert (forall id b64, m !! id = Some b64 -> exists k, k ∈ synced_keys t /\ key_b64 k = b64) as Hm
    by (intros id b64; apply keyring_entries_raw).
  assert (NoDup (df_keys df).*1) as Hnd by (rewrite Hk; apply NoDup_fst_map_to_list).
  assert ((list_to_map (df_keys df) : gmap str str) = m) as Hlm.
  { rewrite (list_to_map_proper _ _ Hnd Hk). apply list_to_map_to_list. }
  destruct (load_keys_spec (df_keys df) {| keys := ∅; destroyed := list_to_set (df_destroyed df);
    active_key_id := df_active_key_id df |}) as (ring & H1 & H2 & H3 & H4).
  { intros id b64 Hin. rewrite Hk in Hin. apply elem_of_map_to_list in Hin.
    apply Hm in Hin as (k & Hk' & <-). by apply Hok. }
  { done. }
  { cbn. by rewrite Hd. }
  cbn [keys active_key_id destroyed] in *. rewrite Hlm in H4.
  assert (forall id, lookup_key ring id =
      match m !! id with
      | Some b64 => ok_or ((fun raw => {| kek_id := id; kek_bytes := raw |}) <$> base64_decode b64)
                      (UnknownKeyId id)
      | None => Err (UnknownKeyId id)
      end) as Hlook.
  { intros id. unfold lookup_key. rewrite bool_decide_eq_false_2 by (rewrite H2; set_solver).
    rewrite H4. destruct (m !! id); [done|]. by rewrite lookup_empty. }
  assert (exists kek, lookup_key ring act = Ok kek) as [kek Hkek].
  { rewrite Hlook. apply active_key_held in Hact as [b64 Hb]. fold m in Hb. rewrite Hb.
    apply Hm in Hb as (k & Hk' & <-). destruct (Hok k Hk') as (raw & -> & _). by eexists. }
  exists ring. split.
  { unfold from_dev_json. rewrite Hdf. cbn [map_err mbind result_bind Keyring_new keys active_key_id].
    rewrite H1. cbn [mbind result_bind]. by rewrite Ha, Hkek. }
  split; [exists kek; unfold active; by rewrite H3, Ha|]. split; [done|]. split; [by rewrite H3, Ha|].
  intros (k & d & Hk' & Hd' & He). rewrite H3, Ha. unfold synced_active_key_id in Hact.
  destruct (List.find _ (synced_keys t)) as [k0|] eqn:Hf.
  - injection Hact as <-. apply find_some in Hf as [_ Hx]. apply existsb_exists in Hx as (d0 & Hin & Hx).
    bool_hyps. exists d0. split; [by apply list_elem_of_In|done].
  - exfalso. apply list_elem_of_In in Hk'. eapply find_none in Hf; [|exact Hk'].
    rewrite <- not_true_iff_false in Hf. apply Hf, existsb_exists. exists d.
    split; [by apply list_elem_of_In|by apply bool_decide_eq_true].
Qed.
End SyncedKeyring.

Definition toy_synced : TrustedConfig :=
  {| destinations := [trust_s1];
     synced_keys := [{| synced_id := lit "k"; key_b64 := repeat 5 32 |}] |}.
(** Writes the one keyring document of [toy_synced]. *)
Definition toy_json : JsonEnv :=
  {| json_to_vec := fun _ => None; json_from_slice := fun _ => None;
     keyfile_to_vec := fun df => if bool_decide (keyring_doc toy_synced = Some df) then Some [5; 0] else None |}.
#[local] Instance toy_json_laws : JsonLaws toy_json toy_crypto.
Proof.
  split; [done|]. intros df bs. cbn [keyfile_to_vec toy_json]. case_bool_decide as H; [|done].
  intros [= <-]. exists df. split; [|done].
  assert (keyring_doc toy_synced = Some {| df_active_key_id := lit "k";
    df_keys := [(lit "k", repeat 5 32)]; df_destroyed := [] |}) as H' by (vm_compute; reflexivity).
  rewrite H' in H. injection H as <-. reflexivity.
Qed.

Lemma synced_keyring_loads_witness :
  to_keyring_json (J := toy_json) toy_synced = Some [5; 0] /\
  exists ring, from_dev_json (E := toy_crypto) [5; 0] = Ok ring /\
    lookup_key ring (lit "k") = Ok {| kek_id := lit "k"; kek_bytes := repeat 5 32 |}.
Proof.
  assert (to_keyring_json (J := toy_json) toy_synced = Some [5; 0]) as H by (vm_compute; reflexivity).
  split; [exact H|].
  destruct (synced_keyring_loads (E := toy_crypto) (J := toy_json) toy_synced [5; 0] H) as
    (ring & H1 & _ & H2 & _).
  - intros k Hk. apply list_elem_of_singleton in Hk as ->. exists (repeat 5 32). split; reflexivity.
  - exists ring. split; [exact H1|]. rewrite H2. vm_compute. reflexivity.
Defined.

(** ** Destinations read back *)

Lemma dest_roundtrip d : dest_of_value (dest_to_value d) = Some d.
Proof. destruct d as [c [s|v p] [] k []]; vm_compute; reflexivity. Qed.

(** The persisted destinations read back as they were written. *)
Theorem destinations_roundtrip {J : JsonEnv} {E : CryptoEnv} {L : JsonLaws J E} dests :
  json_to_vec (JObj [(lit "destinations", JArr (map dest_to_value dests))]) <> None ->
  parse_destinations (serialize_destinations dests) = Some dests.
Proof.
  intros Hs. unfold parse_destinations, serialize_destinations.
  destruct (json_to_vec _) as [bs|] eqn:Hb; [|done]. cbn [from_option id].
  rewrite (json_roundtrip _ _ Hb). cbn [mbind option_bind]. unfold dests_of_value.
  assert (field (lit "destinations") (JObj [(lit "destinations", JArr (map dest_to_value dests))]) =
    Some (JArr (map dest_to_value dests))) as -> by reflexivity.
  clear. induction dests as [|d dests IH]; [done|]. cbn [map mapM].
  rewrite dest_roundtrip. cbn [mbind option_bind]. by rewrite IH.
Qed.
