(* ===== verification/UsbMonitor.v ===== *)
(** The USB monitor loop ([src/usb/mod.rs]): arrivals and removals, the
    disposition of each volume, enforcement, auditing and sealing, one poll at a
    time.  The volume list, the volumes' contents, the clock, the verdict and the
    sealer are inputs of a poll; reports are its output, in order. *)

From S2P Require Import Prelude Words Text F64 Unicode Fingerprint Bundle Edm Extract Verdict.
From S2P Require Import TrustDest Device UsbPolicy Enforce Watch Supervise Crypto CopyAudit.
From S2P Require Import RemoteTools NetRules Config TrustSync.
#[local] Open Scope Z_scope.

Definition SCAN_WORKERS : nat := 4.

Record EncryptVolume := {
  ev_mode : EncryptMode;
  ev_key_id : str;
  ev_on_block_band : BlockBandPolicy;
}.

Record VolumeAuditor := {
  va_device : DeviceIdentity;
  va_action : Action;
  va_auditor : CopyAuditor;
  va_encrypt : option EncryptVolume;
}.

Record Monitor := {
  watcher : VolumeWatcher;
  auditors : gmap str VolumeAuditor;
}.
Definition monitor_start : Monitor := {| watcher := VolumeWatcher_new; auditors := ∅ |}.

(** The CA that bundle signatures are verified with: the one pinned at enrollment
    ([identity_ca], [None] when the identity cannot be read), else the provisioned
    file. *)
Definition resolve_ca (has_identity : bool) (identity_ca ca_file : option bytes) : option bytes :=
  if has_identity then identity_ca else ca_file.
Definition load_verified_bundle {B : BundleEnv} (has_identity : bool)
    (identity_ca ca_file index_bundle : option bytes) : option Bundle :=
  ca_pem ← resolve_ca has_identity identity_ca ca_file;
  bs ← index_bundle;
  res_ok (load bs ca_pem).

Section Monitor.
Context {W : WinApi}.
(** [detect::verdict] with the cached bundle, and the injected sealer. *)
Context (verdict_src : Bundle -> Path -> result str Verdict).
Context (sealer : Path -> str -> result str SealOutcome).

Definition enforcement_failed (act : Action) (dev : DeviceIdentity) (e : str) : UsbIncident :=
  {| kind := EnforcementFailed; channel := lit "usb"; inc_file_name := []; inc_file_sha256 := [];
     inc_verdict := None; device := dev; action_taken := action_taken_of act;
     inc_note := Some (lit "enforcement-failed: " ++ e); inc_key_id := None; sealed_sha256 := None |}.

Definition apply_enforcement (act : Action) (dev : DeviceIdentity) (mode : Mode) (s : System)
    : list UsbIncident * System :=
  let '(r, s) := apply_plan (plan act dev) mode s in
  (match r with Ok _ => [] | Err e => [enforcement_failed act dev e] end, s).

(** The action for an arriving device: never below the default without a
    bundle. *)
Definition disposition (cfg : Config) (bundle : option Bundle) (dev : DeviceIdentity) : Action :=
  let policy := to_policy (usb cfg) in
  let '(act, _) := decide policy dev in
  match bundle with
  | None => max_restrictive act (default_action policy)
  | Some _ => act
  end.

(** What a volume is audited with; [tree] is its content at arrival. *)
Definition volume_auditor (cfg : Config) (act : Action) (dev : DeviceIdentity) (tree : Node)
    : VolumeAuditor :=
  let encrypt :=
    if bool_decide (act = Encrypt) then
      let '(mode, key_id, band) := encrypt_params (usb cfg) dev in
      Some {| ev_mode := mode; ev_key_id := default (default_key_id (crypto cfg)) key_id;
              ev_on_block_band := band |}
    else None in
  let auditor := CopyAuditor_new [drive_letter dev] (usb_settle_ms (usb cfg))
                   (saturating_mul (settle_timeout_secs (usb cfg)) 1000) in
  let auditor := match encrypt with
                 | Some _ => (baseline_existing tree auditor).2
                 | None => auditor
                 end in
  {| va_device := dev; va_action := act; va_auditor := auditor; va_encrypt := encrypt |}.

(** Auditors, system state and reports. *)
Definition PollState : Type := gmap str VolumeAuditor * System * list UsbIncident.

Definition on_event (cfg : Config) (enforce : bool) (bundle : option Bundle) (tree : str -> Node)
    (st : PollState) (event : VolumeEvent) : PollState :=
  let '(auditors, sys, out) := st in
  match event with
  | Arrived dev =>
      let act := disposition cfg bundle dev in
      let '(incs, sys) :=
        if enforce && usb_enabled (usb cfg)
        then apply_enforcement act dev (if enforce then Live else DryRun) sys
        else ([], sys) in
      let auditors :=
        if bool_decide (act = Block) then auditors
        else <[drive_letter dev := volume_auditor cfg act dev (tree (drive_letter dev))]> auditors in
      (auditors, sys, out ++ incs)
  | Removed letter => (delete letter auditors, sys, out)
  end.

(** The incidents of the files that settled on one volume.  The worker pool
    delivers those of a plain volume in some order ([scan_batch_complete]);
    here it is the order of one worker. *)
Definition audit_settled (cfg : Config) (bundle : option Bundle) (va : VolumeAuditor)
    (settled : list Settled) : list UsbIncident :=
  match va_encrypt va with
  | Some ev =>
      let src := match bundle with
                 | Some b => verdict_src b
                 | None => fun _ => Err (lit "no verified bundle cached")
                 end in
      omap (fun s =>
        scan_and_seal_to_incident s (max_file_bytes (usb cfg)) src (va_device va)
          (usb_channel_label (usb cfg)) (ev_mode ev) (encrypt_bands cfg) (ev_on_block_band ev)
          (ev_key_id ev) sealer) settled
  | None =>
      match bundle with
      | Some b =>
          omap (fun s =>
            scan_to_incident s (max_file_bytes (usb cfg)) (verdict_src b) (va_device va)
              (action_taken_of (va_action va)) (usb_channel_label (usb cfg))) settled
      | None => []
      end
  end.

Definition audit_volume (cfg : Config) (bundle : option Bundle) (now_ms : Z) (tree : Node)
    (opens : Path -> bool) (va : VolumeAuditor) : VolumeAuditor * list UsbIncident :=
  let '(auditor, settled) := poll now_ms tree opens (va_auditor va) in
  ({| va_device := va_device va; va_action := va_action va; va_auditor := auditor;
      va_encrypt := va_encrypt va |},
   audit_settled cfg bundle va settled).

(** What one poll finds: the removable volumes, their contents and what can be
    opened, at a time of the monotonic clock. *)
Record PollInput := {
  (** the monitor's own clock when the poll begins *)
  in_now_ms : Z;
  (** the clock of the health signal when it ends *)
  in_alive_ms : Z;
  in_volumes : list DeviceIdentity;
  in_tree : str -> Node;
  in_opens : Path -> bool;
}.

(** One iteration of [run_monitor]'s loop. *)
Definition monitor_poll (cfg : Config) (enforce : bool) (bundle : option Bundle) (inp : PollInput)
    (m : Monitor) (sys : System) (health : SealerHealth)
    : Monitor * System * list UsbIncident * SealerHealth :=
  let '(events, watcher) := watcher_poll (watcher m) (in_volumes inp) in
  let '(auditors, sys, out) :=
    foldl (on_event cfg enforce bundle (in_tree inp)) (auditors m, sys, []) events in
  let polled := map_imap (fun letter va =>
    Some (audit_volume cfg bundle (in_now_ms inp) (in_tree inp letter) (in_opens inp) va)) auditors in
  (** every volume's auditor advances; the reports follow the map's order *)
  let auditors := fst <$> polled in
  let out := out ++ concat (map (fun p => p.2.2) (map_to_list polled)) in
  ({| watcher := watcher; auditors := auditors |}, sys, out, mark_alive (in_alive_ms inp) health).

(** ** Which volumes are watched, and how *)

(** Everything about a watched volume but the auditor's own state. *)
Definition watched (va : VolumeAuditor) : DeviceIdentity * Action * option EncryptVolume :=
  (va_device va, va_action va, va_encrypt va).

Definition expected_watch (cfg : Config) (bundle : option Bundle) (dev : DeviceIdentity)
    : option (DeviceIdentity * Action * option EncryptVolume) :=
  let act := disposition cfg bundle dev in
  if bool_decide (act = Block) then None
  else
    Some (dev, act,
      if bool_decide (act = Encrypt) then
        let '(mode, key_id, band) := encrypt_params (usb cfg) dev in
        Some {| ev_mode := mode; ev_key_id := default (default_key_id (crypto cfg)) key_id;
                ev_on_block_band := band |}
      else None).

Lemma watched_volume_auditor cfg bundle dev tree :
  expected_watch cfg bundle dev =
    if bool_decide (disposition cfg bundle dev = Block) then None
    else Some (watched (volume_auditor cfg (disposition cfg bundle dev) dev tree)).
Proof.
  unfold expected_watch, volume_auditor, watched. case_bool_decide; [done|].
  case_bool_decide; [|done]. by destruct (encrypt_params (usb cfg) dev) as [[? ?] ?].
Qed.

Lemma on_removed cfg enforce bundle tree ps st letter :
  let st' := foldl (on_event cfg enforce bundle tree) st (map (fun p => Removed (drive_letter p)) ps) in
  st'.1.1 !! letter = (if bool_decide (letter ∈ map drive_letter ps) then None else st.1.1 !! letter) /\
  st'.1.2 = st.1.2.
Proof.
  revert st. induction ps as [|p ps IH]; intros [[a s] out]; cbv zeta; cbn [map foldl].
  - by rewrite bool_decide_eq_false_2 by by apply not_elem_of_nil.
  - destruct (IH (on_event cfg enforce bundle tree (a, s, out) (Removed (drive_letter p)))) as [-> ->].
    cbn [on_event fst snd]. split; [|done].
    destruct (bool_decide (letter ∈ map drive_letter ps)) eqn:Hin; bool_hyps.
    + by rewrite bool_decide_eq_true_2 by by right.
    + destruct (list_eq_dec (drive_letter p) letter) as [<-|Hne].
      * rewrite lookup_delete_eq, bool_decide_eq_true_2; [done|by left].
      * rewrite lookup_delete_ne, bool_decide_eq_false_2; [done| |done].
        intros [?|?]%elem_of_cons; [congruence|done].
Qed.

Lemma on_arrived cfg enforce bundle tree cs st letter :
  NoDup (map drive_letter cs) ->
  watched <$> ((foldl (on_event cfg enforce bundle tree) st (map Arrived cs)).1.1 !! letter) =
    match volumes cs !! letter with
    | Some c => match expected_watch cfg bundle c with
                | Some x => Some x
                | None => watched <$> (st.1.1 !! letter)
                end
    | None => watched <$> (st.1.1 !! letter)
    end.
Proof.
  revert st. induction cs as [|c cs IH]; intros [[a s] out] Hnd; cbn [map foldl]; [done|].
  cbn [map] in Hnd. apply NoDup_cons in Hnd as [Hni Hnd]. rewrite IH by done.
  assert (forall l, watched <$> ((on_event cfg enforce bundle tree (a, s, out) (Arrived c)).1.1 !! l) =
    if bool_decide (l = drive_letter c) then
      match expected_watch cfg bundle c with Some x => Some x | None => watched <$> (a !! l) end
    else watched <$> (a !! l)) as Hev.
  { intros l. rewrite (watched_volume_auditor cfg bundle c (tree (drive_letter c))).
    unfold on_event. destruct (if enforce && _ then _ else _) as [incs s']. cbn [fst snd].
    destruct (bool_decide (disposition cfg bundle c = Block)).
    - by case_bool_decide.
    - case_bool_decide as Hl; [subst l; by rewrite lookup_insert_eq|by rewrite lookup_insert_ne]. }
  rewrite Hev. unfold volumes. cbn [map list_to_map foldr fst snd]. fold (volumes cs).
  destruct (list_eq_dec letter (drive_letter c)) as [->|Hne].
  - rewrite lookup_insert_eq, bool_decide_eq_true_2 by done.
    destruct (volumes cs !! drive_letter c) as [d|] eqn:Hd; [|done].
    exfalso. apply volumes_Some in Hd as [Hin Hl]. apply Hni, list_elem_of_fmap. by exists d.
  - rewrite lookup_insert_ne by done. by rewrite bool_decide_eq_false_2.
Qed.

Lemma on_event_system cfg enforce bundle tree events st :
  enforce && usb_enabled (usb cfg) = false ->
  (foldl (on_event cfg enforce bundle tree) st events).1.2 = st.1.2 /\
  (foldl (on_event cfg enforce bundle tree) st events).2 = st.2.
Proof.
  intros He. revert st. induction events as [|ev events IH]; intros [[a s] out]; cbn [foldl]; [done|].
  destruct (IH (on_event cfg enforce bundle tree (a, s, out) ev)) as [-> ->].
  destruct ev as [dev|letter]; cbn [on_event]; rewrite ?He; cbn [fst snd]; by rewrite ?app_nil_r.
Qed.

(** What a poll does to one letter: a volume that stays keeps the way it is
    watched, and one that came is watched as the configuration of this poll says. *)
Lemma monitor_poll_letter cfg enforce bundle inp m sys health letter :
  snapshot_wf (last_snapshot (watcher m)) -> snapshot_wf (in_volumes inp) ->
  let prev := volumes (last_snapshot (watcher m)) !! letter in
  let curr := volumes (in_volumes inp) !! letter in
  (prev = None -> auditors m !! letter = None) ->
  let '(m', sys', out, health') := monitor_poll cfg enforce bundle inp m sys health in
  last_snapshot (watcher m') = in_volumes inp /\
  watched <$> (auditors m' !! letter) =
    (if bool_decide (prev = curr) then watched <$> (auditors m !! letter) else curr ≫= expected_watch cfg bundle) /\
  (enforce && usb_enabled (usb cfg) = false -> sys' = sys) /\
  health' = mark_alive (in_alive_ms inp) health.
Proof.
  intros Hwf Hin prev curr Hnone. unfold monitor_poll, watcher_poll.
  destruct (foldl (on_event cfg enforce bundle (in_tree inp)) (auditors m, sys, []) _)
    as [[aud sys'] out] eqn:Hf.
  split; [done|]. split; [|split; [|done]].
  2:{ intros He. pose proof (on_event_system cfg enforce bundle (in_tree inp)
        (diff_volumes (last_snapshot (watcher m)) (in_volumes inp)) (auditors m, sys, []) He) as [H _].
      by rewrite Hf in H. }
  cbn [watcher auditors last_snapshot]. rewrite lookup_fmap, map_lookup_imap.
  transitivity (watched <$> (aud !! letter)).
  { destruct (aud !! letter) as [va|]; cbn; [|done]. unfold audit_volume. by destruct (poll _ _ _ _). }
  replace aud with (foldl (on_event cfg enforce bundle (in_tree inp)) (auditors m, sys, [])
    (diff_volumes (last_snapshot (watcher m)) (in_volumes inp))).1.1 by by rewrite Hf.
  rewrite diff_volumes_filter, foldl_app by done.
  rewrite on_arrived by by apply snapshot_wf_filter.
  rewrite arrived_letter by done.
  destruct (on_removed cfg enforce bundle (in_tree inp)
    (filter (fun p => p ∉ in_volumes inp) (last_snapshot (watcher m))) (auditors m, sys, []) letter) as [-> _].
  cbn [fst snd]. fold prev curr.
  pose proof (removed_letter (last_snapshot (watcher m)) (in_volumes inp) letter Hwf Hin) as Hr. fold prev curr in Hr.
  assert (bool_decide (letter ∈ map drive_letter (filter (fun p => p ∉ in_volumes inp) (last_snapshot (watcher m)))) =
    match prev with Some p => negb (bool_decide (curr = Some p)) | None => false end) as ->.
  { clear -Hr. case_bool_decide as Hd.
    - apply Hr in Hd as (p & -> & Hne). by rewrite bool_decide_eq_false_2.
    - destruct prev as [p|]; [|done]. case_bool_decide as He; [done|]. exfalso. apply Hd, Hr. by exists p. }
  clear Hr Hf. destruct curr as [c|], prev as [p|]; cbn [mbind option_bind].
  - destruct (base.decide (p = c)) as [->|Hne]; [by rewrite !bool_decide_eq_true_2|].
    rewrite !bool_decide_eq_false_2 by congruence. by destruct (expected_watch cfg bundle c).
  - rewrite Hnone, !bool_decide_eq_false_2 by done. by destruct (expected_watch cfg bundle c).
  - by rewrite !bool_decide_eq_false_2.
  - by rewrite bool_decide_eq_true_2.
Qed.

(** What one turn of the loop finds: the stop flag, the shared configuration and
    the poll. *)
Record MonitorTurn := { mt_stop : bool; mt_config : RwLock Config; mt_input : PollInput }.
Definition turn_config (t : MonitorTurn) : Config := snapshot_config (mt_config t).

(** The loop: its polls in order until the stop flag is seen, with everything
    reported. *)
Fixpoint run_monitor (enforce : bool) (bundle : option Bundle) (turns : list MonitorTurn)
    (m : Monitor) (sys : System) (health : SealerHealth)
    : Monitor * System * list UsbIncident * SealerHealth :=
  match turns with
  | [] => (m, sys, [], health)
  | t :: turns' =>
      if mt_stop t then (m, sys, [], health)
      else
        let '(m, sys, out, health) := monitor_poll (turn_config t) enforce bundle (mt_input t) m sys health in
        let '(m, sys, outs, health) := run_monitor enforce bundle turns' m sys health in
        (m, sys, out ++ outs, health)
  end.

(** ** The history of the mounts *)

Definition mounted (t : MonitorTurn) (letter : str) : option DeviceIdentity :=
  volumes (in_volumes (mt_input t)) !! letter.
(** The device under a letter and the configuration of the poll that saw it
    arrive; [hist] has the latest poll first. *)
Fixpoint arrived (hist : list MonitorTurn) (letter : str) : option (Config * DeviceIdentity) :=
  match hist with
  | [] => None
  | t :: hist' =>
      dev ← mounted t letter;
      match arrived hist' letter with
      | Some (cfg, dev') => if bool_decide (dev' = dev) then Some (cfg, dev) else Some (turn_config t, dev)
      | None => Some (turn_config t, dev)
      end
  end.
Definition watch_of (bundle : option Bundle) (hist : list MonitorTurn) (letter : str)
    : option (DeviceIdentity * Action * option EncryptVolume) :=
  '(cfg, dev) ← arrived hist letter; expected_watch cfg bundle dev.

Lemma arrived_mounted hist letter :
  snd <$> arrived hist letter = head hist ≫= fun t => mounted t letter.
Proof.
  destruct hist as [|t hist]; [done|]. cbn. destruct (mounted t letter) as [d|]; [|done]. cbn.
  destruct (arrived hist letter) as [[c d']|]; [|done]. by case_bool_decide as H.
Qed.
Lemma arrived_constant cfg hist letter :
  Forall (fun t => turn_config t = cfg) hist ->
  arrived hist letter = (fun d => (cfg, d)) <$> (head hist ≫= fun t => mounted t letter).
Proof.
  induction 1 as [|t hist Ht Hh IH]; [done|]. cbn. destruct (mounted t letter) as [d|]; [|done]. cbn. rewrite Ht, IH.
  destruct (head hist ≫= _) as [d'|]; cbn; [|done]. by case_bool_decide.
Qed.

(** The invariant between polls. *)
Definition watches (bundle : option Bundle) (hist : list MonitorTurn) (m : Monitor) : Prop :=
  snapshot_wf (last_snapshot (watcher m)) /\
  (forall letter, volumes (last_snapshot (watcher m)) !! letter = head hist ≫= fun t => mounted t letter) /\
  forall letter, watched <$> (auditors m !! letter) = watch_of bundle hist letter.

Lemma monitor_poll_watches enforce bundle hist t m sys health :
  watches bundle hist m -> snapshot_wf (in_volumes (mt_input t)) ->
  let '(m', sys', out, health') := monitor_poll (turn_config t) enforce bundle (mt_input t) m sys health in
  watches bundle (t :: hist) m' /\
  (enforce && usb_enabled (usb (turn_config t)) = false -> sys' = sys) /\
  health' = mark_alive (in_alive_ms (mt_input t)) health.
Proof.
  intros (Hwf & Hlast & Hw) Hin.
  assert (forall letter, volumes (last_snapshot (watcher m)) !! letter = None -> auditors m !! letter = None) as Hnone.
  { intros letter Hl. rewrite Hlast, <- arrived_mounted in Hl. specialize (Hw letter). unfold watch_of in Hw.
    destruct (arrived hist letter); [done|]. by destruct (auditors m !! letter). }
  pose proof (fun letter => monitor_poll_letter (turn_config t) enforce bundle (mt_input t) m sys health letter
    Hwf Hin (Hnone letter)) as H.
  destruct (monitor_poll _ _ _ _ _ _ _) as [[[m' sys'] out] health'].
  destruct (H []) as (Hs & _ & Hsys & Hh). split; [|done]. split; [by rewrite Hs|].
  split; [intros letter; by rewrite Hs|]. intros letter. destruct (H letter) as (_ & -> & _).
  rewrite Hw, Hlast, <- arrived_mounted. fold (mounted t letter). unfold watch_of. cbn [arrived].
  destruct (mounted t letter) as [d|], (arrived hist letter) as [[c d']|]; cbn;
    repeat case_bool_decide; by simplify_eq.
Qed.

Lemma run_monitor_watches enforce bundle turns hist m sys health :
  Forall (fun t => snapshot_wf (in_volumes (mt_input t))) turns -> watches bundle hist m ->
  let '(m', sys', out, health') := run_monitor enforce bundle turns m sys health in
  let polls := take_while (fun t => negb (mt_stop t)) turns in
  watches bundle (rev polls ++ hist) m' /\
  (Forall (fun t => enforce && usb_enabled (usb (turn_config t)) = false) polls -> sys' = sys) /\
  health' = match last polls with Some t => mark_alive (in_alive_ms (mt_input t)) health | None => health end.
Proof.
  revert hist m sys health. induction turns as [|t turns IH]; intros hist m sys health Hall Hm;
    cbn [run_monitor take_while]; [done|].
  apply Forall_cons in Hall as [Hi Hall]. destruct (mt_stop t); cbn [negb]; [done|].
  pose proof (monitor_poll_watches enforce bundle hist t m sys health Hm Hi) as H.
  destruct (monitor_poll _ _ _ _ _ _ _) as [[[m1 s1] o1] h1]. destruct H as (H1 & H2 & H3).
  specialize (IH (t :: hist) m1 s1 h1 Hall H1).
  destruct (run_monitor enforce bundle turns m1 s1 h1) as [[[m2 s2] o2] h2]. cbv zeta in *.
  destruct IH as (I1 & I2 & I3). split; [cbn [rev]; by rewrite <- app_assoc|]. split.
  - intros [He1 He2]%Forall_cons. by rewrite I2, H2.
  - rewrite I3, H3, last_cons. by destruct (last (take_while _ turns)).
Qed.

(** C26: After any number of polls under a configuration that may be replaced between
    them, whatever sticks came, went or were swapped under a letter, exactly the
    mounted volumes whose disposition at their arrival is not [Block] are
    watched, each with its own identity, that disposition and, exactly when it is
    [Encrypt], the sealing parameters its rule had then: a volume's treatment is
    fixed when it arrives.  While the configuration stays the same this is what
    it says of the volumes of the last poll.  Without a bundle no disposition is
    laxer than the default or than the rule; without [--enforce], or with the
    channel disabled, the system is not changed; and the health signal holds the
    time of the last poll before the stop. *)
Theorem monitor_watches_mounted enforce bundle turns sys health :
  Forall (fun t => snapshot_wf (in_volumes (mt_input t))) turns ->
  let '(m, sys', out, health') := run_monitor enforce bundle turns monitor_start sys health in
  let polls := take_while (fun t => negb (mt_stop t)) turns in
  (forall letter, watched <$> (auditors m !! letter) = watch_of bundle (rev polls) letter) /\
  (forall letter, snd <$> arrived (rev polls) letter = last polls ≫= fun t => mounted t letter) /\
  (forall cfg, Forall (fun t => turn_config t = cfg) polls -> forall letter,
     watched <$> (auditors m !! letter) =
       (last polls ≫= fun t => mounted t letter) ≫= expected_watch cfg bundle) /\
  (forall cfg dev, bundle = None ->
     restrictiveness (usb_default_action (usb cfg)) <= restrictiveness (disposition cfg bundle dev) /\
     restrictiveness (decide (to_policy (usb cfg)) dev).1 <= restrictiveness (disposition cfg bundle dev)) /\
  (Forall (fun t => enforce && usb_enabled (usb (turn_config t)) = false) polls -> sys' = sys) /\
  health' = match last polls with Some t => mark_alive (in_alive_ms (mt_input t)) health | None => health end.
Proof.
  intros Hall. assert (watches bundle [] monitor_start) as Hstart by (split; [constructor|done]).
  pose proof (run_monitor_watches enforce bundle turns [] monitor_start sys health Hall Hstart) as H.
  destruct (run_monitor enforce bundle turns monitor_start sys health) as [[[m s'] out] h'].
  cbv zeta in *. set (polls := take_while _ turns) in *. rewrite app_nil_r in H.
  destruct H as ((_ & _ & Hw) & Hs & Hh).
  assert (head (rev polls) = last polls) as Hhd.
  { induction polls as [|x l IH] using rev_ind; [done|]. by rewrite rev_app_distr, last_snoc. }
  split; [done|]. split; [intros letter; by rewrite arrived_mounted, Hhd|]. split; [|split; [|done]].
  - intros cfg Hc letter. rewrite Hw. unfold watch_of. rewrite (arrived_constant cfg).
    + rewrite Hhd. by destruct (last polls ≫= _).
    + by apply Forall_rev.
  - intros cfg dev ->. unfold disposition. destruct (decide (to_policy (usb cfg)) dev) as [act r].
    cbn [fst]. change (default_action (to_policy (usb cfg))) with (usb_default_action (usb cfg)).
    destruct act, (usb_default_action (usb cfg)); cbn; lia.
Qed.

(** ** The monitor's state is well formed

    What holds of every volume watched at time [now]: it is mounted, under its own
    letter, it is not a blocked one, it has sealing parameters exactly when its
    disposition is [Encrypt], and its auditor looks at that letter only and is
    well formed itself. *)
Definition watch_wf (now : Z) (snapshot : list DeviceIdentity) (letter : str) (va : VolumeAuditor) : Prop :=
  va_device va ∈ snapshot /\ drive_letter (va_device va) = letter /\ va_action va <> Block /\
  (is_Some (va_encrypt va) <-> va_action va = Encrypt) /\
  CopyAudit.root (va_auditor va) = [letter] /\ auditor_wf now (va_auditor va).
Definition monitor_wf (now : Z) (m : Monitor) : Prop :=
  snapshot_wf (last_snapshot (watcher m)) /\
  map_Forall (watch_wf now (last_snapshot (watcher m))) (auditors m).

(** The part that is about the auditors alone. *)
Definition auditors_wf (now : Z) : gmap str VolumeAuditor -> Prop :=
  map_Forall (fun letter va => CopyAudit.root (va_auditor va) = [letter] /\ auditor_wf now (va_auditor va)).

Lemma volume_auditor_wf now cfg act dev tree :
  CopyAudit.root (va_auditor (volume_auditor cfg act dev tree)) = [drive_letter dev] /\
  auditor_wf now (va_auditor (volume_auditor cfg act dev tree)).
Proof.
  unfold volume_auditor. destruct (if bool_decide (act = Encrypt) then _ else _) as [ev|]; cbn [va_auditor].
  - split; [done|]. apply baseline_wf, auditor_new_wf.
  - split; [done|]. apply auditor_new_wf.
Qed.

Lemma on_events_wf now cfg enforce bundle tree events st :
  auditors_wf now st.1.1 -> auditors_wf now (foldl (on_event cfg enforce bundle tree) st events).1.1.
Proof.
  revert st. induction events as [|ev events IH]; intros [[a s] out] Ha; [done|]. cbn [foldl]. apply IH.
  destruct ev as [dev|letter]; cbn [on_event].
  - destruct (if enforce && _ then _ else _) as [incs s']. cbn [fst]. case_bool_decide; [done|].
    apply map_Forall_insert_2; [|done]. apply volume_auditor_wf.
  - by apply map_Forall_delete.
Qed.

Lemma monitor_poll_wf now cfg enforce bundle inp m sys health :
  0 <= now -> now <= in_now_ms inp -> auditors_wf now (auditors m) ->
  auditors_wf (in_now_ms inp) (auditors (monitor_poll cfg enforce bundle inp m sys health).1.1.1).
Proof.
  intros H0 Hn Ha. unfold monitor_poll, watcher_poll.
  pose proof (on_events_wf now cfg enforce bundle (in_tree inp)
    (diff_volumes (last_snapshot (watcher m)) (in_volumes inp)) (auditors m, sys, []) Ha) as Hf.
  destruct (foldl (on_event cfg enforce bundle (in_tree inp)) _ _) as [[aud sys'] out].
  cbn [fst auditors] in *. intros letter va. rewrite lookup_fmap, map_lookup_imap.
  destruct (aud !! letter) as [va0|] eqn:Hva; cbn; [|done]. intros [= <-].
  destruct (Hf letter va0 Hva) as [Hr Hw]. unfold audit_volume.
  destruct (poll_wf now (in_now_ms inp) (in_tree inp letter) (in_opens inp) (va_auditor va0)) as [Hp Hpr];
    [lia|done|done|].
  destruct (poll _ _ _ (va_auditor va0)) as [a s]. cbn in *. by rewrite Hpr.
Qed.

Definition clock (t : MonitorTurn) : Z := in_now_ms (mt_input t).

Lemma run_monitor_wf now enforce bundle turns m sys health :
  0 <= now -> StronglySorted Z.le (now :: map clock turns) -> auditors_wf now (auditors m) ->
  auditors_wf (from_option clock now (last (take_while (fun t => negb (mt_stop t)) turns)))
    (auditors (run_monitor enforce bundle turns m sys health).1.1.1).
Proof.
  revert now m sys health. induction turns as [|t turns IH]; intros now m sys health H0 Hs Ha; [done|].
  cbn [map] in Hs. apply StronglySorted_inv in Hs as [Hs Hle]. apply Forall_cons in Hle as [Hle _].
  cbn [run_monitor take_while]. destruct (mt_stop t); [done|]. cbn [negb].
  pose proof (monitor_poll_wf now (turn_config t) enforce bundle (mt_input t) m sys health H0 Hle Ha) as Hp.
  destruct (monitor_poll _ _ _ _ _ _ _) as [[[m1 s1] o1] h1]. cbn [fst] in Hp.
  specialize (IH (clock t) m1 s1 h1 ltac:(lia) Hs Hp).
  destruct (run_monitor enforce bundle turns m1 s1 h1) as [[[m2 s2] o2] h2]. cbn [fst] in *.
  rewrite last_cons. by destruct (last (take_while _ turns)).
Qed.

(** The static part follows from what is watched. *)
Lemma watches_static bundle hist m :
  watches bundle hist m ->
  map_Forall (fun letter va => va_device va ∈ last_snapshot (watcher m) /\
    drive_letter (va_device va) = letter /\ va_action va <> Block /\
    (is_Some (va_encrypt va) <-> va_action va = Encrypt)) (auditors m).
Proof.
  intros (Hwf & Hlast & Hw) letter va Hva. specialize (Hw letter). specialize (Hlast letter).
  rewrite Hva, <- arrived_mounted in *. unfold watch_of in Hw.
  destruct (arrived hist letter) as [[cfg dev]|]; [|done]. cbn in Hw, Hlast.
  apply volumes_Some in Hlast as [Hin Hl]. unfold expected_watch in Hw.
  destruct (bool_decide_reflect (disposition cfg bundle dev = Block)) as [|Hb]; [done|].
  unfold watched in Hw. injection Hw as Hd Hact Henc. rewrite Hd, Hact. split; [done|]. split; [done|]. split; [done|].
  rewrite Henc. destruct (encrypt_params (usb cfg) dev) as [[mode key] band].
  destruct (bool_decide_reflect (disposition cfg bundle dev = Encrypt)); split; try done; by intros [].
Qed.

(** C27: The monitor's state is well formed after every run of the loop, whatever the
    configurations, volumes and contents it met, while the clock does not go
    back: the watched volumes are mounted, under their own letters, none of them
    blocked, with sealing parameters exactly for those to be encrypted; the
    auditor of each looks at its own letter only, has for every tracked file times
    in order and not in the future and a retry counter within 32 bits, and a
    dedup set without repeats that never outgrows its cap. *)
Theorem monitor_state_wf enforce bundle turns sys health :
  Forall (fun t => snapshot_wf (in_volumes (mt_input t))) turns ->
  StronglySorted Z.le (0 :: map clock turns) ->
  let '(m, sys', out, health') := run_monitor enforce bundle turns monitor_start sys health in
  monitor_wf (from_option clock 0 (last (take_while (fun t => negb (mt_stop t)) turns))) m.
Proof.
  intros Hall Hs. assert (watches bundle [] monitor_start) as Hstart by (split; [constructor|done]).
  pose proof (run_monitor_watches enforce bundle turns [] monitor_start sys health Hall Hstart) as H.
  pose proof (run_monitor_wf 0 enforce bundle turns monitor_start sys health ltac:(lia) Hs
    (map_Forall_empty _)) as Hd.
  destruct (run_monitor enforce bundle turns monitor_start sys health) as [[[m s'] out] h'].
  cbv zeta in H. cbn [fst] in Hd. destruct H as (Hw & _). split; [apply Hw|].
  intros letter va Hva. destruct (watches_static _ _ _ Hw letter va Hva) as (? & ? & ? & ?).
  by destruct (Hd letter va Hva).
Qed.
End Monitor.

Definition sample_config : Config :=
  {| server_url := lit "https://s"; enrollment_token := None; ca_cert_path := lit "ca";
     state_dir := lit "d"; checkin_interval_seconds := default_checkin;
     usb := merge_into_usb default_usb [trust_s1]; kguard := default_kguard;
     clipboard := default_clipboard; netfilter := default_netfilter; notify := default_notify;
     crypto := default_crypto; webupload := [] |}.

(** Whitelisting a stick that is already mounted does not seal what is copied to
    it: it stays watched as before until it is unplugged. *)
Definition quiet_poll (t : Z) (l : list DeviceIdentity) : PollInput :=
  {| in_now_ms := t; in_alive_ms := t; in_volumes := l; in_tree := fun _ => sample_volume; in_opens := fun _ => true |}.
Definition unlisted_config : Config :=
  with_synced_destinations {| server_url := server_url sample_config; enrollment_token := None;
     ca_cert_path := ca_cert_path sample_config; state_dir := state_dir sample_config;
     checkin_interval_seconds := default_checkin; usb := default_usb; kguard := default_kguard;
     clipboard := default_clipboard; netfilter := default_netfilter; notify := default_notify;
     crypto := default_crypto; webupload := [] |} [].
Definition late_whitelist : list MonitorTurn :=
  [{| mt_stop := false; mt_config := Clean unlisted_config; mt_input := quiet_poll 5 [stick] |};
   {| mt_stop := false; mt_config := Clean sample_config; mt_input := quiet_poll 10 [stick] |}].

Lemma monitor_watches_mounted_witness :
  Forall (fun t => snapshot_wf (in_volumes (mt_input t))) late_whitelist /\
  watched <$> (auditors (run_monitor (W := all_ok) (fun _ _ => Err []) (fun _ _ => Err [])
    true (Some sample_bundle) late_whitelist monitor_start {| registry := ∅; dismounted := [] |}
    (SealerHealth_new true)).1.1.1 !! lit "E:") = Some (stick, ReadOnly, None) /\
  expected_watch sample_config (Some sample_bundle) stick =
    Some (stick, Encrypt, Some {| ev_mode := EncryptAll; ev_key_id := lit "class-internal/v1";
                                  ev_on_block_band := BandSeal |}).
Proof.
  assert (Forall (fun t => snapshot_wf (in_volumes (mt_input t))) late_whitelist) as Hwf.
  { repeat constructor; cbn; set_solver. }
  split; [exact Hwf|]. split; [|vm_compute; reflexivity].
  pose proof (monitor_watches_mounted (W := all_ok) (fun _ _ => Err []) (fun _ _ => Err [])
    true (Some sample_bundle) _ {| registry := ∅; dismounted := [] |} (SealerHealth_new true) Hwf) as H.
  destruct (run_monitor _ _ _ _ _ _ _ _) as [[[m s] o] h]. destruct H as [H _].
  cbn [fst]. rewrite (H (lit "E:")). vm_compute. reflexivity.
Defined.

(** A stick that a file is copied to, over three polls. *)
Definition copy_turns : list MonitorTurn :=
  [{| mt_stop := false; mt_config := Clean sample_config; mt_input := quiet_poll 5 [] |};
   {| mt_stop := false; mt_config := Clean sample_config; mt_input := quiet_poll 10 [stick] |};
   {| mt_stop := false; mt_config := Clean unlisted_config; mt_input := quiet_poll 15 [stick] |}].

Lemma monitor_state_wf_witness :
  let m := (run_monitor (W := all_ok) (fun _ _ => Err []) (fun _ _ => Err [])
    true (Some sample_bundle) copy_turns monitor_start {| registry := ∅; dismounted := [] |}
    (SealerHealth_new true)).1.1.1 in
  monitor_wf 15 m /\ map_size (auditors m) = 1%nat.
Proof.
  intros m. assert (Forall (fun t => snapshot_wf (in_volumes (mt_input t))) copy_turns) as Hwf.
  { repeat constructor; cbn; set_solver. }
  pose proof (monitor_state_wf (W := all_ok) (fun _ _ => Err []) (fun _ _ => Err [])
    true (Some sample_bundle) _ {| registry := ∅; dismounted := [] |} (SealerHealth_new true) Hwf
    ltac:(repeat constructor; vm_compute; congruence)) as H.
  split; [|vm_compute; reflexivity]. unfold m.
  destruct (run_monitor _ _ _ _ _ _ _ _) as [[[m1 s] o] h]. exact H.
Defined.
