(* ===== verification/KGuard.v ===== *)
(** The kernel guard ([src/kguard/mod.rs]): the port client that scores what the
    file-system driver reads and answers it.  The wire structures are modelled at
    the byte level, the receive loop over its one reused buffer, and the decision
    with the verdict of [detect].  The driver's messages, the Win32 volume and
    device queries, the clock and the sealer's health are inputs of each turn of
    the loop; replies, connection resets and reports are its output, in order. *)

From S2P Require Import Prelude Words Text F64 Unicode Fingerprint Bundle Edm Utf8 Extract Verdict.
From S2P Require Import TrustDest Device UsbPolicy Enforce Watch Supervise Crypto CopyAudit.
From S2P Require Import RemoteTools NetRules Config TrustSync UsbMonitor.
#[local] Open Scope Z_scope.

(** ** Wire structures *)

Definition DLP_MSG_VERSION : Z := 2.
Definition DLP_MAX_PATH_CHARS : nat := 512.
Definition DLP_MAX_CONTENT : Z := 4 * 1024 * 1024.
Definition DLP_VERDICT_ALLOW : Z := 0.
Definition DLP_VERDICT_BLOCK : Z := 1.
Definition DLP_REASON_WRITE : Z := 0.
Definition DLP_REASON_READ : Z := 1.

Record DlpScanRequest := {
  req_version : Z;
  req_reason : Z;
  file_id : Z;
  process_id : Z;
  path_length : Z;
  pad : Z;
  req_path : list Z;
  content_length : Z;
  truncated : Z;
}.
Record DlpScanReply := { reply_file_id : Z; reply_verdict : Z }.

(** The C layout: every field at its offset, little endian, no padding between
    them. *)
Definition encode_units (us : list Z) : bytes := concat (map (to_le_bytes 2) us).
Definition encode_request (r : DlpScanRequest) : bytes :=
  to_le_bytes 4 (req_version r) ++ to_le_bytes 4 (req_reason r) ++ to_le_bytes 8 (file_id r) ++
  to_le_bytes 4 (process_id r) ++ to_le_bytes 2 (path_length r) ++ to_le_bytes 2 (pad r) ++
  encode_units (req_path r) ++ to_le_bytes 4 (content_length r) ++ to_le_bytes 4 (truncated r).
Definition REQ_SIZE : nat := 1056.

(** Reading a field of [n] bytes at an offset of the buffer. *)
Definition field (off n : nat) (buf : bytes) : Z := from_le_bytes (slice off (off + n) buf).
Definition read_units (off n : nat) (buf : bytes) : list Z :=
  map (fun i => field (off + 2 * i) 2 buf) (seq 0 n).
(** [std::ptr::read] of a request at [off]. *)
Definition read_request (off : nat) (buf : bytes) : DlpScanRequest :=
  {| req_version := field off 4 buf; req_reason := field (off + 4) 4 buf;
     file_id := field (off + 8) 8 buf; process_id := field (off + 16) 4 buf;
     path_length := field (off + 20) 2 buf; pad := field (off + 22) 2 buf;
     req_path := read_units (off + 24) DLP_MAX_PATH_CHARS buf;
     content_length := field (off + 1048) 4 buf; truncated := field (off + 1052) 4 buf |}.

Definition request_wf (r : DlpScanRequest) : Prop :=
  0 <= req_version r < U32 /\ 0 <= req_reason r < U32 /\ is_u64 (file_id r) /\
  0 <= process_id r < U32 /\ 0 <= path_length r < U16 /\ 0 <= pad r < U16 /\
  length (req_path r) = DLP_MAX_PATH_CHARS /\ Forall (fun u => 0 <= u < U16) (req_path r) /\
  0 <= content_length r < U32 /\ 0 <= truncated r < U32.

Definition DLP_CONFIG_VERSION : Z := 1.
Definition DLP_MAX_WATCH : nat := 16.
Definition DLP_MAX_WATCH_CHARS : nat := 260.

Record DlpConfig := {
  cfg_version : Z;
  cfg_scan_fixed : Z;
  cfg_scan_network : Z;
  watch_count : Z;
  watch_len : list Z;
  watch : list (list Z);
}.

(** [dst[..src.len()].copy_from_slice(src)] *)
Definition copy_prefix (src dst : list Z) : list Z := src ++ drop (length src) dst.

Definition put_prefix (cfg : DlpConfig) (ip : nat * str) : DlpConfig :=
  let '(i, prefix) := ip in
  let units := take DLP_MAX_WATCH_CHARS (encode_utf16 prefix) in
  {| cfg_version := cfg_version cfg; cfg_scan_fixed := cfg_scan_fixed cfg;
     cfg_scan_network := cfg_scan_network cfg; watch_count := watch_count cfg + 1;
     watch_len := <[i := Z.of_nat (length units) mod U16]> (watch_len cfg);
     watch := alter (copy_prefix units) i (watch cfg) |}.

Definition enumerate {A} (l : list A) : list (nat * A) := zip (seq 0 (length l)) l.

Definition from_kguard (kg : KguardConfig) : DlpConfig :=
  foldl put_prefix
    {| cfg_version := DLP_CONFIG_VERSION; cfg_scan_fixed := bool_z (scan_fixed kg);
       cfg_scan_network := bool_z (scan_network kg); watch_count := 0;
       watch_len := replicate DLP_MAX_WATCH 0;
       watch := replicate DLP_MAX_WATCH (replicate DLP_MAX_WATCH_CHARS 0) |}
    (enumerate (take DLP_MAX_WATCH (watch_paths kg))).

(** The bytes [FilterSendMessage] passes to the driver. *)
Definition encode_config (c : DlpConfig) : bytes :=
  to_le_bytes 4 (cfg_version c) ++ to_le_bytes 4 (cfg_scan_fixed c) ++
  to_le_bytes 4 (cfg_scan_network c) ++ to_le_bytes 4 (watch_count c) ++
  encode_units (watch_len c) ++ concat (map encode_units (watch c)).

(** ** The pure decisions *)

Definition should_block (v : Verdict) (cfg : KguardConfig) : bool :=
  if negb (bool_decide (length (v_edm v) = 0%nat)) then true
  else existsb (fun m => f64_ge (m_containment m) (kguard_block_at cfg)
                         || f64_ge (m_coverage m) (kguard_coverage_block_at cfg)) (v_idm v).

Definition should_block_removable_write (v : Verdict) (cfg : KguardConfig) : bool :=
  if negb (bool_decide (length (v_edm v) = 0%nat)) then true
  else existsb (fun m => f64_ge (m_containment m) (removable_write_block_at cfg)
                         || f64_ge (m_coverage m) (kguard_coverage_block_at cfg)) (v_idm v).

Definition block_note (reason : Z) : str :=
  if reason =? DLP_REASON_READ then lit "read-taint" else lit "kernel-blocked".

Definition should_reset_connections (reason : Z) (blocked : bool) : bool :=
  (reason =? DLP_REASON_READ) && blocked.

Definition drive_letter_of (path : str) : str :=
  match as_bytes path with
  | b0 :: b1 :: _ =>
      if (b1 =? 58) && is_ascii_alphabetic b0 then [ascii_upper b0; 58] else []
  | _ => []
  end.

Definition synthetic_device (path : str) : DeviceIdentity :=
  {| drive_letter := drive_letter_of path; vendor_id := []; product_id := []; serial := [];
     product_name := []; bus_type := lit "usb"; removable := true |}.

Definition incident_for (display_path : str) (v : Verdict) (blocked : bool) (channel : str)
    (reason : Z) : option UsbIncident :=
  let device := synthetic_device display_path in
  let action := if blocked then CopyAudit.Blocked else CopyAudit.Audited in
  if blocked then
    Some {| kind := Match; channel := channel; inc_file_name := Verdict.file_name v;
            inc_file_sha256 := file_sha256 v; inc_verdict := Some v; device := device;
            action_taken := action; inc_note := Some (block_note reason); inc_key_id := None;
            sealed_sha256 := None |}
  else if is_unreadable (extraction v) then
    Some {| kind := UnreadableOnRemovable; channel := channel;
            inc_file_name := Verdict.file_name v; inc_file_sha256 := file_sha256 v;
            inc_verdict := Some v; device := device; action_taken := action;
            inc_note := Some (lit "unreadable-on-removable"); inc_key_id := None;
            sealed_sha256 := None |}
  else None.

(** What the guard answers: block or allow, and what to report. *)
Definition Answer : Type := bool * option UsbIncident.

Definition envelope_passthrough (content : bytes) : option Answer :=
  if starts_with ENVELOPE_MAGIC content then Some (false, None) else None.

Definition basename_of (path : str) : str :=
  let base := rev (take_while (fun c => negb ((c =? 92) || (c =? 47))) (rev path)) in
  if str_is_empty base then path else base.

Definition seal_incident (v : option Verdict) (dev : DeviceIdentity) (display_path channel : str)
    (taken : ActionTaken) (note : str) : UsbIncident :=
  let '(kind, file_name, sha) :=
    match v with
    | Some v =>
        (if is_unreadable (extraction v) then UnreadableOnRemovable else Match,
         Verdict.file_name v, file_sha256 v)
    | None => (Sealed, basename_of display_path, [])
    end in
  {| kind := kind; channel := channel; inc_file_name := file_name; inc_file_sha256 := sha;
     inc_verdict := v; device := dev; action_taken := taken; inc_note := Some note;
     inc_key_id := None; sealed_sha256 := None |}.

Definition write_scan_override (reason : Z) (usb : UsbConfig) (bands : EncryptBands)
    (device : option DeviceIdentity) (v : option Verdict) (display_path channel : str)
    (sealer_healthy : bool) : option Answer :=
  if (reason =? DLP_REASON_READ) || negb (usb_enabled usb) then None
  else
    dev ← device;
    if negb (bool_decide ((UsbPolicy.decide (to_policy usb) dev).1 = Encrypt)) then None
    else
      let '(mode, _, band) := encrypt_params usb dev in
      match decide_seal mode bands band v with
      | DoBlock => None
      | Plain => Some (false, None)
      | Seal =>
          if sealer_healthy then
            Some (false, Some (seal_incident v dev display_path channel CopyAudit.Audited
                                 (lit "allowed-pending-seal")))
          else
            Some (true, Some (seal_incident v dev display_path channel CopyAudit.Blocked
                                (lit "seal-unavailable-blocked")))
      end.

(** ** Volumes *)

(** [letter_for_nt_prefix]: the first entry that claims the path; [entries] is
    the map in the order its iteration takes. *)
Definition claims (upper prefix : str) : bool :=
  match strip_prefix prefix upper with
  | Some rest => str_is_empty rest || starts_with [92] rest
  | None => false
  end.
Definition letter_for_nt_prefix (entries : list (str * str)) (path : str) : option str :=
  snd <$> List.find (fun e => claims (map ascii_upper path) e.1) entries.

(** [ntvol::build_map] over what [QueryDosDeviceW] leaves in the buffer for each
    letter ([None] for a letter that is not mapped). *)
Definition letter_name (i : nat) : str := [65 + Z.of_nat i; 58].
Definition add_letter (query : str -> option (list Z)) (m : gmap str str) (i : nat) : gmap str str :=
  match query (letter_name i) with
  | None => m
  | Some buf =>
      let end_ := default 0%nat (position (fun c => c =? 0) buf) in
      if (0 <? end_)%nat
      then <[map ascii_upper (from_utf16_lossy (take end_ buf)) := letter_name i]> m
      else m
  end.
Definition build_map (query : str -> option (list Z)) : gmap str str :=
  foldl (add_letter query) ∅ (seq 0 26).

(** [ntvol::drive_letter_for_nt_path] with the process-wide cache. *)
Definition drive_letter_for_nt_path (query : str -> option (list Z)) (path : str)
    (cache : option (gmap str str)) : option str * option (gmap str str) :=
  let cached := m ← cache; letter_for_nt_prefix (map_to_list m) path in
  match cached with
  | Some letter => (Some letter, cache)
  | None =>
      let m := build_map query in
      (letter_for_nt_prefix (map_to_list m) path, Some m)
  end.

(** [usb::device::query_device_identity(letter).ok()] is [identity letter]. *)
Definition resolve_device_identity (query : str -> option (list Z))
    (identity : str -> option DeviceIdentity) (path : str) (cache : option (gmap str str))
    : option DeviceIdentity * option (gmap str str) :=
  let direct := drive_letter_of path in
  if str_is_empty direct then
    let '(letter, cache) := drive_letter_for_nt_path query path cache in
    (letter ≫= identity, cache)
  else (identity direct, cache).

(** ** One scan *)

Section Guard.
Context {D : Digest} {U : Unicode} {E : ExtractEnv}.

(** [decide] without the device resolution: [dev] is what the volume resolves
    to.  [None] where the code would panic. *)
Definition decide_on (cfg : Config) (bundle : option Bundle) (device_path : str) (content : bytes)
    (reason : Z) (sealer_healthy : bool) (dev : option DeviceIdentity) : option Answer :=
  match envelope_passthrough content with
  | Some pass => Some pass
  | None =>
      let kg := kguard cfg in
      verdict ← match bundle with
                | Some b => Some <$> verdict_bytes content (basename_of device_path) b
                | None => Some None
                end;
      let over :=
        if negb (reason =? DLP_REASON_READ) && usb_enabled (usb cfg) then
          write_scan_override reason (usb cfg) (encrypt_bands cfg) dev verdict device_path
            (kguard_channel_label kg) sealer_healthy
        else None in
      match over with
      | Some answer => Some answer
      | None =>
          match verdict with
          | None => Some (kguard_fail_block kg, None)
          | Some v =>
              let block :=
                if is_unreadable (extraction v)
                then negb (reason =? DLP_REASON_READ) && kguard_fail_block kg
                else if reason =? DLP_REASON_READ then should_block v kg
                else should_block_removable_write v kg in
              Some (block, incident_for device_path v block (kguard_channel_label kg) reason)
          end
      end
  end.

(** When the code resolves the device: it changes the cache only then. *)
Definition resolves (cfg : Config) (content : bytes) (reason : Z) : bool :=
  negb (starts_with ENVELOPE_MAGIC content) && negb (reason =? DLP_REASON_READ)
  && usb_enabled (usb cfg).

Definition decide (query : str -> option (list Z)) (identity : str -> option DeviceIdentity)
    (cfg : Config) (bundle : option Bundle) (device_path : str) (content : bytes) (reason : Z)
    (sealer_healthy : bool) (cache : option (gmap str str))
    : option (Answer * option (gmap str str)) :=
  let '(dev, cache) :=
    if resolves cfg content reason then resolve_device_identity query identity device_path cache
    else (None, cache) in
  answer ← decide_on cfg bundle device_path content reason sealer_healthy dev;
  Some (answer, cache).

(** ** The message loop *)

(** What one turn of the loop finds: the stop flag, what [FilterGetMessage]
    writes into the buffer ([None] for an error), and the shared state at that
    moment. *)
Record Turn := {
  t_stop : bool;
  t_recv : option bytes;
  t_config : RwLock Config;
  t_health : option SealerHealth;
  t_now_ms : Z;
  t_query : str -> option (list Z);
  t_identity : str -> option DeviceIdentity;
}.

Inductive GuardEffect :=
  | EffReply (message_id : Z) (reply : DlpScanReply)
  | EffReset (pid : Z)
  | EffReport (inc : UsbIncident).

(** Why the loop ended; [LoopWaits] when it waits for the next message. *)
Inductive LoopEnd : Set := LoopStopped | LoopClosed | LoopPanicked | LoopWaits.

(** [FILTER_MESSAGE_HEADER]: the reply length, padding and the message id. *)
Definition HEADER_SIZE : nat := 16.
Definition TOTAL_SIZE : nat := HEADER_SIZE + REQ_SIZE + Z.to_nat DLP_MAX_CONTENT.

(** [FilterGetMessage] writes the message at the start of the buffer, and fails
    when it does not fit. *)
Definition receive (msg buf : bytes) : option bytes :=
  if (length msg <=? length buf)%nat then Some (msg ++ drop (length msg) buf) else None.

Definition sealer_is_healthy (t : Turn) (kg : KguardConfig) : bool :=
  match t_health t with
  | Some h => is_healthy_at h (t_now_ms t) (saturating_mul (sealer_health_timeout_secs kg) 1000)
  | None => true
  end.

(** The answer to the request [req] with the bytes [content] after it. *)
Definition answer_request (t : Turn) (bundle : option Bundle) (req : DlpScanRequest)
    (content : bytes) (cache : option (gmap str str)) : option (Answer * option (gmap str str)) :=
  let cfg := snapshot_config (t_config t) in
  let kg := kguard cfg in
  let nchars := Nat.min (Z.to_nat (path_length req / 2)) DLP_MAX_PATH_CHARS in
  let device_path := from_utf16_lossy (take nchars (req_path req)) in
  if negb (req_version req =? DLP_MSG_VERSION) then Some ((kguard_fail_block kg, None), cache)
  else
    let content_len := Z.to_nat (Z.min (content_length req) DLP_MAX_CONTENT) in
    decide (t_query t) (t_identity t) cfg bundle device_path (take content_len content)
      (req_reason req) (sealer_is_healthy t kg) cache.

(** Reply, then reset, then report. *)
Definition effects_of (message_id : Z) (req : DlpScanRequest) (answer : Answer) : list GuardEffect :=
  let '(block, incident) := answer in
  [EffReply message_id {| reply_file_id := file_id req;
     reply_verdict := if block then DLP_VERDICT_BLOCK else DLP_VERDICT_ALLOW |}] ++
  (if should_reset_connections (req_reason req) block then [EffReset (process_id req)] else []) ++
  (match incident with Some inc => [EffReport inc] | None => [] end).

Fixpoint guard_loop (bundle : option Bundle) (turns : list Turn) (buf : bytes)
    (cache : option (gmap str str)) : list GuardEffect * LoopEnd :=
  match turns with
  | [] => ([], LoopWaits)
  | t :: turns' =>
      if t_stop t then ([], LoopStopped)
      else
        match t_recv t ≫= (fun msg => receive msg buf) with
        | None => ([], LoopClosed)
        | Some buf =>
            let message_id := field 8 8 buf in
            let req := read_request HEADER_SIZE buf in
            match answer_request t bundle req (drop (HEADER_SIZE + REQ_SIZE) buf) cache with
            | None => ([], LoopPanicked)
            | Some (answer, cache) =>
                let '(out, e) := guard_loop bundle turns' buf cache in
                (effects_of message_id req answer ++ out, e)
            end
        end
  end.

(** The buffer is allocated once, zeroed. *)
Definition message_loop (bundle : option Bundle) (turns : list Turn) : list GuardEffect * LoopEnd :=
  guard_loop bundle turns (replicate TOTAL_SIZE 0) None.
End Guard.

(** ** The wire format *)

Lemma field_app_r off n a b :
  (length a <= off)%nat -> field off n (a ++ b) = field (off - length a) n b.
Proof.
  intros H. unfold field, slice. rewrite drop_app_ge by done. do 2 f_equal. lia.
Qed.

Lemma field_here n x b : 0 <= x < 256 ^ Z.of_nat n -> field 0 n (to_le_bytes n x ++ b) = x.
Proof.
  intros H. unfold field, slice. rewrite drop_0, Nat.add_0_l, Nat.sub_0_r.
  rewrite take_app_length' by (by rewrite length_to_le_bytes). by apply from_to_le_bytes.
Qed.

Lemma length_encode_units us : length (encode_units us) = (2 * length us)%nat.
Proof.
  unfold encode_units. induction us as [|u us IH]; [done|]. cbn [map concat].
  rewrite length_app, length_to_le_bytes, IH. cbn. lia.
Qed.

Lemma read_units_here us b :
  Forall (fun u => 0 <= u < U16) us -> read_units 0 (length us) (encode_units us ++ b) = us.
Proof.
  assert (forall a, Forall (fun u => 0 <= u < U16) us ->
    read_units (length a) (length us) (a ++ encode_units us ++ b) = us) as H; [|apply (H [])].
  intros a Hus. revert a. induction Hus as [|u us Hu _ IH]; intros a; [done|].
  unfold read_units in *. cbn [length seq map]. f_equal.
  - rewrite Nat.mul_0_r, Nat.add_0_r, field_app_r, Nat.sub_diag by done.
    unfold encode_units. cbn [map concat]. rewrite <- app_assoc. by apply field_here.
  - rewrite <- seq_shift, map_map. rewrite <- (IH (a ++ to_le_bytes 2 u)) at 2.
    rewrite length_app, length_to_le_bytes. apply map_ext. intros i.
    unfold encode_units. cbn [map concat]. rewrite <- !app_assoc. f_equal. lia.
Qed.

Lemma read_units_app_r off n a b :
  (length a <= off)%nat -> read_units off n (a ++ b) = read_units (off - length a) n b.
Proof.
  intros H. apply map_ext. intros i. rewrite field_app_r by lia. f_equal. lia.
Qed.

Lemma length_encode_request r :
  length (req_path r) = DLP_MAX_PATH_CHARS -> length (encode_request r) = REQ_SIZE.
Proof.
  intros H. unfold encode_request. rewrite !length_app, !length_to_le_bytes, length_encode_units, H.
  reflexivity.
Qed.

(** Moves past the fields in front of the one that is read. *)
Ltac seek := repeat (first [rewrite field_app_r | rewrite read_units_app_r];
  [|rewrite ?length_to_le_bytes, ?length_encode_units; cbn [Nat.add]; lia];
  rewrite ?length_to_le_bytes, ?length_encode_units; cbn [Nat.sub Nat.mul Nat.add]).

Lemma read_encode_request a r b :
  request_wf r -> read_request (length a) (a ++ encode_request r ++ b) = r.
Proof.
  intros (H1 & H2 & H3 & H4 & H5 & H6 & H7 & H8 & H9 & H10).
  assert (forall off n c, field (length a + off) n (a ++ c) = field off n c) as Hf.
  { intros. rewrite field_app_r by lia. f_equal. lia. }
  assert (forall n c, field (length a) n (a ++ c) = field 0 n c) as Hf0.
  { intros. rewrite field_app_r by lia. f_equal. lia. }
  assert (forall off n c, read_units (length a + off) n (a ++ c) = read_units off n c) as Hu.
  { intros. rewrite read_units_app_r by lia. f_equal. lia. }
  unfold read_request, encode_request. rewrite Hf0, !Hf, Hu, <- !app_assoc, <- H7. clear Hf Hf0 Hu.
  destruct r as [ver rsn fid pid plen pd path clen tr].
  cbn [req_version req_reason file_id process_id path_length pad req_path content_length truncated] in *.
  f_equal; seek; try (apply field_here; unfold U16, U32, is_u64 in *; lia);
    [by apply read_units_here|..].
  all: rewrite field_app_r by (rewrite length_encode_units, H7; unfold DLP_MAX_PATH_CHARS; lia).
  all: rewrite length_encode_units, H7; unfold DLP_MAX_PATH_CHARS; cbn [Nat.sub Nat.mul Nat.add].
  all: seek; apply field_here; unfold U16, U32 in *; lia.
Qed.

(** A message as the filter manager delivers it: its header, the request and the
    content that follows. *)
Record DriverMessage := {
  dm_reply_length : Z;
  dm_pad : Z;
  dm_id : Z;
  dm_req : DlpScanRequest;
  dm_content : bytes;
}.
Definition encode_message (m : DriverMessage) : bytes :=
  (to_le_bytes 4 (dm_reply_length m) ++ to_le_bytes 4 (dm_pad m) ++ to_le_bytes 8 (dm_id m)) ++
  encode_request (dm_req m) ++ dm_content m.
Definition message_wf (m : DriverMessage) : Prop :=
  request_wf (dm_req m) /\ is_u64 (dm_id m) /\
  Z.of_nat (length (dm_content m)) = content_length (dm_req m) /\
  content_length (dm_req m) <= DLP_MAX_CONTENT.

Lemma length_encode_message m :
  message_wf m ->
  (length (encode_message m) = HEADER_SIZE + REQ_SIZE + length (dm_content m))%nat.
Proof.
  intros ((_ & _ & _ & _ & _ & _ & H & _) & _). unfold encode_message.
  by rewrite !length_app, !length_to_le_bytes, length_encode_request by done.
Qed.

Lemma encode_message_fits m : message_wf m -> (length (encode_message m) <= TOTAL_SIZE)%nat.
Proof.
  intros H. rewrite length_encode_message by done. destruct H as (_ & _ & H1 & H2).
  unfold TOTAL_SIZE. lia.
Qed.

(** What the loop reads from the buffer is the message on top of it, whatever an
    earlier message left behind. *)
Lemma read_message m rest :
  message_wf m ->
  field 8 8 (encode_message m ++ rest) = dm_id m /\
  read_request HEADER_SIZE (encode_message m ++ rest) = dm_req m /\
  drop (HEADER_SIZE + REQ_SIZE) (encode_message m ++ rest) = dm_content m ++ rest.
Proof.
  intros Hm. pose proof (length_encode_message m Hm) as Hl. destruct Hm as (Hr & Hid & _).
  unfold encode_message in *. split; [|split].
  - rewrite <- !app_assoc. seek. by apply field_here.
  - rewrite <- (app_assoc _ _ rest), <- (app_assoc _ _ rest).
    set (h := to_le_bytes 4 _ ++ _ ++ _). replace HEADER_SIZE with (length h)
      by by unfold h; rewrite !length_app, !length_to_le_bytes.
    by apply read_encode_request.
  - rewrite (app_assoc _ (encode_request _)), <- app_assoc.
    apply drop_app_length'. rewrite !length_app in *. lia.
Qed.

Section Loop.
Context {D : Digest} {U : Unicode} {E : ExtractEnv}.
Context (bundle : option Bundle).
Context (Hbundle : forall b, bundle = Some b -> bundle_wf b).

Lemma decide_total query identity cfg path content reason healthy cache :
  exists r, decide query identity cfg bundle path content reason healthy cache = Some r.
Proof.
  unfold decide. destruct (if resolves _ _ _ then _ else _) as [dev cache'].
  assert (exists a, decide_on cfg bundle path content reason healthy dev = Some a) as [a ->];
    [|cbn; by eexists].
  unfold decide_on. destruct (envelope_passthrough content); [by eexists|].
  assert (exists v, match bundle with
    | Some b => Some <$> verdict_bytes content (basename_of path) b | None => Some None end = Some v)
    as [v ->].
  { destruct bundle as [b|]; [|by eexists].
    destruct (verdict_bytes_total b (Hbundle b eq_refl) content (basename_of path)) as [v ->]. by eexists. }
  cbn [mbind option_bind]. repeat case_match; by eexists.
Qed.

Lemma answer_request_total t req content cache :
  exists r, answer_request t bundle req content cache = Some r.
Proof.
  unfold answer_request. destruct (negb _); [by eexists|]. apply decide_total.
Qed.

(** The content is the message's own, cut to its announced length. *)
Lemma answer_request_content t m rest cache :
  message_wf m ->
  answer_request t bundle (dm_req m) (dm_content m ++ rest) cache =
  answer_request t bundle (dm_req m) (dm_content m) cache.
Proof.
  intros (_ & _ & H1 & H2). unfold answer_request. rewrite Z.min_l, <- H1, Nat2Z.id by lia.
  by rewrite take_app_length, firstn_all.
Qed.

(** The turns up to the first that ends the loop, with their messages, and how
    it ends. *)
Fixpoint handled (ts : list (Turn * option DriverMessage)) : list (Turn * DriverMessage) * LoopEnd :=
  match ts with
  | [] => ([], LoopWaits)
  | (t, m) :: ts' =>
      if t_stop t then ([], LoopStopped)
      else match m with
           | None => ([], LoopClosed)
           | Some m => let '(hs, e) := handled ts' in ((t, m) :: hs, e)
           end
  end.

(** The answer to one message given the volume cache of that moment. *)
Definition answers (tm : Turn * DriverMessage) (a : Answer) : Prop :=
  exists cache cache',
    answer_request tm.1 bundle (dm_req tm.2) (dm_content tm.2) cache = Some (a, cache').

Definition delivers (tm : Turn * option DriverMessage) : Prop :=
  t_recv tm.1 = encode_message <$> tm.2 /\ forall m, tm.2 = Some m -> message_wf m.

Lemma guard_loop_spec ts buf cache :
  Forall delivers ts -> length buf = TOTAL_SIZE ->
  exists ans, Forall2 answers (handled ts).1 ans /\
    guard_loop bundle (map fst ts) buf cache =
      (concat (zip_with (fun tm a => effects_of (dm_id tm.2) (dm_req tm.2) a) (handled ts).1 ans),
       (handled ts).2).
Proof.
  intros Hts. revert buf cache.
  induction Hts as [|[t m] ts [Hrecv Hm] _ IH]; intros buf cache Hbuf; [by exists []|].
  cbn [map fst handled guard_loop]. destruct (t_stop t); [by exists []|].
  cbn in Hrecv, Hm. rewrite Hrecv. destruct m as [m|]; [|by exists []].
  specialize (Hm m eq_refl). cbn [fmap option_fmap option_map mbind option_bind].
  pose proof (encode_message_fits m Hm) as Hfit.
  unfold receive. rewrite Hbuf. destruct (Nat.leb_spec (length (encode_message m)) TOTAL_SIZE); [|lia].
  destruct (read_message m (drop (length (encode_message m)) buf) Hm) as (-> & -> & ->).
  rewrite answer_request_content by done.
  destruct (answer_request_total t (dm_req m) (dm_content m) cache) as [[a cache'] Ha]. rewrite Ha.
  destruct (IH (encode_message m ++ drop (length (encode_message m)) buf) cache') as (ans & H2 & ->).
  { rewrite length_app, length_drop. lia. }
  destruct (handled ts) as [hs e]. cbn [fst snd] in *.
  exists (a :: ans). split; [|done]. constructor; [|done]. by exists cache, cache'.
Qed.

(** C12: Every message the driver sends is answered, in order, until the loop is
    stopped or the port closes, and the loop never panics.  The answer is that
    to the message's own request and content: bytes an earlier, longer message
    left in the reused buffer are never looked at.  For each message the reply
    carries its message id and file id, a reset of the process's connections
    comes after the reply and exactly for a blocked read, and the report comes
    last. *)
Theorem every_message_answered ts :
  Forall delivers ts ->
  exists ans, Forall2 answers (handled ts).1 ans /\
    message_loop bundle (map fst ts) =
      (concat (zip_with (fun (tm : Turn * DriverMessage) (a : Answer) =>
         [EffReply (dm_id tm.2) {| reply_file_id := file_id (dm_req tm.2);
            reply_verdict := if fst a then DLP_VERDICT_BLOCK else DLP_VERDICT_ALLOW |}] ++
         (if bool_decide (req_reason (dm_req tm.2) = DLP_REASON_READ /\ fst a = true)
          then [EffReset (process_id (dm_req tm.2))] else []) ++
         match snd a with Some inc => [EffReport inc] | None => [] end) (handled ts).1 ans), (handled ts).2) /\
    (handled ts).2 <> LoopPanicked.
Proof.
  intros Hts. destruct (guard_loop_spec ts (replicate TOTAL_SIZE 0) None Hts) as (ans & H2 & Hr).
  { apply length_replicate. }
  exists ans. split; [done|]. split.
  - unfold message_loop. rewrite Hr. clear. f_equal. f_equal. apply zip_with_ext; [|done..].
    intros [t m] [block inc]. cbn [fst snd effects_of]. f_equal. f_equal.
    unfold should_reset_connections.
    destruct (Z.eqb_spec (req_reason (dm_req m)) DLP_REASON_READ), block;
      cbn [andb]; [rewrite bool_decide_eq_true_2 by done|rewrite bool_decide_eq_false_2 by (by intros [? ?])..];
      done.
  - clear. induction ts as [|[t m] ts IH]; cbn [handled]; [done|].
    destruct (t_stop t); [done|]. destruct m; [|done]. by destruct (handled ts).
Qed.
End Loop.

(** ** What may leave *)

(** What makes a readable verdict block: a row of a protected table, or a
    document at the containment bound of the scan's kind or at the coverage
    bound. *)
Definition matched_at (bound coverage_bound : f64) (v : Verdict) : Prop :=
  v_edm v <> [] \/
  exists m, m ∈ v_idm v /\ (f64_ge (m_containment m) bound = true \/
                            f64_ge (m_coverage m) coverage_bound = true).

Lemma matched_at_spec bound cov v :
  (if negb (bool_decide (length (v_edm v) = 0%nat)) then true
   else existsb (fun m => f64_ge (m_containment m) bound || f64_ge (m_coverage m) cov) (v_idm v)) = true
  <-> matched_at bound cov v.
Proof.
  unfold matched_at. case_bool_decide as H; cbn [negb].
  - apply nil_length_inv in H. rewrite H, existsb_spec. setoid_rewrite orb_true_iff. naive_solver.
  - split; [|done]. intros _. left. intros H'. by rewrite H' in H.
Qed.

Section Decisions.
Context {D : Digest} {U : Unicode} {E : ExtractEnv}.

(** [d] is a destination the sealer watches and the scan is a write. *)
Definition sealed_write (cfg : Config) (reason : Z) (d : DeviceIdentity) : Prop :=
  reason <> DLP_REASON_READ /\ usb_enabled (usb cfg) = true /\
  (UsbPolicy.decide (to_policy (usb cfg)) d).1 = Encrypt.

Lemma sealed_write_override cfg reason d bands v path channel healthy :
  sealed_write cfg reason d ->
  write_scan_override reason (usb cfg) bands (Some d) v path channel healthy =
    let '(mode, _, band) := encrypt_params (usb cfg) d in
    match decide_seal mode bands band v with
    | DoBlock => None
    | Plain => Some (false, None)
    | Seal => Some (negb healthy,
        Some (seal_incident v d path channel
                (if healthy then CopyAudit.Audited else CopyAudit.Blocked)
                (if healthy then lit "allowed-pending-seal" else lit "seal-unavailable-blocked")))
    end.
Proof.
  intros (Hr & Hu & Ha). unfold write_scan_override.
  destruct (Z.eqb_spec reason DLP_REASON_READ); [done|]. rewrite Hu. cbn [orb negb mbind option_bind].
  rewrite bool_decide_eq_true_2 by done. cbn [negb].
  destruct (encrypt_params (usb cfg) d) as [[mode ?] band].
  by destruct (decide_seal mode bands band v), healthy.
Qed.

(** The scans the sealer has no part in. *)
Lemma no_override cfg reason dev bands v path channel healthy :
  (forall d, dev = Some d -> ~ sealed_write cfg reason d) ->
  (if negb (reason =? DLP_REASON_READ) && usb_enabled (usb cfg)
   then write_scan_override reason (usb cfg) bands dev v path channel healthy else None) = None.
Proof.
  intros H. destruct (Z.eqb_spec reason DLP_REASON_READ) as [|Hr]; [done|]. cbn [negb andb].
  destruct (usb_enabled (usb cfg)) eqn:Hu; [|done]. unfold write_scan_override.
  destruct (Z.eqb_spec reason DLP_REASON_READ); [done|]. rewrite Hu. cbn [orb negb].
  destruct dev as [d|]; [|done]. cbn [mbind option_bind].
  rewrite bool_decide_eq_false_2; [done|]. intros Ha. by apply (H d).
Qed.

Lemma not_envelope content : starts_with ENVELOPE_MAGIC content = false -> envelope_passthrough content = None.
Proof. intros H. unfold envelope_passthrough. by rewrite H. Qed.

(** C11: No plaintext reaches an encrypting destination unless it is clean or will be
    sealed.  With the containment bound for writes at most the block bound, a
    write to such a destination is allowed only for content that begins with the
    envelope magic, for content whose verdict is clean under a rule in the
    sensitive mode, or while the sealer is healthy, and then the report says
    that a seal is pending.  With the sealer dead and no bundle everything else
    is blocked, whatever [fail_block] says. *)
Theorem encrypt_destination_fail_secure cfg bundle path content reason healthy d inc :
  sealed_write cfg reason d ->
  f64_ge (kguard_block_at (kguard cfg)) (removable_write_block_at (kguard cfg)) = true ->
  decide_on cfg bundle path content reason healthy (Some d) = Some (false, inc) ->
  (starts_with ENVELOPE_MAGIC content = true /\ inc = None) \/
  (inc = None /\ (encrypt_params (usb cfg) d).1.1 = EncryptSensitive /\
   exists b v, bundle = Some b /\ verdict_bytes content (basename_of path) b = Some v /\
     clean_verdict (encrypt_bands cfg) v) \/
  (healthy = true /\ exists i, inc = Some i /\ device i = d /\ action_taken i = CopyAudit.Audited /\
     inc_note i = Some (lit "allowed-pending-seal")).
Proof.
  intros Hw Hord. unfold decide_on, envelope_passthrough.
  destruct (starts_with ENVELOPE_MAGIC content); [intros ?; simplify_eq; by left|].
  destruct (match bundle with Some b => _ | None => _ end) as [v|] eqn:Hv; [|done].
  cbn [mbind option_bind]. destruct Hw as (Hr & Hu & Ha) eqn:Hw'.
  destruct (Z.eqb_spec reason DLP_REASON_READ); [done|]. rewrite Hu. cbn [negb andb].
  rewrite sealed_write_override by done. clear Hw'.
  pose proof (decide_seal_plain (encrypt_params (usb cfg) d).1.1 (encrypt_bands cfg)
    (encrypt_params (usb cfg) d).2 v) as Hplain.
  pose proof (decide_seal_block (encrypt_params (usb cfg) d).1.1 (encrypt_bands cfg)
    (encrypt_params (usb cfg) d).2 v) as Hblock.
  destruct (encrypt_params (usb cfg) d) as [[mode key] band]. cbn [fst snd] in Hplain, Hblock |- *.
  destruct (decide_seal mode (encrypt_bands cfg) band v).
  - intros ?. simplify_eq. right. left. destruct (proj1 Hplain eq_refl) as (-> & v' & -> & Hc).
    split; [done|]. split; [done|]. destruct bundle as [b|]; [|done].
    exists b, v'. split; [done|]. split; [|done].
    by destruct (verdict_bytes content (basename_of path) b); simplify_eq/=.
  - intros ?. right. right. destruct healthy; [|done]. simplify_eq/=. split; [done|].
    eexists. split; [done|]. unfold seal_incident. by destruct v.
  - destruct (proj1 Hblock eq_refl) as (-> & -> & v' & -> & (format & Hx) & m & Hm & Hb).
    rewrite Hx. cbn [is_unreadable]. intros H. exfalso. simplify_eq.
    apply not_true_iff_false in H. apply H. apply matched_at_spec. right. exists m. split; [done|].
    unfold in_block_band in Hb. cbn in Hb. apply orb_prop in Hb as [Hb|Hb]; [left|by right].
    by eapply f64_ge_trans.
Qed.

(** Every scan the sealer has no part in is decided by the content alone.  An
    envelope passes, without a report.  Without a bundle the answer is the
    [fail_block] setting, without a report, even for a read.  With a verdict, an
    unreadable file blocks exactly on a write under [fail_block]; a readable one
    exactly when it matches at the bounds of its kind of scan.  A report is made
    exactly for what is blocked or unreadable. *)
Theorem scan_decision cfg bundle path content reason healthy dev :
  (forall d, dev = Some d -> ~ sealed_write cfg reason d) ->
  let kg := kguard cfg in
  let run := decide_on cfg bundle path content reason healthy dev in
  match starts_with ENVELOPE_MAGIC content, bundle with
  | true, _ => run = Some (false, None)
  | false, None => run = Some (kguard_fail_block kg, None)
  | false, Some b =>
      forall v, verdict_bytes content (basename_of path) b = Some v ->
      exists block inc, run = Some (block, inc) /\
        (block = true <->
         if is_unreadable (extraction v)
         then reason <> DLP_REASON_READ /\ kguard_fail_block kg = true
         else matched_at (if reason =? DLP_REASON_READ then kguard_block_at kg
                          else removable_write_block_at kg) (kguard_coverage_block_at kg) v) /\
        (inc = None <-> block = false /\ is_unreadable (extraction v) = false) /\
        (forall i, inc = Some i -> inc_verdict i = Some v /\
           action_taken i = if block then CopyAudit.Blocked else CopyAudit.Audited)
  end.
Proof.
  intros Hno kg run. unfold run, decide_on, envelope_passthrough.
  destruct (starts_with ENVELOPE_MAGIC content); [done|].
  destruct bundle as [b|]; [|cbn [mbind option_bind]; by rewrite no_override].
  intros v ->. cbn [fmap option_fmap option_map mbind option_bind]. rewrite no_override by done.
  fold kg. eexists _, _. split; [done|]. split; [|split].
  - destruct (is_unreadable (extraction v)).
    + rewrite andb_true_iff, negb_true_iff, Z.eqb_neq. done.
    + destruct (reason =? DLP_REASON_READ); apply matched_at_spec.
  - unfold incident_for. destruct (if is_unreadable (extraction v) then _ else _);
      [naive_solver|]. destruct (is_unreadable (extraction v)); naive_solver.
  - unfold incident_for. destruct (if is_unreadable (extraction v) then _ else _); [naive_solver|].
    destruct (is_unreadable (extraction v)); naive_solver.
Qed.
End Decisions.

(** ** The watch-set message *)

Lemma lookup_enumerate {A} (l : list A) i : enumerate l !! i = pair i <$> l !! i.
Proof.
  unfold enumerate. rewrite lookup_zip_with. destruct (l !! i) as [x|] eqn:Hi.
  - rewrite lookup_seq_lt by by eapply lookup_lt_Some. done.
  - by destruct (seq 0 (length l) !! i).
Qed.

Definition prefix_units (p : str) : list Z := take DLP_MAX_WATCH_CHARS (encode_utf16 p).
#[local] Arguments prefix_units : simpl never.

Lemma length_prefix_units p : (length (prefix_units p) <= 260)%nat.
Proof. unfold prefix_units. rewrite length_take. unfold DLP_MAX_WATCH_CHARS. lia. Qed.

(** The message after the first prefixes have been put. *)
Record holds_prefixes (kg : KguardConfig) (ps : list str) (c : DlpConfig) : Prop := {
  hp_version : cfg_version c = DLP_CONFIG_VERSION;
  hp_fixed : cfg_scan_fixed c = bool_z (scan_fixed kg);
  hp_network : cfg_scan_network c = bool_z (scan_network kg);
  hp_count : watch_count c = Z.of_nat (length ps);
  hp_len : watch_len c = map (fun p => Z.of_nat (length (prefix_units p))) ps ++
                         replicate (DLP_MAX_WATCH - length ps) 0;
  hp_watch : watch c = map (fun p => prefix_units p ++
                              replicate (DLP_MAX_WATCH_CHARS - length (prefix_units p)) 0) ps ++
                       replicate (DLP_MAX_WATCH - length ps) (replicate DLP_MAX_WATCH_CHARS 0);
}.

Lemma put_prefix_holds kg ps c p :
  (length ps < DLP_MAX_WATCH)%nat -> holds_prefixes kg ps c ->
  holds_prefixes kg (ps ++ [p]) (put_prefix c (length ps, p)).
Proof.
  intros Hlt [Hv Hf Hn Hc Hl Hw]. unfold put_prefix. fold (prefix_units p).
  pose proof (length_prefix_units p) as Hp.
  assert (DLP_MAX_WATCH - length ps = S (DLP_MAX_WATCH - length (ps ++ [p])))%nat as Hs.
  { rewrite length_app. cbn [length]. lia. }
  split; cbn [cfg_version cfg_scan_fixed cfg_scan_network watch_count watch_len watch]; try done.
  - rewrite Hc, length_app. cbn [length]. lia.
  - rewrite Hl, Hs, map_app, <- app_assoc. cbn [replicate map app].
    rewrite insert_app_r_alt by by rewrite length_map. rewrite length_map, Nat.sub_diag. cbn.
    do 2 f_equal. apply Z.mod_small. unfold U16. lia.
  - rewrite Hw, Hs, map_app, <- app_assoc. cbn [replicate map app].
    rewrite alter_app_r_alt by by rewrite length_map. rewrite length_map, Nat.sub_diag. cbn.
    do 2 f_equal. unfold copy_prefix. f_equal. exact (drop_replicate (length (prefix_units p)) DLP_MAX_WATCH_CHARS 0).
Qed.

Lemma from_kguard_holds kg :
  holds_prefixes kg (take DLP_MAX_WATCH (watch_paths kg)) (from_kguard kg).
Proof.
  unfold from_kguard. set (ps := take DLP_MAX_WATCH (watch_paths kg)).
  assert (length ps <= DLP_MAX_WATCH)%nat as Hps by (unfold ps; rewrite length_take; lia).
  clearbody ps. induction ps as [|p ps IH] using rev_ind; [by split|].
  unfold enumerate. rewrite length_app in *. cbn [length] in *. rewrite seq_app, zip_with_app
    by by rewrite length_seq. rewrite foldl_app. cbn [seq zip_with foldl].
  apply put_prefix_holds; [lia|]. apply IH. lia.
Qed.

Lemma length_concat_rows n rows :
  Forall (fun r => length r = n) rows ->
  length (concat (map encode_units rows)) = (2 * n * length rows)%nat.
Proof.
  induction 1 as [|r rows Hr _ IH]; [cbn; lia|]. cbn [map concat length].
  rewrite length_app, length_encode_units, IH, Hr. lia.
Qed.

(** The message sent to the driver is 8368 bytes long and carries the first
    sixteen watched prefixes, in order: each row holds the prefix's first 260
    UTF-16 units followed by zeros, and its length field that number of units;
    the rows beyond the count are zero.  A prefix of at most 260 units decodes
    to itself. *)
Theorem from_kguard_carries_prefixes kg :
  let c := from_kguard kg in
  let ps := take DLP_MAX_WATCH (watch_paths kg) in
  Z.of_nat (length (encode_config c)) = 8368 /\ watch_count c = Z.of_nat (length ps) /\
  (forall i, (i < DLP_MAX_WATCH)%nat ->
     exists n row, watch_len c !! i = Some (Z.of_nat n) /\ watch c !! i = Some row /\
       (n <= DLP_MAX_WATCH_CHARS)%nat /\ length row = DLP_MAX_WATCH_CHARS /\
       drop n row = replicate (DLP_MAX_WATCH_CHARS - n) 0 /\
       match ps !! i with
       | None => n = 0%nat
       | Some p =>
           take n row = take DLP_MAX_WATCH_CHARS (encode_utf16 p) /\
           (forallb is_scalar p = true -> (length (encode_utf16 p) <= DLP_MAX_WATCH_CHARS)%nat ->
            from_utf16_lossy (take n row) = p)
       end).
Proof.
  intros c ps. destruct (from_kguard_holds kg) as [Hv Hf Hn Hc Hl Hw]. fold c ps in Hv, Hf, Hn, Hc, Hl, Hw.
  assert (length ps <= DLP_MAX_WATCH)%nat as Hps by (unfold ps; rewrite length_take; lia).
  assert (forall i, (i < DLP_MAX_WATCH)%nat -> watch_len c !! i = Some (Z.of_nat (length (default [] (prefix_units <$> ps !! i))))
    /\ watch c !! i = Some (default [] (prefix_units <$> ps !! i) ++
         replicate (DLP_MAX_WATCH_CHARS - length (default [] (prefix_units <$> ps !! i))) 0)) as Hrow.
  { intros i Hi. rewrite Hl, Hw. destruct (ps !! i) as [p|] eqn:Hp; cbn [fmap option_fmap option_map default from_option id].
    - assert (i < length ps)%nat by (by eapply lookup_lt_Some).
      rewrite !lookup_app_l by by rewrite length_map. by rewrite !list_lookup_fmap, Hp.
    - apply lookup_ge_None in Hp. rewrite !lookup_app_r by by rewrite length_map.
      rewrite !length_map, !lookup_replicate_2 by lia. by rewrite Nat.sub_0_r. }
  split; [|split; [done|]].
  - unfold encode_config. rewrite !length_app, !length_to_le_bytes, length_encode_units, (length_concat_rows DLP_MAX_WATCH_CHARS).
    + rewrite Hl, length_app, length_map, length_replicate. unfold DLP_MAX_WATCH in *.
      rewrite Hw, length_app, length_map, length_replicate. unfold DLP_MAX_WATCH, DLP_MAX_WATCH_CHARS. lia.
    + rewrite Hw. apply Forall_app. split.
      * apply Forall_map, Forall_forall. intros p _. rewrite length_app, length_replicate.
        pose proof (length_prefix_units p). unfold DLP_MAX_WATCH_CHARS. lia.
      * apply Forall_replicate, length_replicate.
  - intros i Hi. destruct (Hrow i Hi) as [H1 H2]. eexists _, _. split; [exact H1|]. split; [exact H2|].
    assert (length (default [] (prefix_units <$> ps !! i)) <= DLP_MAX_WATCH_CHARS)%nat as Hle.
    { destruct (ps !! i) as [p|]; cbn; [apply length_prefix_units|lia]. }
    split; [done|]. split; [rewrite length_app, length_replicate; lia|].
    rewrite drop_app_length, take_app_length. split; [done|].
    destruct (ps !! i) as [p|]; [|done]. cbn [fmap option_fmap option_map default from_option id].
    split; [done|]. intros Hsc Hlen. unfold prefix_units. rewrite firstn_all2 by done.
    by apply from_encode_utf16.
Qed.

(** ** The volume of a path *)

(** The device name that a letter stands for. *)
Definition device_of (query : str -> option (list Z)) (letter target : str) : Prop :=
  exists i buf e, (i < 26)%nat /\ letter = letter_name i /\ query letter = Some buf /\
    position (fun c => c =? 0) buf = Some e /\ (0 < e)%nat /\
    target = map ascii_upper (from_utf16_lossy (take e buf)).

(** [path] is on the device, or is the device itself. *)
Definition on_device (path target : str) : Prop :=
  exists rest, map ascii_upper path = target ++ rest /\ (rest = [] \/ exists r, rest = 92 :: r).

Lemma claims_spec path target : claims (map ascii_upper path) target = true <-> on_device path target.
Proof.
  unfold claims, on_device. destruct (strip_prefix target _) as [rest|] eqn:H.
  - apply strip_prefix_Some in H. rewrite H. split.
    + intros Hc. exists rest. split; [done|]. destruct rest as [|c r]; [by left|right].
      cbn [str_is_empty starts_with strip_prefix orb] in Hc. unfold starts_with in Hc.
      cbn [strip_prefix] in Hc. destruct (Z.eqb_spec 92 c) as [<-|]; [by exists r|done].
    + intros (rest' & He & Hr). apply app_inv_head in He as <-. by destruct Hr as [->|[r ->]].
  - split; [done|]. intros (rest & He & _). apply strip_prefix_Some in He. congruence.
Qed.

Lemma add_letter_spec q m i t l :
  (i < 26)%nat ->
  add_letter q m i !! t = Some l <->
  (device_of q (letter_name i) t /\ l = letter_name i) \/
  (~ device_of q (letter_name i) t /\ m !! t = Some l).
Proof.
  intros Hi. unfold add_letter, device_of.
  assert (forall j, letter_name i = letter_name j -> i = j) as Hinj.
  { intros j [= H]. lia. }
  destruct (q (letter_name i)) as [buf|] eqn:Hq.
  - destruct (position (fun c => c =? 0) buf) as [e|] eqn:He; cbn [default from_option id].
    + destruct (Nat.ltb_spec 0 e).
      * destruct (list_eq_dec (map ascii_upper (from_utf16_lossy (take e buf))) t) as [<-|Hne].
        -- rewrite lookup_insert_eq. split; [intros [= <-]; left|]; [split; [|done]; by exists i, buf, e|].
           intros [[_ ->]|[Hn _]]; [done|]. exfalso. apply Hn. by exists i, buf, e.
        -- rewrite lookup_insert_ne by done. split; [right; split; [|done]|].
           ++ intros (j & buf' & e' & _ & Hj & Hb & Hp & _ & ->). simplify_eq.
           ++ intros [[(j & buf' & e' & _ & Hj & Hb & Hp & _ & ->) _]|[_ ?]]; [|done]. simplify_eq.
      * split; [right; split; [|done]|intros [[(j & buf' & e' & H') _]|[_ ?]]; [|done]].
        -- intros (j & buf' & e' & _ & _ & Hb & Hp & ? & _). simplify_eq. lia.
        -- destruct H' as (_ & _ & Hb & Hp & ? & _). simplify_eq. lia.
    + cbn. split; [right; split; [|done]|intros [[(j & buf' & e' & H') _]|[_ ?]]; [|done]].
      * intros (j & buf' & e' & _ & _ & Hb & Hp & _). simplify_eq.
      * destruct H' as (_ & _ & Hb & Hp & _). simplify_eq.
  - split; [right; split; [|done]|intros [[(j & buf' & e' & H') _]|[_ ?]]; [|done]].
    + intros (j & buf' & e' & _ & _ & Hb & _). congruence.
    + destruct H' as (_ & _ & Hb & _). congruence.
Qed.

Lemma build_map_spec q t :
  (forall l, build_map q !! t = Some l -> device_of q l t) /\
  (forall l, device_of q l t -> is_Some (build_map q !! t)).
Proof.
  unfold build_map.
  assert (forall idx, Forall (fun i => i < 26)%nat idx ->
    (forall l, foldl (add_letter q) ∅ idx !! t = Some l -> device_of q l t) /\
    (forall i, i ∈ idx -> device_of q (letter_name i) t -> is_Some (foldl (add_letter q) ∅ idx !! t))) as H.
  { intros idx. induction idx as [|j idx IH] using rev_ind; intros Hall.
    - split; [done|]. by intros i Hi%not_elem_of_nil.
    - apply Forall_app in Hall as [Hall Hj]. rewrite Forall_singleton in Hj.
      destruct (IH Hall) as [IH1 IH2]. rewrite foldl_app. cbn [foldl]. split.
      + intros l Hl. apply (add_letter_spec q _ j t l Hj) in Hl as [[Hd ->]|[_ Hl]]; [done|by apply IH1].
      + intros i Hi Hd. destruct (add_letter q (foldl (add_letter q) ∅ idx) j !! t) as [l|] eqn:Hl; [done|].
        exfalso. apply elem_of_app in Hi as [Hi|Hi%list_elem_of_singleton].
        * destruct (IH2 i Hi Hd) as [l Hl'].
          assert (~ device_of q (letter_name j) t) as Hn.
          { intros Hd'. assert (add_letter q (foldl (add_letter q) ∅ idx) j !! t = Some (letter_name j))
              by (apply (add_letter_spec q _ j t _ Hj); by left). congruence. }
          assert (add_letter q (foldl (add_letter q) ∅ idx) j !! t = Some l)
            by (apply (add_letter_spec q _ j t _ Hj); by right). congruence.
        * subst i. assert (add_letter q (foldl (add_letter q) ∅ idx) j !! t = Some (letter_name j))
            by (apply (add_letter_spec q _ j t _ Hj); by left). congruence. }
  destruct (H (seq 0 26)) as [H1 H2].
  { apply Forall_forall. intros i Hi%elem_of_seq. lia. }
  split; [exact H1|]. intros l Hd. pose proof Hd as (i & ? & ? & Hi & -> & _). apply (H2 i); [|done].
  apply elem_of_seq. lia.
Qed.

Lemma letter_for_nt_prefix_spec entries path :
  match letter_for_nt_prefix entries path with
  | Some l => exists t, (t, l) ∈ entries /\ on_device path t
  | None => forall t l, (t, l) ∈ entries -> ~ on_device path t
  end.
Proof.
  unfold letter_for_nt_prefix. destruct (List.find _ entries) as [[t l]|] eqn:Hf; cbn.
  - apply List.find_some in Hf as [Hin Hc]. exists t. split; [by apply list_elem_of_In|].
    by apply claims_spec.
  - intros t l Hin Hd. apply claims_spec in Hd.
    apply list_elem_of_In in Hin. apply (List.find_none _ _ Hf) in Hin. cbn in Hin. congruence.
Qed.

Lemma lookup_current q path :
  match letter_for_nt_prefix (map_to_list (build_map q)) path with
  | Some l => exists t, device_of q l t /\ on_device path t
  | None => forall l t, device_of q l t -> ~ on_device path t
  end.
Proof.
  pose proof (letter_for_nt_prefix_spec (map_to_list (build_map q)) path) as H.
  destruct (letter_for_nt_prefix _ path) as [l|].
  - destruct H as (t & Hin & Ho). apply elem_of_map_to_list in Hin.
    exists t. split; [by apply build_map_spec|done].
  - intros l t Hd. destruct (proj2 (build_map_spec q t) l Hd) as [l' Hl].
    apply (H t l'). by apply elem_of_map_to_list.
Qed.

(** A path resolves to a letter only when that letter's device is a prefix of
    the path at a component boundary (volume 1 never claims volume 10), now or
    when the cache was built; when it resolves to none, no letter's device
    claims it now.  A miss in the cache queries every letter again, so a newly
    mounted volume is found. *)
Theorem nt_path_resolution query path cache :
  (forall m, cache = Some m -> exists q, m = build_map q) ->
  let '(letter, cache') := drive_letter_for_nt_path query path cache in
  (exists q, cache' = Some (build_map q) /\
     (q = query \/ cache = Some (build_map q) /\ letter <> None) /\
     forall l, letter = Some l -> exists t, device_of q l t /\ on_device path t) /\
  (letter = None -> forall l t, device_of query l t -> ~ on_device path t).
Proof.
  intros Hc. unfold drive_letter_for_nt_path.
  pose proof (lookup_current query path) as Hnow.
  assert (let letter := letter_for_nt_prefix (map_to_list (build_map query)) path in
    (exists q, Some (build_map query) = Some (build_map q) /\
       (q = query \/ cache = Some (build_map q) /\ letter <> None) /\
       forall l, letter = Some l -> exists t, device_of q l t /\ on_device path t) /\
    (letter = None -> forall l t, device_of query l t -> ~ on_device path t)) as Hmiss.
  { cbv zeta. split.
    - exists query. split; [done|]. split; [by left|]. intros l Hl. by rewrite Hl in Hnow.
    - intros Hl. by rewrite Hl in Hnow. }
  destruct cache as [m|]; cbn [mbind option_bind]; [|exact Hmiss].
  destruct (Hc m eq_refl) as [q ->]. pose proof (lookup_current q path) as Hold.
  destruct (letter_for_nt_prefix (map_to_list (build_map q)) path) as [l|]; [|exact Hmiss].
  split; [|done]. exists q. split; [done|]. split; [by right|]. by intros ? [= <-].
Qed.

(** ** Samples *)

Definition guard_config : Config :=
  let u := usb sample_config in
  {| server_url := lit "https://s"; enrollment_token := None; ca_cert_path := lit "ca";
     state_dir := lit "d"; checkin_interval_seconds := default_checkin;
     usb := {| usb_enabled := true; poll_interval_secs := poll_interval_secs u;
               usb_settle_ms := usb_settle_ms u; settle_timeout_secs := settle_timeout_secs u;
               max_file_bytes := max_file_bytes u; usb_default_action := usb_default_action u;
               usb_channel_label := usb_channel_label u; mtp_action := mtp_action u;
               tethering_action := tethering_action u; usb_rules := usb_rules u |};
     kguard := default_kguard; clipboard := default_clipboard; netfilter := default_netfilter;
     notify := default_notify; crypto := default_crypto; webupload := [] |}.

(** A device table with one volume on E:. *)
Definition sample_query (letter : str) : option (list Z) :=
  if bool_decide (letter = lit "E:") then Some (lit "\Device\HarddiskVolume1" ++ [0; 0]) else None.

(** A read of a file that holds a protected text. *)
Definition sample_message : DriverMessage :=
  let path := lit "\Device\HarddiskVolume1\a.txt" in
  {| dm_reply_length := 0; dm_pad := 0; dm_id := 7;
     dm_req := {| req_version := 2; req_reason := 1; file_id := 9; process_id := 42;
       path_length := 2 * Z.of_nat (length path); pad := 0;
       req_path := path ++ replicate (DLP_MAX_PATH_CHARS - length path) 0;
       content_length := 13; truncated := 0 |};
     dm_content := lit "Secret: PLAN!" |}.
Definition sample_turn : Turn :=
  {| t_stop := false; t_recv := Some (encode_message sample_message); t_config := Clean guard_config;
     t_health := None; t_now_ms := 0; t_query := sample_query; t_identity := fun _ => Some stick |}.

Lemma sample_message_wf : message_wf sample_message.
Proof.
  repeat split; try (vm_compute; congruence).
  apply Forall_forall. intros u Hu.
  assert (forallb (fun u => (0 <=? u) && (u <? U16)) (req_path (dm_req sample_message)) = true) as H
    by (vm_compute; reflexivity).
  rewrite List.forallb_forall in H. apply list_elem_of_In in Hu. specialize (H u Hu). bool_hyps. lia.
Qed.

Lemma every_message_answered_witness :
  Forall delivers [(sample_turn, Some sample_message)] /\
  exists inc, message_loop (D := toy_digest) (U := ascii_unicode) (E := sample_archive)
      (Some idm_sample) [sample_turn] =
    ([EffReply 7 {| reply_file_id := 9; reply_verdict := 1 |}; EffReset 42; EffReport inc], LoopWaits) /\
    inc_note inc = Some (lit "read-taint") /\ kind inc = Match.
Proof.
  assert (Forall delivers [(sample_turn, Some sample_message)]) as Hts.
  { constructor; [|constructor]. split; [reflexivity|]. intros m [= <-]. exact sample_message_wf. }
  split; [exact Hts|].
  destruct (every_message_answered (D := toy_digest) (U := ascii_unicode) (E := sample_archive)
    (Some idm_sample) ltac:(intros b [= <-]; exact idm_sample_wf) _ Hts) as (ans & Ha & Hr & _).
  cbn [map fst] in Hr. rewrite Hr. clear Hr.
  change (handled [(sample_turn, Some sample_message)]) with
    ([(sample_turn, sample_message)], LoopWaits) in *.
  cbn [fst snd] in *. inversion Ha as [|? a ? ans' (cache & cache' & Hans) Hnil]; subst.
  inversion Hnil; subst. vm_compute in Hans. injection Hans as <- <-.
  eexists. split; [vm_compute; reflexivity|]. split; vm_compute; reflexivity.
Defined.

Lemma encrypt_destination_fail_secure_witness :
  sealed_write guard_config DLP_REASON_WRITE stick /\
  exists inc, decide_on (D := toy_digest) (U := ascii_unicode) (E := sample_archive) guard_config
      (Some idm_sample) (lit "E:\a.txt") (lit "Secret: PLAN!") DLP_REASON_WRITE true (Some stick) =
    Some (false, inc) /\
    exists i, inc = Some i /\ device i = stick /\ inc_note i = Some (lit "allowed-pending-seal").
Proof.
  assert (sealed_write guard_config DLP_REASON_WRITE stick) as Hw
    by (split; [done|split; vm_compute; reflexivity]).
  split; [exact Hw|]. eexists. split; [vm_compute; reflexivity|].
  destruct (encrypt_destination_fail_secure (D := toy_digest) (U := ascii_unicode) (E := sample_archive)
    guard_config (Some idm_sample) (lit "E:\a.txt") (lit "Secret: PLAN!") DLP_REASON_WRITE true stick _
    Hw ltac:(vm_compute; reflexivity) ltac:(vm_compute; reflexivity))
    as [[H _]|[(_ & H & _)|(_ & i & Hi & Hd & _ & Hn)]].
  - vm_compute in H. discriminate.
  - vm_compute in H. discriminate.
  - exists i. done.
Defined.

Lemma scan_decision_witness :
  (forall d, None = Some d -> ~ sealed_write guard_config DLP_REASON_READ d) /\
  exists block inc,
    decide_on (D := toy_digest) (U := ascii_unicode) (E := sample_archive) guard_config
      (Some idm_sample) (lit "E:\a.txt") (lit "Secret: PLAN!") DLP_REASON_READ false None =
      Some (block, inc) /\ block = true.
Proof.
  assert (forall d, None = Some d -> ~ sealed_write guard_config DLP_REASON_READ d) as Hno by done.
  split; [exact Hno|].
  pose proof (scan_decision (D := toy_digest) (U := ascii_unicode) (E := sample_archive) guard_config
    (Some idm_sample) (lit "E:\a.txt") (lit "Secret: PLAN!") DLP_REASON_READ false None Hno) as H.
  cbv zeta in H. change (starts_with ENVELOPE_MAGIC (lit "Secret: PLAN!")) with false in H. cbv iota in H.
  edestruct H as (block & inc & Hr & Hb & _); [vm_compute; reflexivity|].
  exists block, inc. split; [exact Hr|]. apply Hb. vm_compute. right. eexists. split; [by left|].
  by left.
Defined.

Lemma nt_path_resolution_witness :
  (forall m, None = Some m -> exists q, m = build_map q) /\
  (drive_letter_for_nt_path sample_query (lit "\Device\HarddiskVolume1\a.txt") None).1 = Some (lit "E:") /\
  (forall l t, device_of sample_query l t -> ~ on_device (lit "\Device\HarddiskVolume10\a.txt") t).
Proof.
  assert (forall m : gmap str str, None = Some m -> exists q, m = build_map q) as Hc by done.
  split; [exact Hc|]. split; [vm_compute; reflexivity|].
  pose proof (nt_path_resolution sample_query (lit "\Device\HarddiskVolume10\a.txt") None Hc) as H.
  destruct (drive_letter_for_nt_path _ _ _) as [letter cache] eqn:He. destruct H as [_ H].
  apply H. assert (letter = (drive_letter_for_nt_path sample_query
    (lit "\Device\HarddiskVolume10\a.txt") None).1) as -> by by rewrite He.
  vm_compute. reflexivity.
Defined.
