(* ===== verification/Promise.v ===== *)
(** The promise of an encrypting destination: what the kernel guard lets through
    "pending a seal" ([src/kguard/mod.rs], [write_scan_override]) against what the
    USB monitor then does with the file ([src/usb/mod.rs], [run_monitor]).  The two
    run in one process and meet only in the configuration, the bundle and the
    volume. *)

From S2P Require Import Prelude Words Text F64 Unicode Fingerprint Bundle Edm Extract Verdict.
From S2P Require Import TrustDest Device UsbPolicy Enforce Watch Supervise Crypto CopyAudit.
From S2P Require Import Config TrustSync UsbMonitor KGuard.
#[local] Open Scope Z_scope.

Section Promise.
Context {D : Digest} {U : Unicode} {E : ExtractEnv} {W : WinApi}.
Context (verdict_src : Bundle -> Path -> result str Verdict).
Context (sealer : Path -> str -> result str SealOutcome).

(** What a seal promised is: an allowed write, reported as pending. *)
Definition promised (cfg : Config) (bundle : option Bundle) (path : str) (content : bytes)
    (reason : Z) (healthy : bool) (dev : DeviceIdentity) : Prop :=
  exists inc, decide_on cfg bundle path content reason healthy (Some dev) = Some (false, Some inc) /\
    inc_note inc = Some (lit "allowed-pending-seal").

(** Behind a promise there is a decision to seal, for a verdict of that content. *)
Lemma promised_seal cfg bundle path content reason healthy dev :
  promised cfg bundle path content reason healthy dev ->
  sealed_write cfg reason dev /\ healthy = true /\
  exists v, (match bundle with Some b => Some <$> verdict_bytes content (basename_of path) b
                             | None => Some None end) = Some v /\
    decide_seal (encrypt_params (usb cfg) dev).1.1 (encrypt_bands cfg) (encrypt_params (usb cfg) dev).2 v = Seal.
Proof.
  intros (inc & H & Hn). unfold decide_on, envelope_passthrough in H.
  destruct (starts_with ENVELOPE_MAGIC content); [done|].
  destruct (match bundle with Some b => _ | None => _ end) as [v|]; [|done].
  cbn [mbind option_bind] in H.
  assert (forall o, match o with Some answer => Some answer | None =>
      match v with
      | Some v => Some ((if is_unreadable (extraction v)
            then negb (reason =? DLP_REASON_READ) && kguard_fail_block (kguard cfg)
            else if reason =? DLP_REASON_READ then should_block v (kguard cfg)
            else should_block_removable_write v (kguard cfg)),
          incident_for path v (if is_unreadable (extraction v)
            then negb (reason =? DLP_REASON_READ) && kguard_fail_block (kguard cfg)
            else if reason =? DLP_REASON_READ then should_block v (kguard cfg)
            else should_block_removable_write v (kguard cfg)) (kguard_channel_label (kguard cfg)) reason)
      | None => Some (kguard_fail_block (kguard cfg), None)
      end end = Some (false, Some inc) -> o = Some (false, Some inc)) as Ho.
  { intros [a|] Ha; [done|]. destruct v as [v|]; [|done]. injection Ha as E1 E2. rewrite E1 in E2.
    unfold incident_for in E2. destruct (is_unreadable (extraction v)); [|done]. by injection E2 as <-. }
  apply Ho in H. clear Ho.
  destruct (Z.eqb_spec reason DLP_REASON_READ) as [|Hr]; [done|]. cbn [negb andb] in H.
  destruct (usb_enabled (usb cfg)) eqn:Hu; [|done]. unfold write_scan_override in H.
  rewrite (proj2 (Z.eqb_neq _ _) Hr), Hu in H. cbn [negb orb mbind option_bind] in H.
  destruct (bool_decide_reflect ((UsbPolicy.decide (to_policy (usb cfg)) dev).1 = Encrypt)) as [He|]; [|done].
  cbn [negb] in H. destruct (encrypt_params (usb cfg) dev) as [[mode key] band]. cbn [fst snd].
  destruct (decide_seal mode (encrypt_bands cfg) band v) eqn:Hd; [done| |done].
  destruct healthy; [|done]. split; [done|]. split; [done|]. by exists v.
Qed.

(** The volume the monitor watches for that device. *)
Definition sealing_watch (cfg : Config) (dev : DeviceIdentity) : EncryptVolume :=
  let '(mode, key_id, band) := encrypt_params (usb cfg) dev in
  {| ev_mode := mode; ev_key_id := default (default_key_id (crypto cfg)) key_id; ev_on_block_band := band |}.

Lemma sealed_write_watched cfg reason dev b :
  sealed_write cfg reason dev ->
  expected_watch cfg (Some b) dev = Some (dev, Encrypt, Some (sealing_watch cfg dev)).
Proof.
  intros (_ & _ & He). unfold expected_watch, disposition, sealing_watch.
  destruct (UsbPolicy.decide (to_policy (usb cfg)) dev) as [act r]. cbn [fst] in He. subst act.
  rewrite bool_decide_eq_false_2, bool_decide_eq_true_2 by done.
  by destruct (encrypt_params (usb cfg) dev) as [[? ?] ?].
Qed.

(** What becomes of a settled file whose verdict says seal. *)
Definition seal_kept (cfg : Config) (dev : DeviceIdentity) (s : Settled) (i : UsbIncident) : Prop :=
  device i = dev /\ channel i = usb_channel_label (usb cfg) /\
  if max_file_bytes (usb cfg) <? settled_size s
  then kind i = SkippedTooLarge /\ action_taken i = CopyAudit.Audited
  else
    match sealer (settled_path s) (ev_key_id (sealing_watch cfg dev)) with
    | Ok out => action_taken i = Encrypted /\ inc_key_id i = Some (out_key_id out) /\
                sealed_sha256 i = Some (out_sealed_sha256 out)
    | Err e => kind i = EnforcementFailed /\ action_taken i = CopyAudit.Audited /\
               inc_note i = Some (lit "seal-failed(plaintext-kept): " ++ e)
    end.

Lemma audit_settled_seals cfg b va dev s v :
  watched va = (dev, Encrypt, Some (sealing_watch cfg dev)) ->
  decide_seal (ev_mode (sealing_watch cfg dev)) (encrypt_bands cfg)
    (ev_on_block_band (sealing_watch cfg dev)) v = Seal ->
  res_ok (verdict_src b (settled_path s)) = v ->
  exists i, audit_settled verdict_src sealer cfg (Some b) va [s] = [i] /\ seal_kept cfg dev s i.
Proof.
  intros Hw Hd Hv. unfold watched in Hw. injection Hw as Hdev _ Henc.
  unfold audit_settled. rewrite Henc, Hdev. cbn [omap list_omap].
  unfold scan_and_seal_to_incident, seal_kept. rewrite Hv, Hd.
  destruct (max_file_bytes (usb cfg) <? settled_size s); [by eexists|].
  destruct (sealer _ _); by eexists.
Qed.

(** The claim below, as a lemma for the endpoint. *)
Lemma promise_kept cfg b enforce turns sys health0 path content reason healthy dev :
  Forall (fun t => snapshot_wf (in_volumes (mt_input t))) turns ->
  let '(m, sys', out, health') :=
    run_monitor verdict_src sealer enforce (Some b) turns monitor_start sys health0 in
  let polls := take_while (fun t => negb (mt_stop t)) turns in
  Forall (fun t => turn_config t = cfg) polls ->
  (last polls ≫= fun t => mounted t (drive_letter dev)) = Some dev ->
  promised cfg (Some b) path content reason healthy dev ->
  exists va, auditors m !! drive_letter dev = Some va /\
    watched va = (dev, Encrypt, Some (sealing_watch cfg dev)) /\
    forall s, res_ok (verdict_src b (settled_path s)) = verdict_bytes content (basename_of path) b ->
      exists i, audit_settled verdict_src sealer cfg (Some b) va [s] = [i] /\ seal_kept cfg dev s i.
Proof.
  intros Hall. assert (watches (Some b) [] monitor_start) as Hstart by (split; [constructor|done]).
  pose proof (run_monitor_watches verdict_src sealer enforce (Some b) turns [] monitor_start sys health0 Hall Hstart) as H.
  destruct (run_monitor _ _ _ _ _ _ _ _) as [[[m s'] out] h']. cbv zeta in *.
  set (polls := take_while _ turns) in *. rewrite app_nil_r in H. destruct H as ((_ & _ & Hw) & _).
  intros Hcfg Hm Hp. apply promised_seal in Hp as (Hs & _ & v & Hv & Hd).
  specialize (Hw (drive_letter dev)). unfold watch_of in Hw.
  rewrite (arrived_constant cfg) in Hw by by apply Forall_rev.
  assert (head (rev polls) = last polls) as Hhd.
  { clear. induction polls as [|x l IH] using rev_ind; [done|]. by rewrite rev_app_distr, last_snoc. }
  rewrite Hhd, Hm in Hw. cbn [fmap option_fmap option_map mbind option_bind] in Hw.
  rewrite (sealed_write_watched cfg reason dev b Hs) in Hw.
  destruct (auditors m !! drive_letter dev) as [va|] eqn:Hva; [|done]. injection Hw as Hw1 Hw2 Hw3.
  exists va. split; [done|]. unfold watched at 1. rewrite Hw1, Hw2, Hw3. split; [done|].
  intros s Hres. destruct (verdict_bytes content (basename_of path) b) as [vv|] eqn:Hvv; [|done].
  cbn in Hv. injection Hv as <-. apply (audit_settled_seals cfg b va dev s (Some vv)); [|..|done].
  - unfold watched. by rewrite Hw1, Hw2, Hw3.
  - revert Hd. unfold sealing_watch. by destruct (encrypt_params (usb cfg) dev) as [[? ?] ?].
Qed.

(** C18: The guard's promise is kept, with a bundle loaded and the configuration the same
    at every poll of the monitor.  Take a write that the guard lets through pending a
    seal, to a device that the last poll found mounted (listings that name no
    drive twice).  The monitor watches that volume for sealing with the same mode,
    key and band; and any file that settles there whose verdict then is the one
    the guard had is sealed and reported as encrypted with the hash of the sealed
    bytes.  The only exceptions are reported too: a sealer that fails, which keeps
    the plaintext, and a file above the size limit, which is never read.  Without a
    bundle the promise can be broken ([promise_without_bundle]). *)
Theorem pending_seal_kept cfg b enforce turns sys health0 path content reason healthy dev :
  Forall (fun t => snapshot_wf (in_volumes (mt_input t))) turns ->
  let '(m, sys', out, health') :=
    run_monitor verdict_src sealer enforce (Some b) turns monitor_start sys health0 in
  let polls := take_while (fun t => negb (mt_stop t)) turns in
  Forall (fun t => turn_config t = cfg) polls ->
  (last polls ≫= fun t => mounted t (drive_letter dev)) = Some dev ->
  promised cfg (Some b) path content reason healthy dev ->
  exists va, auditors m !! drive_letter dev = Some va /\
    watched va = (dev, Encrypt, Some (sealing_watch cfg dev)) /\
    forall s, res_ok (verdict_src b (settled_path s)) = verdict_bytes content (basename_of path) b ->
      exists i, audit_settled verdict_src sealer cfg (Some b) va [s] = [i] /\ seal_kept cfg dev s i.
Proof. apply promise_kept. Qed.

(** Without a bundle the promise is not kept when the default action is stricter
    than sealing: the guard still lets the write through, but the volume is not
    watched for sealing. *)
Lemma promise_without_bundle cfg path content reason dev :
  sealed_write cfg reason dev -> starts_with ENVELOPE_MAGIC content = false ->
  restrictiveness Encrypt < restrictiveness (usb_default_action (usb cfg)) ->
  promised cfg None path content reason true dev /\
  forall va, Some va = expected_watch cfg None dev -> va.2 = None.
Proof.
  intros Hs He Hr. split.
  - unfold promised, decide_on. rewrite not_envelope by done. cbn [mbind option_bind].
    destruct Hs as (Hrd & Hu & Ha) eqn:HS. rewrite (proj2 (Z.eqb_neq _ _) Hrd), Hu. cbn [negb andb].
    rewrite sealed_write_override by done. destruct (encrypt_params (usb cfg) dev) as [[mode key] band].
    assert (decide_seal mode (encrypt_bands cfg) band None = Seal) as -> by by destruct mode.
    by eexists.
  - intros va. unfold expected_watch, disposition. destruct Hs as (_ & _ & Ha).
    destruct (UsbPolicy.decide (to_policy (usb cfg)) dev) as [act r]. cbn [fst] in Ha. subst act.
    change (default_action (to_policy (usb cfg))) with (usb_default_action (usb cfg)).
    unfold max_restrictive. destruct (usb_default_action (usb cfg)); cbn in Hr |- *; try lia; naive_solver.
Qed.
End Promise.

(** A text written to a whitelisted stick, and its seal. *)
Definition promise_turns : list MonitorTurn :=
  [{| mt_stop := false; mt_config := Clean sample_config; mt_input := quiet_poll 5 [] |};
   {| mt_stop := false; mt_config := Clean sample_config; mt_input := quiet_poll 7 [stick] |}].
Definition promise_sealer (_ : Path) (key_id : str) : result str SealOutcome :=
  Ok {| out_key_id := key_id; out_plaintext_sha256 := lit "p"; out_sealed_sha256 := lit "s" |}.
Definition promise_verdict (b : Bundle) (_ : Path) : result str Verdict :=
  match verdict_bytes (D := toy_digest) (U := ascii_unicode) (X := sample_archive)
          (lit "a note") (lit "a.txt") b with
  | Some v => Ok v
  | None => Err []
  end.
Definition promise_file : Settled :=
  {| settled_path := [lit "E:"; lit "a.txt"]; settled_size := 6; CopyAudit.by_timeout := false |}.

Lemma pending_seal_kept_witness :
  promised (D := toy_digest) (U := ascii_unicode) (E := sample_archive) sample_config (Some idm_sample)
    (lit "E:\a.txt") (lit "a note") DLP_REASON_WRITE true stick /\
  exists va i, auditors (run_monitor (W := all_ok) promise_verdict promise_sealer true (Some idm_sample)
      promise_turns monitor_start {| registry := ∅; dismounted := [] |} (SealerHealth_new true)).1.1.1 !! lit "E:" = Some va /\
    audit_settled promise_verdict promise_sealer sample_config (Some idm_sample) va [promise_file] = [i] /\
    action_taken i = Encrypted /\ inc_key_id i = Some (lit "class-internal/v1") /\
    sealed_sha256 i = Some (lit "s").
Proof.
  assert (promised (D := toy_digest) (U := ascii_unicode) (E := sample_archive) sample_config (Some idm_sample)
    (lit "E:\a.txt") (lit "a note") DLP_REASON_WRITE true stick) as Hp.
  { eexists. split; vm_compute; reflexivity. }
  split; [exact Hp|].
  pose proof (pending_seal_kept (D := toy_digest) (U := ascii_unicode) (E := sample_archive) (W := all_ok)
    promise_verdict promise_sealer sample_config idm_sample true promise_turns
    {| registry := ∅; dismounted := [] |} (SealerHealth_new true)
    (lit "E:\a.txt") (lit "a note") DLP_REASON_WRITE true stick) as H.
  specialize (H ltac:(repeat constructor; cbn; set_solver)).
  destruct (run_monitor _ _ _ _ _ _ _ _) as [[[m s] o] h].
  destruct (H ltac:(repeat constructor) eq_refl Hp) as (va & Hva & Hw & Hs).
  destruct (Hs promise_file ltac:(vm_compute; reflexivity)) as (i & Hi & _ & _ & Hk).
  exists va, i. split; [exact Hva|]. split; [exact Hi|]. exact Hk.
Defined.
