(* ===== verification/BrowserHost.v ===== *)
(** The browser native-messaging host ([src/browser_host.rs]): the framing, the
    mapping of a verdict to a web disposition, one request and the serve loop.
    JSON, base64, the host's path syntax and the scanners are parameters; the
    pipe is the bytes it delivers before it ends or fails. *)

From S2P Require Import Prelude Words Text F64 Unicode Fingerprint Bundle Edm Utf8 Extract Verdict.
From S2P Require Import TrustDest Device UsbPolicy Enforce Watch Supervise Crypto CopyAudit.
From S2P Require Import RemoteTools NetRules Config TrustSync UsbMonitor KGuard.
#[local] Open Scope Z_scope.

Definition MAX_MESSAGE_BYTES : Z := 8 * 1024 * 1024.
Definition MAX_SCAN_BYTES : nat := Z.to_nat (4 * 1024 * 1024).
Definition DEFAULT_BLOCK_AT : f64 := f64_percent 30.
Definition DEFAULT_COVERAGE_BLOCK_AT : f64 := f64_percent 60.

Inductive ScanKind : Set := ScanText | ScanFile | ScanBytes.

Record Request := {
  rq_version : Z;
  rq_kind : ScanKind;
  rq_text : option str;
  rq_path : option str;
  content_b64 : option str;
  rq_url : str;
  rq_origin : str;
  rq_id : Z;
}.

Inductive WebVerdict : Set := WebAllow | WebBlock | WebWarn.
#[export] Instance WebVerdict_eq_dec : EqDecision WebVerdict.
Proof. solve_decision. Defined.

Record MatchInfo := { mi_title : str; mi_containment : f64 }.
Record Reply := {
  rp_version : Z;
  rp_id : Z;
  rp_verdict : WebVerdict;
  rp_reason : option str;
  rp_match : option MatchInfo;
}.
Definition Reply_new (id : Z) (verdict : WebVerdict) (reason : option str) (m : option MatchInfo)
    : Reply :=
  {| rp_version := 1; rp_id := id; rp_verdict := verdict; rp_reason := reason; rp_match := m |}.

(** ** Framing *)

(** The pipe: the bytes still to come, then the end of the stream or an error. *)
Record Pipe := { incoming : bytes; broken : option str }.

(** [read_exact] of [n] bytes: [Ok None] is [UnexpectedEof]. *)
Definition read_exact (n : nat) (p : Pipe) : result str (option bytes) * Pipe :=
  if (n <=? length (incoming p))%nat
  then (Ok (Some (take n (incoming p))), {| incoming := drop n (incoming p); broken := broken p |})
  else (match broken p with None => Ok None | Some e => Err e end,
        {| incoming := []; broken := broken p |}).

Definition too_long (len : Z) : str :=
  lit "native message length " ++ dec len ++ lit " exceeds cap " ++ dec MAX_MESSAGE_BYTES.

Definition read_message (p : Pipe) : result str (option bytes) * Pipe :=
  let '(r, p) := read_exact 4 p in
  match r with
  | Err e => (Err e, p)
  | Ok None => (Ok None, p)
  | Ok (Some len_buf) =>
      let len := from_le_bytes len_buf in
      if MAX_MESSAGE_BYTES <? len then (Err (too_long len), p)
      else
        let '(r, p) := read_exact (Z.to_nat len) p in
        match r with
        | Err e => (Err e, p)
        | Ok None => (Err (lit "failed to fill whole buffer"), p)
        | Ok (Some body) => (Ok (Some body), p)
        end
  end.

(** What [write_message] writes. *)
Definition frame (bs : bytes) : bytes := to_le_bytes 4 (as_u32 (Z.of_nat (length bs))) ++ bs.

(** ** Dispositions *)

Definition map_verdict (v : Verdict) (block_at coverage_block_at : f64)
    : WebVerdict * option MatchInfo :=
  let strongest :=
    (fun m => {| mi_title := m_title m; mi_containment := m_containment m |}) <$> head (v_idm v) in
  let block := negb (bool_decide (length (v_edm v) = 0%nat))
    || existsb (fun m => f64_ge (m_containment m) block_at || f64_ge (m_coverage m) coverage_block_at)
         (v_idm v) in
  if block then (WebBlock, strongest)
  else if negb (bool_decide (length (v_idm v) = 0%nat)) || negb (bool_decide (length (v_edm v) = 0%nat))
  then (WebWarn, strongest)
  else (WebAllow, None).

Record Handled := { h_reply : Reply; h_incident : option (Verdict * str) }.

Class BrowserEnv := {
  request_of_json : bytes -> option Request;
  (** [None] when serialisation fails *)
  reply_to_json : Reply -> option bytes;
  base64_decode : str -> result str bytes;
  (** [Path::new(p).file_name()] with the host's path syntax *)
  path_file_name : str -> option str;
}.

Section Host.
Context {BE : BrowserEnv}.
Context (block_at coverage_block_at : f64) (web_channel : str).
Context (scan_text : str -> Verdict) (scan_file : str -> result str Verdict).
Context (scan_bytes : bytes -> str -> Verdict).

Definition request_verdict (req : Request) : result str Verdict :=
  match rq_kind req with
  | ScanText =>
      match rq_text req with
      | Some t => Ok (scan_text t)
      | None => Err (lit "scan_text request without text")
      end
  | ScanFile =>
      match rq_path req with
      | Some p => map_err (fun e => lit "file scan failed: " ++ e) (scan_file p)
      | None => Err (lit "scan_file request without path")
      end
  | ScanBytes =>
      match content_b64 req with
      | Some b64 =>
          match base64_decode b64 with
          | Ok bs =>
              let bs := take MAX_SCAN_BYTES bs in
              let name := default (lit "upload") (p ← rq_path req; path_file_name p) in
              Ok (scan_bytes bs name)
          | Err e => Err (lit "scan_bytes base64 decode failed: " ++ e)
          end
      | None => Err (lit "scan_bytes request without content_b64")
      end
  end.

Definition incident_label (req : Request) : str :=
  match rq_kind req with
  | ScanText => lit "(web upload text)"
  | ScanFile | ScanBytes =>
      match rq_path req with
      | Some p => default p (path_file_name p)
      | None => lit "(web upload file)"
      end
  end.

Definition handle_request (req : Request) : Handled :=
  match request_verdict req with
  | Ok v =>
      let '(disp, mi) := map_verdict v block_at coverage_block_at in
      let reason := match disp with
                    | WebAllow => None
                    | WebBlock => Some (lit "matched protected content")
                    | WebWarn => Some (lit "partial match " ++ [8212] ++ lit " audited")
                    end in
      {| h_reply := Reply_new (rq_id req) disp reason mi;
         h_incident := if bool_decide (disp <> WebAllow) then Some (v, incident_label req) else None |}
  | Err reason =>
      {| h_reply := Reply_new (rq_id req) WebAllow (Some reason) None; h_incident := None |}
  end.

Definition web_incident (v : Verdict) (label : str) (blocked : bool) (url origin : str) : UsbIncident :=
  {| kind := Match; channel := web_channel; inc_file_name := label; inc_file_sha256 := file_sha256 v;
     inc_verdict := Some v;
     device := {| drive_letter := []; vendor_id := []; product_id := []; serial := [];
                  product_name := origin; bus_type := lit "web"; removable := false |};
     action_taken := if blocked then CopyAudit.Blocked else CopyAudit.Audited;
     inc_note := Some (lit "url=" ++ url ++ lit " origin=" ++ origin);
     inc_key_id := None; sealed_sha256 := None |}.

(** ** The loop *)

Inductive HostEvent := HostIncident (inc : UsbIncident) | HostWrite (bs : bytes).

(** One parsed request: what is reported, then the reply. *)
Definition answer_events (req : Request) : list HostEvent * option bytes :=
  let h := handle_request req in
  let blocked := bool_decide (rp_verdict (h_reply h) = WebBlock) in
  (match h_incident h with
   | Some (v, label) => [HostIncident (web_incident v label blocked (rq_url req) (rq_origin req))]
   | None => []
   end, reply_to_json (h_reply h)).

(** [serve]: every turn but the last consumes four bytes, so the length of the
    input is fuel enough.  [write_fails n] tells whether the [n]-th reply cannot
    be written. *)
Fixpoint serve_loop (fuel : nat) (write_fails : nat -> option str) (p : Pipe) (n : nat)
    : option (result str unit * list HostEvent) :=
  match fuel with
  | O => None
  | S f =>
      let '(r, p) := read_message p in
      match r with
      | Err e => Some (Err e, [])
      | Ok None => Some (Ok tt, [])
      | Ok (Some body) =>
          match request_of_json body with
          | None => serve_loop f write_fails p n
          | Some req =>
              let '(incs, reply) := answer_events req in
              match reply with
              | None => Some (Err (lit "reply"), incs)
              | Some bs =>
                  match write_fails n with
                  | Some e => Some (Err e, incs)
                  | None =>
                      '(res, evs) ← serve_loop f write_fails p (S n);
                      Some (res, incs ++ HostWrite (frame bs) :: evs)
                  end
              end
          end
      end
  end.
Definition serve (write_fails : nat -> option str) (p : Pipe) : option (result str unit * list HostEvent) :=
  serve_loop (S (length (incoming p))) write_fails p 0.

(** ** Framing and termination *)

Lemma read_exact_app n a b e :
  length a = n -> read_exact n {| incoming := a ++ b; broken := e |} =
    (Ok (Some a), {| incoming := b; broken := e |}).
Proof.
  intros <-. unfold read_exact. cbn [incoming broken].
  destruct (Nat.leb_spec (length a) (length (a ++ b))) as [|H]; [|rewrite length_app in H; lia].
  by rewrite take_app_length, drop_app_length.
Qed.

Lemma read_exact_shrinks n p bs p' :
  read_exact n p = (Ok (Some bs), p') -> (length (incoming p') + n = length (incoming p))%nat.
Proof.
  unfold read_exact. destruct (Nat.leb_spec n (length (incoming p))).
  - intros [= _ <-]. cbn [incoming]. rewrite length_drop. lia.
  - by destruct (broken p).
Qed.

Lemma read_message_shrinks p body p' :
  read_message p = (Ok (Some body), p') -> (length (incoming p') < length (incoming p))%nat.
Proof.
  unfold read_message. destruct (read_exact 4 p) as [[[len_buf|]|e] p1] eqn:H1; try done.
  destruct (_ <? _); [done|]. destruct (read_exact _ p1) as [[[b|]|e] p2] eqn:H2; try done.
  intros [= _ <-]. apply read_exact_shrinks in H1, H2. lia.
Qed.

Lemma serve_loop_total fuel wf p n :
  (length (incoming p) < fuel)%nat -> exists r, serve_loop fuel wf p n = Some r.
Proof.
  revert p n. induction fuel as [|f IH]; intros p n Hf; [lia|]. cbn [serve_loop].
  destruct (read_message p) as [[[body|]|e] p1] eqn:Hr; [|by eexists..].
  apply read_message_shrinks in Hr. destruct (request_of_json body) as [req|]; [|apply IH; lia].
  destruct (answer_events req) as [incs [bs|]]; [|by eexists]. destruct (wf n); [by eexists|].
  destruct (IH p1 (S n)) as [[res evs] ->]; [lia|]. by eexists.
Qed.

Lemma as_u32_small n : 0 <= n <= MAX_MESSAGE_BYTES -> as_u32 n = n.
Proof. intros H. apply Z.mod_small. unfold MAX_MESSAGE_BYTES in H. lia. Qed.

Lemma length_frame b : length (frame b) = (4 + length b)%nat.
Proof. unfold frame. by rewrite length_app, length_to_le_bytes. Qed.

Lemma read_frame body b e :
  Z.of_nat (length body) <= MAX_MESSAGE_BYTES ->
  read_message {| incoming := frame body ++ b; broken := e |} =
    (Ok (Some body), {| incoming := b; broken := e |}).
Proof.
  intros Hl. unfold read_message, frame. rewrite <- app_assoc, read_exact_app by apply length_to_le_bytes.
  rewrite as_u32_small by lia. rewrite from_to_le_bytes by (unfold MAX_MESSAGE_BYTES in Hl; lia).
  destruct (Z.ltb_spec MAX_MESSAGE_BYTES (Z.of_nat (length body))); [lia|].
  rewrite Nat2Z.id. by rewrite read_exact_app.
Qed.

(** ** What a session does *)

(** What one framed body leads to: nothing when it is no request. *)
Definition body_events (body : bytes) : list HostEvent :=
  match request_of_json body with
  | None => []
  | Some req =>
      let '(incs, reply) := answer_events req in
      incs ++ match reply with Some bs => [HostWrite (frame bs)] | None => [] end
  end.
Definition session (bodies : list bytes) : list HostEvent := concat (map body_events bodies).

(** How many of the bodies are requests, that is, how many replies they get. *)
Definition requests_of (bodies : list bytes) : nat :=
  length (filter (fun b => is_Some (request_of_json b)) bodies).

(** How the host ends on bytes [rest] that hold no whole frame within the cap, when the
    pipe is then closed ([e = None]) or breaks with an error: a missing length
    ends it well, every other defect with an error. *)
Definition stream_end (rest : bytes) (e : option str) : result str unit :=
  if (length rest <? 4)%nat then match e with None => Ok tt | Some m => Err m end
  else
    let len := from_le_bytes (take 4 rest) in
    if MAX_MESSAGE_BYTES <? len then Err (too_long len)
    else Err (default (lit "failed to fill whole buffer") e).
Definition no_whole_frame (rest : bytes) : Prop :=
  (length rest < 4)%nat \/
  let len := from_le_bytes (take 4 rest) in
  MAX_MESSAGE_BYTES < len \/ Z.of_nat (length rest) < 4 + len.

Lemma read_message_rest rest e :
  no_whole_frame rest ->
  match (read_message {| incoming := rest; broken := e |}).1 with
  | Ok (Some _) => False
  | Ok None => stream_end rest e = Ok tt
  | Err m => stream_end rest e = Err m
  end.
Proof.
  intros H. unfold read_message, read_exact, stream_end, no_whole_frame in *. cbn [incoming broken].
  destruct (Nat.leb_spec 4 (length rest)) as [Hl|Hl], (Nat.ltb_spec (length rest) 4); try lia;
    [|by destruct e].
  destruct (Z.ltb_spec MAX_MESSAGE_BYTES (from_le_bytes (take 4 rest))) as [?|Hm]; [done|].
  destruct H as [?|[?|H]]; [lia..|]. cbn [incoming broken].
  match goal with |- context [(?n <=? ?m)%nat] => destruct (Nat.leb_spec n m) as [Hle|_] end;
    [|by destruct e].
  rewrite length_drop in Hle. lia.
Qed.

Lemma serve_loop_step fuel wf body rest e n :
  Z.of_nat (length body) <= MAX_MESSAGE_BYTES ->
  serve_loop (S fuel) wf {| incoming := frame body ++ rest; broken := e |} n =
    match request_of_json body with
    | None => serve_loop fuel wf {| incoming := rest; broken := e |} n
    | Some req =>
        let '(incs, reply) := answer_events req in
        match reply with
        | None => Some (Err (lit "reply"), incs)
        | Some bs =>
            match wf n with
            | Some err => Some (Err err, incs)
            | None =>
                '(res, evs) ← serve_loop fuel wf {| incoming := rest; broken := e |} (S n);
                Some (res, incs ++ HostWrite (frame bs) :: evs)
            end
        end
    end.
Proof. intros Hb. cbn [serve_loop]. by rewrite read_frame. Qed.

(** A prefix of whole frames whose replies can be written is worked off first. *)
Lemma serve_loop_prefix fuel wf bodies tail e n :
  (forall r, is_Some (reply_to_json r)) ->
  (length (concat (map frame bodies) ++ tail) < fuel)%nat ->
  Forall (fun b => Z.of_nat (length b) <= MAX_MESSAGE_BYTES) bodies ->
  (forall i, (n <= i < n + requests_of bodies)%nat -> wf i = None) ->
  exists fuel', (length tail < fuel')%nat /\
    serve_loop fuel wf {| incoming := concat (map frame bodies) ++ tail; broken := e |} n =
      ('(res, evs) ← serve_loop fuel' wf {| incoming := tail; broken := e |} (n + requests_of bodies);
       Some (res, session bodies ++ evs)).
Proof.
  intros Hjs Hf Hall. revert fuel n Hf.
  induction Hall as [|body bodies Hb _ IH]; intros [|f] n Hf Hwf; [lia| |lia|].
  - exists (S f). split; [exact Hf|]. unfold requests_of, session. cbn [map concat app filter list_filter length].
    rewrite Nat.add_0_r. by destruct (serve_loop (S f) wf _ n) as [[? ?]|].
  - cbn [map concat] in *. rewrite <- app_assoc in *. rewrite serve_loop_step by done.
    assert (length (concat (map frame bodies) ++ tail) < f)%nat as Hf'.
    { rewrite !length_app, length_frame in Hf. rewrite length_app. lia. }
    unfold session, requests_of in *. cbn [map concat]. rewrite filter_cons in *. unfold body_events at 1.
    destruct (request_of_json body) as [req|].
    + rewrite decide_True in * by (by eexists). cbn [length] in *. unfold answer_events.
      destruct (Hjs (h_reply (handle_request req))) as [bs ->]. rewrite Hwf by lia.
      destruct (IH f (S n) Hf') as (f' & Hl & ->); [intros; apply Hwf; lia|].
      exists f'. split; [exact Hl|]. rewrite Nat.add_succ_comm.
      destruct (serve_loop f' _ _ _) as [[? ?]|]; [|done]. cbn. by rewrite <- !app_assoc.
    + rewrite decide_False in * by (by intros [? ?]). by apply IH.
Qed.

(** C21: The host always comes to an end.  On a stream of whole frames, each
    within the cap, it acts on them in order: a body that is no request leads to
    nothing, every request to its report, if any, and then exactly one framed
    reply.  If the replies can be written, it ends by what follows the frames,
    as [stream_end] says: fewer than four bytes end it well, a length above the
    cap with that error and without reading on, a body cut short with an error,
    and a pipe that breaks with the pipe's error.  If the reply to a request is
    the first that cannot be written, everything before it is done, the request
    is reported, and the host ends with that error.  Writing a reply as JSON is
    taken not to fail. *)
Theorem serve_answers_in_order wf :
  (forall p, exists r, serve wf p = Some r) /\
  ((forall r, is_Some (reply_to_json r)) ->
   forall bodies, Forall (fun b => Z.of_nat (length b) <= MAX_MESSAGE_BYTES) bodies ->
   (forall i, (i < requests_of bodies)%nat -> wf i = None) ->
   (forall rest e, no_whole_frame rest ->
      serve wf {| incoming := concat (map frame bodies) ++ rest; broken := e |} =
        Some (stream_end rest e, session bodies)) /\
   (forall body req rest e err,
      Z.of_nat (length body) <= MAX_MESSAGE_BYTES -> request_of_json body = Some req ->
      wf (requests_of bodies) = Some err ->
      serve wf {| incoming := concat (map frame bodies) ++ frame body ++ rest; broken := e |} =
        Some (Err err, session bodies ++ (answer_events req).1))).
Proof.
  split; [intros p; apply serve_loop_total; lia|]. intros Hjs bodies Hb Hwf. split.
  - intros rest e Hr. unfold serve. cbn [incoming].
    destruct (serve_loop_prefix (S (length (concat (map frame bodies) ++ rest))) wf bodies rest e 0)
      as ([|f] & Hf & ->); [done|lia|done|intros; apply Hwf; lia|lia|].
    pose proof (read_message_rest rest e Hr) as H. cbn [serve_loop].
    destruct (read_message _) as [[[b|]|m] p]; cbn in H; [done|rewrite H..]; cbn; by rewrite app_nil_r.
  - intros body req rest e err Hl Hreq Herr. unfold serve. cbn [incoming].
    destruct (serve_loop_prefix (S (length (concat (map frame bodies) ++ frame body ++ rest))) wf bodies
      (frame body ++ rest) e 0) as ([|f] & Hf & ->); [done|lia|done|intros; apply Hwf; lia|lia|].
    rewrite serve_loop_step, Hreq by done. unfold answer_events.
    destruct (Hjs (h_reply (handle_request req))) as [bs ->]. cbn [Nat.add]. by rewrite Herr.
Qed.

(** The disposition of a request is that of its verdict under the policy signal
    the kernel guard uses: block exactly for a protected row or a document at a
    bound, warn exactly for a lesser match, allow for none; what is blocked or
    warned about is reported with the action taken, what is allowed is not.  A
    request that cannot be scanned is allowed, with the reason and no report.
    The reply carries the request's id. *)
Theorem web_disposition req :
  let h := handle_request req in
  let disp := rp_verdict (h_reply h) in
  rp_id (h_reply h) = rq_id req /\ (is_Some (h_incident h) <-> disp <> WebAllow) /\
  match request_verdict req with
  | Err reason => disp = WebAllow /\ rp_reason (h_reply h) = Some reason
  | Ok v =>
      (disp = WebBlock <-> matched_at block_at coverage_block_at v) /\
      (disp = WebAllow <-> v_idm v = [] /\ v_edm v = []) /\
      (forall x, h_incident h = Some x -> x.1 = v) /\
      (forall kg, kguard_block_at kg = block_at -> kguard_coverage_block_at kg = coverage_block_at ->
         should_block v kg = bool_decide (disp = WebBlock))
  end.
Proof.
  cbv zeta. unfold handle_request.
  destruct (request_verdict req) as [v|reason]; [|split; [done|split; [|done]]; split; [by intros [? ?]|done]].
  pose proof (matched_at_spec block_at coverage_block_at v) as Hm. unfold map_verdict.
  assert (negb (bool_decide (length (v_edm v) = 0%nat)) ||
    existsb (fun m => f64_ge (m_containment m) block_at || f64_ge (m_coverage m) coverage_block_at) (v_idm v) =
    (if negb (bool_decide (length (v_edm v) = 0%nat)) then true
     else existsb (fun m => f64_ge (m_containment m) block_at || f64_ge (m_coverage m) coverage_block_at) (v_idm v)))
    as -> by by destruct (negb _).
  assert (forall kg, kguard_block_at kg = block_at -> kguard_coverage_block_at kg = coverage_block_at ->
    should_block v kg = (if negb (bool_decide (length (v_edm v) = 0%nat)) then true
     else existsb (fun m => f64_ge (m_containment m) block_at || f64_ge (m_coverage m) coverage_block_at) (v_idm v)))
    as Hsb by by intros kg <- <-.
  set (blk := if negb _ then true else _) in *. destruct blk.
  - assert (~ (v_idm v = [] /\ v_edm v = [])).
    { intros [H1 H2]. destruct (proj1 Hm eq_refl) as [H|(m & H & _)]; [done|]. rewrite H1 in H.
      by apply not_elem_of_nil in H. }
    split; [done|]. split; [by split; [|eexists]|]. split; [naive_solver|]. split; [naive_solver|].
    split; [cbn; by intros x [= <-]|]. intros kg H1 H2. by rewrite Hsb.
  - assert (v_edm v = []) as He.
    { destruct (v_edm v) as [|r rs] eqn:He; [done|]. exfalso. enough (false = true) by done. apply Hm. left.
      by rewrite He. }
    assert (~ matched_at block_at coverage_block_at v) as Hnm by (by intros ?%Hm).
    rewrite He. cbn [length]. destruct (v_idm v) as [|m ms] eqn:Hi; cbn.
    + split; [done|]. split; [by split; [intros [? ?]|]|]. split; [naive_solver|]. split; [naive_solver|].
      split; [done|]. intros kg H1 H2. by rewrite Hsb.
    + split; [done|]. split; [by split; [|eexists]|]. split; [naive_solver|]. split; [naive_solver|].
      split; [by intros x [= <-]|]. intros kg H1 H2. by rewrite Hsb.
Qed.
End Host.

(** A codec that knows one request and writes the verdict and the id. *)
Definition sample_request : Request :=
  {| rq_version := 1; rq_kind := ScanText; rq_text := Some (lit "plan"); rq_path := None;
     content_b64 := None; rq_url := lit "u"; rq_origin := lit "o"; rq_id := 5 |}.
Definition toy_browser : BrowserEnv := {|
  request_of_json := fun bs => if bool_decide (bs = lit "req") then Some sample_request else None;
  reply_to_json := fun r =>
    Some [match rp_verdict r with WebAllow => 65 | WebBlock => 66 | WebWarn => 87 end; rp_id r];
  base64_decode := fun s => Ok s;
  path_file_name := fun p => Some p;
|}.
Definition row_verdict : Verdict :=
  {| Verdict.file_name := []; file_sha256 := []; extraction := ExtractionOk (lit "text"); v_idm := [];
     v_edm := [{| hit_source_id := lit "s"; hit_name := lit "n"; rows_hit := [] |}] |}.

(** A malformed message and a request on a pipe that then breaks inside a frame, and the same
    request with nobody to read the reply. *)
Lemma serve_answers_in_order_witness :
  let bodies := [lit "bad"; lit "req"] in
  let host := serve (BE := toy_browser) DEFAULT_BLOCK_AT DEFAULT_COVERAGE_BLOCK_AT (lit "web-upload")
    (fun _ => row_verdict) (fun _ => Err []) (fun _ _ => row_verdict) in
  Forall (fun b => Z.of_nat (length b) <= MAX_MESSAGE_BYTES) bodies /\
  exists inc,
    host (fun _ => None)
      {| incoming := concat (map frame bodies) ++ [9; 0; 0; 0; 65]; broken := Some (lit "reset") |} =
      Some (Err (lit "reset"), [HostIncident inc; HostWrite [2; 0; 0; 0; 66; 5]]) /\
    host (fun _ => Some (lit "closed"))
      {| incoming := concat (map frame [lit "bad"]) ++ frame (lit "req") ++ []; broken := None |} =
      Some (Err (lit "closed"), [HostIncident inc]).
Proof.
  cbv zeta. assert (Forall (fun b => Z.of_nat (length b) <= MAX_MESSAGE_BYTES) [lit "bad"; lit "req"]) as Hb
    by (repeat constructor; vm_compute; congruence).
  split; [exact Hb|].
  pose proof (fun wf => proj2 (serve_answers_in_order (BE := toy_browser) DEFAULT_BLOCK_AT
    DEFAULT_COVERAGE_BLOCK_AT (lit "web-upload") (fun _ => row_verdict) (fun _ => Err [])
    (fun _ _ => row_verdict) wf) ltac:(by intros r; eexists)) as H.
  eexists. split.
  - destruct (H (fun _ => None) _ Hb ltac:(done)) as [Hs _].
    rewrite Hs by (right; right; vm_compute; reflexivity). vm_compute. reflexivity.
  - destruct (H (fun _ => Some (lit "closed")) [lit "bad"] ltac:(by inversion Hb; repeat constructor)
      ltac:(vm_compute; intros i Hi; inversion Hi)) as [_ Hs].
    rewrite (Hs (lit "req") sample_request [] None (lit "closed")); [vm_compute; reflexivity|..];
      [vm_compute; congruence|reflexivity..].
Defined.

Lemma web_disposition_witness :
  rp_verdict (h_reply (handle_request (BE := toy_browser) DEFAULT_BLOCK_AT DEFAULT_COVERAGE_BLOCK_AT
    (fun _ => row_verdict) (fun _ => Err []) (fun _ _ => row_verdict) sample_request)) = WebBlock.
Proof.
  destruct (web_disposition (BE := toy_browser) DEFAULT_BLOCK_AT DEFAULT_COVERAGE_BLOCK_AT
    (lit "web-upload") (fun _ => row_verdict) (fun _ => Err []) (fun _ _ => row_verdict) sample_request) as (_ & _ & H & _).
  apply H. by left.
Defined.
