(* ===== verification/Clipboard.v ===== *)
(** The clipboard channel ([src/clipboard/]): parsing the formats
    ([formats.rs]), choosing the snapshot ([watch.rs]), the decision and its
    incidents ([mod.rs]), enforcement with the loop guard ([enforce.rs]), and the
    monitor's reaction to updates among the copies of the user. *)

From S2P Require Import Prelude Words Text F64 Unicode Fingerprint Bundle Edm Utf8 Extract Verdict.
From S2P Require Import TrustDest Device UsbPolicy Enforce Watch Supervise Crypto CopyAudit.
From S2P Require Import RemoteTools NetRules Config TrustSync UsbMonitor KGuard BrowserHost.
#[local] Open Scope Z_scope.

(** ** Formats *)

Inductive ClipboardPayload :=
  | PText (text : str)
  | PFiles (paths : list str)
  | PImage
  | PUninspected (note : str).

Definition CF_BITMAP : Z := 2.
Definition CF_DIB : Z := 8.
Definition CF_DIBV5 : Z := 17.
Definition CF_HDROP : Z := 15.
Definition CF_UNICODETEXT : Z := 13.

(** The 16-bit units of the whole pairs. *)
Fixpoint units_of (bs : bytes) : list Z :=
  match bs with
  | a :: b :: bs' => from_le_bytes [a; b] :: units_of bs'
  | _ => []
  end.
Definition parse_unicode_text (bs : bytes) : str :=
  from_utf16_lossy (take_while (fun u => negb (u =? 0)) (units_of bs)).

Definition DROPFILES_MIN : nat := 20.
Definition OFF_PFILES : nat := 0.
Definition OFF_FWIDE : nat := 16.

(** The names of a list that an empty name ends; an unterminated last name is
    dropped. *)
Fixpoint names_of (cur : list Z) (units : list Z) : list (list Z) :=
  match units with
  | [] => []
  | u :: us =>
      if u =? 0 then match cur with [] => [] | _ => cur :: names_of [] us end
      else names_of (cur ++ [u]) us
  end.

(** [None] where indexing would panic. *)
Definition parse_hdrop (bs : bytes) : option (list str) :=
  if (length bs <? DROPFILES_MIN)%nat then Some []
  else
    p_files ← Device.read_u32_le bs OFF_PFILES;
    fwide ← Device.read_u32_le bs OFF_FWIDE;
    if (p_files =? 0) || (Z.of_nat (length bs) <? p_files) then Some []
    else
      let lst := drop (Z.to_nat p_files) bs in
      Some (if negb (fwide =? 0)
            then map from_utf16_lossy (names_of [] (units_of lst))
            else map from_utf8_lossy (names_of [] lst)).

Definition split_whitespace (s : str) : list str :=
  List.filter (fun w => negb (str_is_empty w))
    (split_char 32 (map (fun c => if is_whitespace c then 32 else c) s)).

(** [str::replace] for a non-empty pattern; each turn consumes a character. *)
Fixpoint replace_loop (fuel : nat) (pat rep s : str) : str :=
  match fuel with
  | O => s
  | S f =>
      match find_split pat s with
      | Some (before, rest) => before ++ rep ++ replace_loop f pat rep (drop (length pat) rest)
      | None => s
      end
  end.
Definition str_replace (pat rep s : str) : str := replace_loop (length s) pat rep s.

Fixpoint strip_tags_loop (depth : Z) (s : str) : str :=
  match s with
  | [] => []
  | c :: s' =>
      if c =? 60 then strip_tags_loop (depth + 1) s'
      else if c =? 62 then 32 :: strip_tags_loop (if 0 <? depth then depth - 1 else depth) s'
      else if depth =? 0 then c :: strip_tags_loop depth s'
      else strip_tags_loop depth s'
  end.
Definition strip_tags (input : str) : str :=
  let out := strip_tags_loop 0 input in
  let decoded := str_replace (lit "&nbsp;") [32] (str_replace (lit "&#39;") [39]
    (str_replace (lit "&quot;") [34] (str_replace (lit "&gt;") [62]
    (str_replace (lit "&lt;") [60] (str_replace (lit "&amp;") [38] out))))) in
  join [32] (split_whitespace decoded).
Definition strip_html (input : str) : str :=
  strip_tags (match find_split [60] input with Some (_, body) => body | None => input end).

(** A lone bracket, here in a comment, hides all the text after it. *)
Example stray_bracket_hides_text : strip_html (lit "<!-- < --><p>secret plan</p>") = [].
Proof. vm_compute. reflexivity. Qed.

(** Every turn consumes a character. *)
Fixpoint strip_rtf_loop (fuel : nat) (s : str) : str :=
  match fuel, s with
  | O, _ | _, [] => []
  | S f, c :: s' =>
      if c =? 92 then
        match s' with
        | [] => []
        | n :: s'' =>
            if is_ascii_alphabetic n then
              let r := skip_while is_ascii_alphabetic s' in
              let r := skip_while (fun m => is_ascii_digit m || (m =? 45)) r in
              strip_rtf_loop f (match r with 32 :: r' => r' | _ => r end)
            else n :: strip_rtf_loop f s''
        end
      else if (c =? 123) || (c =? 125) then strip_rtf_loop f s'
      else c :: strip_rtf_loop f s'
  end.
Definition strip_rtf (input : str) : str :=
  join [32] (split_whitespace (strip_rtf_loop (length input) input)).

Definition is_image_format (fmt : Z) : bool := bool_decide (fmt ∈ [CF_BITMAP; CF_DIB; CF_DIBV5]).

(** ** The snapshot *)

(** What the system clipboard holds: the formats it offers, each with its data
    ([None] when it cannot be read); the ids of the two registered formats (0
    when registering failed). *)
Record RawClipboard := { offers : list (Z * option bytes); html_fmt : Z; rtf_fmt : Z }.
Definition available (r : RawClipboard) (fmt : Z) : bool :=
  existsb (fun o => o.1 =? fmt) (offers r).
Definition read_global (r : RawClipboard) (fmt : Z) : option bytes :=
  o ← List.find (fun o => o.1 =? fmt) (offers r); o.2.

(** [opened] tells which of the five attempts to open it succeed. *)
Definition read_snapshot (opened : list bool) (r : RawClipboard) : option ClipboardPayload :=
  if negb (existsb id (take 5 opened)) then Some (PUninspected (lit "clipboard-locked"))
  else if available r CF_HDROP then
    match read_global r CF_HDROP with
    | Some bs => PFiles <$> parse_hdrop bs
    | None => Some (PUninspected (lit "hdrop-null"))
    end
  else Some (
    if available r CF_UNICODETEXT then
      match read_global r CF_UNICODETEXT with
      | Some bs => PText (parse_unicode_text bs)
      | None => PUninspected (lit "text-null")
      end
    else if negb (html_fmt r =? 0) && available r (html_fmt r) then
      match read_global r (html_fmt r) with
      | Some bs => PText (strip_html (from_utf8_lossy bs))
      | None => PUninspected (lit "html-null")
      end
    else if negb (rtf_fmt r =? 0) && available r (rtf_fmt r) then
      match read_global r (rtf_fmt r) with
      | Some bs => PText (strip_rtf (from_utf8_lossy bs))
      | None => PUninspected (lit "rtf-null")
      end
    else if available r CF_DIB || available r CF_BITMAP || available r CF_DIBV5 then PImage
    else PUninspected (lit "unhandled-format")).

(** ** The decision *)

Record ClipboardDecision := { d_block : bool; d_incidents : list UsbIncident }.
Definition no_decision : ClipboardDecision := {| d_block := false; d_incidents := [] |}.

Definition verdict_blocks (v : Verdict) (block_at coverage_block_at : f64) : bool :=
  if negb (bool_decide (length (v_edm v) = 0%nat)) then true
  else existsb (fun m => f64_ge (m_containment m) block_at || f64_ge (m_coverage m) coverage_block_at)
         (v_idm v).

Definition clipboard_device : DeviceIdentity :=
  {| drive_letter := []; vendor_id := []; product_id := []; serial := []; product_name := [];
     bus_type := lit "clipboard"; removable := false |}.

Definition taken (block : bool) : ActionTaken :=
  if block then CopyAudit.Blocked else CopyAudit.Audited.

Definition clip_incident (k : IncidentKind) (channel label sha : str) (v : option Verdict)
    (block : bool) (note : str) : UsbIncident :=
  {| kind := k; channel := channel; inc_file_name := label; inc_file_sha256 := sha; inc_verdict := v;
     device := clipboard_device; action_taken := taken block; inc_note := Some note;
     inc_key_id := None; sealed_sha256 := None |}.

Definition verdict_incident (label : str) (v : Verdict) (block : bool) (channel : str)
    : option UsbIncident :=
  if negb (bool_decide (length (v_idm v) = 0%nat)) || negb (bool_decide (length (v_edm v) = 0%nat)) then
    Some (clip_incident Match channel label (file_sha256 v) (Some v) block
            (if block then lit "clipboard-blocked" else lit "clipboard-audited"))
  else if is_unreadable (extraction v) then
    Some (clip_incident UnreadableOnRemovable channel label (file_sha256 v) (Some v) block
            (lit "clipboard-unreadable"))
  else None.

Definition image_incident (block : bool) (channel : str) : UsbIncident :=
  clip_incident ClipboardImageUninspected channel (lit "(clipboard image)") [] None block
    (if block then lit "image-clipboard-blocked" else lit "image-clipboard-uninspected").

Definition opt_list {A} (o : option A) : list A := match o with Some x => [x] | None => [] end.

Section Inspect.
Context {D : Digest} {U : Unicode}.
(** [path.file_name()], and [detect::verdict] of a dropped file. *)
Context (path_name : str -> option str) (file_verdict : str -> Bundle -> result str Verdict).

(** One dropped file: does it block, and what is reported. *)
Definition inspect_file (cfg : ClipboardConfig) (b : Bundle) (path : str)
    : bool * list UsbIncident :=
  let label := default path (path_name path) in
  match file_verdict path b with
  | Ok v =>
      let blk := verdict_blocks v (clip_block_at cfg) (clip_coverage_block_at cfg)
                 && bool_decide (clip_default_action cfg = ClipBlock) in
      (blk, opt_list (verdict_incident label v blk (clip_channel_label cfg)))
  | Err _ =>
      (clip_fail_block cfg,
       [clip_incident UnreadableOnRemovable (clip_channel_label cfg) label [] None
          (clip_fail_block cfg) (lit "clipboard-file-unreadable")])
  end.

Definition inspect (payload : ClipboardPayload) (bundle : option Bundle) (cfg : ClipboardConfig)
    : option ClipboardDecision :=
  match payload with
  | PText text =>
      if clip_max_bytes cfg <? str_len text then Some no_decision
      else
        match bundle with
        | None => Some {| d_block := clip_fail_block cfg; d_incidents := [] |}
        | Some b =>
            v ← verdict_text text b;
            let signal := verdict_blocks v (clip_block_at cfg) (clip_coverage_block_at cfg) in
            let block := signal && bool_decide (clip_default_action cfg = ClipBlock) in
            Some {| d_block := block;
                    d_incidents := opt_list (verdict_incident (lit "(clipboard text)") v block
                                               (clip_channel_label cfg)) |}
        end
  | PFiles paths =>
      match bundle with
      | None => Some {| d_block := clip_fail_block cfg; d_incidents := [] |}
      | Some b =>
          Some (foldl (fun d path =>
                  let '(blk, incs) := inspect_file cfg b path in
                  {| d_block := d_block d || blk; d_incidents := d_incidents d ++ incs |})
                no_decision paths)
      end
  | PImage =>
      let block := block_images cfg in
      Some {| d_block := block; d_incidents := [image_incident block (clip_channel_label cfg)] |}
  | PUninspected _ => Some no_decision
  end.
End Inspect.

(** ** Enforcement *)

Inductive ClipboardPlannedAction := ClipNoChange | ClearClipboard (redaction_notice : option str).
Inductive ClipApplyOutcome :=
  | ClipUnchanged
  | ClipPlanned (p : ClipboardPlannedAction)
  | ClipExecuted (p : ClipboardPlannedAction).

Definition clip_plan (block : bool) (redaction_notice : option str) : ClipboardPlannedAction :=
  if block then ClearClipboard redaction_notice else ClipNoChange.

Record LoopGuard := { ignore_seq : option Z }.
Definition LoopGuard_new : LoopGuard := {| ignore_seq := None |}.
Definition record_written (seq : Z) (g : LoopGuard) : LoopGuard := {| ignore_seq := Some seq |}.
Definition should_ignore (seq : Z) (g : LoopGuard) : bool * LoopGuard :=
  if bool_decide (ignore_seq g = Some seq) then (true, {| ignore_seq := None |}) else (false, g).

(** [apply]; [live] is the result of the real clear. *)
Definition clip_apply (p : ClipboardPlannedAction) (mode : Mode) (live : result str unit)
    : result str ClipApplyOutcome :=
  match p, mode with
  | ClipNoChange, _ => Ok ClipUnchanged
  | _, DryRun => Ok (ClipPlanned p)
  | _, Live => _ ← live; Ok (ClipExecuted p)
  end.

(** ** The monitor among the user's copies *)

(** What the clipboard holds after the agent cleared it. *)
Definition NOTICE : str := lit "Copy blocked by DLP policy".
Definition cleared (notice_set : bool) (r : RawClipboard) : RawClipboard :=
  {| offers := if notice_set
               then [(CF_UNICODETEXT, Some (concat (map (to_le_bytes 2) (encode_utf16 NOTICE ++ [0]))))]
               else [];
     html_fmt := html_fmt r; rtf_fmt := rtf_fmt r |}.

(** The system's side: the sequence number (32 bits), what is held, how many
    update messages wait.  The monitor's: its debounce and guard, and whether it
    is between its clear and recording the sequence number. *)
Record World := {
  w_seq : Z;
  w_held : RawClipboard;
  w_pending : nat;
  w_last_seq : Z;
  w_guard : LoopGuard;
  w_clearing : bool;
  w_out : list UsbIncident;
}.

(** [bump] is how far a change moves the sequence number. *)
Inductive WorldEvent :=
  | UserCopy (r : RawClipboard) (bump : Z)
  | Update (opened : list bool) (live : result str unit) (notice_set : bool) (bump : Z)
  | RecordWritten.

Section Monitor.
Context {D : Digest} {U : Unicode}.
Context (path_name : str -> option str) (file_verdict : str -> Bundle -> result str Verdict).
Context (cb : ClipboardConfig) (bundle : option Bundle) (enforce : bool).

Definition judge (opened : list bool) (r : RawClipboard) : option ClipboardDecision :=
  payload ← read_snapshot opened r; inspect path_name file_verdict payload bundle cb.

(** The reaction to one update up to its clear. *)
Definition on_update (opened : list bool) (live : result str unit) (notice_set : bool) (bump : Z)
    (w : World) : option World :=
  let w := {| w_seq := w_seq w; w_held := w_held w; w_pending := w_pending w - 1;
              w_last_seq := w_last_seq w; w_guard := w_guard w; w_clearing := false; w_out := w_out w |} in
  let seq := w_seq w in
  if seq =? w_last_seq w then Some w
  else
    let '(ignore, guard) := should_ignore seq (w_guard w) in
    let w := {| w_seq := seq; w_held := w_held w; w_pending := w_pending w; w_last_seq := seq;
                w_guard := guard; w_clearing := false; w_out := w_out w |} in
    if ignore then Some w
    else
      d ← judge opened (w_held w);
      let w := {| w_seq := seq; w_held := w_held w; w_pending := w_pending w; w_last_seq := seq;
                  w_guard := guard; w_clearing := false; w_out := w_out w ++ d_incidents d |} in
      if enforce && clip_enabled cb && d_block d then
        match clip_apply (clip_plan true (Some NOTICE)) (if enforce then Live else DryRun) live with
        | Ok (ClipExecuted _) =>
            Some {| w_seq := as_u32 (seq + bump); w_held := cleared notice_set (w_held w);
                    w_pending := S (w_pending w); w_last_seq := seq; w_guard := guard;
                    w_clearing := true; w_out := w_out w |}
        | _ => Some w
        end
      else Some w.

Definition world_step (w : World) (e : WorldEvent) : option World :=
  match e with
  | UserCopy r bump =>
      Some {| w_seq := as_u32 (w_seq w + bump); w_held := r; w_pending := S (w_pending w);
              w_last_seq := w_last_seq w; w_guard := w_guard w; w_clearing := w_clearing w;
              w_out := w_out w |}
  | Update opened live notice_set bump =>
      if w_clearing w || (w_pending w =? 0)%nat then Some w
      else on_update opened live notice_set bump w
  | RecordWritten =>
      if w_clearing w then
        Some {| w_seq := w_seq w; w_held := w_held w; w_pending := w_pending w;
                w_last_seq := w_last_seq w; w_guard := record_written (w_seq w) (w_guard w);
                w_clearing := false; w_out := w_out w |}
      else Some w
  end.
Fixpoint world_run (w : World) (es : list WorldEvent) : option World :=
  match es with [] => Some w | e :: es' => w' ← world_step w e; world_run w' es' end.

Definition monitor_initial (seq : Z) (r : RawClipboard) : World :=
  {| w_seq := seq; w_held := r; w_pending := 0; w_last_seq := 0; w_guard := LoopGuard_new;
     w_clearing := false; w_out := [] |}.

(** ** What is left on the clipboard *)










End Monitor.

(** ** The formats *)

Definition utf16le (s : str) : bytes := concat (map (to_le_bytes 2) (encode_utf16 s)).
(** A [DROPFILES] block with wide names. *)
Definition dropfiles (names : list str) : bytes :=
  to_le_bytes 4 20 ++ to_le_bytes 4 0 ++ to_le_bytes 4 0 ++ to_le_bytes 4 0 ++ to_le_bytes 4 1 ++
  concat (map (fun n => utf16le n ++ [0; 0]) names) ++ [0; 0].

Lemma units_of_pair u rest :
  units_of (to_le_bytes 2 u ++ rest) = from_le_bytes (to_le_bytes 2 u) :: units_of rest.
Proof. reflexivity. Qed.

Lemma units_of_encode us rest :
  Forall (fun u => 0 <= u < U16) us ->
  units_of (concat (map (to_le_bytes 2) us) ++ rest) = us ++ units_of rest.
Proof.
  induction 1 as [|u us Hu _ IH]; [done|]. cbn [map concat]. rewrite <- app_assoc.
  rewrite units_of_pair, IH. cbn [app]. f_equal. by apply from_to_le_bytes.
Qed.

Lemma encode_utf16_units s :
  forallb is_scalar s = true -> 0 ∉ s ->
  Forall (fun u => 0 <= u < U16) (encode_utf16 s) /\ (forall u, u ∈ encode_utf16 s -> negb (u =? 0) = true).
Proof.
  induction s as [|c s IH]; intros Hs Hn; [split; [constructor|by intros u ?%not_elem_of_nil]|].
  cbn [forallb] in Hs. apply andb_prop in Hs as [Hc Hs]. apply not_elem_of_cons in Hn as [Hn0 Hn].
  destruct (IH Hs Hn) as [H1 H2]. apply scalar_bounds in Hc.
  unfold encode_utf16 in *. cbn [map concat].
  assert (Forall (fun u => 0 < u < U16) (utf16_char c)) as Hu.
  { unfold utf16_char, U16. destruct (Z.ltb_spec c 0x10000); repeat constructor; try lia.
    all: pose proof (Z.mod_pos_bound (c - 0x10000) 1024);
      pose proof (Z.div_pos (c - 0x10000) 1024); pose proof (Z.div_lt_upper_bound (c - 0x10000) 1024 1024); lia. }
  split.
  - apply Forall_app. split; [|done]. eapply Forall_impl; [exact Hu|]. cbn. lia.
  - intros u [Hu'|Hu']%elem_of_app; [|by apply H2]. rewrite Forall_forall in Hu.
    specialize (Hu u Hu'). apply negb_true_iff, Z.eqb_neq. lia.
Qed.

Lemma take_while_stop {A} (p : A -> bool) l x r :
  (forall y, y ∈ l -> p y = true) -> p x = false -> take_while p (l ++ x :: r) = l.
Proof.
  intros Hl Hx. induction l as [|y l IH]; cbn; [by rewrite Hx|].
  rewrite Hl by by left. f_equal. apply IH. intros z Hz. apply Hl. by right.
Qed.

Lemma names_of_word cur w us :
  (forall u, u ∈ w -> negb (u =? 0) = true) -> cur ++ w <> [] ->
  names_of cur (w ++ 0 :: us) = (cur ++ w) :: names_of [] us.
Proof.
  revert cur. induction w as [|u w IH]; intros cur Hw Hne.
  - rewrite app_nil_r in *. cbn. by destruct cur.
  - cbn [app names_of]. assert (negb (u =? 0) = true) as Hu by (apply Hw; by left).
    apply negb_true_iff in Hu. rewrite Hu, IH; [by rewrite <- app_assoc| |by destruct cur].
    intros v Hv. apply Hw. by right.
Qed.

Lemma encode_utf16_nil s : encode_utf16 s = [] -> s = [].
Proof.
  destruct s as [|c s]; [done|]. unfold encode_utf16. cbn [map concat]. unfold utf16_char.
  by destruct (c <? 65536).
Qed.

Lemma names_of_dropfiles names rest :
  Forall (fun n => forallb is_scalar n = true /\ 0 ∉ n /\ n <> []) names ->
  names_of [] (units_of (concat (map (fun n => utf16le n ++ [0; 0]) names) ++ [0; 0] ++ rest)) =
    map encode_utf16 names.
Proof.
  induction 1 as [|n names (Hs & Hn & Hne) _ IH]; [done|]. cbn [map concat]. unfold utf16le.
  destruct (encode_utf16_units n Hs Hn) as [Hr Hz].
  rewrite <- !app_assoc, units_of_encode by done. cbn [app units_of from_le_bytes].
  change (0 + 256 * (0 + 256 * 0)) with 0. rewrite names_of_word; [|done|].
  - cbn [app]. f_equal. exact IH.
  - cbn [app]. intros He. by apply Hne, encode_utf16_nil.
Qed.

Lemma parse_hdrop_total bs : exists ps, parse_hdrop bs = Some ps.
Proof.
  unfold parse_hdrop. destruct (Nat.ltb_spec (length bs) DROPFILES_MIN) as [|H]; [by eexists|].
  unfold DROPFILES_MIN, OFF_PFILES, OFF_FWIDE in *.
  destruct (Device.read_u32_le_total bs 0) as [x ->]; [lia|].
  destruct (Device.read_u32_le_total bs 16) as [y ->]; [lia|]. cbn [mbind option_bind].
  destruct (_ || _); by eexists.
Qed.

(** Whatever the clipboard holds, parsing it never panics.  A text written as
    UTF-16 with its terminator is read back, whatever the allocation's tail
    holds, and a file drop with wide names gives those names in order; names are
    non-empty and free of NUL. *)
Theorem clipboard_formats_roundtrip :
  (forall bs, exists ps, parse_hdrop bs = Some ps) /\
  (forall s tail, forallb is_scalar s = true -> 0 ∉ s ->
     parse_unicode_text (utf16le s ++ [0; 0] ++ tail) = s) /\
  (forall names tail, Forall (fun n => forallb is_scalar n = true /\ 0 ∉ n /\ n <> []) names ->
     parse_hdrop (dropfiles names ++ tail) = Some names).
Proof.
  split; [exact parse_hdrop_total|]. split.
  - intros s tail Hs Hn. destruct (encode_utf16_units s Hs Hn) as [Hr Hz].
    unfold parse_unicode_text, utf16le. rewrite units_of_encode by done.
    cbn [app units_of from_le_bytes]. change (0 + 256 * (0 + 256 * 0)) with 0.
    rewrite take_while_stop by done. by apply from_encode_utf16.
  - intros names tail Hn. unfold parse_hdrop.
    destruct (Nat.ltb_spec (length (dropfiles names ++ tail)) DROPFILES_MIN) as [H|H].
    { unfold dropfiles in H. rewrite !length_app, !length_to_le_bytes in H. unfold DROPFILES_MIN in H. lia. }
    assert (Device.read_u32_le (dropfiles names ++ tail) OFF_PFILES = Some 20) as -> by reflexivity.
    assert (Device.read_u32_le (dropfiles names ++ tail) OFF_FWIDE = Some 1) as -> by reflexivity.
    cbn [mbind option_bind].
    destruct (Z.ltb_spec (Z.of_nat (length (dropfiles names ++ tail))) 20) as [H'|H'];
      [unfold DROPFILES_MIN in H; lia|]. cbn [Z.eqb orb negb].
    change (Z.to_nat 20) with 20%nat.
    assert (drop 20 (dropfiles names ++ tail) =
      concat (map (fun n => utf16le n ++ [0; 0]) names) ++ [0; 0] ++ tail) as ->.
    { unfold dropfiles. rewrite <- !app_assoc. reflexivity. }
    rewrite names_of_dropfiles by done. f_equal. clear H H'. rewrite map_map.
    induction Hn as [|n names (Hs & _) _ IH]; [done|]. cbn [map]. by rewrite from_encode_utf16, IH.
Qed.

(** ** The decision *)

Lemma elem_of_concat {A} (x : A) ls : x ∈ concat ls <-> exists l, x ∈ l /\ l ∈ ls.
Proof. setoid_rewrite list_elem_of_In. rewrite in_concat. naive_solver. Qed.

Section Decision.
Context {D : Digest} {U : Unicode}.
Context (path_name : str -> option str) (file_verdict : str -> Bundle -> result str Verdict).

Lemma foldl_inspect cfg b paths d0 :
  foldl (fun d path =>
      let '(blk, incs) := inspect_file path_name file_verdict cfg b path in
      {| d_block := d_block d || blk; d_incidents := d_incidents d ++ incs |}) d0 paths =
  {| d_block := d_block d0 || existsb (fun p => (inspect_file path_name file_verdict cfg b p).1) paths;
     d_incidents := d_incidents d0 ++ concat (map (fun p => (inspect_file path_name file_verdict cfg b p).2) paths) |}.
Proof.
  revert d0. induction paths as [|p ps IH]; intros [blk incs]; cbn [foldl existsb map concat d_block d_incidents].
  - by rewrite orb_false_r, app_nil_r.
  - destruct (inspect_file path_name file_verdict cfg b p) as [blk' incs'] eqn:Hp. rewrite IH. cbn.
    by rewrite orb_assoc, app_assoc.
Qed.

Lemma verdict_blocks_spec v bat cov : verdict_blocks v bat cov = true <-> matched_at bat cov v.
Proof. apply matched_at_spec. Qed.

Lemma verdict_text_total b text : bundle_wf b -> exists v, verdict_text text b = Some v.
Proof.
  intros Hwf. unfold verdict_text. destruct (match_text_run b Hwf text) as (sc & tk & edm & _ & _ & -> & _).
  by eexists.
Qed.

(** A verdict that the file's incident would report. *)
Definition notable (v : Verdict) : Prop :=
  v_idm v <> [] \/ v_edm v <> [] \/ is_unreadable (extraction v) = true.

Lemma verdict_incident_spec label v blk ch :
  match verdict_incident label v blk ch with
  | Some i => notable v /\ inc_verdict i = Some v /\ action_taken i = taken blk
  | None => ~ notable v
  end.
Proof.
  unfold verdict_incident, notable. destruct (v_idm v), (v_edm v); cbn; try naive_solver.
  destruct (is_unreadable (extraction v)); naive_solver.
Qed.

(** With a loaded bundle the decision never panics and blocks exactly what the
    policy says: a text within the size limit, or a dropped file, that matches
    at the bounds while the default action is to block, a dropped file that
    cannot be read under [fail_block], and an image when images are blocked.
    Every dropped file that matches, is unreadable or cannot be read is
    reported, and a report says blocked only when the payload is. *)
Theorem inspect_decision b cfg payload :
  bundle_wf b ->
  let matches v := matched_at (clip_block_at cfg) (clip_coverage_block_at cfg) v /\
                   clip_default_action cfg = ClipBlock in
  exists d, inspect path_name file_verdict payload (Some b) cfg = Some d /\
    (d_block d = true <->
     match payload with
     | PText t => str_len t <= clip_max_bytes cfg /\ exists v, verdict_text t b = Some v /\ matches v
     | PFiles ps => exists p, p ∈ ps /\
         match file_verdict p b with Ok v => matches v | Err _ => clip_fail_block cfg = true end
     | PImage => block_images cfg = true
     | PUninspected _ => False
     end) /\
    (forall i, i ∈ d_incidents d -> action_taken i = CopyAudit.Blocked -> d_block d = true) /\
    (forall ps p, payload = PFiles ps -> p ∈ ps ->
       match file_verdict p b with
       | Ok v => notable v -> exists i, i ∈ d_incidents d /\ inc_verdict i = Some v
       | Err _ => exists i, i ∈ d_incidents d /\ inc_note i = Some (lit "clipboard-file-unreadable")
       end).
Proof.
  intros Hwf matches.
  assert (forall v, verdict_blocks v (clip_block_at cfg) (clip_coverage_block_at cfg)
    && bool_decide (clip_default_action cfg = ClipBlock) = true <-> matches v) as Hmt.
  { intros v. unfold matches. by rewrite andb_true_iff, verdict_blocks_spec, bool_decide_eq_true. }
  assert (forall blk, taken blk = CopyAudit.Blocked -> blk = true) as Htk by by intros [].
  destruct payload as [t|ps| |note]; unfold inspect.
  - destruct (Z.ltb_spec (clip_max_bytes cfg) (str_len t)).
    { exists no_decision. split; [done|]. split; [split; [done|lia]|]. split; [|done].
      by intros i ?%not_elem_of_nil. }
    destruct (verdict_text_total b t Hwf) as [v Hv]. rewrite Hv. cbn [mbind option_bind].
    eexists. split; [done|]. cbn [d_block d_incidents]. rewrite Hmt. split; [|split; [|done]].
    + split; [intros Hm; split; [lia|]; by exists v|]. intros (_ & v' & ? & ?). by simplify_eq.
    + set (blk := _ && _) in *. pose proof (verdict_incident_spec (lit "(clipboard text)") v blk
        (clip_channel_label cfg)) as Hi. destruct (verdict_incident _ _ _ _) as [i|]; cbn.
      * intros i' ->%list_elem_of_singleton Ha. destruct Hi as (_ & _ & Ht). rewrite Ht in Ha.
        exact (Htk _ Ha).
      * by intros i ?%not_elem_of_nil.
  - rewrite foldl_inspect. cbn [no_decision d_block d_incidents orb app]. eexists. split; [done|].
    cbn [d_block d_incidents]. rewrite existsb_spec.
    assert (forall p, (inspect_file path_name file_verdict cfg b p).1 = true <->
      match file_verdict p b with Ok v => matches v | Err _ => clip_fail_block cfg = true end) as Hp.
    { intros p. unfold inspect_file. destruct (file_verdict p b); cbn [fst]; [apply Hmt|done]. }
    split; [|split].
    + setoid_rewrite Hp. done.
    + intros i Hi Ha. apply elem_of_concat in Hi as (l0 & Hi & His).
      apply list_elem_of_fmap in His as (p & -> & Hin). apply existsb_spec. exists p. split; [done|].
      revert Hi. unfold inspect_file. destruct (file_verdict p b) as [v|e]; cbn [fst snd].
      * set (blk := _ && _). pose proof (verdict_incident_spec (default p (path_name p)) v blk
          (clip_channel_label cfg)) as Hs. destruct (verdict_incident _ _ _ _) as [i'|]; cbn;
          [|by intros ?%not_elem_of_nil]. intros ->%list_elem_of_singleton. destruct Hs as (_ & _ & Ht).
        rewrite Ht in Ha. by apply Htk.
      * intros ->%list_elem_of_singleton. by apply Htk.
    + intros ps' p [= <-] Hin.
      assert (forall i, i ∈ (inspect_file path_name file_verdict cfg b p).2 ->
        i ∈ concat (map (fun p => (inspect_file path_name file_verdict cfg b p).2) ps)) as Hsub.
      { intros i Hi. apply elem_of_concat. eexists. split; [exact Hi|]. apply list_elem_of_fmap. by exists p. }
      revert Hsub. unfold inspect_file at 1. destruct (file_verdict p b) as [v|e]; cbn [snd]; intros Hsub.
      * intros Hn. set (blk := _ && _) in *. pose proof (verdict_incident_spec (default p (path_name p)) v blk
          (clip_channel_label cfg)) as Hs. destruct (verdict_incident _ _ _ _) as [i'|]; [|done].
        exists i'. split; [apply Hsub; by left|]. by destruct Hs as (_ & ? & _).
      * eexists. split; [apply Hsub; by left|]. done.
  - eexists. split; [done|]. cbn [d_block d_incidents]. split; [done|]. split; [|done].
    intros i ->%list_elem_of_singleton. apply Htk.
  - exists no_decision. split; [done|]. split; [done|]. split; [|done]. by intros i ?%not_elem_of_nil.
Qed.
End Decision.

(** ** Samples *)

Definition blocking_clipboard : ClipboardConfig :=
  {| clip_enabled := true; clip_default_action := ClipBlock; clip_max_bytes := 8388608;
     block_images := false; clip_channel_label := lit "clipboard"; clip_block_at := f64_percent 30;
     clip_coverage_block_at := f64_percent 60; clip_fail_block := false |}.
Definition text_clipboard (s : str) : RawClipboard :=
  {| offers := [(CF_UNICODETEXT, Some (utf16le s ++ [0; 0]))]; html_fmt := 0; rtf_fmt := 0 |}.
Definition sample_run : World -> list WorldEvent -> option World :=
  world_run (D := toy_digest) (U := ascii_unicode) Some (fun _ _ => Err []) blocking_clipboard
    (Some idm_sample) true.
Definition update : WorldEvent := Update [true] (Ok tt) true 1.

(** A copy in the gap between the agent's clear and its reading of the sequence
    number is taken for the agent's own: it stays, although no message waits. *)
Example copy_in_the_gap_stays :
  let secret := text_clipboard (lit "Secret: PLAN!") in
  let es := [UserCopy secret 1; update; UserCopy secret 1; RecordWritten; update; update] in
  (fun w => (w_pending w, bool_decide (length (offers (w_held w)) = 1%nat),
             read_snapshot [true] (w_held w))) <$> sample_run (monitor_initial 7 (text_clipboard [])) es =
    Some (0%nat, true, Some (PText (lit "Secret: PLAN!"))) /\
  d_block <$> judge (D := toy_digest) (U := ascii_unicode) Some (fun _ _ => Err []) blocking_clipboard
    (Some idm_sample) [true] secret = Some true.
Proof. vm_compute. auto. Qed.


Lemma clipboard_formats_roundtrip_witness :
  parse_hdrop (dropfiles [lit "C:\\a.txt"; lit "b"] ++ [9]) = Some [lit "C:\\a.txt"; lit "b"].
Proof.
  destruct clipboard_formats_roundtrip as (_ & _ & H). apply H.
  repeat constructor; cbn; try done; intros Hin; vm_compute in Hin;
    repeat (apply elem_of_cons in Hin as [Hin|Hin]; [discriminate|]); by apply not_elem_of_nil in Hin.
Defined.

Lemma inspect_decision_witness :
  bundle_wf idm_sample /\
  exists d, inspect (D := toy_digest) (U := ascii_unicode) Some (fun _ _ => Err []) (PText (lit "Secret: PLAN!"))
    (Some idm_sample) blocking_clipboard = Some d /\ d_block d = true.
Proof.
  split; [exact idm_sample_wf|].
  destruct (inspect_decision (D := toy_digest) (U := ascii_unicode) Some (fun _ _ => Err []) idm_sample
    blocking_clipboard (PText (lit "Secret: PLAN!")) idm_sample_wf) as (d & Hd & Hb & _).
  exists d. split; [exact Hd|]. apply Hb. split; [vm_compute; congruence|].
  eexists. split; [vm_compute; reflexivity|]. split; [|reflexivity].
  right. eexists. split; [by left|]. by left.
Defined.
