(* ===== verification/Detection.v ===== *)
(** Detection from end to end: a document the bundle indexes ([lib/indexBundle.js]
    builds the index, [src/detect] reads it), a text that carries the document or a
    run of it, and what the channels do with that text.  The fingerprints
    ([Fingerprint]), the index ([Bundle]), the verdict ([Verdict]) and the
    decisions of the kernel guard, the clipboard, the browser host and the sealer
    meet here. *)

From S2P Require Import Prelude Words Text F64 Unicode Fingerprint Bundle Edm Extract Verdict.
From S2P Require Import TrustDest Device UsbPolicy Supervise Crypto CopyAudit Config TrustSync.
From S2P Require Import UsbMonitor KGuard BrowserHost Clipboard.
#[local] Open Scope Z_scope.

Section Detection.
Context {D : Digest} {U : Unicode} {X : ExtractEnv}.

(** Document [d] of the bundle is the document of text [T]: its records are the
    distinct fingerprint hashes of [T], [fpCount] counts them and the pre-filter
    holds them ([docs/index-bundle-format.md]). *)
Record indexes (b : Bundle) (d : Z) (doc : Doc) (T : str) : Prop := {
  ix_doc : docs (header b) !! Z.to_nat d = Some doc;
  ix_records : forall r, fingerprint T DEFAULT_K DEFAULT_W = Some r ->
    fp_count doc = Z.of_nat (base.size (to_hash_set (fingerprints r))) /\
    forall h, records b h d <-> h ∈ to_hash_set (fingerprints r);
  ix_bloom : forall h, records b h d -> bloom_has b h = Some true;
  ix_count : is_u64 (fp_count doc);
}.

(** The shortest run whose detection winnowing guarantees. *)
Definition MIN_RUN : nat := DEFAULT_K + DEFAULT_W - 1.

(** [text] carries [run], word for word. *)
Definition carries (text : str) (run : list str) : Prop :=
  exists before after, tokens (normalize text) = before ++ run ++ after.

(** A match that names the document, and one that has all of it. *)
Definition matches_doc (doc : Doc) (m : IdmMatch) : Prop :=
  m_document_id m = document_id doc /\ m_title m = title doc /\ total_count m = fp_count doc /\
  0 < matched_count m.
Definition whole_doc (doc : Doc) (m : IdmMatch) : Prop :=
  matches_doc doc m /\ matched_count m = fp_count doc /\ m_containment m = f64_of_Z 1.

(** ** The scanned hashes *)

Lemma elem_of_distinct_hashes seen fps h :
  h ∈ distinct_hashes seen fps <-> h ∉ seen /\ h ∈ map fp_hash fps.
Proof.
  revert seen. induction fps as [|fp fps IH]; intros seen; cbn [distinct_hashes map].
  - rewrite elem_of_nil. tauto.
  - case_bool_decide as Hs; rewrite ?elem_of_cons, IH, ?elem_of_union, ?elem_of_singleton.
    + split; [tauto|]. intros [Hn [->|?]]; tauto.
    + destruct (base.decide (h = fp_hash fp)) as [->|]; tauto.
Qed.
Lemma NoDup_distinct_hashes seen fps : NoDup (distinct_hashes seen fps).
Proof.
  revert seen. induction fps as [|fp fps IH]; intros seen; cbn [distinct_hashes]; [constructor|].
  case_bool_decide; [apply IH|]. constructor; [|apply IH]. rewrite elem_of_distinct_hashes. set_solver.
Qed.

Lemma fingerprint_long T :
  (MIN_RUN <= length (tokens (normalize T)))%nat ->
  exists fps, winnow (shingle_hashes DEFAULT_K (tokens (normalize T))) DEFAULT_W = Some fps /\
    fingerprint T DEFAULT_K DEFAULT_W =
      Some {| fingerprints := fps; shingle_count := length (windows DEFAULT_K (tokens (normalize T)));
              token_count := length (tokens (normalize T)) |}.
Proof.
  intros Hl. unfold MIN_RUN, DEFAULT_K, DEFAULT_W in *.
  destruct (winnow_long (shingle_hashes 8 (tokens (normalize T))) 8) as (ms & E & _).
  { unfold shingle_hashes. rewrite !length_map, length_windows. lia. }
  eexists. split; [exact E|]. unfold fingerprint. rewrite shingles_of_long by lia.
  cbn [mbind option_bind]. fold (shingle_hashes 8 (tokens (normalize T))). rewrite E.
  cbn. by rewrite length_map.
Qed.

Lemma scan_fingerprint b text r :
  bundle_wf b -> fingerprint text DEFAULT_K DEFAULT_W = Some r ->
  scan text b = Some (distinct_hashes ∅ (fingerprints r), tokens (normalize text)).
Proof.
  intros Hwf. unfold fingerprint, scan. rewrite (wf_params _ Hwf). cbn [k w].
  destruct (shingles_of _ _) as [sh|]; [|done]. cbn [mbind option_bind].
  destruct (winnow _ _) as [fps|]; [|done]. cbn [mbind option_bind]. by intros [= <-].
Qed.

Lemma carries_fingerprint text run :
  (MIN_RUN <= length run)%nat -> carries text run ->
  exists fps, fingerprint text DEFAULT_K DEFAULT_W = Some fps.
Proof.
  intros Hl (c & e & Ht). destruct (fingerprint_long text) as (? & _ & ?); [|by eexists].
  rewrite Ht, !length_app. lia.
Qed.

(** Every hash selected for a window inside a carried run is scanned. *)
Lemma carried_hash_scanned T text before run after m i fps :
  tokens (normalize T) = before ++ run ++ after -> carries text run ->
  (i + MIN_RUN <= length run)%nat ->
  rightmost_min (map as_u64 (shingle_hashes DEFAULT_K (tokens (normalize T)))) (length before + i) DEFAULT_W m ->
  fingerprint text DEFAULT_K DEFAULT_W = Some fps ->
  fnv1a64 (join [32] (take DEFAULT_K (drop m (tokens (normalize T))))) ∈ to_hash_set (fingerprints fps).
Proof.
  intros HT (c & e & Ht) Hi Hm Hf. rewrite HT in Hm |- *. unfold MIN_RUN, DEFAULT_K, DEFAULT_W in *.
  destruct (shared_window 8 8 before after c e run i m) as (fs & E & Hin); [lia..|done|].
  rewrite <- Ht in E.
  destruct (fingerprint_long text) as (fs' & E' & Hf').
  { rewrite Ht, !length_app. unfold MIN_RUN, DEFAULT_K, DEFAULT_W. lia. }
  unfold DEFAULT_K, DEFAULT_W in E', Hf'. rewrite Hf in Hf'. simplify_eq.
  by apply elem_of_to_hash_set.
Qed.

(** A text that carries the whole document scans all of its hashes. *)
Lemma whole_hashes_scanned T text r fps :
  (MIN_RUN <= length (tokens (normalize T)))%nat -> carries text (tokens (normalize T)) ->
  fingerprint T DEFAULT_K DEFAULT_W = Some r -> fingerprint text DEFAULT_K DEFAULT_W = Some fps ->
  to_hash_set (fingerprints r) ⊆ to_hash_set (fingerprints fps).
Proof.
  intros Hl Hc Hr Hf h Hh. destruct (fingerprint_long T Hl) as (fs & E & Hr').
  rewrite Hr in Hr'. simplify_eq. cbn [fingerprints] in Hh. apply elem_of_to_hash_set in Hh.
  unfold MIN_RUN, DEFAULT_K, DEFAULT_W in *.
  assert (length (shingle_hashes 8 (tokens (normalize T))) = length (tokens (normalize T)) - 7)%nat as Hlen.
  { unfold shingle_hashes. rewrite !length_map, length_windows. lia. }
  destruct (winnow_long (shingle_hashes 8 (tokens (normalize T))) 8) as (ms & E' & _ & Hin); [lia|].
  rewrite E in E'. simplify_eq. rewrite map_map in Hh. apply list_elem_of_fmap in Hh as (m & -> & Hm).
  apply Hin in Hm as (i & Hi & Hm). cbn [fp_hash mk_fp].
  assert (m < i + 8)%nat by apply Hm.
  erewrite list_lookup_total_correct by (apply shingle_hashes_lookup; lia).
  apply (carried_hash_scanned T text [] (tokens (normalize T)) [] m i fps);
    [by rewrite app_nil_r|done|unfold MIN_RUN, DEFAULT_K, DEFAULT_W; lia|done|done].
Qed.

(** ** The matches *)

Lemma doc_hashes_nodup b r d : NoDup (doc_hashes b (distinct_hashes ∅ r) d).
Proof. apply NoDup_filter, NoDup_distinct_hashes. Qed.

Lemma elem_of_doc_hashes b d doc T fps h :
  indexes b d doc T ->
  h ∈ doc_hashes b (distinct_hashes ∅ fps) d <-> records b h d /\ h ∈ to_hash_set fps.
Proof.
  intros Hix. unfold doc_hashes. rewrite list_elem_of_filter, elem_of_distinct_hashes, elem_of_to_hash_set.
  fold (records b h d). pose proof (ix_bloom _ _ _ _ Hix h). set_solver.
Qed.

(** What the verdict reports of an indexed document. *)
Lemma indexed_match b d doc T text fps :
  bundle_wf b -> indexes b d doc T -> fingerprint text DEFAULT_K DEFAULT_W = Some fps ->
  let found := doc_hashes b (distinct_hashes ∅ (fingerprints fps)) d in
  found <> [] ->
  exists idm edm m, match_text text b = Some (idm, edm) /\ m ∈ idm /\ matches_doc doc m /\
    matched_count m = Z.of_nat (length found) /\
    m_containment m =
      if fp_count doc =? 0 then f64_zero
      else f64_div (f64_of_Z (Z.of_nat (length found))) (f64_of_Z (fp_count doc)).
Proof.
  intros Hwf Hix Hf found Hne. destruct (match_text_run b Hwf text) as (scanned & toks & edm & Hs & _ & Hm & _).
  rewrite (scan_fingerprint b text fps Hwf Hf) in Hs. simplify_eq.
  eexists _, edm, _. split; [exact Hm|].
  pose proof (doc_hashes_range b Hwf _ _ Hne) as Hr. split; [|].
  - apply elem_of_sort_by, list_elem_of_omap. exists (d, found). split.
    + apply list_elem_of_fmap. exists d. split; [done|]. apply list_elem_of_filter.
      split; [done|]. apply elem_of_seqZ. lia.
    + unfold idm_match. cbn [fst snd]. rewrite (ix_doc _ _ _ _ Hix). reflexivity.
  - cbn. split; [|done]. unfold matches_doc. cbn. split; [done|]. split; [done|]. split; [done|].
    destruct found; [done|cbn; lia].
Qed.

Lemma matched_whole b d doc T text :
  bundle_wf b -> indexes b d doc T -> (MIN_RUN <= length (tokens (normalize T)))%nat ->
  carries text (tokens (normalize T)) ->
  exists idm edm m, match_text text b = Some (idm, edm) /\ m ∈ idm /\ whole_doc doc m.
Proof.
  intros Hwf Hix Hl Hc. destruct (fingerprint_long T Hl) as (rs & Er & Hr).
  destruct (carries_fingerprint text _ Hl Hc) as (fps & Hf).
  set (found := doc_hashes b (distinct_hashes ∅ (fingerprints fps)) d).
  destruct (ix_records _ _ _ _ Hix _ Hr) as [Hcount Hrec].
  pose proof (whole_hashes_scanned T text _ fps Hl Hc Hr Hf) as Hsub.
  cbn [fingerprints] in Hcount, Hrec, Hsub.
  assert (length found = base.size (to_hash_set rs)) as Hlen.
  { unfold base.size, set_size. cbn. apply Permutation_length, NoDup_Permutation;
      [apply doc_hashes_nodup|apply NoDup_elements|].
    intros h. unfold found. rewrite (elem_of_doc_hashes b d doc T) by done. rewrite elem_of_elements.
    rewrite Hrec. set_solver. }
  assert (0 < base.size (to_hash_set rs))%nat as Hpos.
  { destruct (window_hash_recorded (tokens (normalize T)) 8 8 0) as (rs' & m & E & _ & Hin);
      [lia..|exact Hl|]. unfold shingle_hashes in Er. unfold DEFAULT_K, DEFAULT_W in Er.
    rewrite Er in E. injection E as <-.
    apply elem_of_to_hash_set in Hin. destruct (base.decide (base.size (to_hash_set rs) = 0)%nat) as [Hz|]; [|lia].
    apply size_empty_inv in Hz. set_solver. }
  destruct (indexed_match b d doc T text fps Hwf Hix Hf) as (idm & edm & m & Hm & Hin & Hd & Hn & Hcn).
  { fold found. intros E. rewrite E in Hlen. cbn in Hlen. lia. }
  fold found in Hn, Hcn. rewrite Hlen in Hn, Hcn. rewrite <- Hcount in Hn, Hcn.
  exists idm, edm, m. split; [done|]. split; [done|]. split; [done|]. split; [done|].
  pose proof (ix_count _ _ _ _ Hix) as Hu. unfold is_u64 in Hu.
  rewrite Hcn. destruct (Z.eqb_spec (fp_count doc) 0); [lia|]. apply f64_div_self. lia.
Qed.

Lemma matched_run b d doc T text before run after :
  bundle_wf b -> indexes b d doc T -> tokens (normalize T) = before ++ run ++ after ->
  (MIN_RUN <= length run)%nat -> carries text run ->
  exists idm edm m, match_text text b = Some (idm, edm) /\ m ∈ idm /\ matches_doc doc m.
Proof.
  intros Hwf Hix HT Hl Hc.
  destruct (fingerprint_long T) as (rs & Er & Hr); [rewrite HT, !length_app; lia|].
  destruct (carries_fingerprint text _ Hl Hc) as (fps & Hf).
  unfold MIN_RUN, DEFAULT_K, DEFAULT_W in Hl.
  destruct (window_hash_recorded (tokens (normalize T)) 8 8 (length before)) as (rs' & mm & E & Hmm & Hin);
    [lia..|rewrite HT, !length_app; lia|].
  unfold shingle_hashes in Er. unfold DEFAULT_K, DEFAULT_W in Er. rewrite Er in E. injection E as <-.
  destruct (indexed_match b d doc T text fps Hwf Hix Hf) as (idm & edm & m & Hm & Hmin & Hd & _);
    [|by exists idm, edm, m].
  intros Hnil. pose proof (carried_hash_scanned T text before run after mm 0 fps HT Hc) as Hs.
  rewrite Nat.add_0_r in Hs. specialize (Hs ltac:(unfold MIN_RUN, DEFAULT_K, DEFAULT_W; lia) Hmm Hf).
  eapply not_elem_of_nil. rewrite <- Hnil. apply (elem_of_doc_hashes b d doc T); [done|]. split; [|exact Hs].
  apply (proj2 (ix_records _ _ _ _ Hix _ Hr)). cbn [fingerprints]. by apply elem_of_to_hash_set.
Qed.

(** ** The verdicts *)

Definition finds (P : Doc -> IdmMatch -> Prop) (doc : Doc) (v : Verdict) : Prop :=
  exists m, m ∈ v_idm v /\ P doc m.
(** The content of a file of some format, from whose text the run is read. *)
Definition file_carries (content : bytes) (name : str) (run : list str) : Prop :=
  exists e, extract_text content name = Some (Ok e) /\ carries (et_text e) run.
(** A bound that a complete match reaches. *)
Definition at_most_whole (bound : f64) : Prop := f64_ge (f64_of_Z 1) bound = true.

(** A matcher's result is that of both entry points. *)
Lemma text_verdict b P doc text :
  (exists idm edm m, match_text text b = Some (idm, edm) /\ m ∈ idm /\ P doc m) ->
  exists v, verdict_text text b = Some v /\ is_unreadable (extraction v) = false /\ finds P doc v.
Proof.
  intros (idm & edm & m & Hm & Hin & HP). unfold verdict_text. rewrite Hm. cbn [mbind option_bind].
  eexists. split; [done|]. split; [done|]. by exists m.
Qed.
Lemma file_verdict b P doc content name e :
  extract_text content name = Some (Ok e) ->
  (exists idm edm m, match_text (et_text e) b = Some (idm, edm) /\ m ∈ idm /\ P doc m) ->
  exists v, verdict_bytes content name b = Some v /\ is_unreadable (extraction v) = false /\ finds P doc v.
Proof.
  intros He (idm & edm & m & Hm & Hin & HP). unfold verdict_bytes. rewrite He. cbn [mbind option_bind].
  rewrite Hm. cbn [mbind option_bind]. eexists. split; [done|]. split; [done|]. by exists m.
Qed.

Lemma finds_has_match P doc v : finds P doc v -> v_idm v <> [] /\ has_match v = true.
Proof.
  intros (m & Hm & _). destruct (v_idm v) eqn:E; [by apply elem_of_nil in Hm|].
  split; [done|]. unfold has_match. by rewrite E, bool_decide_eq_false_2.
Qed.

(** The copy auditor reports what a verdict found. *)
Lemma audit_reports P doc b v verdict_src sealer cfg va s :
  finds P doc v -> verdict_src b (settled_path s) = Ok v -> settled_size s <= max_file_bytes (usb cfg) ->
  exists inc, audit_settled verdict_src sealer cfg (Some b) va [s] = [inc] /\ inc_verdict inc = Some v.
Proof.
  intros [_ Hf]%finds_has_match Hv Hs. unfold audit_settled.
  destruct (va_encrypt va) as [ev|]; cbn; [unfold scan_and_seal_to_incident|unfold scan_to_incident];
    rewrite (proj2 (Z.ltb_ge _ _) Hs), Hv; cbn; rewrite Hf.
  - destruct (decide_seal _ _ _ _); [by eexists| |by eexists]. destruct (sealer _ _); by eexists.
  - by eexists.
Qed.

Lemma clipboard_reports P doc b v text pn fv cfg :
  finds P doc v -> verdict_text text b = Some v -> str_len text <= clip_max_bytes cfg ->
  exists inc, inspect pn fv (PText text) (Some b) cfg =
      Some {| d_block := verdict_blocks v (clip_block_at cfg) (clip_coverage_block_at cfg)
                         && bool_decide (clip_default_action cfg = ClipBlock);
              d_incidents := [inc] |} /\ inc_verdict inc = Some v.
Proof.
  intros [Hf _]%finds_has_match Hv Hs. unfold inspect. rewrite (proj2 (Z.ltb_ge _ _) Hs), Hv.
  cbn [mbind option_bind]. unfold verdict_incident.
  destruct (v_idm v); [done|]. cbn. by eexists.
Qed.

Lemma browser_reports `{BrowserEnv} P doc v text block_at cov scan_text scan_file scan_bytes req :
  finds P doc v -> rq_kind req = ScanText -> rq_text req = Some text -> scan_text text = v ->
  let h := handle_request block_at cov scan_text scan_file scan_bytes req in
  rp_verdict (h_reply h) = (if verdict_blocks v block_at cov then WebBlock else WebWarn) /\
  exists label, h_incident h = Some (v, label).
Proof.
  intros [Hf _]%finds_has_match Hk Ht Hs h. unfold h, handle_request, request_verdict. rewrite Hk, Ht, Hs.
  unfold map_verdict, verdict_blocks.
  assert (bool_decide (length (v_idm v) = 0%nat) = false) as -> by by destruct (v_idm v).
  cbn [negb orb]. destruct (negb _); cbn [orb]; [by split; [|eexists]|].
  destruct (existsb _ _); by split; [|eexists].
Qed.

Lemma whole_matched_at P doc v bound cov :
  (forall m, P doc m -> m_containment m = f64_of_Z 1) -> finds P doc v -> at_most_whole bound ->
  matched_at bound cov v.
Proof. intros HP (m & Hm & Hw) Hb. right. exists m. split; [done|]. left. by rewrite (HP m Hw). Qed.

Lemma whole_contained doc m : whole_doc doc m -> m_containment m = f64_of_Z 1.
Proof. by intros (_ & _ & ?). Qed.

(** A file with the whole document is never left in plaintext by the sealer. *)
Lemma whole_never_plain doc v mode bands band :
  finds whole_doc doc v -> is_unreadable (extraction v) = false -> at_most_whole (encrypt_at bands) ->
  decide_seal mode bands band (Some v) <> Plain.
Proof.
  intros (m & Hm & Hw) Hr Hb. destruct mode; [|done]. cbn. rewrite Hr.
  destruct (existsb (in_block_band bands) (v_idm v)); [by destruct band|].
  destruct (negb _); [done|].
  assert (existsb (fun m => f64_ge (m_containment m) (encrypt_at bands)) (v_idm v) = true) as ->; [|done].
  apply existsb_exists. exists m. split; [by apply list_elem_of_In|]. by rewrite (whole_contained doc m Hw).
Qed.

(** Whether the sealer has a part in a scan. *)
Lemma sealed_write_or cfg reason dev :
  (exists d, dev = Some d /\ sealed_write cfg reason d) \/
  (forall d, dev = Some d -> ~ sealed_write cfg reason d).
Proof.
  destruct dev as [d|]; [|by right]. unfold sealed_write.
  destruct (Z.eqb_spec reason DLP_REASON_READ); [right; naive_solver|].
  destruct (usb_enabled (usb cfg)) eqn:Hu; [|right; naive_solver].
  destruct (bool_decide_reflect ((UsbPolicy.decide (to_policy (usb cfg)) d).1 = Encrypt));
    [left; by exists d|right; naive_solver].
Qed.

(** What the kernel guard does with it: block, or let it through to be sealed. *)
Lemma whole_guarded b doc v cfg path content reason healthy dev :
  finds whole_doc doc v -> is_unreadable (extraction v) = false ->
  verdict_bytes content (basename_of path) b = Some v -> starts_with ENVELOPE_MAGIC content = false ->
  at_most_whole (kguard_block_at (kguard cfg)) -> at_most_whole (removable_write_block_at (kguard cfg)) ->
  at_most_whole (encrypt_at (encrypt_bands cfg)) ->
  exists blk inc, decide_on cfg (Some b) path content reason healthy dev = Some (blk, Some inc) /\
    inc_verdict inc = Some v /\
    (blk = true \/
     healthy = true /\ inc_note inc = Some (lit "allowed-pending-seal") /\
     exists d, dev = Some d /\ sealed_write cfg reason d).
Proof.
  intros Hf Hr Hv He Hb Hw Ha. unfold decide_on. rewrite not_envelope by done. rewrite Hv.
  cbn [fmap option_fmap option_map mbind option_bind].
  assert ((if reason =? DLP_REASON_READ then should_block v (kguard cfg)
           else should_block_removable_write v (kguard cfg)) = true) as Hmatch.
  { destruct (reason =? DLP_REASON_READ); apply matched_at_spec;
      by eapply whole_matched_at; [apply (whole_contained doc)|..]. }
  rewrite Hr, Hmatch. destruct (sealed_write_or cfg reason dev) as [(d & -> & Hs)|Hno].
  - rewrite sealed_write_override by done. destruct Hs as (Hrd & Hu & Hd) eqn:HS.
    rewrite (proj2 (Z.eqb_neq _ _) Hrd), Hu. cbn [negb andb].
    destruct (encrypt_params (usb cfg) d) as [[mode key] band].
    pose proof (whole_never_plain doc v mode (encrypt_bands cfg) band Hf Hr Ha) as Hp.
    destruct (decide_seal _ _ _ _); [done| |].
    + eexists _, _. split; [done|]. split; [done|]. destruct healthy; [|by left].
      right. split; [done|]. split; [done|]. by exists d.
    + eexists _, _. split; [done|]. split; [done|by left].
  - rewrite no_override by done. eexists _, _. split; [done|]. split; [done|by left].
Qed.

(** C2: Whoever copies fifteen consecutive words of a protected document is found,
    whatever surrounds them and whatever the file format: the verdict of a file
    or of a text that carries such a run names the document, the copy auditor
    reports a file of admissible size that settles on any watched volume, with
    or without sealing, and the clipboard (a text within its limit) and the
    browser host report the text, which the browser never gets an unqualified
    [allow] for. *)
Theorem copied_run_is_reported b d doc T before run after :
  bundle_wf b -> indexes b d doc T -> tokens (normalize T) = before ++ run ++ after ->
  (MIN_RUN <= length run)%nat ->
  (forall content name, file_carries content name run ->
     exists v, verdict_bytes content name b = Some v /\ finds matches_doc doc v /\
       forall verdict_src sealer cfg va s,
         verdict_src b (settled_path s) = Ok v -> settled_size s <= max_file_bytes (usb cfg) ->
         exists inc, audit_settled verdict_src sealer cfg (Some b) va [s] = [inc] /\
           inc_verdict inc = Some v) /\
  (forall text, carries text run ->
     exists v, verdict_text text b = Some v /\ finds matches_doc doc v /\
       (forall pn fv cfg, str_len text <= clip_max_bytes cfg ->
          exists blk inc, inspect pn fv (PText text) (Some b) cfg =
            Some {| d_block := blk; d_incidents := [inc] |} /\ inc_verdict inc = Some v) /\
       (forall `{BrowserEnv} block_at cov scan_text scan_file scan_bytes req,
          rq_kind req = ScanText -> rq_text req = Some text -> scan_text text = v ->
          let h := handle_request block_at cov scan_text scan_file scan_bytes req in
          rp_verdict (h_reply h) <> WebAllow /\ exists label, h_incident h = Some (v, label))).
Proof.
  intros Hwf Hix HT Hl. split.
  - intros content name (e & He & Hc).
    destruct (file_verdict b matches_doc doc content name e He) as (v & Hv & _ & Hf);
      [by apply (matched_run b d doc T (et_text e) before run after)|].
    exists v. split; [done|]. split; [done|]. intros. by eapply audit_reports.
  - intros text Hc. destruct (text_verdict b matches_doc doc text) as (v & Hv & _ & Hf);
      [by apply (matched_run b d doc T text before run after)|].
    exists v. split; [done|]. split; [done|]. split.
    + intros pn fv cfg Hs. destruct (clipboard_reports _ _ b v text pn fv cfg Hf Hv Hs) as (inc & ? & ?).
      by eexists _, inc.
    + intros BE block_at cov scan_text scan_file scan_bytes req Hk Ht Hs.
      cbv zeta.
      pose proof (browser_reports _ _ v text block_at cov scan_text scan_file scan_bytes req Hf Hk Ht Hs) as [-> ?].
      split; [by destruct (verdict_blocks v block_at cov)|done].
Qed.

(** C1: A file or text that carries a protected document as a whole, of fifteen words
    or more, is detected, and stopped where the configuration says so.  Its verdict
    has a match of that document with all of its fingerprints and a containment of
    exactly 1.  Each of the following needs the channel's bound to be at most 1.  A
    file that does not begin as an envelope: the kernel guard blocks every read and
    write of it, except a write to a destination that the healthy sealer encrypts,
    which it lets through with a report that a seal is pending.  The sealer
    never leaves the file in plaintext.  A text within the clipboard's size limit:
    the clipboard blocks it if its default action is to block, which is not the
    action as shipped.  A text sent to the browser host: the browser is told to
    block it. *)
Theorem protected_document_is_stopped b d doc T :
  bundle_wf b -> indexes b d doc T -> (MIN_RUN <= length (tokens (normalize T)))%nat ->
  (forall content name, file_carries content name (tokens (normalize T)) ->
     exists v, verdict_bytes content name b = Some v /\ finds whole_doc doc v /\
       (forall cfg path reason healthy dev,
          basename_of path = name -> starts_with ENVELOPE_MAGIC content = false ->
          at_most_whole (kguard_block_at (kguard cfg)) ->
          at_most_whole (removable_write_block_at (kguard cfg)) ->
          at_most_whole (encrypt_at (encrypt_bands cfg)) ->
          exists blk inc, decide_on cfg (Some b) path content reason healthy dev = Some (blk, Some inc) /\
            inc_verdict inc = Some v /\
            (blk = true \/
             healthy = true /\ inc_note inc = Some (lit "allowed-pending-seal") /\
             exists dv, dev = Some dv /\ sealed_write cfg reason dv)) /\
       (forall mode bands band, at_most_whole (encrypt_at bands) ->
          decide_seal mode bands band (Some v) <> Plain)) /\
  (forall text, carries text (tokens (normalize T)) ->
     exists v, verdict_text text b = Some v /\ finds whole_doc doc v /\
       (forall pn fv cfg, str_len text <= clip_max_bytes cfg -> at_most_whole (clip_block_at cfg) ->
          clip_default_action cfg = ClipBlock ->
          exists incs, inspect pn fv (PText text) (Some b) cfg =
            Some {| d_block := true; d_incidents := incs |}) /\
       (forall `{BrowserEnv} block_at cov scan_text scan_file scan_bytes req,
          rq_kind req = ScanText -> rq_text req = Some text -> scan_text text = v ->
          at_most_whole block_at ->
          rp_verdict (h_reply (handle_request block_at cov scan_text scan_file scan_bytes req)) = WebBlock)).
Proof.
  intros Hwf Hix Hl. split.
  - intros content name (e & He & Hc).
    destruct (file_verdict b whole_doc doc content name e He) as (v & Hv & Hr & Hf);
      [by apply (matched_whole b d doc T)|].
    exists v. split; [done|]. split; [done|]. split.
    + intros cfg path reason healthy dev <- ? ? ? ?. by eapply whole_guarded.
    + intros. by eapply whole_never_plain.
  - intros text Hc. destruct (text_verdict b whole_doc doc text) as (v & Hv & _ & Hf);
      [by apply (matched_whole b d doc T)|].
    assert (forall bound cov, at_most_whole bound -> verdict_blocks v bound cov = true) as Hblk.
    { intros bound cov Hb. apply matched_at_spec. by eapply whole_matched_at; [apply (whole_contained doc)|..]. }
    exists v. split; [done|]. split; [done|]. split.
    + intros pn fv cfg Hs Hb Ha. destruct (clipboard_reports _ _ b v text pn fv cfg Hf Hv Hs) as (inc & E & _).
      rewrite Hblk, bool_decide_eq_true_2 in E by done. by eexists.
    + intros BE block_at cov scan_text scan_file scan_bytes req Hk Ht Hs Hb.
      pose proof (browser_reports _ _ v text block_at cov scan_text scan_file scan_bytes req Hf Hk Ht Hs) as [-> _].
      by rewrite Hblk.
Qed.
End Detection.

(** A protected document of twenty-two words, and a bundle that indexes it. *)
Definition plan_text : str :=
  lit "The northern site opens in May with forty staff; budget, permits and vendors follow in June, then the first local team arrives.".
Definition hash_order (a b : Z) : comparison := Z.compare (as_u64 a) (as_u64 b).
Definition plan_hashes : list Z := [91457909008410153; 429137760026522751; 3311824204126401153].
Lemma plan_hashes_computed :
  ((fun r => sort_by hash_order (distinct_hashes ∅ (fingerprints r))) <$>
     fingerprint (U := ascii_unicode) plan_text DEFAULT_K DEFAULT_W) = Some plan_hashes.
Proof. vm_compute. reflexivity. Qed.
Definition plan_doc : Doc :=
  {| version_id := lit "v1"; document_id := lit "d1"; collection_id := lit "c1"; title := lit "Plan";
     fp_count := Z.of_nat (length plan_hashes) |}.
Definition plan_bundle : Bundle :=
  {| format_version := 1;
     header := {| bundle_version := 1; params := {| k := 8; w := 8; hash_bits := 64 |};
       edm_salts := ∅; scope := [];
       counts := {| counts_idm := Z.of_nat (length plan_hashes); counts_edm := 0; counts_docs := 1 |};
       docs := [plan_doc]; edm_sources := [] |};
     bloom := {| m_bits := 8; k_hashes := 2; bits := [255] |};
     idm := map (fun h => {| idm_hash := h; doc_index := 0 |}) plan_hashes;
     edm := [] |}.

Lemma plan_bundle_wf : bundle_wf plan_bundle.
Proof.
  split; try reflexivity.
  - repeat split; try (vm_compute; congruence). repeat constructor; vm_compute; congruence.
  - repeat constructor; vm_compute; congruence.
  - repeat constructor.
  - constructor.
  - constructor.
Qed.

Lemma sorted_hashes hs fps :
  hs = sort_by hash_order (distinct_hashes ∅ fps) ->
  length hs = base.size (to_hash_set fps) /\ forall h, h ∈ hs <-> h ∈ to_hash_set fps.
Proof.
  intros ->. assert (forall h, h ∈ sort_by hash_order (distinct_hashes ∅ fps) <-> h ∈ to_hash_set fps) as Hin.
  { intros h. rewrite elem_of_sort_by, elem_of_distinct_hashes, elem_of_to_hash_set.
    pose proof (not_elem_of_empty (C := gset Z) h). tauto. }
  split; [|done]. unfold base.size, set_size. cbn. apply Permutation_length, NoDup_Permutation.
  - rewrite sort_by_perm. apply NoDup_distinct_hashes.
  - apply NoDup_elements.
  - intros h. by rewrite elem_of_elements.
Qed.

Lemma plan_indexed : indexes (U := ascii_unicode) plan_bundle 0 plan_doc plan_text.
Proof.
  assert (forall h, records plan_bundle h 0 <-> h ∈ plan_hashes) as Hrec.
  { intros h. unfold records. rewrite Exists_exists. split.
    - intros (e & (h' & -> & Hin)%list_elem_of_fmap & <- & _). exact Hin.
    - intros Hin. exists {| idm_hash := h; doc_index := 0 |}. split; [|done].
      apply list_elem_of_fmap. by exists h. }
  split.
  - reflexivity.
  - intros r Hr. destruct (sorted_hashes plan_hashes (fingerprints r)) as [Hlen Hin].
    { pose proof plan_hashes_computed as E. rewrite Hr in E. by injection E. }
    rewrite <- Hlen. split; [exact eq_refl|]. intros h. rewrite Hrec. apply Hin.
  - intros h Hh%Hrec. revert h Hh. apply Forall_forall.
    apply (bool_decide_unpack _). vm_compute. exact I.
  - vm_compute. by split.
Qed.

Definition leaked_mail : str :=
  lit "Hi! As agreed: the NORTHERN site opens in May (with forty staff). Budget, permits and vendors follow in June; then the first local team arrives - keep it to yourself.".

Lemma protected_document_is_stopped_witness :
  carries (U := ascii_unicode) leaked_mail (tokens (normalize (U := ascii_unicode) plan_text)) /\
  length plan_hashes = 3%nat /\
  exists v, verdict_text (D := toy_digest) (U := ascii_unicode) leaked_mail plan_bundle = Some v /\
    (fun m => (m_title m, matched_count m, total_count m)) <$> v_idm v = [(lit "Plan", 3, 3)] /\
    rp_verdict (h_reply (handle_request (BE := toy_browser) DEFAULT_BLOCK_AT DEFAULT_COVERAGE_BLOCK_AT
      (fun _ => v) (fun _ => Err []) (fun _ _ => v)
      {| rq_version := 1; rq_kind := ScanText; rq_text := Some leaked_mail; rq_path := None;
         content_b64 := None; rq_url := []; rq_origin := []; rq_id := 5 |})) = WebBlock /\
    exists incs, inspect (D := toy_digest) (U := ascii_unicode) Some (fun _ _ => Err []) (PText leaked_mail)
      (Some plan_bundle) blocking_clipboard = Some {| d_block := true; d_incidents := incs |}.
Proof.
  assert (carries (U := ascii_unicode) leaked_mail (tokens (normalize (U := ascii_unicode) plan_text))) as Hc.
  { exists [lit "hi"; lit "as"; lit "agreed"], [lit "keep"; lit "it"; lit "to"; lit "yourself"]. vm_compute. reflexivity. }
  split; [exact Hc|]. split; [vm_compute; reflexivity|].
  destruct (protected_document_is_stopped (D := toy_digest) (U := ascii_unicode) (X := sample_archive)
    plan_bundle 0 plan_doc plan_text plan_bundle_wf plan_indexed ltac:(apply (bool_decide_unpack _); vm_compute; exact I))
    as [_ H].
  destruct (H leaked_mail Hc) as (v & Hv & _ & Hclip & Hweb). exists v. split; [exact Hv|]. split; [|split].
  - vm_compute in Hv. injection Hv as <-. reflexivity.
  - apply (Hweb toy_browser); [reflexivity..|vm_compute; reflexivity].
  - apply Hclip; [vm_compute; congruence|vm_compute; reflexivity|reflexivity].
Defined.

Lemma copied_run_is_reported_witness :
  let text := lit "He said the site opens in May with forty staff, budget, permits and vendors follow in June, then went." in
  exists v, verdict_text (D := toy_digest) (U := ascii_unicode) text plan_bundle = Some v /\
    (fun m => (m_title m, matched_count m, total_count m)) <$> v_idm v = [(lit "Plan", 1, 3)] /\
    exists blk inc, inspect (D := toy_digest) (U := ascii_unicode) Some (fun _ _ => Err []) (PText text)
      (Some plan_bundle) blocking_clipboard = Some {| d_block := blk; d_incidents := [inc] |} /\
      inc_verdict inc = Some v.
Proof.
  intros text. set (run := take 15 (drop 2 (tokens (normalize (U := ascii_unicode) plan_text)))).
  assert (carries (U := ascii_unicode) text run) as Hc.
  { exists [lit "he"; lit "said"; lit "the"], [lit "went"]. vm_compute. reflexivity. }
  destruct (copied_run_is_reported (D := toy_digest) (U := ascii_unicode) (X := sample_archive)
    plan_bundle 0 plan_doc plan_text [lit "the"; lit "northern"] run
    (drop 17 (tokens (normalize (U := ascii_unicode) plan_text))) plan_bundle_wf plan_indexed
    ltac:(vm_compute; reflexivity) ltac:(apply (bool_decide_unpack _); vm_compute; exact I)) as [_ H].
  destruct (H text Hc) as (v & Hv & _ & Hclip & _). exists v. split; [exact Hv|]. split.
  - vm_compute in Hv. injection Hv as <-. reflexivity.
  - apply Hclip. vm_compute. congruence.
Defined.
