(* ===== verification/Notify.v ===== *)
(** The block notification ([src/notify/mod.rs]) and the [toast] subcommand of
    [main.rs]: which incidents raise a toast, what it may say, the throttle, and
    the command line that carries it into the user's session.  The Win32 and WinRT
    calls that render the toast or create the process are in Native. *)

From S2P Require Import Prelude Words Text F64 Unicode Fingerprint Bundle Edm Utf8 Extract Verdict.
From S2P Require Import TrustDest Device UsbPolicy Enforce Watch Supervise Crypto CopyAudit.
From S2P Require Import RemoteTools NetRules Config TrustSync UsbMonitor KGuard BrowserHost Clipboard.
#[local] Open Scope Z_scope.

#[export] Instance NotifyMode_eq_dec : EqDecision NotifyMode.
Proof. solve_decision. Defined.

(** ** The message *)

Definition channel_label (channel : str) : str :=
  if bool_decide (channel ∈ [lit "usb"; lit "usb-kguard"]) then lit "USB / removable media"
  else if bool_decide (channel = lit "clipboard") then lit "Clipboard"
  else if bool_decide (channel = lit "web-upload") then lit "Web upload"
  else if bool_decide (channel = lit "network") then lit "Network"
  else lit "Data transfer".

(** [char::is_control] *)
Definition is_control (c : Z) : bool := (0 <=? c) && (c <? 32) || (127 <=? c) && (c <? 160).

Definition last_component (name : str) : str :=
  rev (take_while (fun c => negb ((c =? 92) || (c =? 47))) (rev name)).
Definition sanitize_display (name : str) : str :=
  let cleaned := trim (List.filter (fun c => negb (is_control c) && negb (c =? 34)) (last_component name)) in
  if (96 <? length cleaned)%nat then take 93 cleaned ++ lit "..." else cleaned.

Definition build_message (cfg : NotifyConfig) (inc : UsbIncident) (reference : str) : str * str :=
  match notify_mode cfg with
  | NotifyMinimal => (org_name cfg, lit "An action was blocked by security policy.")
  | NotifyStandard =>
      let title := lit "Blocked by " ++ org_name cfg in
      let file := sanitize_display (inc_file_name inc) in
      let lines := (if str_is_empty file then [] else [lit "File: " ++ file]) ++
        [lit "Channel: " ++ channel_label (channel inc);
         lit "Ref: " ++ reference ++ lit " " ++ [8212] ++ lit " contact security"] in
      (title, join [10] lines)
  | NotifyCovert => ([], [])
  end.

Definition xml_escape_char (c : Z) : str :=
  if c =? 38 then lit "&amp;" else if c =? 60 then lit "&lt;" else if c =? 62 then lit "&gt;"
  else if c =? 34 then lit "&quot;" else if c =? 39 then lit "&apos;" else [c].
Definition xml_escape (s : str) : str := concat (map xml_escape_char s).

(** The payload handed to [LoadXml]. *)
Definition quoted (s : str) : str := 34 :: s ++ [34].
Definition toast_xml (title body : str) : str :=
  lit "<toast activationType=" ++ quoted (lit "foreground") ++ lit "><visual><binding template="
  ++ quoted (lit "ToastGeneric") ++ lit "><text>" ++ xml_escape title ++ lit "</text><text>"
  ++ xml_escape body ++ lit "</text></binding></visual></toast>".

(** ** References *)

Definition hex_digit_upper (d : Z) : Z := if d <? 10 then 48 + d else 55 + d.
(** The reference of counter value [n]: [{:04X}] of its low 16 bits. *)
Definition reference_of (n : Z) : str :=
  let x := Z.land n 0xFFFF in
  lit "L-" ++ [hex_digit_upper (x / 4096); hex_digit_upper (x / 256 mod 16);
               hex_digit_upper (x / 16 mod 16); hex_digit_upper (x mod 16)].
(** [fetch_add] on the 64-bit counter. *)
Definition next_reference (counter : Z) : str * Z := (reference_of counter, wrapping_add counter 1).

(** ** The throttle *)

(** Instants in nanoseconds of the monotonic clock. *)
Record Throttle := {
  last_shown : gmap str Z;
  window_start : Z;
  count_in_window : Z;
}.
Definition NANOS : Z := 1000000000.
Definition secs_since (now earlier : Z) : Z := saturating_sub now earlier / NANOS.
Definition throttle_key (channel file : str) : str := channel ++ 1 :: file.

(** [None] before the first call. *)
Definition throttle_allow (cfg : NotifyConfig) (channel file : str) (now : Z) (st : option Throttle)
    : bool * Throttle :=
  let t := default {| last_shown := ∅; window_start := now; count_in_window := 0 |} st in
  let t := if 60 <=? secs_since now (window_start t)
           then {| last_shown := last_shown t; window_start := now; count_in_window := 0 |} else t in
  if negb (max_per_minute cfg =? 0) && (max_per_minute cfg <=? count_in_window t) then (false, t)
  else
    let key := throttle_key channel file in
    let repeat := match last_shown t !! key with
                  | Some prev => secs_since now prev <? dedup_secs cfg
                  | None => false
                  end in
    if repeat then (false, t)
    else
      let shown := if (1024 <? base.size (last_shown t))%nat then ∅ else last_shown t in
      (true, {| last_shown := <[key := now]> shown; window_start := window_start t;
                count_in_window := count_in_window t + 1 |}).

(** ** The hook *)

Record NotifyState := { throttle : option Throttle; counter : Z }.
(** What is dispatched: the application id, the title and the body. *)
Definition Toast : Type := str * str * str.

Definition on_block_for_incident (cfg : NotifyConfig) (inc : UsbIncident) (now : Z) (s : NotifyState)
    : option Toast * NotifyState :=
  if negb (bool_decide (action_taken inc = CopyAudit.Blocked)) then (None, s)
  else if negb (notify_enabled cfg) || bool_decide (notify_mode cfg = NotifyCovert) then (None, s)
  else
    let '(ok, t) := throttle_allow cfg (channel inc) (inc_file_name inc) now (throttle s) in
    let s := {| throttle := Some t; counter := counter s |} in
    if negb ok then (None, s)
    else
      let '(reference, counter) := next_reference (counter s) in
      let '(title, body) := build_message cfg inc reference in
      (Some (aumid cfg, title, body), {| throttle := Some t; counter := counter |}).

(** ** The command line *)

Definition clean_arg (s : str) : str :=
  map (fun c => if c =? 10 then 0x2028 else c)
    (List.filter (fun c => negb (c =? 34) && negb (c =? 13)) s).
Definition build_toast_cmdline (exe aumid title body : str) : str :=
  quoted (clean_arg exe) ++ lit " toast --aumid " ++ quoted (clean_arg aumid) ++ lit " --title "
  ++ quoted (clean_arg title) ++ lit " --body " ++ quoted (clean_arg body).

(** How the standard library splits a Windows command line: the executable's
    name, then the arguments with the backslash rules. *)
Definition is_blank (c : Z) : bool := (c =? 32) || (c =? 9).
Fixpoint argv0 (s : str) (cur : str) (in_quotes : bool) : str * str :=
  match s with
  | [] => (cur, [])
  | c :: s' =>
      if c =? 34 then argv0 s' cur (negb in_quotes)
      else if is_blank c && negb in_quotes then (cur, s')
      else argv0 s' (cur ++ [c]) in_quotes
  end.
(** [skipping] after a separator; [bs] backslashes are pending. *)
Fixpoint argv (s cur : str) (in_quotes skipping : bool) (bs : nat) : list str :=
  match s with
  | [] =>
      let cur := cur ++ replicate bs 92 in
      if negb (str_is_empty cur) || in_quotes then [cur] else []
  | c :: s' =>
      if skipping && is_blank c then argv s' cur in_quotes true bs
      else if c =? 92 then argv s' cur in_quotes false (S bs)
      else if c =? 34 then
        let cur := cur ++ replicate (Nat.div2 bs) 92 in
        if Nat.odd bs then argv s' (cur ++ [34]) in_quotes false 0
        else if in_quotes then
          match s' with
          | [] => [cur]
          | q :: s'' => if q =? 34 then argv s'' (cur ++ [34]) true false 0 else argv s' cur false false 0
          end
        else argv s' cur true false 0
      else
        let cur := cur ++ replicate bs 92 in
        if is_blank c && negb in_quotes then cur :: argv s' [] false true 0
        else argv s' (cur ++ [c]) in_quotes false 0
  end.
Definition parse_cmdline (s : str) : list str :=
  let '(exe, rest) := argv0 (take_while (fun c => negb (c =? 0)) s) [] false in
  exe :: argv rest [] false true 0.

(** [cmd_toast] on the arguments after the mode. *)
Fixpoint toast_args (args : list str) (acc : str * str * str) : str * str * str :=
  let '(aumid, title, body) := acc in
  match args with
  | [] => acc
  | a :: args' =>
      let value := default [] (head args') in
      if bool_decide (a = lit "--aumid") then
        match args' with [] => ([], title, body) | _ :: r => toast_args r (value, title, body) end
      else if bool_decide (a = lit "--title") then
        match args' with [] => (aumid, [], body) | _ :: r => toast_args r (aumid, value, body) end
      else if bool_decide (a = lit "--body") then
        match args' with [] => (aumid, title, []) | _ :: r => toast_args r (aumid, title, value) end
      else toast_args args' acc
  end.
Definition cmd_toast (args : list str) : Toast :=
  let '(aumid, title, body) := toast_args args ([], [], []) in
  let body := map (fun c => if c =? 0x2028 then 10 else c) body in
  (if str_is_empty aumid then lit "Resec.DLP.Agent" else aumid, title, body).
(** What a process started with [cmdline] does when its mode is [toast]. *)
Definition run_child (cmdline : str) : option Toast :=
  match parse_cmdline cmdline with
  | _ :: mode :: args => if bool_decide (mode = lit "toast") then Some (cmd_toast args) else None
  | _ => None
  end.

(** ** What a toast says *)

Lemma xml_escape_char_eq c : xml_escape_char c = escape_char c.
Proof.
  unfold xml_escape_char, escape_char. cbn [List.find ENTITIES snd].
  repeat match goal with |- context [?a =? c] => rewrite (Z.eqb_sym a c) end.
  by repeat case_match.
Qed.
Lemma xml_escape_eq s : xml_escape s = escape_xml s.
Proof. unfold xml_escape, escape_xml. f_equal. apply map_ext, xml_escape_char_eq. Qed.

(** One text element after a prefix in which its tag does not occur earlier. *)
Lemma xml_scan_text f pre s rest :
  find_split (lit "<text") (pre ++ lit "<text>" ++ escape_xml s ++ lit "</text>" ++ rest) =
    Some (pre, lit "<text>" ++ escape_xml s ++ lit "</text>" ++ rest) ->
  xml_scan (S f) (lit "<text") (lit "</text>") (pre ++ lit "<text>" ++ escape_xml s ++ lit "</text>" ++ rest) =
    s :: xml_scan f (lit "<text") (lit "</text>") rest.
Proof.
  intros H. cbn [xml_scan]. rewrite H.
  change (drop (length (lit "<text")) (lit "<text>" ++ ?x)) with (62 :: x). cbn [after_start_tag].
  change (62 =? 62) with true. cbn iota.
  change (lit "</text>" ++ rest) with (60 :: lit "/text>" ++ rest).
  change (lit "</text>") with (60 :: lit "/text>").
  rewrite find_split_app by apply escape_no_lt.
  f_equal. by apply decode_loop_escape.
Qed.

Lemma toast_xml_texts title body : xml_element_text (toast_xml title body) (lit "text") = [title; body].
Proof.
  assert (exists pre f,
    toast_xml title body = pre ++ lit "<text>" ++ escape_xml title ++ lit "</text>" ++
      [] ++ lit "<text>" ++ escape_xml body ++ lit "</text>" ++ lit "</binding></visual></toast>" /\
    length (toast_xml title body) = S (S f) /\
    forall r, find_split (lit "<text") (pre ++ lit "<text>" ++ r) = Some (pre, lit "<text>" ++ r))
    as (pre & f & Hx & Hl & Hpre).
  { exists (lit "<toast activationType=" ++ quoted (lit "foreground") ++ lit "><visual><binding template="
      ++ quoted (lit "ToastGeneric") ++ lit ">").
    eexists. split; [|split].
    - unfold toast_xml. rewrite !xml_escape_eq, <- !app_assoc. reflexivity.
    - reflexivity.
    - intros r. vm_compute. reflexivity. }
  unfold xml_element_text. rewrite Hl, Hx.
  change (lit "<" ++ lit "text") with (lit "<text").
  change (lit "</" ++ lit "text" ++ lit ">") with (lit "</text>").
  rewrite xml_scan_text by apply Hpre. rewrite xml_scan_text by (vm_compute; reflexivity).
  by destruct f.
Qed.

(** C22: A toast never reveals why something was blocked: it is raised for blocked
    incidents only, with notifications on and not covert, and is a function of
    the configuration, the channel and the file name (and the throttle), not of
    the verdict, the hash, the device or the note.  Whatever the texts contain,
    the payload's text elements are exactly the title and the body, so no name
    can add markup. *)
Theorem toast_reveals_nothing cfg inc inc' now s :
  (action_taken inc = action_taken inc' -> channel inc = channel inc' ->
   inc_file_name inc = inc_file_name inc' ->
   on_block_for_incident cfg inc now s = on_block_for_incident cfg inc' now s) /\
  (forall toast s', on_block_for_incident cfg inc now s = (Some toast, s') ->
     action_taken inc = CopyAudit.Blocked /\ notify_enabled cfg = true /\ notify_mode cfg <> NotifyCovert) /\
  (forall title body, xml_element_text (toast_xml title body) (lit "text") = [title; body]).
Proof.
  split; [|split].
  - intros Ha Hc Hf. unfold on_block_for_incident, build_message. by rewrite Ha, Hc, Hf.
  - intros toast s'. unfold on_block_for_incident.
    destruct (bool_decide (action_taken inc = _)) eqn:Ha; bool_hyps; [|done]. cbn [negb].
    destruct (notify_enabled cfg); [|done]. cbn [negb orb].
    destruct (bool_decide (notify_mode cfg = NotifyCovert)) eqn:Hm; bool_hyps; [done|]. done.
  - intros title body. apply toast_xml_texts.
Qed.

(** ** The throttle's bounds *)

(** A run of calls [(now, channel, file)]; the state after it and the times and
    keys of the calls allowed. *)
Fixpoint throttle_run (cfg : NotifyConfig) (calls : list (Z * str * str)) (st : option Throttle)
    : list (Z * str) * option Throttle :=
  match calls with
  | [] => ([], st)
  | (now, ch, file) :: calls' =>
      let '(ok, t) := throttle_allow cfg ch file now st in
      let '(shown, st') := throttle_run cfg calls' (Some t) in
      ((if ok then [(now, throttle_key ch file)] else []) ++ shown, st')
  end.

Definition count_ok (cfg : NotifyConfig) (st : option Throttle) : Prop :=
  match st with Some t => 0 <= count_in_window t <= max_per_minute cfg | None => True end.

Lemma secs_since_lt now earlier n : 0 < n -> now - earlier < n * NANOS -> secs_since now earlier < n.
Proof.
  intros Hn H. unfold secs_since, saturating_sub. apply Z.div_lt_upper_bound; unfold NANOS in *; lia.
Qed.
Lemma secs_since_ge now earlier n : 0 < n -> n <= secs_since now earlier -> n * NANOS <= now - earlier.
Proof.
  intros Hn H. destruct (Z.le_gt_cases (n * NANOS) (now - earlier)) as [|Hlt]; [done|].
  assert (secs_since now earlier < n) by (apply secs_since_lt; lia). lia.
Qed.

Lemma throttle_allow_count cfg ch file now st :
  max_per_minute cfg <> 0 -> 0 <= max_per_minute cfg -> count_ok cfg st ->
  let '(ok, t) := throttle_allow cfg ch file now st in
  let start := match st with Some t => t | None => {| last_shown := ∅; window_start := now; count_in_window := 0 |} end in
  count_ok cfg (Some t) /\
  ((window_start t = window_start start /\ count_in_window t = count_in_window start + (if ok then 1 else 0)) \/
   (window_start t = now /\ 60 <= secs_since now (window_start start) /\
    count_in_window t = (if ok then 1 else 0))).
Proof.
  intros Hm Hm0 Hc. unfold throttle_allow.
  set (start := match st with Some t => t | None => _ end).
  assert (default {| last_shown := ∅; window_start := now; count_in_window := 0 |} st = start) as ->
    by by destruct st.
  assert (0 <= count_in_window start <= max_per_minute cfg) as Hcs by (unfold start; destruct st; cbn in *; lia).
  clearbody start. clear Hc st.
  destruct (Z.eqb_spec (max_per_minute cfg) 0); [done|]. cbn [negb andb].
  destruct (Z.leb_spec 60 (secs_since now (window_start start))) as [Hr|Hr]; cbn [window_start count_in_window last_shown].
  - destruct (Z.leb_spec (max_per_minute cfg) 0); [lia|].
    destruct (match last_shown start !! _ with Some _ => _ | None => _ end); cbn -[secs_since];
      (split; [lia|right; split; [done|split; [done|lia]]]).
  - destruct (Z.leb_spec (max_per_minute cfg) (count_in_window start)).
    { cbn -[secs_since]. split; [done|]. left. split; [done|lia]. }
    destruct (match last_shown start !! _ with Some _ => _ | None => _ end); cbn -[secs_since];
      (split; [lia|left; split; [done|lia]]).
Qed.

Definition within (a : Z) (call : Z * str * str) : Prop := a <= call.1.1 < a + 60 * NANOS.

Lemma run_count_late cfg calls a t :
  max_per_minute cfg <> 0 -> 0 <= max_per_minute cfg -> Forall (within a) calls ->
  count_ok cfg (Some t) -> a <= window_start t ->
  Z.of_nat (length (throttle_run cfg calls (Some t)).1) <= max_per_minute cfg - count_in_window t.
Proof.
  intros Hm Hm0 Hc. revert t. induction Hc as [|[[now ch] file] calls Hw _ IH]; intros t Ht Ha;
    cbn [throttle_run]; [cbn in *; lia|].
  pose proof (throttle_allow_count cfg ch file now (Some t) Hm Hm0 Ht) as H.
  destruct (throttle_allow cfg ch file now (Some t)) as [ok t1]. destruct H as [H1 H2]. cbn in Hw.
  destruct H2 as [[Hs Hn]|(_ & Hbad & _)].
  - specialize (IH t1 H1 ltac:(lia)). destruct (throttle_run cfg calls (Some t1)) as [shown st'].
    cbn [fst] in *. rewrite length_app. destruct ok; cbn [length]; lia.
  - exfalso. apply secs_since_ge in Hbad; [|lia]. unfold within in Hw. cbn in Hw. lia.
Qed.

Lemma run_count cfg calls a st :
  max_per_minute cfg <> 0 -> 0 <= max_per_minute cfg -> Forall (within a) calls -> count_ok cfg st ->
  Z.of_nat (length (throttle_run cfg calls st).1) <=
    max_per_minute cfg + (max_per_minute cfg - match st with Some t => count_in_window t | None => 0 end).
Proof.
  intros Hm Hm0 Hc. revert st. induction Hc as [|[[now ch] file] calls Hw Hc IH]; intros st Ht;
    cbn [throttle_run]; [destruct st; cbn in *; lia|].
  pose proof (throttle_allow_count cfg ch file now st Hm Hm0 Ht) as H.
  destruct (throttle_allow cfg ch file now st) as [ok t1]. destruct H as [H1 H2].
  destruct H2 as [[Hs Hn]|(Hs & _ & Hn)].
  - specialize (IH (Some t1) H1). destruct (throttle_run cfg calls (Some t1)) as [shown st'].
    cbn [fst] in *. rewrite length_app. destruct st, ok; cbn [length count_in_window] in *; lia.
  - pose proof (run_count_late cfg calls a t1 Hm Hm0 Hc H1) as Hl. unfold within in Hw. cbn in Hw.
    specialize (Hl ltac:(lia)). destruct (throttle_run cfg calls (Some t1)) as [shown st'].
    cbn [fst] in *. rewrite length_app. destruct st, ok; cbn [length count_ok] in *; lia.
Qed.

Lemma run_count_ok cfg calls st :
  max_per_minute cfg <> 0 -> 0 <= max_per_minute cfg -> count_ok cfg st ->
  count_ok cfg (throttle_run cfg calls st).2.
Proof.
  intros Hm Hm0. revert st. induction calls as [|[[now ch] file] calls IH]; intros st Ht; [done|].
  cbn [throttle_run]. pose proof (throttle_allow_count cfg ch file now st Hm Hm0 Ht) as H.
  destruct (throttle_allow cfg ch file now st) as [ok t1]. destruct H as [H1 _].
  specialize (IH (Some t1) H1). by destruct (throttle_run cfg calls (Some t1)).
Qed.

(** A call that does not find the map over its bound keeps what was shown. *)
Lemma throttle_allow_shown cfg ch file now t k p :
  last_shown t !! k = Some p ->
  let '(ok, t') := throttle_allow cfg ch file now (Some t) in
  (throttle_key ch file = k -> secs_since now p < dedup_secs cfg -> ok = false) /\
  (ok = false -> last_shown t' = last_shown t) /\
  (ok = true -> (base.size (last_shown t) <= 1024)%nat ->
   last_shown t' = <[throttle_key ch file := now]> (last_shown t)).
Proof.
  intros Hk. unfold throttle_allow. cbn [default from_option id].
  set (t1 := if _ <=? _ then _ else t).
  assert (last_shown t1 = last_shown t) as Hls by (unfold t1; by destruct (_ <=? _)).
  destruct (_ && _); [by rewrite Hls|]. rewrite Hls.
  destruct (match last_shown t !! throttle_key ch file with Some _ => _ | None => _ end) eqn:Hr;
    [by rewrite Hls|].
  split; [|split; [done|]].
  - intros <- Hd. rewrite Hk in Hr. apply Z.ltb_ge in Hr. lia.
  - intros _ Hs. cbn [last_shown]. destruct (Nat.ltb_spec 1024 (base.size (last_shown t))); [lia|done].
Qed.

Lemma run_dedup cfg calls t k p now :
  last_shown t !! k = Some p -> secs_since now p < dedup_secs cfg ->
  Forall (fun c => c.1.1 <= now) calls ->
  (base.size (last_shown t) + length (throttle_run cfg calls (Some t)).1 <= 1025)%nat ->
  k ∉ (throttle_run cfg calls (Some t)).1.*2.
Proof.
  intros Hk Hd Hc. revert t Hk. induction Hc as [|[[now' ch] file] calls Hw _ IH]; intros t Hk Hsz;
    cbn [throttle_run] in *; [apply not_elem_of_nil|].
  pose proof (throttle_allow_shown cfg ch file now' t k p Hk) as H.
  destruct (throttle_allow cfg ch file now' (Some t)) as [ok t1]. destruct H as (H1 & H2 & H3).
  specialize (IH t1). destruct (throttle_run cfg calls (Some t1)) as [shown st'] eqn:Hrun.
  cbn [fst] in *. rewrite length_app in Hsz. destruct ok; cbn [length app] in *.
  - assert (throttle_key ch file <> k) as Hne.
    { intros He. assert (true = false); [|done]. apply H1; [done|]. cbn in Hw.
      unfold secs_since, saturating_sub in *. eapply Z.le_lt_trans; [|exact Hd].
      apply Z.div_le_mono; unfold NANOS; lia. }
    specialize (H3 eq_refl ltac:(lia)). rewrite H3 in IH.
    cbn [fmap list_fmap snd]. apply not_elem_of_cons. split; [done|]. apply IH.
    + by rewrite lookup_insert_ne.
    + rewrite map_size_insert. destruct (last_shown t !! throttle_key ch file); cbn; lia.
  - rewrite H2 in IH by done. apply IH; [done|lia].
Qed.

(** C30: Storm control.  Within any minute, after whatever calls, at most twice
    the configured number of toasts is shown, unless that number is 0, which
    stands for no limit (the window is fixed, not sliding, so two windows can
    meet in it).  A block of the same channel and file is not shown again within
    the dedup time, until more than 1024 pairs have been recorded, when all of
    them are forgotten. *)
Theorem throttle_bounds cfg before :
  0 <= max_per_minute cfg ->
  (forall a calls, max_per_minute cfg <> 0 -> Forall (within a) calls ->
     Z.of_nat (length (throttle_run cfg calls (throttle_run cfg before None).2).1) <=
       2 * max_per_minute cfg) /\
  (forall ch file now0 t calls now,
     throttle_allow cfg ch file now0 (throttle_run cfg before None).2 = (true, t) ->
     secs_since now now0 < dedup_secs cfg -> Forall (fun c => c.1.1 <= now) calls ->
     (base.size (last_shown t) + length (throttle_run cfg calls (Some t)).1 <= 1025)%nat ->
     throttle_key ch file ∉ (throttle_run cfg calls (Some t)).1.*2).
Proof.
  intros Hm0. split.
  - intros a calls Hm Hc. pose proof (run_count_ok cfg before None Hm Hm0 I) as Hok.
    pose proof (run_count cfg calls a _ Hm Hm0 Hc Hok) as H.
    destruct (throttle_run cfg before None).2 as [t|]; cbn in Hok; lia.
  - intros ch file now0 t calls now Ha Hd Hc Hs. apply (run_dedup cfg calls t _ now0 now); try done.
    revert Ha. unfold throttle_allow. destruct (_ && _); [done|].
    destruct (match _ with Some _ => _ | None => _ end); [done|]. intros [= <-]. cbn [last_shown].
    apply lookup_insert_eq.
Qed.

(** ** Into the user's session *)

Definition no_trailing_backslash (s : str) : Prop := last s <> Some 92.

Lemma clean_arg_no_quote s : 34 ∉ clean_arg s.
Proof.
  unfold clean_arg. rewrite list_elem_of_fmap. intros (c & Hc & Hin).
  apply list_elem_of_In, filter_In in Hin as [_ Hf]. destruct (Z.eqb_spec c 10); [done|]. subst c. done.
Qed.

Lemma clean_arg_nul s : 0 ∉ s -> 0 ∉ clean_arg s.
Proof.
  intros H. unfold clean_arg. rewrite list_elem_of_fmap. intros (c & Hc & Hin).
  apply list_elem_of_In, filter_In in Hin as [Hin _]. destruct (Z.eqb_spec c 10); [done|]. subst c.
  by apply H, list_elem_of_In.
Qed.

Lemma argv0_quoted w rest :
  34 ∉ w -> argv0 (quoted w ++ 32 :: rest) [] false = (w, rest).
Proof.
  intros Hw. unfold quoted. cbn [app argv0 Z.eqb Pos.eqb negb]. rewrite <- app_assoc.
  assert (forall cur, argv0 (w ++ [34] ++ 32 :: rest) cur true = (cur ++ w, rest)) as H; [|apply H].
  induction w as [|c w IH]; intros cur; [by rewrite app_nil_r|].
  apply not_elem_of_cons in Hw as [Hc Hw]. cbn [app argv0].
  destruct (Z.eqb_spec c 34); [congruence|]. cbn [negb]. rewrite andb_false_r, IH by done.
  by rewrite <- app_assoc.
Qed.

(** Inside quotes, a word without quotes is read as it is. *)
Lemma argv_word w x rest cur bs :
  34 ∉ w -> x <> 34 -> x <> 92 ->
  argv (w ++ x :: rest) cur true false bs = argv rest (cur ++ replicate bs 92 ++ w ++ [x]) true false 0.
Proof.
  intros Hw Hx1 Hx2. revert cur bs. induction w as [|c w IH]; intros cur bs; cbn [app argv andb].
  - destruct (Z.eqb_spec x 92); [done|]. destruct (Z.eqb_spec x 34); [done|]. cbn [negb].
    rewrite andb_false_r. by rewrite <- app_assoc.
  - apply not_elem_of_cons in Hw as [Hc Hw]. destruct (Z.eqb_spec c 92) as [->|].
    + rewrite IH by done. by rewrite replicate_S_end, <- app_assoc.
    + destruct (Z.eqb_spec c 34); [congruence|]. cbn [negb]. rewrite andb_false_r, IH by done.
      f_equal. cbn [replicate app]. by rewrite <- !app_assoc.
Qed.

Lemma argv_quoted w rest cur :
  34 ∉ w -> no_trailing_backslash w ->
  argv (w ++ 34 :: rest) cur true false 0 =
    match rest with
    | [] => [cur ++ w]
    | q :: r => if q =? 34 then argv r (cur ++ w ++ [34]) true false 0 else argv rest (cur ++ w) false false 0
    end.
Proof.
  intros Hw Hl.
  assert (argv (w ++ 34 :: rest) cur true false 0 = argv (34 :: rest) (cur ++ w) true false 0) as ->.
  { destruct w as [|x w _] using rev_ind; [by rewrite app_nil_r|].
    apply not_elem_of_app in Hw as [Hw Hx]. apply not_elem_of_cons in Hx as [Hx _].
    unfold no_trailing_backslash in Hl. rewrite last_snoc in Hl.
    rewrite <- app_assoc. cbn [app]. by rewrite argv_word by congruence. }
  cbn [argv andb Z.eqb Pos.eqb Nat.div2 Nat.odd Nat.even negb replicate]. rewrite app_nil_r.
  destruct rest as [|q r]; [done|]. destruct (q =? 34); [by rewrite <- app_assoc|done].
Qed.

Lemma argv_open_quote w rest : argv (quoted w ++ rest) [] false true 0 = argv (w ++ 34 :: rest) [] true false 0.
Proof. unfold quoted. cbn [app]. rewrite <- app_assoc. reflexivity. Qed.

Lemma quoted_argument w rest :
  34 ∉ w -> no_trailing_backslash w ->
  argv (quoted w ++ 32 :: rest) [] false true 0 = w :: argv rest [] false true 0.
Proof.
  intros Hw Hl. rewrite argv_open_quote, argv_quoted by done. change (32 =? 34) with false. cbn iota.
  cbn [argv andb is_blank Z.eqb Pos.eqb orb negb app replicate]. by rewrite app_nil_r.
Qed.

(** What the service puts on the command line is what the child shows: when no
    argument ends in a backslash or holds a NUL, the child is started in the
    toast mode and recovers the application id, the title and the body, each
    without the double quotes and carriage returns that were dropped, and the
    body with its line breaks.  An argument that ends in a backslash escapes its
    closing quote: the arguments after it are lost. *)
Theorem toast_crosses_sessions exe aumid title body :
  Forall (fun s => 0 ∉ s) [exe; aumid; title; body] ->
  Forall (fun s => no_trailing_backslash (clean_arg s)) [aumid; title; body] ->
  run_child (build_toast_cmdline exe aumid title body) =
    Some (if str_is_empty (clean_arg aumid) then lit "Resec.DLP.Agent" else clean_arg aumid,
          clean_arg title, map (fun c => if c =? 0x2028 then 10 else c) (clean_arg body)).
Proof.
  intros Hn Hb. repeat (apply Forall_cons in Hn as [? Hn]). repeat (apply Forall_cons in Hb as [? Hb]).
  unfold run_child, parse_cmdline.
  assert (take_while (fun c => negb (c =? 0)) (build_toast_cmdline exe aumid title body) =
    build_toast_cmdline exe aumid title body) as ->.
  { assert (forall s : str, 0 ∉ s -> take_while (fun c => negb (c =? 0)) s = s) as Ht.
    { intros s Hs. induction s as [|c s IH]; [done|]. apply not_elem_of_cons in Hs as [? Hs].
      cbn [take_while]. destruct (Z.eqb_spec c 0); [congruence|]. cbn [negb]. by rewrite IH. }
    apply Ht. unfold build_toast_cmdline, quoted.
    repeat (rewrite not_elem_of_app || rewrite not_elem_of_cons). cbn [lit].
    repeat match goal with |- context [clean_arg ?s] =>
      let H := fresh in assert (0 ∉ clean_arg s) as H by (by apply clean_arg_nul); revert H;
      generalize (clean_arg s); intros ? H end.
    repeat split; try done; apply (bool_decide_unpack _); vm_compute; exact I. }
  unfold build_toast_cmdline.
  change (lit " toast --aumid " ++ ?x) with (32 :: lit "toast --aumid " ++ x).
  rewrite argv0_quoted by apply clean_arg_no_quote.
  change (argv (lit "toast --aumid " ++ ?x) [] false true 0) with
    (lit "toast" :: lit "--aumid" :: argv x [] false true 0).
  change (lit " --title " ++ ?x) with (32 :: lit "--title " ++ x).
  rewrite quoted_argument by (done || apply clean_arg_no_quote).
  change (argv (lit "--title " ++ ?x) [] false true 0) with (lit "--title" :: argv x [] false true 0).
  change (lit " --body " ++ ?x) with (32 :: lit "--body " ++ x).
  rewrite quoted_argument by (done || apply clean_arg_no_quote).
  change (argv (lit "--body " ++ ?x) [] false true 0) with (lit "--body" :: argv x [] false true 0).
  rewrite <- (app_nil_r (quoted (clean_arg body))), argv_open_quote, argv_quoted
    by (done || apply clean_arg_no_quote).
  reflexivity.
Qed.

(** An application id that ends in a backslash swallows all that follows. *)
Example trailing_backslash_breaks_out :
  run_child (build_toast_cmdline (lit "agent") (lit "a\") (lit "Blocked") (lit "b")) =
    Some (lit "a" ++ 34 :: lit " --title Blocked --body b", [], []).
Proof. vm_compute. reflexivity. Qed.

(** ** Samples *)

Definition blocked_incident : UsbIncident :=
  clip_incident Match (lit "usb") (lit "C:\x\<plan>.txt") [] None true (lit "n").

Lemma toast_reveals_nothing_witness :
  on_block_for_incident default_notify blocked_incident 0 {| throttle := None; counter := 26 |} =
  on_block_for_incident default_notify
    (clip_incident Match (lit "usb") (lit "C:\x\<plan>.txt") (lit "sha") (Some row_verdict) true (lit "m")) 0
    {| throttle := None; counter := 26 |} /\
  ((fun t => t.2) <$> (on_block_for_incident default_notify blocked_incident 0
    {| throttle := None; counter := 26 |}).1) =
  Some (lit "File: <plan>.txt" ++ 10 :: lit "Channel: USB / removable media" ++ 10 ::
        lit "Ref: L-001A " ++ [8212] ++ lit " contact security").
Proof.
  split; [|vm_compute; reflexivity].
  apply (proj1 (toast_reveals_nothing default_notify blocked_incident _ 0
    {| throttle := None; counter := 26 |})); reflexivity.
Defined.

Lemma throttle_bounds_witness :
  0 <= max_per_minute default_notify /\
  Z.of_nat (length (throttle_run default_notify
    [(0, lit "usb", lit "a"); (1, lit "usb", lit "a"); (2, lit "usb", lit "b")] None).1) <= 40.
Proof.
  split; [vm_compute; congruence|].
  destruct (throttle_bounds default_notify [] ltac:(vm_compute; congruence)) as [H _].
  apply (H 0); [vm_compute; congruence|]. repeat constructor; vm_compute; congruence.
Defined.

Lemma toast_crosses_sessions_witness :
  run_child (build_toast_cmdline (lit "C:\Program Files\a.exe") (lit "Resec.DLP.Agent")
    (lit "Blocked") (lit "File: x" ++ 10 :: lit "Ref")) =
  Some (lit "Resec.DLP.Agent", lit "Blocked", lit "File: x" ++ 10 :: lit "Ref").
Proof.
  rewrite toast_crosses_sessions; [vm_compute; reflexivity| |].
  - repeat constructor; apply (bool_decide_unpack _); vm_compute; exact I.
  - repeat constructor; unfold no_trailing_backslash; vm_compute; congruence.
Defined.
