(* ===== verification/Exfil.v ===== *)
(** The exfiltration-channel tracker ([src/exfil.rs]): which addresses are public,
    which processes can move data off the machine, and the message that carries
    their ids to the driver.  The process list, the connection tables and the
    modules of a process are inputs. *)

From S2P Require Import Prelude Words Text F64 Unicode Fingerprint Bundle Edm Utf8 Extract Verdict.
From S2P Require Import TrustDest Device UsbPolicy RemoteTools NetRules KGuard.
#[local] Open Scope Z_scope.

Definition DLP_EXFIL_VERSION : Z := 0x58706C44.
Definition DLP_EXFIL_MSG_MAX : nat := 1024.

Record DlpExfilUpdate := { ex_version : Z; ex_count : Z; ex_pids : list Z }.
Definition DlpExfilUpdate_new (pids : list Z) : DlpExfilUpdate :=
  let n := Nat.min (length pids) DLP_EXFIL_MSG_MAX in
  {| ex_version := DLP_EXFIL_VERSION; ex_count := Z.of_nat n;
     ex_pids := copy_prefix (take n pids) (replicate DLP_EXFIL_MSG_MAX 0) |}.
Definition encode_update (m : DlpExfilUpdate) : bytes :=
  to_le_bytes 4 (ex_version m) ++ to_le_bytes 4 (ex_count m) ++
  concat (map (to_le_bytes 4) (ex_pids m)).

(** ** Locality *)

(** [addr] holds the octets low first. *)
Definition is_public_v4 (addr : Z) : bool :=
  match to_le_bytes 4 addr with
  | a :: b :: _ =>
      if (a =? 0) || (a =? 127) || (a =? 10) then false
      else if (a =? 172) && ((16 <=? b) && (b <=? 31)) then false
      else if (a =? 192) && (b =? 168) then false
      else if (a =? 169) && (b =? 254) then false
      else if 224 <=? a then false
      else true
  | _ => true
  end.

(** [a] holds the sixteen octets in network order; indexing past them would
    panic: [None]. *)
Definition is_public_v6 (a : bytes) : option bool :=
  if forallb (fun b => b =? 0) a then Some false
  else
    a15 ← a !! 15%nat; a0 ← a !! 0%nat; a1 ← a !! 1%nat;
    Some (if forallb (fun b => b =? 0) (take 15 a) && (a15 =? 1) then false
          else if (a0 =? 0xfe) && (Z.land a1 0xc0 =? 0x80) then false
          else if Z.land a0 0xfe =? 0xfc then false
          else negb (a0 =? 0xff)).

(** ** Hypervisor modules *)

Definition file_base (p : str) : str :=
  rev (take_while (fun c => negb ((c =? 92) || (c =? 47))) (rev p)).
Definition is_hypervisor_module (path : str) : bool :=
  let p := to_ascii_lowercase path in
  let base := file_base p in
  if bool_decide (base ∈ [lit "winhvplatform.dll"; lit "vboxvmm.dll"; lit "vmwarebase.dll"]) then true
  else if bool_decide (base = lit "vid.dll") then
    contains (lit "\system32\") p || contains (lit "\syswow64\") p
  else false.

(** ** The set *)

Definition MIB_TCP_STATE_ESTAB : Z := 5.
(** The rows of a connection table the rules look at. *)
Record TcpOwner := { row_state : Z; row_remote : Z + bytes; row_pid : Z }.
(** A row that carries data to a public peer; [inl] is an IPv4 address, [inr] the
    octets of an IPv6 one. *)
Definition reaches_public (r : TcpOwner) : bool :=
  (row_state r =? MIB_TCP_STATE_ESTAB) &&
  match row_remote r with
  | inl v4 => is_public_v4 v4
  | inr v6 => default false (is_public_v6 v6)
  end.
(** A table that cannot be queried is left out. *)
Definition pids_with_public_connection (v4 v6 : option (list TcpOwner)) : list Z :=
  let of_table t := map row_pid (List.filter reaches_public (default [] t)) in
  of_table v4 ++ of_table v6.

(** [modules] gives the paths of the modules of a process that can be opened. *)
Definition hypervisor_pids (pids : option (list Z)) (modules : Z -> option (list str)) : list Z :=
  List.filter (fun pid => negb (pid =? 0) &&
      match modules pid with
      | Some ms => existsb is_hypervisor_module (take 1024 ms)
      | None => false
      end)
    (take 4096 (default [] pids)).

Definition skip_pid (self_pid pid : Z) : bool := (pid =? 0) || (pid =? 4) || (pid =? self_pid).

(** The set as a list, in an order of its own. *)
Definition compute_exfil_pids (self_pid : Z) (tools : list (Z * str)) (v4 v6 : option (list TcpOwner))
    (pids : option (list Z)) (modules : Z -> option (list str)) : list Z :=
  elements (list_to_set (List.filter (fun pid => negb (skip_pid self_pid pid))
    (map fst tools ++ pids_with_public_connection v4 v6 ++ hypervisor_pids pids modules)) : gset Z).

(** ** Locality as prefixes *)

Definition LOCAL_V4 : list Cidr :=
  omap cidr_parse [lit "0.0.0.0/8"; lit "10.0.0.0/8"; lit "127.0.0.0/8"; lit "172.16.0.0/12";
                   lit "192.168.0.0/16"; lit "169.254.0.0/16"; lit "224.0.0.0/3"].
Definition LOCAL_V6 : list Cidr :=
  omap cidr_parse [lit "::/128"; lit "::1/128"; lit "fe80::/10"; lit "fc00::/7"; lit "ff00::/8"].

Lemma cidr_contains_v4 b p x :
  0 <= p <= 32 -> 0 <= b < 2 ^ 32 -> 0 <= x < 2 ^ 32 ->
  cidr_contains {| base := V4 b; prefix := p |} (V4 x) = (b / 2 ^ (32 - p) =? x / 2 ^ (32 - p)).
Proof. intros. unfold cidr_contains. cbn [base prefix]. by apply land_mask_eq. Qed.

Lemma cidr_contains_v6 b p x :
  0 <= p <= 128 -> 0 <= b < 2 ^ 128 -> 0 <= x < 2 ^ 128 ->
  cidr_contains {| base := V6 b; prefix := p |} (V6 x) = (b / 2 ^ (128 - p) =? x / 2 ^ (128 - p)).
Proof. intros. unfold cidr_contains. cbn [base prefix]. by apply land_mask_eq. Qed.

Lemma local_v4_values :
  LOCAL_V4 = [{| base := V4 0; prefix := 8 |}; {| base := V4 (10 * 2 ^ 24); prefix := 8 |};
              {| base := V4 (127 * 2 ^ 24); prefix := 8 |};
              {| base := V4 (172 * 2 ^ 24 + 16 * 2 ^ 16); prefix := 12 |};
              {| base := V4 (192 * 2 ^ 24 + 168 * 2 ^ 16); prefix := 16 |};
              {| base := V4 (169 * 2 ^ 24 + 254 * 2 ^ 16); prefix := 16 |};
              {| base := V4 (224 * 2 ^ 24); prefix := 3 |}].
Proof. vm_compute. reflexivity. Qed.

Lemma local_v6_values :
  LOCAL_V6 = [{| base := V6 0; prefix := 128 |}; {| base := V6 1; prefix := 128 |};
              {| base := V6 (0xfe80 * 2 ^ 112); prefix := 10 |};
              {| base := V6 (0xfc00 * 2 ^ 112); prefix := 7 |};
              {| base := V6 (0xff00 * 2 ^ 112); prefix := 8 |}].
Proof. vm_compute. reflexivity. Qed.

(** The quotient of a number given by its leading part. *)
Lemma div_split x hi lo n : x = hi * n + lo -> 0 <= lo < n -> x / n = hi.
Proof. intros -> H. rewrite Z.div_add_l by lia. rewrite Z.div_small by lia. lia. Qed.

Lemma is_public_v4_cidr a b c d :
  is_byte a -> is_byte b -> is_byte c -> is_byte d ->
  is_public_v4 (from_le_bytes [a; b; c; d]) =
    negb (existsb (fun k => cidr_contains k (V4 (from_be_bytes [a; b; c; d]))) LOCAL_V4).
Proof.
  unfold is_byte. intros Ha Hb Hc Hd. unfold is_public_v4.
  assert (to_le_bytes 4 (from_le_bytes [a; b; c; d]) = [a; b; c; d]) as ->
    by (apply (to_from_le_bytes [a; b; c; d]); repeat constructor; unfold is_byte; lia).
  set (x := from_be_bytes _).
  assert (x = a * 2 ^ 24 + b * 2 ^ 16 + c * 2 ^ 8 + d) as Hx
    by (unfold x, from_be_bytes; cbn [rev app from_le_bytes]; lia).
  assert (0 <= x < 2 ^ 32) as Hxr by lia.
  assert (x / 2 ^ 24 = a) as E8 by (apply (div_split _ _ (b * 2 ^ 16 + c * 2 ^ 8 + d)); lia).
  assert (x / 2 ^ 16 = a * 256 + b) as E16 by (apply (div_split _ _ (c * 2 ^ 8 + d)); lia).
  pose proof (div_mod_split b 16). pose proof (Z.mod_pos_bound b 16).
  pose proof (div_mod_split a 32). pose proof (Z.mod_pos_bound a 32).
  assert (x / 2 ^ 20 = a * 16 + b / 16) as E12
    by (apply (div_split _ _ (b mod 16 * 2 ^ 16 + c * 2 ^ 8 + d)); lia).
  assert (x / 2 ^ 29 = a / 32) as E3
    by (apply (div_split _ _ (a mod 32 * 2 ^ 24 + b * 2 ^ 16 + c * 2 ^ 8 + d)); lia).
  clearbody x. rewrite local_v4_values. cbn [existsb]. rewrite !cidr_contains_v4 by lia.
  change (32 - 8) with 24. change (32 - 12) with 20. change (32 - 16) with 16. change (32 - 3) with 29.
  rewrite E8, E12, E16, E3.
  replace (0 / 2 ^ 24) with 0 by reflexivity. replace (10 * 2 ^ 24 / 2 ^ 24) with 10 by reflexivity.
  replace (127 * 2 ^ 24 / 2 ^ 24) with 127 by reflexivity.
  replace ((172 * 2 ^ 24 + 16 * 2 ^ 16) / 2 ^ 20) with 2753 by reflexivity.
  replace ((192 * 2 ^ 24 + 168 * 2 ^ 16) / 2 ^ 16) with 49320 by reflexivity.
  replace ((169 * 2 ^ 24 + 254 * 2 ^ 16) / 2 ^ 16) with 43518 by reflexivity.
  replace (224 * 2 ^ 24 / 2 ^ 29) with 7 by reflexivity.
  apply eq_true_iff_eq. rewrite negb_true_iff, !orb_false_iff, !Z.eqb_neq.
  destruct (Z.eqb_spec a 0); [cbn; split; [done|lia]|].
  destruct (Z.eqb_spec a 127); [cbn; split; [done|lia]|].
  destruct (Z.eqb_spec a 10); [cbn; split; [done|lia]|]. cbn [orb].
  destruct (Z.eqb_spec a 172), (Z.leb_spec 16 b), (Z.leb_spec b 31), (Z.eqb_spec a 192), (Z.eqb_spec b 168),
    (Z.eqb_spec a 169), (Z.eqb_spec b 254), (Z.leb_spec 224 a); cbn [andb]; split; intros; try done; lia.
Qed.

Lemma from_le_bytes_snoc l b : from_le_bytes (l ++ [b]) = from_le_bytes l + 256 ^ Z.of_nat (length l) * b.
Proof.
  induction l as [|x l IH]; cbn [app from_le_bytes length]; [cbn; lia|].
  rewrite IH, Nat2Z.inj_succ, Z.pow_succ_r by lia. lia.
Qed.

Lemma from_be_bytes_cons b l : from_be_bytes (b :: l) = b * 256 ^ Z.of_nat (length l) + from_be_bytes l.
Proof.
  unfold from_be_bytes. cbn [rev]. rewrite from_le_bytes_snoc, length_rev. lia.
Qed.

Lemma from_be_bytes_bound l : Forall is_byte l -> 0 <= from_be_bytes l < 256 ^ Z.of_nat (length l).
Proof.
  intros H. unfold from_be_bytes. rewrite <- length_rev. apply from_le_bytes_bound. by apply Forall_rev.
Qed.

Lemma from_be_bytes_zero l : Forall is_byte l -> forallb (fun b => b =? 0) l = (from_be_bytes l =? 0).
Proof.
  induction 1 as [|b l Hb Hl IH]; [done|]. cbn [forallb]. rewrite IH, from_be_bytes_cons.
  pose proof (from_be_bytes_bound l Hl). unfold is_byte in Hb.
  set (y := from_be_bytes l) in *. clearbody y. set (n := 256 ^ Z.of_nat (length l)) in *.
  assert (0 < n) by lia. clearbody n.
  apply eq_true_iff_eq. rewrite andb_true_iff, !Z.eqb_eq. nia.
Qed.

Lemma is_public_v6_cidr a :
  length a = 16%nat -> Forall is_byte a ->
  is_public_v6 a = Some (negb (existsb (fun k => cidr_contains k (V6 (from_be_bytes a))) LOCAL_V6)).
Proof.
  intros Hl Ha. pose proof (from_be_bytes_bound a Ha) as Hx. rewrite Hl in Hx.
  change (256 ^ Z.of_nat 16) with (2 ^ 128) in Hx.
  unfold is_public_v6. rewrite from_be_bytes_zero by done.
  assert (exists a15, a !! 15%nat = Some a15 /\
    forallb (fun b => b =? 0) (take 15 a) && (a15 =? 1) = (from_be_bytes a =? 1)) as (a15 & H15 & H1).
  { destruct (lookup_lt_is_Some_2 a 15) as [a15 H15]; [lia|]. exists a15. split; [done|].
    assert (a = take 15 a ++ [a15]) as Hsp.
    { rewrite <- (take_drop 15 a) at 1. f_equal. rewrite (drop_S a a15 15) by done.
      by rewrite drop_ge by lia. }
    assert (Forall is_byte (take 15 a)) as Hf by (by apply Forall_take).
    rewrite from_be_bytes_zero by done. rewrite Hsp at 2. unfold from_be_bytes at 2. rewrite rev_app_distr.
    cbn [rev app from_le_bytes]. fold (from_be_bytes (take 15 a)).
    pose proof (from_be_bytes_bound (take 15 a) Hf).
    assert (is_byte a15) as Hb by (exact (proj1 (Forall_lookup _ _) Ha _ _ H15)). unfold is_byte in Hb.
    apply eq_true_iff_eq. rewrite andb_true_iff, !Z.eqb_eq. lia. }
  rewrite H15. destruct a as [|a0 [|a1 r]]; try done. cbn [lookup list_lookup mbind option_bind].
  rewrite H1. apply Forall_cons in Ha as [H0 Ha]. apply Forall_cons in Ha as [Hb1 Ha].
  pose proof (from_be_bytes_bound r Ha) as Hr. cbn [length] in Hl.
  assert (length r = 14%nat) as Hlr by lia. rewrite Hlr in Hr.
  rewrite !from_be_bytes_cons in *. cbn [length] in *. rewrite Hlr in *.
  change (256 ^ Z.of_nat 14) with (2 ^ 112) in *. change (256 ^ Z.of_nat 15) with (2 ^ 120) in *.
  set (y := from_be_bytes r) in *. clearbody y. unfold is_byte in *.
  set (x := a0 * 2 ^ 120 + (a1 * 2 ^ 112 + y)) in *.
  assert (x = a0 * 2 ^ 120 + (a1 * 2 ^ 112 + y)) as Hdef by done.
  pose proof (div_mod_split a1 64). pose proof (Z.mod_pos_bound a1 64).
  pose proof (div_mod_split a0 2). pose proof (Z.mod_pos_bound a0 2).
  assert (x / 2 ^ 120 = a0) as E8 by (apply (div_split _ _ (a1 * 2 ^ 112 + y)); lia).
  assert (x / 2 ^ 121 = a0 / 2) as E7 by (apply (div_split _ _ (a0 mod 2 * 2 ^ 120 + (a1 * 2 ^ 112 + y))); lia).
  assert (x / 2 ^ 118 = a0 * 4 + a1 / 64) as E10
    by (apply (div_split _ _ (a1 mod 64 * 2 ^ 112 + y)); lia).
  assert (Z.land a1 0xc0 = a1 / 64 * 64) as L1.
  { change 0xc0 with (prefix_mask 8 2). rewrite land_prefix_mask by lia. done. }
  assert (Z.land a0 0xfe = a0 / 2 * 2) as L0.
  { change 0xfe with (prefix_mask 8 7). rewrite land_prefix_mask by lia. done. }
  rewrite L0, L1, local_v6_values. clear Hdef. clearbody x. cbn [existsb]. rewrite !cidr_contains_v6 by lia.
  change (128 - 128) with 0. change (128 - 10) with 118. change (128 - 7) with 121. change (128 - 8) with 120.
  rewrite E7, E8, E10, Z.pow_0_r, !Z.div_1_r.
  replace (0xfe80 * 2 ^ 112 / 2 ^ 118) with 1018 by reflexivity.
  replace (0xfc00 * 2 ^ 112 / 2 ^ 121) with 126 by reflexivity.
  replace (0xff00 * 2 ^ 112 / 2 ^ 120) with 255 by reflexivity.
  rewrite (Z.eqb_sym 0 x), (Z.eqb_sym 1 x).
  destruct (x =? 0); [done|]. f_equal. destruct (x =? 1); [done|]. cbn [orb].
  apply eq_true_iff_eq. rewrite negb_true_iff, !orb_false_iff, !Z.eqb_neq.
  destruct (Z.eqb_spec a0 254), (Z.eqb_spec (a1 / 64 * 64) 128), (Z.eqb_spec (a0 / 2 * 2) 252), (Z.eqb_spec a0 255);
    cbn [andb negb]; split; intros; try done; lia.
Qed.

(** An IPv4 address is public exactly when it is in none of the prefixes
    0.0.0.0/8, 10.0.0.0/8, 127.0.0.0/8, 172.16.0.0/12, 192.168.0.0/16,
    169.254.0.0/16 and 224.0.0.0/3, an IPv6 address exactly when it is in none of
    ::, ::1, fe80::/10, fc00::/7 and ff00::/8, the prefixes being read by the rule
    engine's own parser and matcher; looking at the octets never panics.  An
    IPv4-mapped private address counts as public. *)
Theorem locality_is_prefix_membership :
  (forall a b c d, is_byte a -> is_byte b -> is_byte c -> is_byte d ->
     is_public_v4 (from_le_bytes [a; b; c; d]) =
       negb (existsb (fun k => cidr_contains k (V4 (from_be_bytes [a; b; c; d]))) LOCAL_V4)) /\
  (forall a, length a = 16%nat -> Forall is_byte a ->
     is_public_v6 a = Some (negb (existsb (fun k => cidr_contains k (V6 (from_be_bytes a))) LOCAL_V6))) /\
  is_public_v6 (replicate 10 0 ++ [255; 255; 10; 0; 0; 1]) = Some true.
Proof. split; [exact is_public_v4_cidr|split; [exact is_public_v6_cidr|reflexivity]]. Qed.

Lemma locality_is_prefix_membership_witness :
  is_public_v4 (from_le_bytes [172; 31; 255; 1]) = false /\
  is_public_v4 (from_le_bytes [172; 32; 0; 1]) = true.
Proof.
  destruct locality_is_prefix_membership as [H _].
  split; rewrite H by (unfold is_byte; lia); vm_compute; reflexivity.
Defined.

(** ** The set and its message *)

(** A process that can move data off the machine. *)
Definition exfil_channel (tools : list (Z * str)) (v4 v6 : option (list TcpOwner))
    (pids : option (list Z)) (modules : Z -> option (list str)) (pid : Z) : Prop :=
  (exists image, (pid, image) ∈ tools) \/
  (exists table r, (v4 = Some table \/ v6 = Some table) /\ r ∈ table /\ reaches_public r = true /\
     row_pid r = pid) \/
  (exists ps ms m, pids = Some ps /\ pid ∈ take 4096 ps /\ modules pid = Some ms /\ m ∈ take 1024 ms /\
     is_hypervisor_module m = true).

(** The tracker finds exactly the processes of the three rules, except the idle
    and system processes and the agent itself, each once.  The message to the
    driver is 4104 bytes long and replaces the set: its count is the number of
    ids, at most 1024, and its first ids are those of the set; beyond the bound
    ids are dropped. *)
Theorem exfil_update_carries_set self tools v4 v6 pids modules :
  let set := compute_exfil_pids self tools v4 v6 pids modules in
  let m := DlpExfilUpdate_new set in
  NoDup set /\
  (forall pid, pid ∈ set <->
     exfil_channel tools v4 v6 pids modules pid /\ pid <> 0 /\ pid <> 4 /\ pid <> self) /\
  length (encode_update m) = 4104%nat /\
  ex_count m = Z.min (Z.of_nat (length set)) 1024 /\
  take (Z.to_nat (ex_count m)) (ex_pids m) = take 1024 set /\
  drop (Z.to_nat (ex_count m)) (ex_pids m) = replicate (1024 - length set) 0.
Proof.
  intros set m. split; [apply NoDup_elements|]. split.
  - intros pid. unfold set, compute_exfil_pids. rewrite elem_of_elements, elem_of_list_to_set.
    rewrite list_elem_of_In, filter_In, <- list_elem_of_In, !elem_of_app.
    assert (pid ∈ map fst tools <-> exists image, (pid, image) ∈ tools) as ->.
    { rewrite list_elem_of_fmap. split; [intros ([p i] & -> & H); by exists i|].
      intros [i H]. by exists (pid, i). }
    assert (forall t, pid ∈ map row_pid (List.filter reaches_public (default [] t)) <->
      exists table r, t = Some table /\ r ∈ table /\ reaches_public r = true /\ row_pid r = pid) as Ht.
    { intros t. rewrite list_elem_of_fmap. setoid_rewrite list_elem_of_In. setoid_rewrite filter_In.
      destruct t as [table|]; cbn; naive_solver. }
    assert (pid ∈ pids_with_public_connection v4 v6 <-> exists table r, (v4 = Some table \/ v6 = Some table) /\
      r ∈ table /\ reaches_public r = true /\ row_pid r = pid) as ->.
    { unfold pids_with_public_connection. rewrite elem_of_app, !Ht. naive_solver. }
    assert (pid ∈ hypervisor_pids pids modules <-> pid <> 0 /\ exists ps ms m, pids = Some ps /\
      pid ∈ take 4096 ps /\ modules pid = Some ms /\ m ∈ take 1024 ms /\ is_hypervisor_module m = true) as ->.
    { unfold hypervisor_pids. rewrite list_elem_of_In, filter_In, <- list_elem_of_In, andb_true_iff,
        negb_true_iff, Z.eqb_neq.
      destruct pids as [ps|]; cbn [default from_option id].
      - destruct (modules pid) as [ms|]; [rewrite existsb_spec|]; split; naive_solver.
      - split; [intros [H _]; by apply not_elem_of_nil in H|naive_solver]. }
    unfold exfil_channel, skip_pid. rewrite negb_true_iff, !orb_false_iff, !Z.eqb_neq. tauto.
  - assert (length set <= 1024 \/ 1024 < length set)%nat as Hc by lia.
    unfold m, DlpExfilUpdate_new, encode_update. cbn [ex_version ex_count ex_pids].
    set (n := Nat.min (length set) DLP_EXFIL_MSG_MAX).
    assert (length (copy_prefix (take n set) (replicate DLP_EXFIL_MSG_MAX 0)) = DLP_EXFIL_MSG_MAX) as Hlen.
    { unfold copy_prefix. rewrite length_app, length_drop, length_replicate, length_take. lia. }
    split; [|split; [unfold n, DLP_EXFIL_MSG_MAX; lia|]].
    + rewrite !length_app, !length_to_le_bytes.
      assert (forall l, length (concat (map (to_le_bytes 4) l)) = (4 * length l)%nat) as Hd.
      { intros l. induction l as [|x l IH]; [done|]. cbn [map concat].
        rewrite length_app, length_to_le_bytes, IH. cbn. lia. }
      rewrite Hd, Hlen. reflexivity.
    + rewrite Nat2Z.id. unfold copy_prefix.
      assert (length (take n set) = n) as Hn by (rewrite length_take; unfold n; lia).
      rewrite Hn. rewrite take_app_length' by done. rewrite drop_app_length' by done.
      rewrite drop_replicate. split.
      * unfold n, DLP_EXFIL_MSG_MAX. destruct Hc; [rewrite !firstn_all2 by lia; done|f_equal; lia].
      * f_equal. unfold n, DLP_EXFIL_MSG_MAX. lia.
Qed.
