(* ===== verification/GuardSession.v ===== *)
(** A session of the kernel guard ([src/kguard/mod.rs], [run], [send_config] and
    [exfil_push_loop]): connecting to the driver's port, sending the watch-set,
    the message loop, and beside it the thread that pushes the set of
    exfiltration-channel processes over a connection of its own.  The two threads
    are a step relation: any interleaving, any failure of a call, the stop
    flag as the only thing they share. *)

From S2P Require Import Prelude Words Text F64 Unicode Fingerprint Bundle Edm Utf8 Extract Verdict.
From S2P Require Import TrustDest Device UsbPolicy Supervise Crypto CopyAudit RemoteTools NetRules Config TrustSync.
From S2P Require Import UsbMonitor KGuard Exfil.
#[local] Open Scope Z_scope.

(** The CA and the bundle of the guard, by its own copies of the monitor's
    functions. *)
Definition resolve_ca (has_identity : bool) (identity_ca ca_file : option bytes) : option bytes :=
  if has_identity then identity_ca else ca_file.
Definition load_verified_bundle {B : BundleEnv} (has_identity : bool)
    (identity_ca ca_file index_bundle : option bytes) : option Bundle :=
  ca_pem ← resolve_ca has_identity identity_ca ca_file;
  index_bundle ≫= fun bs => res_ok (load bs ca_pem).

(** ** The threads *)

(** The guard's two connections to the driver's port. *)
Inductive Port : Set := Scanner | Pusher.

Inductive SessionEvent :=
  | EvConnect (p : Port)
  | EvSend (p : Port) (msg : bytes)
  | EvGet
  | EvGuard (eff : GuardEffect)
  | EvSpawn
  | EvClose (p : Port).

Inductive MainPc :=
  | MConnect
  | MConfig
  | MSpawn
  (** the turns taken, the buffer and the cache of volumes *)
  | MLoop (turns : list Turn) (buf : bytes) (cache : option (gmap str str))
  | MStop (turns : list Turn)
  | MJoin (turns : list Turn)
  | MClose (turns : list Turn)
  | MDone (turns : list Turn) (res : result str unit)
  | MPanicked.

Inductive PushPc : Set :=
  | PNone
  | PConnect
  | PCheck
  | PPush
  (** the slices of the pause that are left *)
  | PWait (left : nat)
  | PClose
  | PEnd.

Record Session := {
  s_main : MainPc;
  s_push : PushPc;
  (** [pusher_stop] *)
  s_stop : bool;
  s_trace : list SessionEvent;
}.

Definition PUSH_SLICES : nat := 20.
Definition connect_failed : str :=
  lit "FilterConnectCommunicationPort(\DlpFltPort) failed " ++ [8212] ++ lit " is dlpflt.sys loaded?".

(** The loop's buffer, allocated when it starts. *)
Definition receive_buffer : bytes := replicate TOTAL_SIZE 0.

Definition session_start : Session :=
  {| s_main := MConnect; s_push := PNone; s_stop := false; s_trace := [] |}.

Section Session.
Context {D : Digest} {U : Unicode} {E : ExtractEnv}.
(** The initial configuration, the bundle loaded from it, the agent's own pid. *)
Context (kg : KguardConfig) (bundle : option Bundle) (self_pid : Z).

(** One turn of the message loop. *)
Inductive TurnResult :=
  | TurnEnds (e : LoopEnd) (used : bool)
  | TurnGoes (effs : list GuardEffect) (buf : bytes) (cache : option (gmap str str)).
Definition guard_turn (t : Turn) (buf : bytes) (cache : option (gmap str str)) : TurnResult :=
  if t_stop t then TurnEnds LoopStopped false
  else
    match t_recv t ≫= (fun msg => receive msg buf) with
    | None => TurnEnds LoopClosed true
    | Some buf =>
        let req := read_request HEADER_SIZE buf in
        match answer_request t bundle req (drop (HEADER_SIZE + REQ_SIZE) buf) cache with
        | None => TurnEnds LoopPanicked true
        | Some (answer, cache) => TurnGoes (effects_of (field 8 8 buf) req answer) buf cache
        end
    end.

Definition watch_set : bytes := encode_config (from_kguard kg).

(** What the pusher reads of the system for one push. *)
Record PushInput := {
  pi_tools : list (Z * str);
  pi_v4 : option (list TcpOwner);
  pi_v6 : option (list TcpOwner);
  pi_pids : option (list Z);
  pi_modules : Z -> option (list str);
}.
Definition push_message (i : PushInput) : bytes :=
  encode_update (DlpExfilUpdate_new
    (compute_exfil_pids self_pid (pi_tools i) (pi_v4 i) (pi_v6 i) (pi_pids i) (pi_modules i))).

(** [run]: what the main thread does next; a spawned pusher starts at its
    connection, and [join] waits for its end. *)
Inductive main_step : Session -> Session -> Prop :=
  | connect_fails push stop tr :
      main_step (Build_Session MConnect push stop tr)
                (Build_Session (MDone [] (Err connect_failed)) push stop tr)
  | connects push stop tr :
      main_step (Build_Session MConnect push stop tr)
                (Build_Session MConfig push stop (tr ++ [EvConnect Scanner]))
  (** a failed send is only logged *)
  | sends_config push stop tr :
      main_step (Build_Session MConfig push stop tr)
                (Build_Session MSpawn push stop (tr ++ [EvSend Scanner watch_set]))
  | spawns push stop tr :
      exfil_read_block kg = true ->
      main_step (Build_Session MSpawn push stop tr)
                (Build_Session (MLoop [] receive_buffer None) PConnect stop (tr ++ [EvSpawn]))
  | spawns_not push stop tr :
      exfil_read_block kg = false ->
      main_step (Build_Session MSpawn push stop tr)
                (Build_Session (MLoop [] receive_buffer None) push stop tr)
  | answers ts buf cache push stop tr t effs buf' cache' :
      guard_turn t buf cache = TurnGoes effs buf' cache' ->
      main_step (Build_Session (MLoop ts buf cache) push stop tr)
                (Build_Session (MLoop (ts ++ [t]) buf' cache') push stop (tr ++ EvGet :: map EvGuard effs))
  | leaves ts buf cache push stop tr t e used :
      guard_turn t buf cache = TurnEnds e used -> e <> LoopPanicked ->
      main_step (Build_Session (MLoop ts buf cache) push stop tr)
                (Build_Session (MStop (ts ++ [t])) push stop (tr ++ if used then [EvGet] else []))
  | panics ts buf cache push stop tr t used :
      guard_turn t buf cache = TurnEnds LoopPanicked used ->
      main_step (Build_Session (MLoop ts buf cache) push stop tr)
                (Build_Session MPanicked push stop (tr ++ [EvGet]))
  | stops ts push stop tr :
      main_step (Build_Session (MStop ts) push stop tr) (Build_Session (MJoin ts) push true tr)
  | joins ts push stop tr :
      push = PNone \/ push = PEnd ->
      main_step (Build_Session (MJoin ts) push stop tr) (Build_Session (MClose ts) push stop tr)
  | closes ts push stop tr :
      main_step (Build_Session (MClose ts) push stop tr)
                (Build_Session (MDone ts (Ok tt)) push stop (tr ++ [EvClose Scanner])).

(** [exfil_push_loop]. *)
Inductive push_step : Session -> Session -> Prop :=
  | push_connect_fails main stop tr :
      push_step (Build_Session main PConnect stop tr) (Build_Session main PEnd stop tr)
  | push_connects main stop tr :
      push_step (Build_Session main PConnect stop tr)
                (Build_Session main PCheck stop (tr ++ [EvConnect Pusher]))
  | push_checks main stop tr :
      push_step (Build_Session main PCheck stop tr)
                (Build_Session main (if stop then PClose else PPush) stop tr)
  | pushes main stop tr (i : PushInput) (sent : bool) :
      push_step (Build_Session main PPush stop tr)
                (Build_Session main (if sent then PWait PUSH_SLICES else PClose) stop
                   (tr ++ [EvSend Pusher (push_message i)]))
  | push_waited main stop tr :
      push_step (Build_Session main (PWait 0) stop tr) (Build_Session main PCheck stop tr)
  | push_waits main stop tr n :
      push_step (Build_Session main (PWait (S n)) stop tr)
                (Build_Session main (if stop then PCheck else PWait n) stop tr)
  | push_closes main stop tr :
      push_step (Build_Session main PClose stop tr)
                (Build_Session main PEnd stop (tr ++ [EvClose Pusher])).

Inductive session_step (s s' : Session) : Prop :=
  | main_moves : main_step s s' -> session_step s s'
  | push_moves : push_step s s' -> session_step s s'.

(** ** The protocol with the driver *)

(** The states of a connection.  The scanner's is open, then ready once the
    watch-set has been sent; the pusher's is announced ([COpen]) by the spawn. *)
Inductive Conn : Set := CNone | COpen | CReady | CClosed.

(** What the driver may see next; [None] is a violation: a call on a handle that
    is not open, a message before the watch-set or a second one, a pusher that was
    not asked for or whose connection outlives the scanner's. *)
Definition observe (st : Conn * Conn) (ev : SessionEvent) : option (Conn * Conn) :=
  match ev, st with
  | EvConnect Scanner, (CNone, p) => Some (COpen, p)
  | EvSend Scanner m, (COpen, p) => if bool_decide (m = watch_set) then Some (CReady, p) else None
  | EvSpawn, (CReady, CNone) => if exfil_read_block kg then Some (CReady, COpen) else None
  | EvGet, (CReady, _) | EvGuard _, (CReady, _) => Some st
  | EvConnect Pusher, (CReady, COpen) => Some (CReady, CReady)
  | EvSend Pusher _, (CReady, CReady) => Some st
  | EvClose Pusher, (CReady, CReady) => Some (CReady, CClosed)
  | EvClose Scanner, (CReady, CReady) => None
  | EvClose Scanner, (CReady, p) => Some (CClosed, p)
  | _, _ => None
  end.
Definition observes (st : Conn * Conn) (tr : list SessionEvent) : option (Conn * Conn) :=
  foldl (fun o ev => o ≫= fun st => observe st ev) (Some st) tr.

Definition guard_events (tr : list SessionEvent) : list GuardEffect :=
  omap (fun ev => match ev with EvGuard eff => Some eff | _ => None end) tr.

Lemma observes_app st tr tr' : observes st (tr ++ tr') = observes st tr ≫= fun st => observes st tr'.
Proof.
  unfold observes. rewrite foldl_app. destruct (foldl _ (Some st) tr) as [st'|]; [done|]. cbn.
  induction tr'; [done|]. by cbn.
Qed.
Lemma observes_guard p effs : observes (CReady, p) (EvGet :: map EvGuard effs) = Some (CReady, p).
Proof. unfold observes. cbn. induction effs; [done|]. by cbn. Qed.
Lemma guard_events_app tr tr' : guard_events (tr ++ tr') = guard_events tr ++ guard_events tr'.
Proof. apply omap_app. Qed.
Lemma guard_events_map effs : guard_events (EvGet :: map EvGuard effs) = effs.
Proof. unfold guard_events. cbn. induction effs as [|e effs IH]; [done|]. cbn. by f_equal. Qed.

Lemma guard_loop_turn t ts buf cache :
  guard_loop bundle (t :: ts) buf cache =
    match guard_turn t buf cache with
    | TurnEnds e _ => ([], e)
    | TurnGoes effs buf cache =>
        let '(out, e) := guard_loop bundle ts buf cache in (effs ++ out, e)
    end.
Proof.
  cbn [guard_loop]. unfold guard_turn. destruct (t_stop t); [done|].
  destruct (t_recv t ≫= _) as [buf'|]; [|done].
  by destruct (answer_request _ _ _ _ _) as [[answer cache']|].
Qed.

(** ** The invariant of the two threads *)

Definition scanner_conn (m : MainPc) : Conn :=
  match m with
  | MConnect | MDone _ (Err _) => CNone
  | MConfig => COpen
  | MDone _ (Ok _) => CClosed
  | _ => CReady
  end.
Definition pusher_conn (p : PushPc) (c : Conn) : Prop :=
  match p with
  | PNone => c = CNone
  | PConnect => c = COpen
  | PEnd => c = COpen \/ c = CClosed
  | _ => c = CReady
  end.
Definition pusher_over (p : PushPc) : Prop := p = PNone \/ p = PEnd.

(** The answers given so far are those of the message loop. *)
Definition answered (m : MainPc) (effs : list GuardEffect) : Prop :=
  match m with
  | MLoop ts buf cache =>
      forall rest, guard_loop bundle (ts ++ rest) receive_buffer None =
        (effs ++ (guard_loop bundle rest buf cache).1, (guard_loop bundle rest buf cache).2)
  | MStop ts | MJoin ts | MClose ts | MDone ts (Ok _) =>
      exists e, guard_loop bundle ts receive_buffer None = (effs, e) /\ e <> LoopPanicked /\ e <> LoopWaits
  | MPanicked => True
  | _ => effs = []
  end.

(** A push is asked for by the configuration and carries a set. *)
Definition asked_push (ev : SessionEvent) : Prop :=
  match ev with EvSend Pusher m => exfil_read_block kg = true /\ exists i, m = push_message i | _ => True end.

Definition session_inv (s : Session) : Prop :=
  (exists c, observes (CNone, CNone) (s_trace s) = Some (scanner_conn (s_main s), c) /\ pusher_conn (s_push s) c) /\
  answered (s_main s) (guard_events (s_trace s)) /\
  (s_push s <> PNone -> exfil_read_block kg = true) /\
  match s_main s with
  | MConnect | MDone _ (Err _) => s_push s = PNone /\ s_stop s = false /\ s_trace s = []
  | MConfig | MSpawn => s_push s = PNone /\ s_stop s = false
  | MLoop _ _ _ | MStop _ | MPanicked => s_stop s = false
  | MJoin _ => s_stop s = true
  | MClose _ | MDone _ (Ok _) => pusher_over (s_push s) /\ s_stop s = true
  end /\
  (forall ts e, s_main s = MDone ts (Err e) -> e = connect_failed) /\
  Forall asked_push (s_trace s).

Lemma inv_start : session_inv session_start.
Proof. split; [by exists CNone|]. repeat (split; [done|]). constructor. Qed.

Ltac step_inv := cbn [s_main s_push s_stop s_trace scanner_conn answered] in *; destruct_and?; subst.

Lemma main_step_inv s s' : main_step s s' -> session_inv s -> session_inv s'.
Proof.
  intros Hst ((c & Ho & Hc) & Ha & Hx & Hm & He & Hf). destruct Hst; step_inv; unfold session_inv;
    cbn [s_main s_push s_stop s_trace scanner_conn answered];
    rewrite ?observes_app, ?guard_events_app, ?Ho; cbn [mbind option_bind].
  - split; [by exists c|]. split; [done|]. split; [done|]. split; [done|]. split; [|done]. by intros ts e [= _ <-].
  - cbn in Hc. subst. split; [by exists CNone|]. split; [done|]. split; [done|]. split; [done|].
    split; [done|]. repeat constructor.
  - split; [exists c; split; [|done]; cbn; by rewrite bool_decide_eq_true_2|].
    split; [by rewrite Ha|]. split; [done|]. split; [done|]. split; [done|].
    apply Forall_app; split; [done|repeat constructor].
  - cbn in Hc. subst. split; [exists COpen; split; [|done]; cbn; by rewrite H|].
    split; [intros rest; rewrite Ha; apply surjective_pairing|]. split; [done|]. split; [done|].
    split; [done|]. apply Forall_app; split; [done|repeat constructor].
  - split; [by exists c|].
    split; [intros rest; rewrite Ha; apply surjective_pairing|]. done.
  - split; [exists c; split; [apply observes_guard|done]|]. split.
    + intros rest. rewrite <- app_assoc, Ha. cbn [app]. rewrite guard_loop_turn, H, guard_events_map.
      destruct (guard_loop bundle rest buf' cache'). cbn [fst snd]. by rewrite app_assoc.
    + split; [done|]. split; [done|]. split; [done|]. apply Forall_app; split; [done|].
      constructor; [done|]. by apply Forall_map, Forall_true.
  - split; [exists c; split; [by destruct used|done]|]. split.
    + exists e. rewrite Ha, guard_loop_turn, H. cbn [fst snd]. rewrite app_nil_r.
      split; [by destruct used; rewrite ?app_nil_r|]. split; [done|].
      unfold guard_turn in H. destruct (t_stop t); [by simplify_eq|].
      destruct (t_recv t ≫= _); [|by simplify_eq].
      by destruct (answer_request _ _ _ _ _) as [[??]|]; simplify_eq.
    + split; [done|]. split; [done|]. split; [done|]. apply Forall_app; split; [done|].
      destruct used; repeat constructor.
  - split; [by exists c|]. split; [done|]. split; [done|]. split; [done|]. split; [done|].
    apply Forall_app; split; [done|repeat constructor].
  - split; [by exists c|]. by repeat split.
  - split; [by exists c|]. by repeat split.
  - split; [exists c; split; [|done]|].
    { match goal with H : pusher_over push |- _ => destruct H as [->| ->] end; cbn in Hc;
        [by subst|by destruct Hc as [->| ->]]. }
    split; [by rewrite app_nil_r|]. split; [done|]. split; [done|]. split; [done|].
    apply Forall_app; split; [done|repeat constructor].
Qed.

(** A step of the pusher that the driver may see keeps the invariant. *)
Lemma push_move_inv main push stop tr push' tr' c c' :
  session_inv (Build_Session main push stop tr) ->
  push <> PNone -> push <> PEnd -> push' <> PNone ->
  pusher_conn push c -> (forall x, pusher_conn push x -> x = c) ->
  observes (CReady, c) tr' = Some (CReady, c') -> pusher_conn push' c' ->
  guard_events tr' = [] ->
  Forall asked_push tr' ->
  session_inv (Build_Session main push' stop (tr ++ tr')).
Proof.
  intros ((x & Ho & Hx) & Ha & Hxb & Hm & He & Hf) Hn1 Hn2 Hn3 Hc Hu Htr Hc' Hg Hs.
  cbn [s_main s_push s_stop s_trace] in *. apply Hu in Hx as ->.
  assert (scanner_conn main = CReady) as Hr.
  { destruct main as [| | | | | | |ts [[]|e]|]; try reflexivity; cbn in Hm; exfalso;
      unfold pusher_over in Hm; tauto. }
  unfold session_inv. cbn [s_main s_push s_stop s_trace].
  rewrite observes_app, guard_events_app, Ho, Hr, Hg, app_nil_r. cbn [mbind option_bind].
  split; [by exists c'|]. split; [exact Ha|]. split; [intros _; by apply Hxb|].
  split; [|split; [exact He|apply Forall_app; by split]].
  destruct main as [| | | | | | |ts [[]|e]|]; try exact Hm; exfalso; unfold pusher_over in Hm; tauto.
Qed.

Lemma push_step_inv s s' : push_step s s' -> session_inv s -> session_inv s'.
Proof.
  intros Hst Hi. destruct Hst; try rewrite <- (app_nil_r tr).
  - by eapply (push_move_inv _ _ _ _ PEnd _ COpen COpen Hi); try (by left); cbn; unfold asked_push; auto.
  - rewrite app_nil_r. by eapply (push_move_inv _ _ _ _ PCheck _ COpen CReady Hi); cbn; unfold asked_push; auto.
  - by eapply (push_move_inv _ _ _ _ _ _ CReady CReady Hi); destruct stop; cbn; unfold asked_push; auto.
  - rewrite app_nil_r. eapply (push_move_inv _ _ _ _ _ _ CReady CReady Hi); try (by destruct sent); cbn; unfold asked_push; auto.
    constructor; [split; [apply Hi; discriminate|by eexists]|constructor].
  - by eapply (push_move_inv _ _ _ _ _ _ CReady CReady Hi); cbn; unfold asked_push; auto.
  - by eapply (push_move_inv _ _ _ _ _ _ CReady CReady Hi); destruct stop; cbn; unfold asked_push; auto.
  - rewrite app_nil_r. by eapply (push_move_inv _ _ _ _ PEnd _ CReady CClosed Hi); cbn; unfold asked_push; auto.
Qed.

Lemma session_inv_reachable s : rtc session_step session_start s -> session_inv s.
Proof.
  revert s. apply rtc_ind_r; [exact inv_start|]. intros s s' _ Hst Hi.
  destruct Hst; [by eapply main_step_inv|by eapply push_step_inv].
Qed.

(** ** The end of a session *)

(** The steps that are left at most once the stop flag is set. *)
Definition steps_left (s : Session) : nat :=
  match s_main s with MStop _ => 3 | MJoin _ => 2 | MClose _ => 1 | _ => 0 end +
  match s_push s with
  | PConnect => 4 | PPush => 4 | PWait _ => 3 | PCheck => 2 | PClose => 1 | PNone | PEnd => 0
  end.

Lemma step_after_stop s s' :
  session_inv s -> s_stop s = true -> session_step s s' ->
  s_stop s' = true /\ (steps_left s' < steps_left s)%nat.
Proof.
  intros (_ & _ & _ & Hm & _) Hs [Hst|Hst]; destruct Hst; cbn [s_main s_push s_stop] in *; subst;
    try (destruct Hm as (_ & ? & _); discriminate); try (destruct Hm as (_ & ?); discriminate); try discriminate;
    unfold steps_left; cbn [s_main s_push]; try (split; [reflexivity|lia]).
  split; [reflexivity|]. destruct sent; lia.
Qed.

Lemma pusher_moves main push stop tr :
  pusher_over push \/ exists s', push_step (Build_Session main push stop tr) s'.
Proof.
  destruct push as [| | | |[|n]| |]; [left; by left|right; eexists..|left; by right].
  - apply push_connect_fails.
  - apply push_checks.
  - apply (pushes main stop tr (Build_PushInput [] None None None (fun _ => None)) true).
  - apply push_waited.
  - apply push_waits.
  - apply push_closes.
Qed.

Lemma stopped_moves s :
  session_inv s -> s_stop s = true ->
  (exists s', session_step s s') \/ (exists ts, s_main s = MDone ts (Ok tt)) /\ pusher_over (s_push s).
Proof.
  intros (_ & _ & _ & Hm & _) Hs. destruct s as [main push stop tr]. cbn [s_main s_push s_stop] in *. subst.
  destruct (pusher_moves main push true tr) as [Ho|[s' Hp]]; [|left; exists s'; by right].
  destruct main as [| | | |ts|ts|ts|ts [[]|e]|];
    try (destruct Hm as (_ & ? & _); discriminate); try (destruct Hm as (_ & ?); discriminate); try discriminate.
  - left. eexists. left. by apply joins.
  - left. eexists. left. apply closes.
  - right. split; [by exists ts|done].
Qed.

Lemma session_after_stop n s s' :
  session_inv s -> s_stop s = true -> nsteps session_step n s s' ->
  session_inv s' /\ s_stop s' = true /\ (steps_left s' + n <= steps_left s)%nat.
Proof.
  intros Hi Hs Hn. induction Hn as [s|n s s1 s' Hst _ IH]; [split; [done|split; [done|lia]]|].
  destruct (step_after_stop s s1 Hi Hs Hst) as [Hs1 Hl].
  assert (session_inv s1) as Hi1 by (destruct Hst; [by eapply main_step_inv|by eapply push_step_inv]).
  destruct (IH Hi1 Hs1) as (? & ? & ?). split; [done|]. split; [done|lia].
Qed.

(** With a bundle that was loaded no message makes the loop panic. *)
Lemma guard_turn_total t buf cache e used :
  (forall b, bundle = Some b -> bundle_wf b) -> guard_turn t buf cache = TurnEnds e used -> e <> LoopPanicked.
Proof.
  intros Hb. unfold guard_turn. destruct (t_stop t); [by intros [= <- <-]|].
  destruct (t_recv t ≫= _) as [buf'|]; [|by intros [= <- <-]].
  destruct (answer_request_total bundle Hb t (read_request HEADER_SIZE buf')
    (drop (HEADER_SIZE + REQ_SIZE) buf') cache) as [[a cache'] ->]. done.
Qed.
Lemma never_panics s :
  (forall b, bundle = Some b -> bundle_wf b) -> rtc session_step session_start s -> s_main s <> MPanicked.
Proof.
  intros Hb. revert s. apply rtc_ind_r; [done|]. intros s s' _ [Hst|Hst] Hn; destruct Hst; try done.
  intros _. by eapply (guard_turn_total t buf cache).
Qed.

(** C13: The guard's session keeps to the driver's protocol under every interleaving of
    its two threads and every failure of a call.  The scanner's connection is
    opened first and its first message is the watch-set of the configuration; only
    then are requests fetched and answered.  A pusher exists only where
    [exfil_read_block] asks for it, uses a connection of its own, and is over
    before the scanner's connection is closed; every message it sends carries the
    current set without the agent's own process.  A session that ends without
    an error has closed what it opened and given exactly the answers of the message
    loop; its only error is that of the first connection, before anything was sent.
    Once the loop has ended and the flag is set, at most six more steps are
    possible and the session ends.  With a loaded bundle it never panics. *)
Theorem guard_session_protocol s :
  rtc session_step session_start s ->
  (exists st, observes (CNone, CNone) (s_trace s) = Some st /\
     (forall ts, s_main s = MDone ts (Ok tt) -> st.1 = CClosed /\ st.2 <> CReady)) /\
  (forall ts, s_main s = MDone ts (Ok tt) ->
     exists e, message_loop bundle ts = (guard_events (s_trace s), e) /\ (e = LoopStopped \/ e = LoopClosed)) /\
  (forall ts e, s_main s = MDone ts (Err e) -> e = connect_failed /\ s_trace s = []) /\
  (forall m, EvSend Pusher m ∈ s_trace s -> exfil_read_block kg = true /\ exists i, m = push_message i) /\
  (s_stop s = true -> forall n s', nsteps session_step n s s' ->
     (n <= 6)%nat /\
     ((forall s'', ~ session_step s' s'') -> exists ts, s_main s' = MDone ts (Ok tt) /\ pusher_over (s_push s'))) /\
  ((forall b, bundle = Some b -> bundle_wf b) -> s_main s <> MPanicked).
Proof.
  intros Hr. pose proof (session_inv_reachable s Hr) as Hi.
  destruct Hi as ((c & Ho & Hc) & Ha & Hx & Hm & He & Hf) eqn:HI. clear HI.
  split; [|split; [|split; [|split; [|split]]]].
  - eexists. split; [exact Ho|]. intros ts E0. rewrite E0 in *. cbn [fst snd scanner_conn]. split; [done|].
    destruct Hm as [[Hp|Hp] _]; rewrite Hp in Hc; cbn in Hc; [by subst|by destruct Hc as [->| ->]].
  - intros ts E0. rewrite E0 in *. destruct Ha as (e & Hl & Hp & Hw). exists e. split; [exact Hl|].
    destruct e; auto; done.
  - intros ts e E0. split; [by eapply He|]. rewrite E0 in Hm. apply Hm.
  - intros m Hin. rewrite Forall_forall in Hf. exact (Hf _ Hin).
  - intros Hs n s' Hn. destruct (session_after_stop n s s' Hi Hs Hn) as (Hi' & Hs' & Hl). split.
    + enough (steps_left s <= 6)%nat by lia. unfold steps_left.
      destruct (s_main s) as [| | | |ts|ts|ts|ts [[]|e0]|];
        try (rewrite (proj1 (proj2 Hm)) in Hs; discriminate); try (rewrite (proj2 Hm) in Hs; discriminate);
        try (rewrite Hm in Hs; discriminate); destruct (s_push s); lia.
    + intros Hstuck. destruct (stopped_moves s' Hi' Hs') as [[s'' Hst]|[[ts ?] ?]]; [by destruct (Hstuck s'')|].
      by exists ts.
  - intros Hb. by apply never_panics.
Qed.
End Session.

(** A session with one push, stopped before the first message. *)
Definition exfil_kg : KguardConfig :=
  {| kguard_block_at := kguard_block_at default_kguard;
     removable_write_block_at := removable_write_block_at default_kguard;
     kguard_coverage_block_at := kguard_coverage_block_at default_kguard;
     kguard_fail_block := kguard_fail_block default_kguard;
     kguard_channel_label := kguard_channel_label default_kguard;
     sealer_health_timeout_secs := sealer_health_timeout_secs default_kguard;
     scan_fixed := true; scan_network := false; watch_paths := [lit "\Device\HarddiskVolume3\Users"];
     exfil_read_block := true |}.
Definition stop_turn : Turn :=
  {| t_stop := true; t_recv := None; t_config := Clean guard_config; t_health := None; t_now_ms := 0;
     t_query := sample_query; t_identity := fun _ => None |}.
Definition one_push : PushInput :=
  {| pi_tools := [(42, lit "anydesk.exe")]; pi_v4 := None; pi_v6 := None; pi_pids := None;
     pi_modules := fun _ => None |}.
Definition session_events : list SessionEvent :=
  [EvConnect Scanner; EvSend Scanner (watch_set exfil_kg); EvSpawn; EvConnect Pusher;
   EvSend Pusher (push_message 7 one_push); EvClose Pusher; EvClose Scanner].
Definition ended_session : Session :=
  {| s_main := MDone [stop_turn] (Ok tt); s_push := PEnd; s_stop := true; s_trace := session_events |}.

Lemma ended_session_reached :
  rtc (session_step (D := toy_digest) (U := ascii_unicode) (E := sample_archive) exfil_kg (Some idm_sample) 7)
    session_start ended_session.
Proof.
  unfold session_start, ended_session.
  eapply rtc_l; [left; apply connects|]. eapply rtc_l; [left; apply sends_config|].
  eapply rtc_l; [left; by apply spawns|]. eapply rtc_l; [right; apply push_connects|].
  eapply rtc_l; [right; apply push_checks|]. cbv match.
  eapply rtc_l; [right; apply (pushes _ _ _ _ one_push true)|].
  eapply rtc_l; [left; by eapply (leaves _ _ _ _ _ _ _ _ stop_turn)|].
  eapply rtc_l; [left; apply stops|]. eapply rtc_l; [right; apply push_waits|].
  eapply rtc_l; [right; apply push_checks|]. cbv match.
  eapply rtc_l; [right; apply push_closes|]. eapply rtc_l; [left; apply joins; by right|].
  eapply rtc_l; [left; apply closes|]. apply rtc_refl.
Qed.

Lemma guard_session_protocol_witness :
  rtc (session_step (D := toy_digest) (U := ascii_unicode) (E := sample_archive) exfil_kg (Some idm_sample) 7)
    session_start ended_session /\
  (exists st, observes exfil_kg (CNone, CNone) session_events = Some st /\ st.1 = CClosed) /\
  exists i, push_message 7 one_push = push_message 7 i.
Proof.
  split; [exact ended_session_reached|].
  destruct (guard_session_protocol (D := toy_digest) (U := ascii_unicode) (E := sample_archive) exfil_kg
    (Some idm_sample) 7 ended_session ended_session_reached) as ((st & Ho & Hd) & _ & _ & Hp & _).
  split; [exists st; split; [exact Ho|apply (Hd _ eq_refl)]|].
  apply (Hp (push_message 7 one_push)). unfold ended_session, session_events. cbn [s_trace].
  do 4 right. left.
Defined.
