(* ===== verification/Egress.v ===== *)
(** Network-egress enforcement ([src/netfilter/wfp.rs], [mod.rs], [tcpreset.rs]):
    the filters a rule becomes, their transactional installation, the monitor's
    polls, and the reset of a tainted process's connections.  The filtering
    engine, the process list and the connection tables are the system's: each
    call is an event, and its return code an argument. *)

From S2P Require Import Prelude Words Text F64 Unicode Fingerprint Bundle Edm Utf8 Extract Verdict.
From S2P Require Import TrustDest Device UsbPolicy Enforce Watch Supervise Crypto CopyAudit.
From S2P Require Import RemoteTools NetRules Config.
#[local] Open Scope Z_scope.

(** ** Filter specifications *)

Definition DLP_PROVIDER_GUID : Z := 0x7b2e6f109c3a4d21b8e45f1a2c3d4e5f.
Definition DLP_SUBLAYER_GUID : Z := 0x7b2e6f119c3a4d21b8e45f1a2c3d4e60.
Definition DEFAULT_WEIGHT : Z := 10.

Inductive WfpLayer : Set := AleAuthConnectV4 | AleAuthConnectV6.
Inductive WfpAction : Set := WfpPermit | WfpBlock.
#[export] Instance WfpLayer_eq_dec : EqDecision WfpLayer.
Proof. solve_decision. Defined.
#[export] Instance WfpAction_eq_dec : EqDecision WfpAction.
Proof. solve_decision. Defined.
Inductive WfpCondition :=
  | AppId (path : str)
  | RemoteAddress (cidr : Cidr)
  | RemotePort (port : Z).
Record WfpFilterSpec := {
  spec_name : str;
  spec_layer : WfpLayer;
  spec_action : WfpAction;
  conditions : list WfpCondition;
  weight : Z;
  provider : Z;
  sublayer : Z;
}.

Definition action_of (a : RuleAction) : WfpAction :=
  match a with RulePermit => WfpPermit | RuleBlock => WfpBlock end.

Definition conditions_of (rule : NetRule) : list WfpCondition :=
  match rule_app rule with Some app => [AppId app] | None => [] end
  ++ match rule_cidr rule with Some cidr => [RemoteAddress cidr] | None => [] end
  ++ match rule_port rule with Some port => [RemotePort port] | None => [] end.

Definition layers_for (rule : NetRule) : list WfpLayer :=
  match rule_cidr rule with
  | Some c => if is_v4 c then [AleAuthConnectV4] else [AleAuthConnectV6]
  | None => [AleAuthConnectV4; AleAuthConnectV6]
  end.

Definition plan_filter (rule : NetRule) (layer : WfpLayer) (w : Z) : WfpFilterSpec :=
  {| spec_name := default (lit "dlp-net-rule") (rule_note rule); spec_layer := layer;
     spec_action := action_of (rule_action rule); conditions := conditions_of rule; weight := w;
     provider := DLP_PROVIDER_GUID; sublayer := DLP_SUBLAYER_GUID |}.
Definition plan_filters (rule : NetRule) : list WfpFilterSpec :=
  map (fun layer => plan_filter rule layer DEFAULT_WEIGHT) (layers_for rule).

Definition path_base (path : str) : str :=
  RemoteTools.last_component (map (fun c => if c =? 47 then 92 else c) path).
Definition plan_tool_block (app_path : str) (w : Z) : list WfpFilterSpec :=
  map (fun layer =>
    {| spec_name := lit "dlp-block-tool:" ++ path_base app_path; spec_layer := layer;
       spec_action := WfpBlock; conditions := [AppId app_path]; weight := w;
       provider := DLP_PROVIDER_GUID; sublayer := DLP_SUBLAYER_GUID |})
    [AleAuthConnectV4; AleAuthConnectV6].

Definition layer_guid (layer : WfpLayer) : Z :=
  match layer with
  | AleAuthConnectV4 => 0xc38d57d105a74c33904f7fbceee60e82
  | AleAuthConnectV6 => 0x4a72393b319f44bc84c3ba54dcb3b6b4
  end.

(** ** Live installation *)

(** The conditions and the filter in the engine's own terms. *)
Inductive NativeCondition :=
  | NAppId (blob : bytes)
  | NV4 (addr mask : Z)
  | NV6 (octets : bytes) (prefix_length : Z)
  | NPort (port : Z).
Record NativeFilter := {
  nf_name : str;
  nf_layer : Z;
  nf_sublayer : Z;
  nf_provider : Z;
  nf_weight : Z;
  nf_conditions : list NativeCondition;
  nf_action : WfpAction;
}.

Inductive WfpCall :=
  | EngineOpen
  | ProviderAdd (key : Z)
  | SubLayerAdd (key provider weight : Z)
  | TransactionBegin
  | GetAppId (path : str)
  | FilterAdd (f : NativeFilter)
  | TransactionCommit
  | TransactionAbort.

Definition ERROR_OK : Z := 0.
Definition FWP_E_ALREADY_EXISTS : Z := 0x80320009.
Definition MAX_U32 : Z := 2 ^ 32 - 1.
(** [{:#x}] of a code *)
Definition hex_code (n : Z) : str := lit "0x" ++ hex_digits 8 n [].

(** [u32::MAX << (32 - prefix)], 0 for prefix 0. *)
Definition v4_mask (prefix : Z) : Z :=
  if prefix =? 0 then 0 else Z.shiftl MAX_U32 (32 - prefix) mod 2 ^ 32.

Section Engine.
(** The code a call returns, given the calls before it; the blob a file's id is. *)
Context (rc : list WfpCall -> WfpCall -> Z) (app_blob : str -> bytes).

(** A computation extends the list of calls made, or fails. *)
Definition Wfp (A : Type) : Type := list WfpCall -> result str A * list WfpCall.
Definition wfp_ret {A} (a : A) : Wfp A := fun h => (Ok a, h).
Definition wfp_bail {A} (e : str) : Wfp A := fun h => (Err e, h).
Definition wfp_bind {A B} (m : Wfp A) (k : A -> Wfp B) : Wfp B := fun h =>
  match m h with (Ok a, h') => k a h' | (Err e, h') => (Err e, h') end.
Definition call (c : WfpCall) : Wfp Z := fun h => (Ok (rc h c), h ++ [c]).
#[local] Notation "x <~ m ;; k" := (wfp_bind m (fun x => k)) (at level 100, m at next level, right associativity).

Definition native_condition (cond : WfpCondition) : Wfp NativeCondition :=
  match cond with
  | AppId path =>
      r <~ call (GetAppId path) ;;
      if r =? ERROR_OK then wfp_ret (NAppId (app_blob path))
      else wfp_bail (lit "FwpmGetAppIdFromFileName0(" ++ path ++ lit ") failed: " ++ hex_code r)
  | RemoteAddress cidr =>
      match base cidr with
      | V4 v4 => wfp_ret (NV4 v4 (v4_mask (prefix cidr)))
      | V6 v6 => wfp_ret (NV6 (rev (to_le_bytes 16 v6)) (prefix cidr))
      end
  | RemotePort port => wfp_ret (NPort port)
  end.
Fixpoint native_conditions (cs : list WfpCondition) : Wfp (list NativeCondition) :=
  match cs with
  | [] => wfp_ret []
  | c :: cs' => n <~ native_condition c ;; ns <~ native_conditions cs' ;; wfp_ret (n :: ns)
  end.

Definition native_filter (spec : WfpFilterSpec) (action : WfpAction) (conds : list NativeCondition)
    : NativeFilter :=
  {| nf_name := spec_name spec; nf_layer := layer_guid (spec_layer spec); nf_sublayer := sublayer spec;
     nf_provider := provider spec; nf_weight := weight spec; nf_conditions := conds;
     nf_action := action |}.

Definition add_one_filter (spec : WfpFilterSpec) (action : WfpAction) : Wfp unit :=
  conds <~ native_conditions (conditions spec) ;;
  r <~ call (FilterAdd (native_filter spec action conds)) ;;
  if r =? ERROR_OK then wfp_ret tt
  else wfp_bail (lit "FwpmFilterAdd0(" ++ spec_name spec ++ lit ") failed: " ++ hex_code r).

Fixpoint add_filters (specs : list WfpFilterSpec) (added : Z) : Wfp Z :=
  match specs with
  | [] => wfp_ret added
  | spec :: specs' => fun h =>
      match add_one_filter spec (spec_action spec) h with
      | (Err e, h') => (_ <~ call TransactionAbort ;; wfp_bail e) h'
      | (Ok _, h') => add_filters specs' (added + 1) h'
      end
  end.

Definition execute_live (specs : list WfpFilterSpec) : Wfp Z :=
  r <~ call EngineOpen ;;
  if negb (r =? ERROR_OK) then
    wfp_bail (lit "FwpmEngineOpen0 failed: " ++ hex_code r ++ lit " (need admin/SYSTEM)")
  else
  r <~ call (ProviderAdd DLP_PROVIDER_GUID) ;;
  if negb (r =? ERROR_OK) && negb (r =? FWP_E_ALREADY_EXISTS) then
    wfp_bail (lit "FwpmProviderAdd0 failed: " ++ hex_code r)
  else
  r <~ call (SubLayerAdd DLP_SUBLAYER_GUID DLP_PROVIDER_GUID 0x8000) ;;
  if negb (r =? ERROR_OK) && negb (r =? FWP_E_ALREADY_EXISTS) then
    wfp_bail (lit "FwpmSubLayerAdd0 failed: " ++ hex_code r)
  else
  r <~ call TransactionBegin ;;
  if negb (r =? ERROR_OK) then wfp_bail (lit "FwpmTransactionBegin0 failed: " ++ hex_code r)
  else
  added <~ add_filters specs 0 ;;
  r <~ call TransactionCommit ;;
  if negb (r =? ERROR_OK) then
    _ <~ call TransactionAbort ;;
    wfp_bail (lit "FwpmTransactionCommit0 failed: " ++ hex_code r)
  else wfp_ret added.

Inductive WfpApplyOutcome := WfpPlanned (specs : list WfpFilterSpec) | WfpExecuted (n : Z).
Definition wfp_apply (specs : list WfpFilterSpec) (mode : Mode) : Wfp WfpApplyOutcome :=
  match mode with
  | DryRun => wfp_ret (WfpPlanned specs)
  | Live => n <~ execute_live specs ;; wfp_ret (WfpExecuted n)
  end.
End Engine.

(** ** The monitor *)

Definition build_policy (nf : NetfilterConfig) (mode : NetMode) : NetPolicy :=
  {| mode := mode; net_rules := omap to_net_rule (net_rule_configs nf);
     remote_tools := {| tool_default_action := remote_tool_action nf;
                        overrides := remote_tool_overrides nf |} |}.

Definition network_device (app_path : str) : DeviceIdentity :=
  {| drive_letter := []; vendor_id := []; product_id := []; serial := []; product_name := app_path;
     bus_type := lit "network"; removable := false |}.
Definition network_incident (app_path note : str) (blocked : bool) (channel : str) : UsbIncident :=
  {| kind := Match; channel := channel; inc_file_name := []; inc_file_sha256 := []; inc_verdict := None;
     device := network_device app_path;
     action_taken := if blocked then CopyAudit.Blocked else CopyAudit.Audited;
     inc_note := Some note; inc_key_id := None; sealed_sha256 := None |}.

(** [EnumProcesses] into 4096 slots ([None] when it fails); [image] is what
    opening and querying a process yields, when both succeed. *)
Definition list_remote_tool_processes (pids : option (list Z)) (image : Z -> option (list Z))
    : list (Z * str) :=
  omap (fun pid =>
      if pid =? 0 then None
      else
        units ← image pid;
        let path := from_utf16_lossy units in
        if bool_decide (is_Some (match_image path)) then Some (pid, path) else None)
    (take 4096 (default [] pids)).

Inductive NetEvent :=
  | NetReport (inc : UsbIncident)
  | NetInstall (specs : list WfpFilterSpec)
  | NetTerminate (pid : Z).
Record MonitorState := { seen_tools : gset str; blocked_paths : gset str }.

Definition unspecified_conn (image : str) : Connection :=
  {| app_path := image; remote_ip := V4 0; remote_port := 0; direction := Outbound |}.
Definition bool_text (b : bool) : str := if b then lit "true" else lit "false".
Definition enforcing (m : NetMode) : bool := bool_decide (m = Allowlist) || bool_decide (m = Blocklist).

(** One remote-tool process: the events and the sets after it.  How installing and
    terminating end is only logged. *)
Definition see_process (policy : NetPolicy) (channel : str) (st : MonitorState) (pid : Z) (image : str)
    : list NetEvent * MonitorState :=
  let enforce := enforcing (mode policy) in
  let decision := decide_net policy (unspecified_conn image) in
  let blocked_now := enforce && is_block decision in
  let '(reports, seen) :=
    if bool_decide (image ∈ seen_tools st) then ([], seen_tools st)
    else
      let tool := match match_image image with Some t => tool_id t | None => lit "unknown" end in
      ([NetReport (network_incident image
          (lit "remote-tool=" ++ tool ++ lit " pid=" ++ dec pid ++ lit " verdict=" ++ reason decision
           ++ lit " enforce=" ++ bool_text enforce) blocked_now channel)],
       {[ image ]} ∪ seen_tools st) in
  let '(blocks, paths) :=
    if blocked_now && negb (bool_decide (image ∈ blocked_paths st)) then
      (NetInstall (plan_tool_block image DEFAULT_WEIGHT) ::
       match match_app (remote_tools policy) image with
       | Some m => if bool_decide (match_action m = Kill) then [NetTerminate pid] else []
       | None => []
       end,
       {[ image ]} ∪ blocked_paths st)
    else ([], blocked_paths st) in
  (reports ++ blocks, {| seen_tools := seen; blocked_paths := paths |}).

Fixpoint see_processes (policy : NetPolicy) (channel : str) (st : MonitorState) (ps : list (Z * str))
    : list NetEvent * MonitorState :=
  match ps with
  | [] => ([], st)
  | (pid, image) :: ps' =>
      let '(evs, st) := see_process policy channel st pid image in
      let '(evs', st) := see_processes policy channel st ps' in
      (evs ++ evs', st)
  end.

(** The processes of successive polls; the loop itself never ends. *)
Fixpoint monitor_polls (policy : NetPolicy) (channel : str) (st : MonitorState)
    (polls : list (list (Z * str))) : list NetEvent * MonitorState :=
  match polls with
  | [] => ([], st)
  | ps :: polls' =>
      let '(evs, st) := see_processes policy channel st ps in
      let '(evs', st) := monitor_polls policy channel st polls' in
      (evs ++ evs', st)
  end.

Definition net_monitor (nf : NetfilterConfig) (m : NetMode) (polls : list (list (Z * str)))
    : list NetEvent :=
  let policy := build_policy nf m in
  (if enforcing m then [NetInstall (concat (map plan_filters (net_rules policy)))] else [])
  ++ (monitor_polls policy (net_channel_label nf) {| seen_tools := ∅; blocked_paths := ∅ |} polls).1.

(** ** Resetting a tainted process's connections *)

Inductive TcpFamily : Set := TcpV4 | TcpV6.
Record TcpRow := { owning_pid : Z; state : Z; family : TcpFamily }.
Definition MIB_TCP_STATE_SYN_SENT : Z := 3.
Definition MIB_TCP_STATE_LAST_ACK : Z := 10.
Definition is_active_egress_state (s : Z) : bool :=
  (MIB_TCP_STATE_SYN_SENT <=? s) && (s <=? MIB_TCP_STATE_LAST_ACK).
Definition row_selected (row : TcpRow) (pid : Z) : bool :=
  negb (pid =? 0) && (owning_pid row =? pid) && is_active_egress_state (state row).
Definition select_pid_rows (rows : list TcpRow) (pid : Z) : list TcpRow :=
  List.filter (fun r => row_selected r pid) rows.

Inductive Tep : Set := BlockAll | BlockNonlocal.
Inductive EgressAction : Set := EgressBlock | EgressContinue.
Definition tainted_egress_action (tainted remote_is_local : bool) (policy : Tep) : EgressAction :=
  if negb tainted then EgressContinue
  else match policy with
       | BlockAll => EgressBlock
       | BlockNonlocal => if remote_is_local then EgressContinue else EgressBlock
       end.

(** An IPv4 row as the table gives it; of an IPv6 row only two fields are read. *)
Record RawRow := {
  dwState : Z; dwLocalAddr : Z; dwLocalPort : Z; dwRemoteAddr : Z; dwRemotePort : Z; dwOwningPid : Z;
}.
Record RawRow6 := { dwState6 : Z; dwOwningPid6 : Z }.
Record SetRow := { set_state : Z; set_local : Z * Z; set_remote : Z * Z }.
Definition MIB_TCP_STATE_DELETE_TCB : Z := 12.

Section Tables.
(** [GetExtendedTcpTable] for a family: the size probe's code and size, and the
    fetch into a buffer of that many 8-byte words; the rows a filled buffer
    holds; the code of [SetTcpEntry]. *)
Context (probe : Z -> Z * Z) (fetch : Z -> nat -> Z * list Z).
Context (v4_rows : list Z -> list RawRow) (v6_rows : list Z -> list RawRow6).
Context (set_tcp_entry : SetRow -> Z).

Definition query_tcp_table (af : Z) : result str (list Z) :=
  let '(r, size) := probe af in
  if negb (r =? 0) && negb (r =? 122) then
    Err (lit "GetExtendedTcpTable(size probe, af=" ++ dec af ++ lit ") failed: " ++ dec r)
  else if size =? 0 then Ok [0]
  else
    let '(r, buf) := fetch af (Z.to_nat ((size + 7) / 8)) in
    if negb (r =? 0) then
      Err (lit "GetExtendedTcpTable(fetch, af=" ++ dec af ++ lit ") failed: " ++ dec r)
    else Ok buf.

Definition delete_row (raw : RawRow) : SetRow :=
  {| set_state := MIB_TCP_STATE_DELETE_TCB; set_local := (dwLocalAddr raw, dwLocalPort raw);
     set_remote := (dwRemoteAddr raw, dwRemotePort raw) |}.
Definition reset_v4_row (raw : RawRow) : result str unit :=
  let r := set_tcp_entry (delete_row raw) in
  if r =? 0 then Ok tt
  else Err (lit "SetTcpEntry(DELETE_TCB) failed: " ++ dec r ++ lit " (need admin/SYSTEM)").

Definition row_of (raw : RawRow) : TcpRow :=
  {| owning_pid := dwOwningPid raw; state := dwState raw; family := TcpV4 |}.
Definition row_of6 (raw : RawRow6) : TcpRow :=
  {| owning_pid := dwOwningPid6 raw; state := dwState6 raw; family := TcpV6 |}.

(** The rows handed to [SetTcpEntry] and how many of them it took. *)
Definition reset_rows (rows : list RawRow) (pid : Z) : list SetRow * Z :=
  foldl (fun '(sent, reset) raw =>
      if row_selected (row_of raw) pid then
        (sent ++ [delete_row raw],
         match reset_v4_row raw with Ok _ => reset + 1 | Err _ => reset end)
      else (sent, reset))
    ([], 0) rows.

(** The result, the rows deleted, and how many IPv6 flows are only reported. *)
Definition reset_pid_connections (pid : Z) : result str Z * list SetRow * nat :=
  match query_tcp_table 2 with
  | Err e => (Err e, [], 0%nat)
  | Ok v4buf =>
      let '(sent, reset) := reset_rows (v4_rows v4buf) pid in
      match query_tcp_table 23 with
      | Err e => (Err e, sent, 0%nat)
      | Ok v6buf =>
          (Ok reset, sent,
           length (List.filter (fun raw => row_selected (row_of6 raw) pid) (v6_rows v6buf)))
      end
  end.
End Tables.

(** ** What the filters match *)

(** The engine's reading of a filter: all conditions hold, on the outbound
    connections of its layer.  [app_blob] is the id of the file that a name stands
    for; a connection carries the id of its process's image. *)
Section Matching.
Context (app_blob : str -> bytes).

Definition layer_of (ip : IpAddr) : WfpLayer :=
  match ip with V4 _ => AleAuthConnectV4 | V6 _ => AleAuthConnectV6 end.
Definition condition_holds (conn : Connection) (c : NativeCondition) : bool :=
  match c, remote_ip conn with
  | NAppId blob, _ => bool_decide (blob = app_blob (app_path conn))
  | NV4 a mask, V4 x => Z.land x mask =? Z.land a mask
  | NV6 octets len, V6 x => x / 2 ^ (128 - len) =? from_be_bytes octets / 2 ^ (128 - len)
  | NPort p, _ => remote_port conn =? p
  | _, _ => false
  end.
Definition filter_matches (conn : Connection) (f : NativeFilter) : bool :=
  match direction conn with Outbound => true | Inbound => false end &&
  (nf_layer f =? layer_guid (layer_of (remote_ip conn))) && forallb (condition_holds conn) (nf_conditions f).

(** The filter a specification becomes when every call succeeds. *)
Definition native_pure (c : WfpCondition) : NativeCondition :=
  match c with
  | AppId path => NAppId (app_blob path)
  | RemoteAddress cidr =>
      match base cidr with
      | V4 v4 => NV4 v4 (v4_mask (prefix cidr))
      | V6 v6 => NV6 (rev (to_le_bytes 16 v6)) (prefix cidr)
      end
  | RemotePort port => NPort port
  end.
Definition native_of (spec : WfpFilterSpec) : NativeFilter :=
  native_filter spec (spec_action spec) (map native_pure (conditions spec)).

Definition cidr_ok (c : Cidr) : Prop := 0 <= prefix c <= addr_width (base c) /\ ip_ok (base c).

Lemma v4_mask_prefix p : v4_mask p = prefix_mask 32 p.
Proof. done. Qed.

Lemma address_condition c conn :
  cidr_ok c -> ip_ok (remote_ip conn) ->
  bool_decide (layer_of (remote_ip conn) = if is_v4 c then AleAuthConnectV4 else AleAuthConnectV6)
    && condition_holds conn (native_pure (RemoteAddress c)) = cidr_contains c (remote_ip conn).
Proof.
  destruct c as [[b|b] p]; unfold cidr_ok, ip_ok, cidr_contains, is_v4; cbn [base prefix native_pure];
    destruct conn as [a ip port dir]; cbn [condition_holds remote_ip];
    destruct ip as [x|x]; cbn [addr_width ip_bits layer_of]; intros [Hp Hb] Hx; try done.
  - rewrite v4_mask_prefix. cbn. apply Z.eqb_sym.
  - change (128 =? 0) with false. rewrite land_mask_eq by lia. unfold from_be_bytes. rewrite rev_involutive.
    rewrite from_to_le_bytes by (change (256 ^ Z.of_nat 16) with (2 ^ 128); lia). cbn. apply Z.eqb_sym.
Qed.

Lemma layer_guid_eqb a b : (layer_guid a =? layer_guid b) = bool_decide (a = b).
Proof. by destruct a, b. Qed.

(** What a rule asks of the address and the port. *)
Definition address_test (r : NetRule) (conn : Connection) : bool :=
  match rule_cidr r with Some c => cidr_contains c (remote_ip conn) | None => true end
  && match rule_port r with Some p => remote_port conn =? p | None => true end.
(** What installing a rule enforces: its tests, on outbound connections only, with
    the application as the file that the rule's text names. *)
Definition enforced_on (r : NetRule) (conn : Connection) : bool :=
  match direction conn with Outbound => true | Inbound => false end
  && match rule_app r with Some app => bool_decide (app_blob app = app_blob (app_path conn)) | None => true end
  && address_test r conn.

Lemma rule_filters r conn :
  (forall c, rule_cidr r = Some c -> cidr_ok c) -> ip_ok (remote_ip conn) ->
  existsb (filter_matches conn) (map native_of (plan_filters r)) = enforced_on r conn.
Proof.
  intros Hc Hip. unfold plan_filters, layers_for, filter_matches, native_of, plan_filter, conditions_of, enforced_on,
    address_test. destruct (direction conn); cbn [andb]; [|by destruct (rule_cidr r) as [c|]; [destruct (is_v4 c)|]].
  destruct (rule_cidr r) as [c|].
  - rewrite <- (address_condition c conn) by eauto.
    destruct (is_v4 c); cbn [map existsb native_filter nf_layer nf_conditions spec_layer conditions];
      rewrite layer_guid_eqb, orb_false_r, (bool_decide_ext _ (layer_of (remote_ip conn) = _)) by done;
      destruct (bool_decide (layer_of _ = _)); cbn [andb]; rewrite ?andb_false_r; try done;
      destruct (rule_app r), (rule_port r); cbn [app map forallb]; rewrite ?andb_true_r; done.
  - cbn [map existsb native_filter nf_layer nf_conditions spec_layer conditions app].
    rewrite !layer_guid_eqb, orb_false_r. destruct (remote_ip conn); cbn [layer_of];
      rewrite ?(bool_decide_eq_true_2 (AleAuthConnectV4 = _)), ?(bool_decide_eq_true_2 (AleAuthConnectV6 = _)),
        ?(bool_decide_eq_false_2 (AleAuthConnectV4 = _)), ?(bool_decide_eq_false_2 (AleAuthConnectV6 = _)) by done;
      cbn [andb orb]; rewrite ?orb_false_r;
      destruct (rule_app r), (rule_port r); cbn [app map forallb native_pure condition_holds];
      rewrite ?andb_true_r; done.
Qed.

(** The rules that configuration makes have a parsed prefix and a condition. *)
Lemma to_net_rule_ok rc r :
  to_net_rule rc = Some r ->
  (forall c, rule_cidr r = Some c -> cidr_ok c) /\
  bool_decide (rule_app r = None) && bool_decide (rule_cidr r = None) && bool_decide (rule_port r = None) = false.
Proof.
  unfold to_net_rule. intros (mc & Hc & H)%bind_Some. destruct (_ && _) eqn:He in H; [done|].
  injection H as <-. cbn [rule_cidr rule_app rule_port]. split; [|done].
  intros c ->. destruct (nr_cidr rc) as [s|]; [|done].
  apply bind_Some in Hc as (c' & Hp & [= <-]). by apply cidr_parse_ok in Hp.
Qed.

(** The decision engine's test of such a rule: its application by the text. *)
Lemma rule_matches_tests rc r conn :
  to_net_rule rc = Some r ->
  rule_matches r conn = match rule_app r with Some app => app_matches (app_path conn) app | None => true end
                        && address_test r conn.
Proof.
  intros (_ & Hne)%to_net_rule_ok. unfold rule_matches, address_test. by rewrite Hne, andb_true_r, andb_assoc.
Qed.

Lemma app_matches_path app_path app :
  app <> [] -> lower_backslash app = lower_backslash app_path -> app_matches app_path app = true.
Proof.
  intros Hne He. unfold app_matches. rewrite <- He. destruct app as [|c app]; [done|]. cbn [lower_backslash map str_is_empty].
  by rewrite bool_decide_eq_true_2.
Qed.

Lemma plan_filters_action r f :
  f ∈ map native_of (plan_filters r) -> nf_action f = action_of (rule_action r).
Proof.
  unfold plan_filters. rewrite map_map. intros (l & -> & _)%list_elem_of_fmap. done.
Qed.

Lemma decide_net_rules_agree rules conn a :
  (forall r, r ∈ rules -> rule_matches r conn = true -> rule_action r = a) ->
  (forall d, decide_net_rules rules conn = Some d -> is_block d = bool_decide (a = RuleBlock)) /\
  (decide_net_rules rules conn = None <-> forall r, r ∈ rules -> rule_matches r conn = false).
Proof.
  intros Ha. induction rules as [|r rules IH]; cbn [decide_net_rules].
  { split; [done|]. split; [|done]. intros _ r Hr. by apply not_elem_of_nil in Hr. }
  destruct IH as [IH1 IH2]; [intros r' Hr'; apply Ha; by right|].
  destruct (rule_matches r conn) eqn:Hm.
  - split.
    + intros d [= <-]. rewrite <- (Ha r) by (done || by left). by destruct (rule_action r).
    + split; [done|]. intros H. specialize (H r). rewrite Hm in H. by discriminate H; left.
  - split; [done|]. rewrite IH2. split.
    + intros H r' [->|Hr']%elem_of_cons; [done|by apply H].
    + intros H r' Hr'. apply H. by right.
Qed.
End Matching.

Definition rule_specs (policy : NetPolicy) : list WfpFilterSpec :=
  concat (map plan_filters (net_rules policy)).

Lemma existsb_flat_map {A B C} (p : C -> bool) (f : B -> C) (g : A -> list B) l :
  existsb p (map f (concat (map g l))) = existsb (fun a => existsb p (map f (g a))) l.
Proof.
  induction l as [|a l IH]; cbn [map concat existsb]; [done|]. by rewrite map_app, existsb_app, IH.
Qed.

(** C15: The filters installed for a configuration, against its rules.  A connection
    matches some installed filter exactly when it is outbound and some rule's
    address, port and application tests hold, the application being the file that
    the rule's text names (prefix by prefix, IPv4 mask and IPv6 length alike, on
    the right layer).  For an outbound connection that is the decision engine's own
    test of a rule without an application, and of one that gives the image's path,
    names of files being compared without case and with either slash; a rule that
    names the image only by its end is not enforced on it
    ([suffix_rule_not_enforced]).  When the rules that match or are enforced
    agree on their action, every matching filter has that action, and it is what
    the decision engine decides where some rule matches. *)
Theorem installed_filters_follow_rules app_blob nf m conn :
  ip_ok (remote_ip conn) ->
  (forall p q, lower_backslash p = lower_backslash q -> app_blob p = app_blob q) ->
  let policy := build_policy nf m in
  let filters := map (native_of app_blob) (rule_specs policy) in
  existsb (filter_matches app_blob conn) filters =
    existsb (fun r => enforced_on app_blob r conn) (net_rules policy) /\
  (forall r, r ∈ net_rules policy -> direction conn = Outbound ->
     (forall app, rule_app r = Some app -> app <> [] /\ lower_backslash app = lower_backslash (app_path conn)) ->
     enforced_on app_blob r conn = rule_matches r conn) /\
  (direction conn = Inbound -> existsb (filter_matches app_blob conn) filters = false) /\
  (forall a, (forall r, r ∈ net_rules policy -> rule_matches r conn || enforced_on app_blob r conn = true ->
                rule_action r = a) ->
     (forall f, f ∈ filters -> filter_matches app_blob conn f = true -> nf_action f = action_of a) /\
     (existsb (fun r => rule_matches r conn) (net_rules policy) = true ->
        is_block (decide_net policy conn) = bool_decide (action_of a = WfpBlock))).
Proof.
  intros Hip Hnames policy filters.
  assert (forall r, r ∈ net_rules policy ->
    existsb (filter_matches app_blob conn) (map (native_of app_blob) (plan_filters r)) = enforced_on app_blob r conn) as Hr.
  { intros r (rc & _ & Hrc)%list_elem_of_omap. apply to_net_rule_ok in Hrc as [Hc _]. by apply rule_filters. }
  assert (existsb (filter_matches app_blob conn) filters =
    existsb (fun r => enforced_on app_blob r conn) (net_rules policy)) as Hall.
  { subst filters. unfold rule_specs. rewrite existsb_flat_map. clear -Hr.
    induction (net_rules policy) as [|r rs IH]; [done|].
    cbn [existsb]. rewrite Hr by left. rewrite IH; [done|]. intros r' Hr'. apply Hr. by right. }
  split; [exact Hall|]. split; [|split; [|intros a Ha; split]].
  - intros r (rc & _ & Hrc)%list_elem_of_omap Hout Happ. rewrite (rule_matches_tests rc) by done.
    unfold enforced_on. rewrite Hout. cbn [andb]. destruct (rule_app r) as [app|]; [|done].
    destruct (Happ app eq_refl) as [Hne He]. by rewrite bool_decide_eq_true_2, app_matches_path by auto.
  - intros Hin. rewrite Hall. clear -Hin. unfold enforced_on. rewrite Hin. by induction (net_rules policy).
  - intros f (spec & -> & Hs)%list_elem_of_fmap Hf.
    apply list_elem_of_In, in_concat in Hs as (l & (r & <- & Hin)%in_map_iff & Hs).
    apply list_elem_of_In in Hs, Hin.
    assert (native_of app_blob spec ∈ map (native_of app_blob) (plan_filters r)) as Hn
      by (by apply list_elem_of_fmap_2).
    rewrite (plan_filters_action _ _ _ Hn). f_equal. apply Ha; [done|]. apply orb_true_iff. right. rewrite <- Hr by done.
    apply existsb_exists. exists (native_of app_blob spec). split; [by apply list_elem_of_In|done].
  - intros Hex. destruct (decide_net_rules_agree (net_rules policy) conn a) as [H1 H2].
    { intros r Hin Hm. apply Ha; [done|]. by rewrite Hm. }
    unfold decide_net. destruct (decide_net_rules (net_rules policy) conn) as [d|] eqn:Hd.
    + rewrite (H1 d eq_refl). by destruct a.
    + apply existsb_exists in Hex as (r & Hin%list_elem_of_In & Hm).
      by rewrite (proj1 H2 eq_refl r Hin) in Hm.
Qed.

(** A prefix rule and one on an executable, both blocking. *)
Definition sample_netfilter : NetfilterConfig :=
  {| net_mode := Blocklist; net_channel_label := lit "network"; remote_tool_action := BlockNetwork;
     remote_tool_overrides := {[ lit "anydesk" := Kill ]}; persist := false;
     net_rule_configs :=
       [{| nr_app := None; nr_cidr := Some (lit "203.0.113.0/24"); nr_port := Some 443;
           nr_action := RuleBlock; nr_note := None |};
        {| nr_app := Some (lit "c:\tools\sync.exe"); nr_cidr := None; nr_port := None;
           nr_action := RuleBlock; nr_note := Some (lit "sync") |}] |}.
Definition sample_conn : Connection :=
  {| app_path := lit "C:\Tools\Sync.exe"; remote_ip := V4 (203 * 2 ^ 24 + 113 * 2 ^ 8 + 9);
     remote_port := 443; direction := Outbound |}.
Lemma installed_filters_follow_rules_witness :
  let policy := build_policy sample_netfilter Blocklist in
  existsb (filter_matches lower_backslash sample_conn) (map (native_of lower_backslash) (rule_specs policy)) = true.
Proof.
  intros policy.
  destruct (installed_filters_follow_rules lower_backslash sample_netfilter Blocklist sample_conn) as [H _].
  - unfold ip_ok. cbn. lia.
  - done.
  - subst policy; rewrite H. vm_compute. reflexivity.
Defined.

(** A block rule given by a base name, as the configuration allows: the decision
    engine blocks the connection, while the filter is on another file, and where
    that file does not exist ([GetAppId] fails) the installation is undone. *)
Definition base_name_netfilter : NetfilterConfig :=
  {| net_mode := Blocklist; net_channel_label := lit "network"; remote_tool_action := BlockNetwork;
     remote_tool_overrides := ∅; persist := false;
     net_rule_configs := [{| nr_app := Some (lit "sync.exe"); nr_cidr := None; nr_port := None;
                             nr_action := RuleBlock; nr_note := None |}] |}.
Example suffix_rule_not_enforced :
  let policy := build_policy base_name_netfilter Blocklist in
  is_block (decide_net policy sample_conn) = true /\
  existsb (filter_matches lower_backslash sample_conn) (map (native_of lower_backslash) (rule_specs policy)) = false /\
  let rc h c := match c with GetAppId _ => 2 | _ => 0 end in
  let '(r, calls) := execute_live rc lower_backslash (rule_specs policy) [] in
  last calls = Some TransactionAbort /\ exists e, r = Err e.
Proof. split; [reflexivity|]. split; [reflexivity|]. vm_compute. eauto. Qed.

(** What is decided by default has no filter: in allowlist mode an unmatched
    connection is decided to be blocked, and nothing installed matches it. *)
Lemma default_deny_not_installed app_blob nf conn :
  ip_ok (remote_ip conn) ->
  let policy := build_policy nf Allowlist in
  existsb (fun r => rule_matches r conn || enforced_on app_blob r conn) (net_rules policy) = false ->
  is_block (decide_net policy conn) = true /\
  existsb (filter_matches app_blob conn) (map (native_of app_blob) (rule_specs policy)) = false.
Proof.
  intros Hip policy Hno. split.
  - unfold decide_net. assert (decide_net_rules (net_rules policy) conn = None) as ->.
    { induction (net_rules policy) as [|r rs IH]; [done|]. cbn [existsb] in Hno.
      apply orb_false_iff in Hno as [[Hr _]%orb_false_iff Hrs]. cbn [decide_net_rules]. rewrite Hr. by apply IH. }
    destruct (match_app _ _) as [mt|]; [destruct (match_action mt)|]; done.
  - apply not_true_iff_false. intros H. unfold rule_specs in H. rewrite existsb_flat_map in H.
    apply existsb_exists in H as (r & Hin & Hf). assert (r ∈ net_rules policy) as Hr by (by apply list_elem_of_In).
    apply list_elem_of_omap in Hr as (rc & _ & Hrc). apply to_net_rule_ok in Hrc as [Hc _].
    rewrite rule_filters in Hf by done.
    apply not_true_iff_false in Hno. apply Hno, existsb_exists. exists r. split; [done|]. rewrite Hf. apply orb_true_r.
Qed.

(** ** Installation is a transaction *)

Section Transaction.
Context (rc : list WfpCall -> WfpCall -> Z) (app_blob : str -> bytes).

Definition adds (t : list WfpCall) : list NativeFilter :=
  omap (fun c => match c with FilterAdd f => Some f | _ => None end) t.
(** Every call of [t], made after [h], succeeded. *)
Fixpoint all_succeed (h t : list WfpCall) : Prop :=
  match t with [] => True | c :: t' => rc h c = ERROR_OK /\ all_succeed (h ++ [c]) t' end.

Lemma all_succeed_app h t t' : all_succeed h t -> all_succeed (h ++ t) t' -> all_succeed h (t ++ t').
Proof.
  revert h. induction t as [|c t IH]; intros h; cbn [app all_succeed]; [by rewrite app_nil_r|].
  intros [Hc Ht] Ht'. split; [done|]. apply IH; [done|]. by rewrite <- app_assoc.
Qed.

Lemma adds_app t t' : adds (t ++ t') = adds t ++ adds t'.
Proof. apply omap_app. Qed.

(** What a step of the installation adds to the calls: no commit, no abort, and on
    success only accepted calls, with the filters [fs]. *)
Definition quiet (t : list WfpCall) : Prop := TransactionCommit ∉ t /\ TransactionAbort ∉ t.
Lemma quiet_app t t' : quiet t -> quiet t' -> quiet (t ++ t').
Proof. intros [] []. split; rewrite elem_of_app; tauto. Qed.
Lemma quiet_nil : quiet [].
Proof. split; apply not_elem_of_nil. Qed.

Lemma native_condition_spec c h :
  exists t, quiet t /\ adds t = [] /\
    ((native_condition rc app_blob c h = (Ok (native_pure app_blob c), h ++ t) /\ all_succeed h t) \/
     (exists e, native_condition rc app_blob c h = (Err e, h ++ t))).
Proof.
  destruct c as [p|c|p]; cbn [native_condition native_pure].
  - exists [GetAppId p]. split; [split; rewrite list_elem_of_singleton; done|]. split; [done|].
    unfold wfp_bind, call. destruct (Z.eqb_spec (rc h (GetAppId p)) ERROR_OK); [left; cbn; auto|].
    right. by eexists.
  - exists []. split; [apply quiet_nil|]. split; [done|]. left. rewrite app_nil_r. by destruct (base c).
  - exists []. split; [apply quiet_nil|]. split; [done|]. left. by rewrite app_nil_r.
Qed.

Lemma native_conditions_spec cs h :
  exists t, quiet t /\ adds t = [] /\
    ((native_conditions rc app_blob cs h = (Ok (map (native_pure app_blob) cs), h ++ t) /\ all_succeed h t) \/
     (exists e, native_conditions rc app_blob cs h = (Err e, h ++ t))).
Proof.
  revert h. induction cs as [|c cs IH]; intros h; cbn [native_conditions map].
  { exists []. split; [apply quiet_nil|]. split; [done|]. left. by rewrite app_nil_r. }
  destruct (native_condition_spec c h) as (t & Hq & Ha & [[Hc Hs]|(e & Hc)]).
  - destruct (IH (h ++ t)) as (t' & Hq' & Ha' & H). exists (t ++ t').
    split; [by apply quiet_app|]. split; [by rewrite adds_app, Ha, Ha'|].
    unfold wfp_bind at 1 3. rewrite Hc. unfold wfp_bind. rewrite app_assoc.
    destruct H as [[-> Hs']|(e & ->)]; [left; split; [done|by apply all_succeed_app]|right; by eexists].
  - exists t. split; [done|]. split; [done|]. right. exists e. unfold wfp_bind. by rewrite Hc.
Qed.

Lemma add_one_filter_spec spec h :
  exists t, quiet t /\
    ((add_one_filter rc app_blob spec (spec_action spec) h = (Ok tt, h ++ t) /\
      all_succeed h t /\ adds t = [native_of app_blob spec]) \/
     (exists e, add_one_filter rc app_blob spec (spec_action spec) h = (Err e, h ++ t))).
Proof.
  destruct (native_conditions_spec (conditions spec) h) as (t & Hq & Ha & H). unfold add_one_filter.
  destruct H as [[Hc Hs]|(e & Hc)]; [|exists t; split; [done|]; right; exists e; unfold wfp_bind; by rewrite Hc].
  exists (t ++ [FilterAdd (native_of app_blob spec)]). split.
  { apply quiet_app; [done|]. split; rewrite list_elem_of_singleton; done. }
  unfold wfp_bind at 1 3, wfp_bind. rewrite Hc. unfold call. fold (native_of app_blob spec).
  rewrite (app_assoc h t). destruct (Z.eqb_spec (rc (h ++ t) (FilterAdd (native_of app_blob spec))) ERROR_OK).
  - left. split; [done|]. split; [|by rewrite adds_app, Ha]. apply all_succeed_app; [done|]. by split.
  - right. by eexists.
Qed.

Lemma add_filters_spec specs n h :
  exists t,
    (quiet t /\ add_filters rc app_blob specs n h = (Ok (n + Z.of_nat (length specs)), h ++ t) /\
     all_succeed h t /\ adds t = map (native_of app_blob) specs) \/
    (TransactionCommit ∉ t /\ last t = Some TransactionAbort /\
     exists e, add_filters rc app_blob specs n h = (Err e, h ++ t)).
Proof.
  revert n h. induction specs as [|spec specs IH]; intros n h; cbn [add_filters map length].
  { exists []. left. split; [apply quiet_nil|]. rewrite app_nil_r, Z.add_0_r. by split. }
  destruct (add_one_filter_spec spec h) as (t & Hq & [(-> & Hs & Ha)|(e & ->)]).
  - destruct (IH (n + 1) (h ++ t)) as (t' & H). exists (t ++ t').
    destruct H as [(Hq' & -> & Hs' & Ha')|(Hc & Hl & e & ->)]; [left|right].
    + split; [by apply quiet_app|]. rewrite app_assoc. split; [f_equal; f_equal; lia|].
      split; [by apply all_succeed_app|]. by rewrite adds_app, Ha, Ha'.
    + split; [rewrite elem_of_app; destruct Hq; tauto|]. split; [by rewrite last_app, Hl|].
      exists e. by rewrite app_assoc.
  - exists (t ++ [TransactionAbort]). right. split; [|split].
    + rewrite elem_of_app, list_elem_of_singleton. destruct Hq. naive_solver.
    + apply last_snoc.
    + exists e. unfold wfp_bind, call. by rewrite app_assoc.
Qed.
End Transaction.

Definition preamble : list WfpCall :=
  [EngineOpen; ProviderAdd DLP_PROVIDER_GUID; SubLayerAdd DLP_SUBLAYER_GUID DLP_PROVIDER_GUID 0x8000;
   TransactionBegin].

(** The call [c] was made and accepted. *)
Definition accepted (rc : list WfpCall -> WfpCall -> Z) (c : WfpCall) (t : list WfpCall) : Prop :=
  exists h rest, t = h ++ c :: rest /\ rc h c = ERROR_OK.

Lemma accepted_snoc rc c t0 d :
  accepted rc c (t0 ++ [d]) -> accepted rc c t0 \/ (d = c /\ rc t0 c = ERROR_OK).
Proof.
  intros (h & rest & Heq & Hr). destruct rest as [|x rest'] using rev_ind.
  - apply app_inj_tail in Heq as [-> ->]. by right.
  - clear IHrest'. rewrite app_comm_cons, app_assoc in Heq. apply app_inj_tail in Heq as [-> _].
    left. by exists h, rest'.
Qed.

Lemma not_accepted rc c t : c ∉ t -> ~ accepted rc c t.
Proof. intros Hn (h & rest & -> & _). apply Hn. rewrite elem_of_app. right. by left. Qed.

Lemma preamble_no_commit : TransactionCommit ∉ preamble.
Proof. unfold preamble. rewrite !elem_of_cons, elem_of_nil. naive_solver. Qed.
Lemma preamble_begin_last : TransactionBegin ∉ take 3 preamble.
Proof. cbn. rewrite !elem_of_cons, elem_of_nil. naive_solver. Qed.

(** C16: Live installation is all or nothing, whatever the engine answers: it
    reports success only after one transaction in which the filters of all the
    specifications, and no others, were added in order and committed, every call
    of it accepted; when it fails, no commit was accepted, and a transaction that
    was begun is the last thing aborted. *)
Theorem install_is_transactional rc app_blob specs :
  match execute_live rc app_blob specs [] with
  | (Ok n, t) =>
      n = Z.of_nat (length specs) /\
      exists body, t = preamble ++ body ++ [TransactionCommit] /\
        all_succeed rc (take 3 preamble) ([TransactionBegin] ++ body ++ [TransactionCommit]) /\
        adds body = map (native_of app_blob) specs
  | (Err _, t) =>
      ~ accepted rc TransactionCommit t /\
      (accepted rc TransactionBegin t -> last t = Some TransactionAbort)
  end.
Proof.
  assert (forall t, TransactionCommit ∉ t -> TransactionBegin ∉ t ->
    ~ accepted rc TransactionCommit t /\ (accepted rc TransactionBegin t -> last t = Some TransactionAbort))
    as Hnone by (intros t H1 H2; split; [by apply not_accepted|intros H; by apply not_accepted in H]).
  unfold execute_live. unfold wfp_bind at 1, call at 1. cbn [app].
  destruct (Z.eqb_spec (rc [] EngineOpen) ERROR_OK) as [H1|H1]; cbn [negb].
  2: { apply Hnone; rewrite list_elem_of_singleton; done. }
  unfold wfp_bind at 1, call at 1. cbn [app].
  destruct (negb (rc [EngineOpen] _ =? ERROR_OK) && _) eqn:H2.
  { apply Hnone; rewrite !elem_of_cons, elem_of_nil; naive_solver. }
  unfold wfp_bind at 1, call at 1. cbn [app].
  destruct (negb (rc [EngineOpen; _] _ =? ERROR_OK) && _) eqn:H3.
  { apply Hnone; rewrite !elem_of_cons, elem_of_nil; naive_solver. }
  unfold wfp_bind at 1, call at 1. cbn [app]. fold preamble.
  change [EngineOpen; _; _] with (take 3 preamble).
  destruct (Z.eqb_spec (rc (take 3 preamble) TransactionBegin) ERROR_OK) as [H4|H4]; cbn [negb].
  2: { change preamble with (take 3 preamble ++ [TransactionBegin]). split.
       - apply not_accepted, preamble_no_commit.
       - intros [H|[_ H]]%accepted_snoc; [|done]. apply not_accepted in H; [done|apply preamble_begin_last]. }
  unfold wfp_bind at 1.
  destruct (add_filters_spec rc app_blob specs 0 preamble) as (t & [(Hq & -> & Hs & Ha)|(Hc & Hl & e & ->)]).
  - unfold wfp_bind, call. rewrite <- app_assoc.
    destruct (Z.eqb_spec (rc (preamble ++ t) TransactionCommit) ERROR_OK) as [H5|H5]; cbn [negb wfp_ret wfp_bail].
    + split; [lia|]. exists t. split; [done|]. split; [|done]. cbn [app all_succeed]. split; [done|].
      apply all_succeed_app; [exact Hs|]. by split.
    + split.
      * rewrite app_assoc. intros [H|[H _]]%accepted_snoc; [|done].
        apply accepted_snoc in H as [H|[_ H]]; [|done].
        apply not_accepted in H; [done|]. rewrite elem_of_app.
        pose proof preamble_no_commit. destruct Hq. tauto.
      * intros _. by rewrite app_assoc, last_snoc.
  - split; [|intros _; by rewrite last_app, Hl].
    apply not_accepted. rewrite elem_of_app. pose proof preamble_no_commit. tauto.
Qed.

(** The engine answers zero, but knows no file of that name. *)
Definition no_such_file (h : list WfpCall) (c : WfpCall) : Z :=
  match c with GetAppId _ => 0x80070002 | _ => 0 end.

Lemma install_is_transactional_witness :
  (execute_live no_such_file lower_backslash
     (plan_tool_block (lit "anydesk.exe") DEFAULT_WEIGHT) []).1 =
    Err (lit "FwpmGetAppIdFromFileName0(anydesk.exe) failed: 0x80070002") /\
  last (execute_live no_such_file lower_backslash
          (plan_tool_block (lit "anydesk.exe") DEFAULT_WEIGHT) []).2 = Some TransactionAbort.
Proof.
  pose proof (install_is_transactional no_such_file lower_backslash
    (plan_tool_block (lit "anydesk.exe") DEFAULT_WEIGHT)) as H.
  split; [vm_compute; reflexivity|].
  destruct (execute_live _ _ _ []) as [[n|e] t] eqn:He; [vm_compute in He; discriminate He|].
  apply H. exists (take 3 preamble), (drop 4 t). vm_compute in He. injection He as _ <-.
  split; vm_compute; reflexivity.
Defined.

(** ** What the monitor does *)

(** The images reported and the images blocked, in order. *)
Definition reported (evs : list NetEvent) : list str :=
  omap (fun e => match e with NetReport inc => Some (product_name (device inc)) | _ => None end) evs.
Definition blocked_app (e : NetEvent) : option str :=
  match e with
  | NetInstall (s :: _) => match conditions s with [AppId p] => Some p | _ => None end
  | _ => None
  end.
Definition blocked_images (evs : list NetEvent) : list str := omap blocked_app evs.

Section Monitoring.
Context (policy : NetPolicy) (channel : str).

Definition blocks (image : str) : bool :=
  enforcing (mode policy) && is_block (decide_net policy (unspecified_conn image)).
Definition kills (image : str) : bool :=
  blocks image && match match_app (remote_tools policy) image with
                  | Some m => bool_decide (match_action m = Kill)
                  | None => false
                  end.

Lemma see_process_spec st pid image evs st' :
  see_process policy channel st pid image = (evs, st') ->
  reported evs = (if bool_decide (image ∈ seen_tools st) then [] else [image]) /\
  seen_tools st' = {[ image ]} ∪ seen_tools st /\
  blocked_images evs = (if blocks image && negb (bool_decide (image ∈ blocked_paths st)) then [image] else []) /\
  blocked_paths st' = (if blocks image then {[ image ]} ∪ blocked_paths st else blocked_paths st) /\
  (forall p, NetTerminate p ∈ evs -> p = pid /\ kills image = true).
Proof.
  unfold see_process, kills. fold (blocks image). intros H.
  case_bool_decide as Hs; destruct (blocks image) eqn:Hb; cbn [andb] in *;
    try (case_bool_decide as Hp; cbn [negb] in H |- * );
    injection H as <- <-; cbn [seen_tools blocked_paths app];
    (split; [cbn; rewrite ?omap_app; by repeat case_match|]);
    (split; [set_solver|]);
    (split; [cbn; by repeat case_match|]); (split; [set_solver|]); intros p Hin;
    repeat case_match; repeat (apply elem_of_cons in Hin as [Hin|Hin]); simplify_eq;
    try (by apply not_elem_of_nil in Hin); done.
Qed.

Lemma reported_app a b : reported (a ++ b) = reported a ++ reported b.
Proof. apply omap_app. Qed.
Lemma blocked_images_app a b : blocked_images (a ++ b) = blocked_images a ++ blocked_images b.
Proof. apply omap_app. Qed.

(** Each image of [ps] outside the sets, once. *)
Lemma see_processes_spec ps st evs st' :
  see_processes policy channel st ps = (evs, st') ->
  (NoDup (reported evs) /\ forall i, i ∈ reported evs <-> i ∈ ps.*2 /\ i ∉ seen_tools st) /\
  (NoDup (blocked_images evs) /\
   forall i, i ∈ blocked_images evs <-> i ∈ ps.*2 /\ blocks i = true /\ i ∉ blocked_paths st) /\
  (forall p, NetTerminate p ∈ evs -> exists image, (p, image) ∈ ps /\ kills image = true).
Proof.
  revert st evs st'. induction ps as [|[pid image] ps IH]; intros st evs st'; cbn [see_processes fmap list_fmap snd].
  { intros [= <- <-]. change (reported []) with (@nil str). change (blocked_images []) with (@nil str).
    repeat split; try apply NoDup_nil_2; intros; rewrite ?elem_of_nil in *; naive_solver. }
  destruct (see_process _ _ _ _ _) as [e1 st1] eqn:H1. destruct (see_processes _ _ st1 ps) as [e2 st2] eqn:H2.
  intros [= <- <-]. apply see_process_spec in H1 as (Hr1 & Hs1 & Hb1 & Hp1 & Ht1).
  apply IH in H2 as ((Hn & Hr) & (Hm & Hb) & Ht). rewrite Hs1 in Hr. rewrite Hp1 in Hb.
  rewrite reported_app, blocked_images_app, Hr1, Hb1. clear Hr1 Hb1. split; [|split].
  - case_bool_decide as Hin; cbn [app].
    + split; [done|]. intros i. rewrite Hr, elem_of_cons. set_solver.
    + split; [constructor; [rewrite Hr; set_solver|done]|]. intros i. rewrite !elem_of_cons, Hr.
      destruct (base.decide (i = image)); set_solver.
  - clear -Hm Hb. destruct (blocks image) eqn:Hbi; cbn [andb].
    + setoid_rewrite not_elem_of_union in Hb. setoid_rewrite elem_of_singleton in Hb.
      case_bool_decide as Hin; cbn [negb app].
      * split; [done|]. intros i. rewrite Hb, elem_of_cons.
        destruct (base.decide (i = image)) as [->|]; intuition congruence.
      * split; [constructor; [rewrite Hb; tauto|done]|]. intros i. rewrite !elem_of_cons, Hb.
        destruct (base.decide (i = image)) as [->|]; intuition congruence.
    + cbn [app]. split; [done|]. intros i. rewrite Hb, elem_of_cons. intuition congruence.
  - intros p [Hp|Hp]%elem_of_app.
    + apply Ht1 in Hp as [-> Hk]. exists image. split; [by left|done].
    + destruct (Ht p Hp) as (im & Hin & Hk). exists im. split; [by right|done].
Qed.

Lemma monitor_polls_concat polls st :
  monitor_polls policy channel st polls = see_processes policy channel st (concat polls).
Proof.
  assert (forall a b st, see_processes policy channel st (a ++ b) =
    let '(e1, st1) := see_processes policy channel st a in
    let '(e2, st2) := see_processes policy channel st1 b in (e1 ++ e2, st2)) as Happ.
  { induction a as [|[pid im] a IHa]; intros b st0; cbn [app see_processes].
    - by destruct (see_processes _ _ st0 b).
    - destruct (see_process _ _ _ _ _) as [e1 st1]. rewrite IHa.
      destruct (see_processes _ _ st1 a) as [e2 st2]. destruct (see_processes _ _ st2 b) as [e3 st3].
      by rewrite app_assoc. }
  revert st. induction polls as [|ps polls IH]; intros st; cbn [monitor_polls concat]; [done|].
  rewrite Happ. destruct (see_processes policy channel st ps) as [e st1]. by rewrite IH.
Qed.
End Monitoring.

(** C29: Over any polls the monitor reports every remote-tool image it sees exactly
    once, and installs its block exactly once when, and only when, it enforces
    and the decision for the image is to block; it terminates only processes
    whose image is blocked with the configured action [Kill].  So in monitor mode
    it installs and terminates nothing. *)
Theorem monitor_acts_once nf m polls :
  let policy := build_policy nf m in
  let evs := (monitor_polls policy (net_channel_label nf) {| seen_tools := ∅; blocked_paths := ∅ |} polls).1 in
  let images := (concat polls).*2 in
  (NoDup (reported evs) /\ forall i, i ∈ reported evs <-> i ∈ images) /\
  (NoDup (blocked_images evs) /\
   forall i, i ∈ blocked_images evs <-> i ∈ images /\ m <> Monitor /\
     is_block (decide_net policy (unspecified_conn i)) = true) /\
  (forall pid, NetTerminate pid ∈ evs -> exists image mt, (pid, image) ∈ concat polls /\ m <> Monitor /\
     is_block (decide_net policy (unspecified_conn image)) = true /\
     match_app (remote_tools policy) image = Some mt /\ match_action mt = Kill).
Proof.
  intros policy evs images.
  destruct (monitor_polls policy (net_channel_label nf) {| seen_tools := ∅; blocked_paths := ∅ |} polls)
    as [e st] eqn:He. subst evs. cbn [fst]. rewrite monitor_polls_concat in He.
  apply see_processes_spec in He as ((Hn & Hr) & (Hm & Hb) & Ht). cbn [seen_tools blocked_paths] in *.
  assert (forall i, blocks policy i = true <-> m <> Monitor /\
    is_block (decide_net policy (unspecified_conn i)) = true) as Hbl.
  { intros i. unfold blocks, enforcing. rewrite andb_true_iff. cbn [mode build_policy policy].
    destruct m; naive_solver. }
  split; [split; [done|]|split; [split; [done|]|]].
  - intros i. rewrite Hr. set_solver.
  - intros i. rewrite Hb, Hbl. set_solver.
  - intros pid (image & Hin & Hk)%Ht. unfold kills in Hk. apply andb_true_iff in Hk as [Hk1 Hk2].
    apply Hbl in Hk1. destruct (match_app _ image) as [mt|] eqn:Hmt; [|done]. bool_hyps.
    exists image, mt. naive_solver.
Qed.

(** Only the first process of an image is terminated: not a second one of the
    same poll, nor one started later. *)
Example second_instance_survives :
  let any := lit "C:\AnyDesk\AnyDesk.exe" in
  map (fun e => match e with NetTerminate p => p | _ => 0 end)
    (List.filter (fun e => match e with NetTerminate _ => true | _ => false end)
      (net_monitor sample_netfilter Blocklist [[(4, any); (8, any)]; [(12, any)]])) = [4].
Proof. vm_compute. reflexivity. Qed.

(** ** What a reset touches *)

Section Reset.
Context (set_tcp_entry : SetRow -> Z).

Definition taken_rows (sent : list SetRow) : Z :=
  Z.of_nat (length (List.filter (fun r => set_tcp_entry r =? 0) sent)).

Lemma reset_rows_spec rows pid :
  let chosen := List.filter (fun raw => row_selected (row_of raw) pid) rows in
  reset_rows set_tcp_entry rows pid = (map delete_row chosen, taken_rows (map delete_row chosen)).
Proof.
  cbn. unfold reset_rows.
  induction rows as [|raw rows IH] using rev_ind; [done|].
  rewrite foldl_snoc, IH, List.filter_app. cbn [List.filter].
  destruct (row_selected (row_of raw) pid); [|by rewrite app_nil_r].
  unfold taken_rows, reset_v4_row. rewrite map_app, List.filter_app, length_app. cbn [map List.filter].
  destruct (set_tcp_entry (delete_row raw) =? 0); cbn [length]; f_equal; lia.
Qed.

Lemma map_filter_comm {A B} (f : A -> B) (p : B -> bool) l :
  map f (List.filter (fun a => p (f a)) l) = List.filter p (map f l).
Proof. induction l as [|a l IH]; cbn; [done|]. destruct (p (f a)); cbn; by rewrite IH. Qed.
End Reset.

(** Resetting a process's connections deletes exactly the flows of the IPv4
    table that belong to it and are between SYN-SENT and LAST-ACK, in the
    table's order (none for pid 0), each with the addresses of its own row; it
    answers how many of them the system took, or the error of a table that could
    not be read, and an unreadable IPv4 table leaves everything alone. *)
Theorem reset_touches_only_the_pid probe fetch v4_rows v6_rows set_tcp_entry pid :
  let '(r, sent, _) := reset_pid_connections probe fetch v4_rows v6_rows set_tcp_entry pid in
  match query_tcp_table probe fetch 2 with
  | Err e => r = Err e /\ sent = []
  | Ok buf =>
      (exists chosen, sublist chosen (v4_rows buf) /\ sent = map delete_row chosen /\
         map row_of chosen = select_pid_rows (map row_of (v4_rows buf)) pid /\
         forall raw, raw ∈ chosen <-> raw ∈ v4_rows buf /\
           pid <> 0 /\ dwOwningPid raw = pid /\ 3 <= dwState raw <= 10) /\
      r = match query_tcp_table probe fetch 23 with
          | Ok _ => Ok (taken_rows set_tcp_entry sent)
          | Err e => Err e
          end
  end.
Proof.
  unfold reset_pid_connections. destruct (query_tcp_table probe fetch 2) as [buf|e]; [|done].
  rewrite reset_rows_spec. cbn zeta.
  set (chosen := List.filter (fun raw => row_selected (row_of raw) pid) (v4_rows buf)).
  assert (exists chosen, sublist chosen (v4_rows buf) /\
     map delete_row (List.filter (fun raw => row_selected (row_of raw) pid) (v4_rows buf)) = map delete_row chosen /\
     map row_of chosen = select_pid_rows (map row_of (v4_rows buf)) pid /\
     forall raw, raw ∈ chosen <-> raw ∈ v4_rows buf /\
       pid <> 0 /\ dwOwningPid raw = pid /\ 3 <= dwState raw <= 10) as H.
  { exists chosen. split; [|split; [done|split]].
    - subst chosen. clear. induction (v4_rows buf) as [|raw rows IH]; cbn [List.filter]; [constructor|].
      by destruct (row_selected _ _); constructor.
    - unfold select_pid_rows. by rewrite <- map_filter_comm.
    - intros raw. subst chosen. rewrite !list_elem_of_In, filter_In. unfold row_selected, is_active_egress_state.
      cbn [owning_pid state row_of]. rewrite !andb_true_iff, negb_true_iff, Z.eqb_neq, Z.eqb_eq, !Z.leb_le.
      change MIB_TCP_STATE_SYN_SENT with 3. change MIB_TCP_STATE_LAST_ACK with 10. tauto. }
  by destruct (query_tcp_table probe fetch 23).
Qed.
