(* ===== verification/Win32.v ===== *)
(** The native calls of the agent, as programs over an interface: a program asks
    the system one call at a time and goes on with the answer.  A run tracks the
    resources the process holds and the effects it had, and stops at a call
    that uses or releases what is not held; [wp] is the weakest precondition over
    every answer the documentation of the calls allows.  The functions of the
    agent that make these calls are in Native. *)

From S2P Require Import Prelude Words Text F64 Unicode Fingerprint Bundle Edm Utf8 Extract Verdict.
From S2P Require Import TrustDest Device UsbPolicy Enforce.
#[local] Open Scope Z_scope.

(** ** The calls, by the type of their answer

    A failing call answers [None] where the code drops the error and [Err]
    where it keeps it; handles and pointers are integers. *)
Inductive WinCall : Set -> Set :=
  (** tokens, sessions and processes *)
  | OpenProcessToken : WinCall (option Z)
  | TokenSession (token : Z) : WinCall (option Z)
  | CloseHandle (h : Z) : WinCall unit
  | ActiveConsoleSession : WinCall Z
  | QueryUserToken (session : Z) : WinCall (result str Z)
  | CreateEnvironment (token : Z) : WinCall (option Z)
  | DestroyEnvironment (env : Z) : WinCall unit
  | CurrentExe : WinCall (result str str)
  | CreateProcessAsUser (token : Z) (cmdline : list Z) (env : option Z) : WinCall (result str (Z * Z))
  | QuerySessionUser (session : Z) : WinCall (option Z)
  | ReadWide (p : Z) : WinCall (option str)
  | FreeWtsMemory (p : Z) : WinCall unit
  | EnumProcesses : WinCall (option (list Z))
  | OpenProcess (pid : Z) : WinCall (result str Z)
  | QueryImageName (h : Z) : WinCall (option (list Z))
  | EnumModules (h : Z) : WinCall (option (list Z))
  | ModuleFileName (h m : Z) : WinCall (list Z)
  | TerminateProcess (h : Z) : WinCall (result str unit)
  (** toasts *)
  | NewDocument : WinCall (result str unit)
  | LoadXml (xml : str) : WinCall (result str unit)
  | NewToast (xml : str) : WinCall (result str unit)
  | NewNotifier (aumid : str) : WinCall (result str unit)
  | ShowToast (aumid xml : str) : WinCall (result str unit)
  (** the clipboard and global memory *)
  | OpenClipboard : WinCall (result str unit)
  | CloseClipboard : WinCall unit
  | EmptyClipboard : WinCall (result str unit)
  | RegisterFormat (name : list Z) : WinCall Z
  | FormatAvailable (fmt : Z) : WinCall bool
  | GetClipboardData (fmt : Z) : WinCall (option Z)
  | SetClipboardData (fmt h : Z) : WinCall (result str unit)
  | GlobalSize (h : Z) : WinCall nat
  | GlobalAlloc (n : nat) : WinCall (result str Z)
  | GlobalLock (h : Z) : WinCall bool
  | ReadMemory (h : Z) (n : nat) : WinCall bytes
  | WriteMemory (h : Z) (bs : bytes) : WinCall unit
  | GlobalUnlock (h : Z) : WinCall unit
  | Sleep (ms : Z) : WinCall unit
  (** data protection *)
  | CryptProtect (plain : bytes) : WinCall (result str (Z * bytes))
  | CryptUnprotect (sealed : bytes) : WinCall (result str (Z * bytes))
  | ReadBlob (p : Z) : WinCall bytes
  | LocalFree (p : Z) : WinCall unit
  (** devices and the registry *)
  | CreateFile (device : str) (write : bool) : WinCall (result str Z)
  | QueryProperty (h : Z) : WinCall (option (Z * bytes))
  | LockVolume (h : Z) : WinCall (result str unit)
  | DismountVolume (h : Z) : WinCall (result str unit)
  | RegCreateKey (subkey : str) : WinCall (option Z)
  | RegSetValue (key : Z) (name : str) (v : RegValue) : WinCall bool
  | RegCloseKey (key : Z) : WinCall unit.

(** A program that returns an [A]. *)
Inductive Prog (A : Type) : Type :=
  | Ret (a : A)
  | Ask {X : Set} (c : WinCall X) (k : X -> Prog A).
Arguments Ret {_} _.
Arguments Ask {_ _} _ _.

Fixpoint prog_bind {A B} (m : Prog A) (f : A -> Prog B) : Prog B :=
  match m with
  | Ret a => f a
  | Ask c k => Ask c (fun x => prog_bind (k x) f)
  end.
#[export] Instance prog_ret : MRet Prog := fun A a => Ret a.
#[export] Instance prog_mbind : MBind Prog := fun A B f m => prog_bind m f.
Definition ask {X : Set} (c : WinCall X) : Prog X := Ask c Ret.

(** [?] on a call that fails with [Err]. *)
Definition or_return {A B} (r : result str A) (f : A -> Prog (result str B)) : Prog (result str B) :=
  match r with Ok a => f a | Err e => Ret (Err e) end.

(** The answer of [ActiveConsoleSession] when nobody is at the console. *)
Definition INVALID_SESSION : Z := 0xFFFFFFFF.

(** ** What a run tracks *)

Inductive Resource : Set :=
  (** a token, and the session whose user it stands for *)
  | RToken (h : Z) (session : option Z)
  | RProcess (h pid : Z)
  | RThread (h : Z)
  | RDevice (h : Z) (device : str)
  | REnvironment (p : Z)
  | RWtsMemory (p : Z)
  | RClipboard
  (** global memory the process owns, and what was written to it *)
  | RMemory (h : Z) (bs : bytes)
  | RLock (h : Z)
  | RBlob (p : Z) (bs : bytes)
  | RKey (key : Z) (subkey : str).

Inductive Effect :=
  | Showed (aumid xml : str)
  | Started (session : option Z) (cmdline : list Z)
  | Terminated (pid : Z)
  | Emptied
  | Placed (fmt : Z) (bs : bytes)
  | DidDismount (device : str)
  | ValueSet (subkey name : str) (v : RegValue).

(** How many calls were answered, what is held, the effects in order, and
    whether some call failed. *)
Record Track := {
  t_calls : nat;
  t_held : list Resource;
  t_effects : list Effect;
  t_failed : bool;
}.
Definition track_start : Track := {| t_calls := 0; t_held := []; t_effects := []; t_failed := false |}.

(** Take the first resource that [p] selects out of what is held. *)
Fixpoint take_out (p : Resource -> bool) (held : list Resource) : option (list Resource) :=
  match held with
  | [] => None
  | r :: held' => if p r then Some held' else cons r <$> take_out p held'
  end.
Fixpoint holds (p : Resource -> bool) (held : list Resource) : bool :=
  match held with
  | [] => false
  | r :: held' => if p r then true else holds p held'
  end.
Definition is_handle (h : Z) (r : Resource) : bool :=
  match r with RToken h' _ | RProcess h' _ | RThread h' | RDevice h' _ => h =? h' | _ => false end.
Definition is_token (h : Z) (r : Resource) : bool := match r with RToken h' _ => h =? h' | _ => false end.
Definition is_environment (p : Z) (r : Resource) : bool :=
  match r with REnvironment p' => p =? p' | _ => false end.
Definition is_wts (p : Z) (r : Resource) : bool := match r with RWtsMemory p' => p =? p' | _ => false end.
Definition is_clipboard (r : Resource) : bool := match r with RClipboard => true | _ => false end.
Definition is_memory (h : Z) (r : Resource) : bool := match r with RMemory h' _ => h =? h' | _ => false end.
Definition is_lock (h : Z) (r : Resource) : bool := match r with RLock h' => h =? h' | _ => false end.
Definition is_blob (p : Z) (r : Resource) : bool := match r with RBlob p' _ => p =? p' | _ => false end.
Definition is_key (k : Z) (r : Resource) : bool := match r with RKey k' _ => k =? k' | _ => false end.
(** What the first memory of handle [h] holds is replaced. *)
Fixpoint write_first (h : Z) (bs : bytes) (held : list Resource) : list Resource :=
  match held with
  | [] => []
  | r :: held' => if is_memory h r then RMemory h bs :: held' else r :: write_first h bs held'
  end.

Definition pid_at (h : Z) (r : Resource) : option Z :=
  match r with RProcess h' pid => if h =? h' then Some pid else None | _ => None end.
Definition device_at (h : Z) (r : Resource) : option str :=
  match r with RDevice h' d => if h =? h' then Some d else None | _ => None end.
Definition session_at (h : Z) (r : Resource) : option (option Z) :=
  match r with RToken h' s => if h =? h' then Some s else None | _ => None end.
Definition subkey_at (k : Z) (r : Resource) : option str :=
  match r with RKey k' s => if k =? k' then Some s else None | _ => None end.
Definition memory_at (h : Z) (r : Resource) : option bytes :=
  match r with RMemory h' bs => if h =? h' then Some bs else None | _ => None end.
Definition blob_at (p : Z) (r : Resource) : option bytes :=
  match r with RBlob p' bs => if p =? p' then Some bs else None | _ => None end.
Definition held_at {A} (f : Resource -> option A) (s : Track) : option A := head (omap f (t_held s)).

(** The state after a call. *)
Definition went (s : Track) (held : list Resource) (effs : list Effect) (ok : bool) : option Track :=
  Some {| t_calls := S (t_calls s); t_held := held; t_effects := t_effects s ++ effs;
          t_failed := t_failed s || negb ok |}.
Definition acquire (s : Track) {A} (o : option A) (r : A -> Resource) : option Track :=
  match o with
  | Some a => went s (r a :: t_held s) [] true
  | None => went s (t_held s) [] false
  end.
Definition release (s : Track) (p : Resource -> bool) : option Track :=
  held ← take_out p (t_held s); went s held [] true.
Definition plain (s : Track) (ok : bool) : option Track := went s (t_held s) [] ok.
Definition with_held {A} (s : Track) (f : Resource -> option A) (k : A -> option Track) : option Track :=
  held_at f s ≫= k.
Definition guarded (s : Track) (p : Resource -> bool) (k : option Track) : option Track :=
  if holds p (t_held s) then k else None.
Definition some {A} (o : option A) : bool := match o with Some _ => true | None => false end.
Definition succeeded {A} (r : result str A) : bool := match r with Ok _ => true | Err _ => false end.

(** [None] when the call uses or releases something the process does not hold. *)
Definition track (s : Track) {X : Set} (c : WinCall X) : X -> option Track :=
  match c with
  | OpenProcessToken => fun x => acquire s x (fun h => RToken h None)
  | TokenSession h => fun x => guarded s (is_token h) (plain s (some x))
  | CloseHandle h => fun _ => release s (is_handle h)
  | ActiveConsoleSession => fun x => plain s (negb (x =? INVALID_SESSION))
  | CurrentExe => fun x => plain s (succeeded x)
  | QueryUserToken session => fun x => acquire s (res_ok x) (fun h => RToken h (Some session))
  | CreateEnvironment h => fun x => guarded s (is_token h) (acquire s x REnvironment)
  | DestroyEnvironment p => fun _ => release s (is_environment p)
  | CreateProcessAsUser h cmdline env => fun x =>
      with_held s (session_at h) (fun session =>
        let child := match x with
                     | Ok (hp, ht) => went s (RThread ht :: RProcess hp 0 :: t_held s) [Started session cmdline] true
                     | Err _ => plain s false
                     end in
        match env with Some p => guarded s (is_environment p) child | None => child end)
  | QuerySessionUser _ => fun x => acquire s (p ← x; if p =? 0 then None else Some p) RWtsMemory
  | ReadWide p => fun x => guarded s (is_wts p) (plain s (some x))
  | FreeWtsMemory p => fun _ => release s (is_wts p)
  | EnumProcesses => fun x => plain s (some x)
  | OpenProcess pid => fun x => acquire s (res_ok x) (fun h => RProcess h pid)
  | QueryImageName h => fun x => with_held s (pid_at h) (fun _ => plain s (some x))
  | EnumModules h => fun x => with_held s (pid_at h) (fun _ => plain s (some x))
  | ModuleFileName h _ => fun _ => with_held s (pid_at h) (fun _ => plain s true)
  | TerminateProcess h => fun x =>
      with_held s (pid_at h) (fun pid =>
        if succeeded x then went s (t_held s) [Terminated pid] true else plain s false)
  | NewDocument => fun x => plain s (succeeded x)
  | LoadXml _ => fun x => plain s (succeeded x)
  | NewToast _ => fun x => plain s (succeeded x)
  | NewNotifier _ => fun x => plain s (succeeded x)
  | ShowToast aumid xml => fun x =>
      if succeeded x then went s (t_held s) [Showed aumid xml] true else plain s false
  | OpenClipboard => fun x => acquire s (res_ok x) (fun _ => RClipboard)
  | CloseClipboard => fun _ => release s is_clipboard
  | EmptyClipboard => fun x =>
      guarded s is_clipboard (if succeeded x then went s (t_held s) [Emptied] true else plain s false)
  | RegisterFormat _ => fun x => plain s (negb (x =? 0))
  | FormatAvailable _ => fun _ => plain s true
  | GetClipboardData _ => fun x => guarded s is_clipboard (plain s (some x))
  | SetClipboardData fmt h => fun x =>
      guarded s is_clipboard (with_held s (memory_at h) (fun bs =>
        if succeeded x then
          (* the clipboard owns the memory from now on *)
          held ← take_out (is_memory h) (t_held s); went s held [Placed fmt bs] true
        else plain s false))
  | GlobalSize h => fun _ => guarded s (fun r => if is_clipboard r then true else is_memory h r) (plain s true)
  | GlobalAlloc _ => fun x => acquire s (res_ok x) (fun h => RMemory h [])
  | GlobalLock h => fun x =>
      guarded s (fun r => if is_clipboard r then true else is_memory h r)
        (if x then went s (RLock h :: t_held s) [] true else plain s false)
  | ReadMemory h _ => fun _ => guarded s (is_lock h) (plain s true)
  | WriteMemory h bs => fun _ =>
      guarded s (is_lock h)
        (went s (write_first h bs (t_held s)) [] true)
  | GlobalUnlock h => fun _ => release s (is_lock h)
  | Sleep _ => fun _ => plain s true
  | CryptProtect _ => fun x => acquire s (res_ok x) (fun '(p, bs) => RBlob p bs)
  | CryptUnprotect _ => fun x => acquire s (res_ok x) (fun '(p, bs) => RBlob p bs)
  | ReadBlob p => fun _ => guarded s (is_blob p) (plain s true)
  | LocalFree p => fun _ => release s (is_blob p)
  | CreateFile device _ => fun x => acquire s (res_ok x) (fun h => RDevice h device)
  | QueryProperty h => fun x => with_held s (device_at h) (fun _ => plain s (some x))
  | LockVolume h => fun x => with_held s (device_at h) (fun _ => plain s (succeeded x))
  | DismountVolume h => fun x =>
      with_held s (device_at h) (fun d =>
        if succeeded x then went s (t_held s) [DidDismount d] true else plain s false)
  | RegCreateKey subkey => fun x => acquire s x (fun k => RKey k subkey)
  | RegSetValue k name v => fun x =>
      with_held s (subkey_at k) (fun subkey =>
        if x then went s (t_held s) [ValueSet subkey name v] true else plain s false)
  | RegCloseKey k => fun _ => release s (is_key k)
  end.

(** ** What the documentation of the calls promises *)

(** The machine as it is while one of the functions runs: the sessions, the
    processes, the clipboard, data protection, devices and registry.  A handle
    that is returned is neither null nor the invalid value. *)
Class WinView := {
  (** the session of this process, and the one at the console *)
  v_session : Z;
  v_console : Z;
  v_formats : list Z;
  v_html : Z;
  v_rtf : Z;
  v_data : Z -> option Z;
  v_memory : Z -> bytes;
  v_lockable : Z -> bool;
  v_processes : option (list Z);
  v_opens : Z -> bool;
  v_image : Z -> option (list Z);
  v_modules : Z -> option (list Z);
  v_module_name : Z -> Z -> list Z;
  v_protect : bytes -> result str bytes;
  v_unprotect : bytes -> result str bytes;
  #[export] v_volumes :: VolumeApi;
  #[export] v_enforce :: WinApi;
}.

Definition is_invalid (h : Z) : bool := (h =? 0) || (h =? -1).
Definition valid (o : option Z) : Prop := forall h, o = Some h -> is_invalid h = false.

(** The registered names of the two formats. *)
Definition wide (s : str) : list Z := encode_utf16 s ++ [0].

Section Contract.
Context {M : WinView}.

Definition answers (s : Track) {X : Set} (c : WinCall X) : X -> Prop :=
  match c with
  | OpenProcessToken => valid
  | TokenSession h => fun x => held_at (session_at h) s = Some None -> x = None \/ x = Some v_session
  | ActiveConsoleSession => fun x => x = v_console
  | QueryUserToken _ => fun x => valid (res_ok x)
  | CreateProcessAsUser _ _ _ => fun x => valid (fst <$> res_ok x) /\ valid (snd <$> res_ok x)
  | EnumProcesses => fun x => x = v_processes
  | OpenProcess pid => fun x => valid (res_ok x) /\ (succeeded x = v_opens pid)
  | QueryImageName h => fun x => forall pid, held_at (pid_at h) s = Some pid -> x = v_image pid
  | EnumModules h => fun x => forall pid, held_at (pid_at h) s = Some pid -> x = v_modules pid
  | ModuleFileName h m => fun x => forall pid, held_at (pid_at h) s = Some pid -> x = v_module_name pid m
  | RegisterFormat name => fun x =>
      (name = wide (lit "HTML Format") -> x = v_html) /\ (name = wide (lit "Rich Text Format") -> x = v_rtf)
  | FormatAvailable fmt => fun x => x = bool_decide (fmt ∈ v_formats)
  | GetClipboardData fmt => fun x => x = v_data fmt
  | GlobalSize h => fun x => x = length (v_memory h)
  | GlobalLock h => fun x => x = v_lockable h
  | ReadMemory h n => fun x => x = take n (v_memory h)
  | CryptProtect bs => fun x => (snd <$> res_ok x) = res_ok (v_protect bs)
  | CryptUnprotect bs => fun x => (snd <$> res_ok x) = res_ok (v_unprotect bs)
  | ReadBlob p => fun x => forall bs, held_at (blob_at p) s = Some bs -> x = bs
  | CurrentExe => fun x => forall exe, x = Ok exe -> forallb is_scalar exe = true /\ 0 ∉ exe
  | CreateFile d write => fun x =>
      valid (res_ok x) /\ succeeded x = if write then create_file d else negb (create_file_fails d)
  | QueryProperty h => fun x => forall d, held_at (device_at h) s = Some d -> x = query_property d
  | LockVolume h => fun x => forall d, held_at (device_at h) s = Some d -> succeeded x = lock_volume d
  | DismountVolume h => fun x => forall d, held_at (device_at h) s = Some d -> succeeded x = dismount d
  | RegCreateKey subkey => fun x => some x = reg_create_key subkey
  | RegSetValue k name _ => fun x =>
      forall subkey, held_at (subkey_at k) s = Some subkey -> x = reg_set_value subkey name
  | _ => fun _ => True
  end.

(** ** Runs and the weakest precondition *)

(** A system answers each call, in any way that may depend on all that went
    before; it is honest when it keeps the contract. *)
Definition Oracle : Type := Track -> forall X : Set, WinCall X -> X.
Definition honest (o : Oracle) : Prop := forall s X (c : WinCall X), answers s c (o s X c).

Fixpoint run {A} (o : Oracle) (m : Prog A) (s : Track) : option (A * Track) :=
  match m with
  | Ret a => Some (a, s)
  | Ask c k => let x := o s _ c in s' ← track s c x; run o (k x) s'
  end.

Fixpoint wp {A} (m : Prog A) (Q : A -> Track -> Prop) (s : Track) : Prop :=
  match m with
  | Ret a => Q a s
  | Ask c k => forall x, answers s c x -> exists s', track s c x = Some s' /\ wp (k x) Q s'
  end.

(** Whatever an honest system answers, a program that meets its precondition
    never misuses a resource and ends where its postcondition holds. *)
Lemma wp_sound {A} (m : Prog A) Q s o :
  honest o -> wp m Q s -> exists a s', run o m s = Some (a, s') /\ Q a s'.
Proof.
  intros Ho. revert s. induction m as [a|X c k IH]; intros s Hw; cbn in *; [by eexists _, _|].
  destruct (Hw _ (Ho s X c)) as (s' & Ht & Hk). rewrite Ht. by apply IH.
Qed.

Lemma wp_mono {A} (m : Prog A) (P Q : A -> Track -> Prop) s :
  wp m P s -> (forall a s', P a s' -> Q a s') -> wp m Q s.
Proof.
  intros Hw Hpq. revert s Hw. induction m as [a|X c k IH]; intros s Hw; cbn in *; [by apply Hpq|].
  intros x Hx. destruct (Hw x Hx) as (s' & Ht & Hk). exists s'. split; [done|]. by apply IH.
Qed.

Lemma wp_bind {A B} (m : Prog A) (f : A -> Prog B) Q s :
  wp m (fun a s' => wp (f a) Q s') s -> wp (m ≫= f) Q s.
Proof.
  unfold mbind, prog_mbind. revert s. induction m as [a|X c k IH]; intros s Hw; cbn in *; [done|].
  intros x Hx. destruct (Hw x Hx) as (s' & Ht & Hk). exists s'. split; [done|]. by apply IH.
Qed.

Lemma wp_ask {X : Set} (c : WinCall X) (Q : X -> Track -> Prop) s :
  (forall x, answers s c x -> exists s', track s c x = Some s' /\ Q x s') -> wp (ask c) Q s.
Proof. done. Qed.
End Contract.
Arguments WinView : clear implicits.

(** ** What a program leaves

    From any state: what it still holds when it ends, the effects it had, whether
    a call failed; and what it returns. *)

Section Leaves.
Context {M : WinView}.

Definition leaves {A} (m : Prog A) (P : A -> list Resource -> list Effect -> bool -> Prop) : Prop :=
  forall s, wp m (fun a s' => exists kept effs f,
    t_held s' = kept ++ t_held s /\ t_effects s' = t_effects s ++ effs /\
    t_failed s' = t_failed s || f /\ P a kept effs f) s.

Lemma leaves_mono {A} (m : Prog A) P Q :
  leaves m P -> (forall a kept effs f, P a kept effs f -> Q a kept effs f) -> leaves m Q.
Proof.
  intros Hm Hpq s. eapply wp_mono; [apply Hm|]. intros a s' (kept & effs & f & H1 & H2 & H3 & H).
  exists kept, effs, f. auto.
Qed.

Lemma leaves_ret {A} (a : A) (P : A -> list Resource -> list Effect -> bool -> Prop) :
  P a [] [] false -> leaves (Ret a) P.
Proof. intros H s. exists [], [], false. by rewrite app_nil_r, orb_false_r. Qed.

Lemma leaves_bind {A B} (m : Prog A) (k : A -> Prog B) P Q :
  leaves m P ->
  (forall a kept effs f, P a kept effs f ->
     leaves (k a) (fun b kept' effs' f' => Q b (kept' ++ kept) (effs ++ effs') (f || f'))) ->
  leaves (m ≫= k) Q.
Proof.
  intros Hm Hk s. apply wp_bind. eapply wp_mono; [apply Hm|].
  intros a s1 (kept & effs & f & H1 & H2 & H3 & HP). eapply wp_mono; [by apply (Hk a kept effs f HP)|].
  intros b s2 (kept' & effs' & f' & H1' & H2' & H3' & HQ). exists (kept' ++ kept), (effs ++ effs'), (f || f').
  rewrite H1', H1, H2', H2, H3', H3. by rewrite !app_assoc, orb_assoc.
Qed.

(** A program run by an honest system from the start. *)
Lemma leaves_sound {A} (m : Prog A) P o :
  honest o -> leaves m P ->
  exists a s, run o m track_start = Some (a, s) /\ P a (t_held s) (t_effects s) (t_failed s).
Proof.
  intros Ho Hm. destruct (wp_sound m _ track_start o Ho (Hm track_start))
    as (a & s & Hr & kept & effs & f & H1 & H2 & H3 & HP).
  exists a, s. split; [done|]. cbn in *. rewrite app_nil_r in H1. by rewrite H1, H2, H3.
Qed.
End Leaves.

(** Compute what a call does to a state whose newest resources are known. *)
Ltac tracked :=
  lazy [track guarded with_held release acquire plain went held_at take_out write_first holds head
        list_omap omap option_map fmap option_fmap mbind option_bind fst snd res_ok
        is_handle is_token is_environment is_wts is_clipboard is_memory is_lock is_blob is_key
        pid_at device_at session_at subkey_at memory_at blob_at
        t_calls t_held t_effects t_failed];
  rewrite ?Z.eqb_refl; cbn iota.
Ltac wp_cbn := cbn [wp mbind prog_mbind prog_bind ask or_return map_err].
Ltac wp_start := intros [n held effs0 failed]; wp_cbn.
(** What a handle stands for, when it is among the newest resources. *)
Ltac held_now := repeat (progress tracked); reflexivity.
(** One call whose answer is introduced. *)
Ltac wp_track := eexists; split; [repeat (progress tracked); reflexivity|]; wp_cbn.
(** The end of a program: what is held, the effects and the flag are computed. *)
Ltac wp_end_holding kept :=
  exists kept; eexists _, _; cbn [t_held t_effects t_failed];
  split; [reflexivity|
  split; [rewrite <- ?app_assoc; reflexivity|split; [rewrite <- ?orb_assoc; reflexivity|]]].
Ltac wp_end := wp_end_holding (@nil Resource).
