(* ===== verification/Native.v ===== *)
(** The native calls of the agent, function by function: delivering a toast and
    naming the console user ([src/notify/mod.rs]), reading and clearing the
    clipboard ([src/clipboard/watch.rs], [enforce.rs]), listing and ending
    processes ([src/netfilter/mod.rs], [src/exfil.rs]), data protection
    ([src/storage.rs]), devices, volumes and the registry ([src/usb/device.rs],
    [enforce.rs]).  Each is a program over the calls of Win32; the lemmas tell
    what it leaves held, what it did, and what it returns.  The theorems are in
    NativeRuns. *)

From S2P Require Import Prelude Words Text F64 Unicode Fingerprint Bundle Edm Utf8 Extract Verdict.
From S2P Require Import TrustDest Device UsbPolicy Enforce Watch Supervise Crypto CopyAudit RemoteTools NetRules.
From S2P Require Import Config TrustSync UsbMonitor KGuard BrowserHost Clipboard Notify Exfil Egress Win32.
#[local] Open Scope Z_scope.

(** ** Notifications *)

(** The drop of [HandleGuard], after the body and on every way out of it. *)
Definition with_guard {A} (h : Z) (body : Prog A) : Prog A :=
  a ← body;
  _ ← (if is_invalid h then Ret tt else ask (CloseHandle h));
  Ret a.

Definition show_toast (title body aumid : str) : Prog (result str unit) :=
  let xml := toast_xml title body in
  d ← ask NewDocument; or_return d (fun _ =>
  l ← ask (LoadXml xml); or_return l (fun _ =>
  t ← ask (NewToast xml); or_return t (fun _ =>
  n ← ask (NewNotifier aumid); or_return n (fun _ =>
  s ← ask (ShowToast aumid xml); or_return s (fun _ => Ret (Ok tt)))))).

Definition current_session : Prog (option Z) :=
  t ← ask OpenProcessToken;
  match t with
  | Some token => with_guard token (ask (TokenSession token))
  | None => Ret None
  end.

Definition spawn_toast_in_session (session : Z) (aumid title body : str) : Prog (result str unit) :=
  t ← ask (QueryUserToken session);
  or_return (map_err (fun e => lit "WTSQueryUserToken(session " ++ dec session ++ lit "): " ++ e) t) (fun token =>
    with_guard token (
      env ← ask (CreateEnvironment token);
      e ← ask CurrentExe;
      or_return (map_err (fun e => lit "current_exe: " ++ e) e) (fun exe =>
        created ← ask (CreateProcessAsUser token (wide (build_toast_cmdline exe aumid title body)) env);
        _ ← match env with Some p => ask (DestroyEnvironment p) | None => Ret tt end;
        or_return (map_err (fun e => lit "CreateProcessAsUserW: " ++ e) created) (fun '(process, thread) =>
          _ ← ask (CloseHandle thread);
          _ ← ask (CloseHandle process);
          Ret (Ok tt))))).

(** Session 0 is the service's: there the toast goes to the console user. *)
Definition dispatch (aumid title body : str) : Prog unit :=
  own ← current_session;
  if match own with Some s => s =? 0 | None => true end then
    session ← ask ActiveConsoleSession;
    if session =? INVALID_SESSION then Ret tt
    else _ ← spawn_toast_in_session session aumid title body; Ret tt
  else _ ← show_toast title body aumid; Ret tt.

Definition console_username : Prog (option str) :=
  session ← ask ActiveConsoleSession;
  if session =? INVALID_SESSION then Ret None
  else
    b ← ask (QuerySessionUser session);
    match b with
    | None => Ret None
    | Some buffer =>
        if buffer =? 0 then Ret None
        else
          name ← ask (ReadWide buffer);
          _ ← ask (FreeWtsMemory buffer);
          Ret (n ← name; if str_is_empty n then None else Some n)
    end.

(** ** The clipboard *)

Definition register_format (name : str) : Prog Z := ask (RegisterFormat (wide name)).

(** The attempts that are left, after [attempt]. *)
Fixpoint open_attempts (more : nat) (attempt : Z) : Prog bool :=
  match more with
  | O => Ret false
  | S more =>
      r ← ask OpenClipboard;
      if succeeded r then Ret true
      else _ ← ask (Sleep (20 * (attempt + 1))); open_attempts more (attempt + 1)
  end.

Definition read_global_calls (fmt : Z) : Prog (option bytes) :=
  d ← ask (GetClipboardData fmt);
  match d with
  | None => Ret None
  | Some h =>
      if is_invalid h then Ret None
      else
        size ← ask (GlobalSize h);
        if (size =? 0)%nat then Ret None
        else
          locked ← ask (GlobalLock h);
          if negb locked then Ret None
          else
            bs ← ask (ReadMemory h size);
            _ ← ask (GlobalUnlock h);
            Ret (Some bs)
  end.

(** The payload of a format that is there: what its data is read as, or a note. *)
Definition payload_of (fmt : Z) (read : bytes -> option ClipboardPayload) (note : str)
    : Prog (option ClipboardPayload) :=
  d ← read_global_calls fmt;
  Ret (match d with Some bs => read bs | None => Some (PUninspected note) end).

(** [a || b] on calls *)
Definition any_available (fmts : list Z) : Prog bool :=
  foldr (fun (fmt : Z) (rest : Prog bool) => b ← ask (FormatAvailable fmt); if b : bool then Ret true else rest) (Ret false) fmts.

(** The most inspectable format that is there.  [None] is a panic of the parser of
    dropped files, which does not happen. *)
Definition choose_payload : Prog (option ClipboardPayload) :=
  html ← register_format (lit "HTML Format");
  rtf ← register_format (lit "Rich Text Format");
  files ← ask (FormatAvailable CF_HDROP);
  if files : bool then payload_of CF_HDROP (fun bs => PFiles <$> parse_hdrop bs) (lit "hdrop-null")
  else
    text ← ask (FormatAvailable CF_UNICODETEXT);
    if text : bool then
      payload_of CF_UNICODETEXT (fun bs => Some (PText (parse_unicode_text bs))) (lit "text-null")
    else
      h ← (if html =? 0 then Ret false else ask (FormatAvailable html));
      if h : bool then payload_of html (fun bs => Some (PText (strip_html (from_utf8_lossy bs)))) (lit "html-null")
      else
        r ← (if rtf =? 0 then Ret false else ask (FormatAvailable rtf));
        if r : bool then payload_of rtf (fun bs => Some (PText (strip_rtf (from_utf8_lossy bs)))) (lit "rtf-null")
        else
          image ← any_available [CF_DIB; CF_BITMAP; CF_DIBV5];
          Ret (Some (if image : bool then PImage else PUninspected (lit "unhandled-format"))).
Definition read_snapshot_calls : Prog (option ClipboardPayload) :=
  opened ← open_attempts 5 0;
  if negb opened then Ret (Some (PUninspected (lit "clipboard-locked")))
  else
    payload ← choose_payload;
    _ ← ask CloseClipboard;
    Ret payload.

Definition notice_bytes (notice : str) : bytes := concat (map (to_le_bytes 2) (wide notice)).
Definition set_clipboard_notice (notice : str) : Prog (result str unit) :=
  a ← ask (GlobalAlloc (length (wide notice) * 2));
  or_return (map_err (fun _ => lit "GlobalAlloc") a) (fun hglobal =>
    locked ← ask (GlobalLock hglobal);
    if negb locked then Ret (Err (lit "GlobalLock returned null"))
    else
      _ ← ask (WriteMemory hglobal (notice_bytes notice));
      _ ← ask (GlobalUnlock hglobal);
      r ← ask (SetClipboardData CF_UNICODETEXT hglobal);
      or_return (map_err (fun _ => lit "SetClipboardData(redaction notice)") r) (fun _ => Ret (Ok tt))).

Definition clear_calls (plan : ClipboardPlannedAction) : Prog (result str unit) :=
  match plan with
  | ClipNoChange => Ret (Ok tt)
  | ClearClipboard redaction_notice =>
      o ← ask OpenClipboard;
      or_return (map_err (fun _ => lit "OpenClipboard for clear") o) (fun _ =>
        cleared ← ask EmptyClipboard;
        _ ← match redaction_notice with
            | Some notice => _ ← set_clipboard_notice notice; Ret tt
            | None => Ret tt
            end;
        _ ← ask CloseClipboard;
        or_return (map_err (fun _ => lit "EmptyClipboard") cleared) (fun _ => Ret (Ok tt)))
  end.

(** ** Processes *)

Fixpoint collect {A B} (f : A -> Prog (option B)) (l : list A) : Prog (list B) :=
  match l with
  | [] => Ret []
  | a :: l => o ← f a; rest ← collect f l; Ret (opt_list o ++ rest)
  end.

(** One turn of the loop over the process ids. *)
Definition remote_tool_at (pid : Z) : Prog (option (Z * str)) :=
  if pid =? 0 then Ret None
  else
    o ← ask (OpenProcess pid);
    match o with
    | Err _ => Ret None
    | Ok handle =>
        units ← ask (QueryImageName handle);
        _ ← ask (CloseHandle handle);
        Ret (units ← units;
             let image := from_utf16_lossy units in
             if bool_decide (is_Some (match_image image)) then Some (pid, image) else None)
    end.
Definition list_remote_tool_calls : Prog (list (Z * str)) :=
  pids ← ask EnumProcesses;
  match pids with
  | None => Ret []
  | Some pids => collect remote_tool_at (take 4096 pids)
  end.

Definition terminate_process (pid : Z) : Prog (result str unit) :=
  o ← ask (OpenProcess pid);
  or_return o (fun handle =>
    r ← ask (TerminateProcess handle);
    _ ← ask (CloseHandle handle);
    or_return r (fun _ => Ret (Ok tt))).

(** The modules up to the first that gives the process away. *)
Fixpoint any_hypervisor (handle : Z) (modules : list Z) : Prog bool :=
  match modules with
  | [] => Ret false
  | m :: modules =>
      buf ← ask (ModuleFileName handle m);
      if negb (bool_decide (length buf = 0%nat)) && is_hypervisor_module (from_utf16_lossy buf)
      then Ret true else any_hypervisor handle modules
  end.
Definition hypervisor_at (pid : Z) : Prog (option Z) :=
  if pid =? 0 then Ret None
  else
    o ← ask (OpenProcess pid);
    match o with
    | Err _ => Ret None
    | Ok handle =>
        modules ← ask (EnumModules handle);
        found ← match modules with Some ms => any_hypervisor handle (take 1024 ms) | None => Ret false end;
        _ ← ask (CloseHandle handle);
        Ret (if found : bool then Some pid else None)
    end.
Definition hypervisor_pids_calls : Prog (list Z) :=
  pids ← ask EnumProcesses;
  match pids with
  | None => Ret []
  | Some pids => collect hypervisor_at (take 4096 pids)
  end.

(** ** Data protection *)

Definition take_and_free (p : Z) : Prog bytes :=
  v ← ask (ReadBlob p);
  _ ← ask (LocalFree p);
  Ret v.
Definition protect_calls (plain : bytes) : Prog (result str bytes) :=
  r ← ask (CryptProtect plain);
  match r with
  | Err e => Ret (Err (lit "CryptProtectData failed: " ++ e))
  | Ok (p, _) => v ← take_and_free p; Ret (Ok v)
  end.
Definition unprotect_calls (sealed : bytes) : Prog (result str bytes) :=
  r ← ask (CryptUnprotect sealed);
  match r with
  | Err e => Ret (Err (lit "CryptUnprotectData failed: " ++ e))
  | Ok (p, _) => v ← take_and_free p; Ret (Ok v)
  end.

(** ** Devices, volumes and the registry *)

Definition query_identity_calls (drive_letter : str) : Prog (option (result str DeviceIdentity)) :=
  let path := trim_end_matches (Z.eqb 47) (trim_end_matches (Z.eqb 92) drive_letter) in
  let device := lit "\\.\" ++ path in
  f ← ask (CreateFile device false);
  match f with
  | Err _ => Ret (Some (Err (lit "opening " ++ device)))
  | Ok handle =>
      res ← ask (QueryProperty handle);
      _ ← ask (CloseHandle handle);
      Ret (match res with
           | None => Some (Err (lit "IOCTL_STORAGE_QUERY_PROPERTY on " ++ device))
           | Some (returned, buf) =>
               if returned <? Z.of_nat DESCRIPTOR_MIN then
                 Some (Err (lit "short storage descriptor (" ++ dec returned ++ lit " bytes) from " ++ device))
               else
                 id ← parse_storage_descriptor (take (Z.to_nat returned) buf);
                 Some (Ok (with_letter path id))
           end)
  end.

Definition dismount_calls (drive_letter : str) : Prog (result str unit) :=
  let path := trim_end_matches (fun c => c =? 47) (trim_end_matches (fun c => c =? 92) drive_letter) in
  let device := lit "\\.\" ++ path in
  f ← ask (CreateFile device true);
  or_return (map_err (fun _ => lit "opening " ++ device ++ lit " for dismount") f) (fun handle =>
    lock ← ask (LockVolume handle);
    dismount ← ask (DismountVolume handle);
    _ ← ask (CloseHandle handle);
    or_return (map_err (fun _ => lit "locking " ++ device) lock) (fun _ =>
    or_return (map_err (fun _ => lit "dismounting " ++ device) dismount) (fun _ => Ret (Ok tt)))).

Definition set_hklm_calls (subkey name : str) (v : RegValue) : Prog (result str unit) :=
  k ← ask (RegCreateKey subkey);
  match k with
  | None => Ret (Err (lit "RegCreateKeyEx failed"))
  | Some key =>
      set ← ask (RegSetValue key name v);
      _ ← ask (RegCloseKey key);
      Ret (if set : bool then Ok tt else Err (lit "RegSetValueEx failed"))
  end.

(** ** What each leaves *)

Section Leaves.
Context {M : WinView}.

(** The session of this process, or none when a call failed. *)
Lemma current_session_leaves : leaves current_session (fun own kept effs f => kept = [] /\ effs = [] /\
  ((own = None /\ f = true) \/ own = Some v_session)).
Proof.
  wp_start. intros [h|] Hv; wp_track; [|wp_end; by auto].
  specialize (Hv h eq_refl). unfold with_guard. wp_cbn. intros x Hx.
  assert (x = None \/ x = Some v_session) as Hx' by (apply Hx; held_now). clear Hx. wp_track. rewrite Hv. wp_cbn.
  intros [] _. wp_track. wp_end. destruct Hx' as [->| ->]; by auto.
Qed.

Lemma show_toast_leaves title body aumid :
  leaves (show_toast title body aumid) (fun r kept effs f => kept = [] /\
    match r with Ok _ => effs = [Showed aumid (toast_xml title body)] | Err _ => effs = [] /\ f = true end).
Proof.
  wp_start. intros [[]|e] _; wp_track; [|by wp_end]. intros [[]|e] _; wp_track; [|by wp_end].
  intros [[]|e] _; wp_track; [|by wp_end]. intros [[]|e] _; wp_track; [|by wp_end].
  intros [[]|e] _; wp_track; by wp_end.
Qed.

(** The one way to end with the environment block still held. *)
Definition exe_failed (r : result str unit) : Prop := exists e, r = Err (lit "current_exe: " ++ e).

Lemma spawn_leaves session aumid title body :
  leaves (spawn_toast_in_session session aumid title body) (fun r kept effs f =>
    (kept = [] \/ exists env, kept = [REnvironment env] /\ exe_failed r) /\
    match r with
    | Ok _ => exists exe, forallb is_scalar exe = true /\ (0 ∉ exe) /\
        effs = [Started (Some session) (wide (build_toast_cmdline exe aumid title body))]
    | Err _ => effs = [] /\ f = true
    end).
Proof.
  wp_start. intros [token|e] Hv; wp_track; [|wp_end; by split; [left|]]. specialize (Hv token eq_refl).
  unfold with_guard. wp_cbn. intros env _.
  destruct env as [env|]; wp_track; intros [exe|e] He; wp_track.
  - destruct (He exe eq_refl) as [Hs Hz]. intros [[hp ht]|e] _; wp_track; intros [] _; wp_track.
    + intros [] _; wp_track. intros [] _; wp_track. rewrite Hv. wp_cbn. intros [] _. wp_track.
      wp_end. split; [by left|]. by exists exe.
    + rewrite Hv. wp_cbn. intros [] _. wp_track. wp_end. by split; [left|].
  - rewrite Hv. wp_cbn. intros [] _. wp_track. wp_end_holding [REnvironment env]. split; [|done]. right. exists env. split; [done|by exists e].
  - destruct (He exe eq_refl) as [Hs Hz]. intros [[hp ht]|e] _; wp_track.
    + intros [] _; wp_track. intros [] _; wp_track. rewrite Hv. wp_cbn. intros [] _. wp_track.
      wp_end. split; [by left|]. by exists exe.
    + rewrite Hv. wp_cbn. intros [] _. wp_track. wp_end. by split; [left|].
  - rewrite Hv. wp_cbn. intros [] _. wp_track. wp_end. by split; [left|].
Qed.

(** One toast unless a call failed: shown here when this is a user's session, and
    by a child in the console session when it is the service's or cannot be told. *)
Definition delivered (aumid title body : str) (effs : list Effect) (f : bool) : Prop :=
  (effs = [] /\ (f = true \/ v_session = 0 /\ v_console = INVALID_SESSION)) \/
  (v_session <> 0 /\ effs = [Showed aumid (toast_xml title body)]) \/
  ((v_session = 0 \/ f = true) /\ v_console <> INVALID_SESSION /\
   exists exe, forallb is_scalar exe = true /\ (0 ∉ exe) /\
     effs = [Started (Some v_console) (wide (build_toast_cmdline exe aumid title body))]).

Lemma dispatch_leaves aumid title body :
  leaves (dispatch aumid title body) (fun _ kept effs f =>
    (kept = [] \/ exists env, kept = [REnvironment env]) /\ delivered aumid title body effs f).
Proof.
  unfold dispatch. eapply leaves_bind; [apply current_session_leaves|].
  intros own kept effs f (-> & -> & Hown).
  destruct (match own with Some s => s =? 0 | None => true end) eqn:Hz.
  - assert (v_session = 0 \/ f = true) as Hs by (destruct Hown as [[-> ->]| ->]; [by right|left; lia]).
    apply (leaves_bind _ _ (fun x kept effs _ => kept = [] /\ effs = [] /\ x = v_console)).
    { wp_start. intros x Hx. wp_track. by wp_end. }
    intros x kept effs f1 (-> & -> & ->). destruct (Z.eqb_spec v_console INVALID_SESSION) as [Hx|Hx].
    { apply leaves_ret. split; [by left|]. left. split; [done|].
      destruct Hs as [Hs| ->]; [by right|left; by rewrite !orb_true_l]. }
    eapply leaves_bind; [apply spawn_leaves|]. intros r kept effs f2 [Hk Hr]. apply leaves_ret. cbn [app].
    rewrite !app_nil_r. split; [destruct Hk as [->|(env & -> & _)]; [by left|by right; exists env]|].
    destruct r as [[]|e]; [|destruct Hr as [-> ->]; left; split; [done|left; by rewrite !orb_true_r]].
    destruct Hr as (exe & H1 & H2 & ->). right; right.
    split; [destruct Hs as [Hs| ->]; [by left|by right]|]. split; [done|]. by exists exe.
  - eapply leaves_bind; [apply show_toast_leaves|]. intros r kept effs f1 [-> Hr]. apply leaves_ret. cbn [app].
    rewrite !app_nil_r. split; [by left|].
    assert (v_session <> 0) as Hs by (destruct Hown as [[-> _]| ->]; [done|lia]).
    destruct r as [[]|e]; [subst effs; by right; left|]. destruct Hr as [-> ->]. left.
    split; [done|left; by rewrite !orb_true_r].
Qed.

Lemma console_username_leaves : leaves console_username (fun _ kept effs _ => kept = [] /\ effs = []).
Proof.
  wp_start. intros session _. wp_track. destruct (session =? INVALID_SESSION); [by wp_end|].
  intros [p|] _; [|by wp_track; wp_end]. destruct (p =? 0) eqn:Hp.
  { eexists. split; [tracked; rewrite Hp; reflexivity|]. by wp_cbn; wp_end. }
  eexists. split; [tracked; rewrite Hp; reflexivity|]. wp_cbn.
  intros name _. wp_track. intros [] _. wp_track. by wp_end.
Qed.

(** *** The clipboard *)

Lemma open_attempts_leaves more attempt :
  leaves (open_attempts more attempt) (fun opened kept effs _ =>
    kept = (if opened then [RClipboard] else []) /\ effs = []).
Proof.
  revert attempt. induction more as [|more IH]; intros attempt; [by apply leaves_ret|]. cbn [open_attempts].
  apply (leaves_bind _ _ (fun r kept effs _ => kept = (if succeeded r then [RClipboard] else []) /\ effs = [])).
  { wp_start. intros [[]|e] _; wp_track; [by wp_end_holding [RClipboard]|by wp_end]. }
  intros r kept effs f [-> ->]. destruct (succeeded r); [by apply leaves_ret|].
  apply (leaves_bind _ _ (fun _ kept effs _ => kept = [] /\ effs = [])).
  { wp_start. intros x _. wp_track. by wp_end. }
  intros [] kept effs f1 [-> ->]. eapply leaves_mono; [apply IH|].
  intros opened kept effs f2 [-> ->]. by rewrite !app_nil_r.
Qed.

(** What the open clipboard gives for a format. *)
Definition global_of (fmt : Z) : option bytes :=
  h ← v_data fmt;
  if is_invalid h then None
  else if (length (v_memory h) =? 0)%nat then None
  else if v_lockable h then Some (v_memory h) else None.
Definition clipboard_view : RawClipboard :=
  {| offers := map (fun fmt => (fmt, global_of fmt)) v_formats; html_fmt := v_html; rtf_fmt := v_rtf |}.

(** With [top] held last: nothing is taken, given back or changed. *)
Definition inspects {A} (top : Resource) (m : Prog A) (P : A -> Prop) : Prop :=
  forall s H, t_held s = top :: H ->
    wp m (fun a s' => t_held s' = t_held s /\ t_effects s' = t_effects s /\
      (exists f, t_failed s' = t_failed s || f) /\ P a) s.

Lemma inspects_bind {A C} top (m : Prog A) (k : A -> Prog C) P Q :
  inspects top m P -> (forall a, P a -> inspects top (k a) Q) -> inspects top (m ≫= k) Q.
Proof.
  intros Hm Hk s H Hs. apply wp_bind. eapply wp_mono; [by eapply Hm|]. intros a s1 (H1 & H2 & [f H3] & Ha).
  eapply wp_mono; [eapply (Hk a Ha s1 H); by rewrite H1|]. intros b s2 (H1' & H2' & [f' H3'] & Hb).
  rewrite H1', H2', H1, H2, H3', H3. split_and!; try done. exists (f || f'). by rewrite orb_assoc.
Qed.
Lemma inspects_mono {A} top (m : Prog A) (P Q : A -> Prop) :
  inspects top m P -> (forall a, P a -> Q a) -> inspects top m Q.
Proof.
  intros Hm Hpq s H Hs. eapply wp_mono; [by eapply Hm|]. intros a s' (? & ? & ? & ?). auto.
Qed.
Lemma inspects_ret {A} top (a : A) (P : A -> Prop) : P a -> inspects top (Ret a) P.
Proof. intros Ha s H Hs. cbn. split_and!; try done. exists false. by rewrite orb_false_r. Qed.

Ltac inspect_start := intros [n held effs0 failed] H Hs; cbn in Hs; subst held; wp_cbn.
Ltac inspect_end :=
  cbn; rewrite ?app_nil_r; split; [done|split; [done|split; [eexists; rewrite <- ?orb_assoc; reflexivity|]]].

Lemma read_global_inspects fmt : inspects RClipboard (read_global_calls fmt) (fun d => d = global_of fmt).
Proof.
  inspect_start. unfold global_of. intros d ->. wp_track.
  destruct (v_data fmt) as [h|]; cbn [mbind option_bind]; [|wp_cbn; by inspect_end].
  destruct (is_invalid h); [wp_cbn; by inspect_end|]. wp_cbn. intros size ->. wp_track.
  destruct (length (v_memory h) =? 0)%nat; [wp_cbn; by inspect_end|]. wp_cbn.
  intros locked ->. destruct (v_lockable h); wp_track; cbn [negb]; wp_cbn; [|by inspect_end].
  intros bs ->. wp_track. intros [] _. wp_track. inspect_end. by rewrite take_ge by lia.
Qed.

Lemma available_inspects fmt :
  inspects RClipboard (ask (FormatAvailable fmt)) (fun b => b = bool_decide (fmt ∈ v_formats)).
Proof. inspect_start. intros b ->. wp_track. by inspect_end. Qed.

Lemma any_available_inspects fmts :
  inspects RClipboard (any_available fmts) (fun b => b = existsb (fun fmt => bool_decide (fmt ∈ v_formats)) fmts).
Proof.
  induction fmts as [|fmt fmts IH]; [by apply inspects_ret|]. cbn [any_available foldr existsb].
  eapply inspects_bind; [apply available_inspects|]. intros b ->.
  destruct (bool_decide _); [by apply inspects_ret|]. exact IH.
Qed.

Lemma view_available fmt : available clipboard_view fmt = bool_decide (fmt ∈ v_formats).
Proof.
  unfold available, clipboard_view. cbn [offers]. induction v_formats as [|f fs IH]; [done|]. cbn [map existsb fst].
  rewrite IH. destruct (Z.eqb_spec f fmt) as [->|Hf]; cbn [orb].
  - symmetry. apply bool_decide_eq_true. by left.
  - apply bool_decide_ext. rewrite elem_of_cons. intuition congruence.
Qed.
Lemma view_global fmt : fmt ∈ v_formats -> read_global clipboard_view fmt = global_of fmt.
Proof.
  unfold read_global, clipboard_view. cbn [offers]. induction v_formats as [|f fs IH]; intros Hin; [by apply elem_of_nil in Hin|].
  cbn [map List.find fst]. destruct (Z.eqb_spec f fmt) as [->|Hf]; [done|]. apply IH.
  apply elem_of_cons in Hin as [->|]; [done|done].
Qed.

Lemma payload_inspects fmt read note :
  fmt ∈ v_formats ->
  inspects RClipboard (payload_of fmt read note) (fun p =>
    p = match read_global clipboard_view fmt with Some bs => read bs | None => Some (PUninspected note) end).
Proof.
  intros Hin. unfold payload_of. eapply inspects_bind; [apply read_global_inspects|].
  intros d ->. apply inspects_ret. by rewrite view_global.
Qed.

Lemma maybe_available_inspects fmt :
  inspects RClipboard (if fmt =? 0 then Ret false else ask (FormatAvailable fmt))
    (fun b => b = negb (fmt =? 0) && bool_decide (fmt ∈ v_formats)).
Proof. destruct (fmt =? 0); [by apply inspects_ret|apply available_inspects]. Qed.

Lemma choose_inspects : inspects RClipboard choose_payload (fun p => p = read_snapshot [true] clipboard_view).
Proof.
  unfold choose_payload, read_snapshot. cbn [take existsb id orb negb].
  apply (inspects_bind _ _ _ (fun h => h = v_html)).
  { inspect_start. intros x [Hx _]. wp_track. inspect_end. by rewrite Hx. }
  intros h ->. apply (inspects_bind _ _ _ (fun h => h = v_rtf)).
  { inspect_start. intros x [_ Hx]. wp_track. inspect_end. by rewrite Hx. }
  intros r ->. cbn [html_fmt rtf_fmt clipboard_view]. rewrite !view_available.
  eapply inspects_bind; [apply available_inspects|]. intros b ->. case_bool_decide as Hb.
  { eapply payload_inspects in Hb. apply Hb. }
  eapply inspects_bind; [apply available_inspects|]. intros b ->. case_bool_decide as Hb2.
  { eapply inspects_mono; [by apply payload_inspects|]. intros p ->. by repeat case_match. }
  eapply inspects_bind; [apply maybe_available_inspects|]. intros b ->.
  destruct (negb (v_html =? 0) && bool_decide (v_html ∈ v_formats)) eqn:Hh; bool_hyps.
  { eapply inspects_mono; [by apply payload_inspects|]. intros p ->. by repeat case_match. }
  eapply inspects_bind; [apply maybe_available_inspects|]. intros b ->.
  destruct (negb (v_rtf =? 0) && bool_decide (v_rtf ∈ v_formats)) eqn:Hr; bool_hyps.
  { eapply inspects_mono; [by apply payload_inspects|]. intros p ->. by repeat case_match. }
  eapply inspects_bind; [apply any_available_inspects|]. intros b ->. apply inspects_ret.
  cbn [existsb]. rewrite orb_false_r, orb_assoc. done.
Qed.

Lemma read_snapshot_leaves :
  leaves read_snapshot_calls (fun p kept effs _ => kept = [] /\ effs = [] /\
    exists opened, p = read_snapshot opened clipboard_view).
Proof.
  intros s. unfold read_snapshot_calls. apply wp_bind. eapply wp_mono; [apply open_attempts_leaves|].
  intros opened s1 (kept & effs & f & H1 & H2 & H3 & -> & ->). destruct opened; cbn [negb].
  - cbn [app] in H1. apply wp_bind. eapply wp_mono; [by eapply choose_inspects|].
    intros p s2 (E1 & E2 & [f' E3] & ->). rewrite H1 in E1. destruct s2 as [n held effs failed].
    destruct s as [n0 H0 F0 b0], s1 as [n1 held1 G1 b1]. cbn [t_held t_effects t_failed] in *. subst.
    wp_cbn. intros [] _. wp_track. exists [], [], (f || f'). cbn [t_held t_effects t_failed app negb].
    rewrite !app_nil_r, orb_false_r, orb_assoc. split_and!; try done. by exists [true].
  - cbn. exists [], [], f. rewrite H1, H2, H3, app_nil_r. split_and!; try done. by exists [].
Qed.

(** With the clipboard open, either the notice is placed and its memory is the
    clipboard's, or the memory may stay allocated. *)
Lemma notice_leaves notice s H :
  t_held s = RClipboard :: H ->
  wp (set_clipboard_notice notice) (fun r s' => exists kept f,
    t_held s' = kept ++ t_held s /\ t_failed s' = t_failed s || f /\
    match r with
    | Ok _ => kept = [] /\ t_effects s' = t_effects s ++ [Placed CF_UNICODETEXT (notice_bytes notice)]
    | Err _ => f = true /\ t_effects s' = t_effects s /\ (kept = [] \/ exists h bs, kept = [RMemory h bs])
    end) s.
Proof.
  destruct s as [n held effs0 failed]. cbn. intros ->. wp_cbn. intros [h|e] _; wp_track.
  2:{ exists [], true. cbn. rewrite app_nil_r. split_and!; auto. }
  intros [|] _; wp_track; cbn [negb]; wp_cbn.
  2:{ eexists [_], _. cbn. rewrite <- !orb_assoc, !app_nil_r. split_and!; try done. right. by exists h, []. }
  intros [] _. wp_track. intros [] _. wp_track. intros [[]|e] _; wp_track.
  - exists [], false. cbn. rewrite !orb_false_r, !app_nil_r. split_and!; auto.
  - eexists [_], _. cbn. rewrite <- !orb_assoc, !app_nil_r. split_and!; try done.
    right. by exists h, (notice_bytes notice).
Qed.

Definition kept_memory (kept : list Resource) : Prop := kept = [] \/ exists h bs, kept = [RMemory h bs].

Definition notice_effects (notice : option str) (placed : bool) : list Effect :=
  match notice with Some n => if placed then [Placed CF_UNICODETEXT (notice_bytes n)] else [] | None => [] end.
Lemma maybe_notice notice s H :
  t_held s = RClipboard :: H ->
  wp (match notice with Some n => _ ← set_clipboard_notice n; Ret tt | None => Ret tt end)
    (fun _ s' => exists kept f placed, t_held s' = kept ++ RClipboard :: H /\ kept_memory kept /\
       (kept = [] \/ f = true) /\ t_failed s' = t_failed s || f /\
       t_effects s' = t_effects s ++ notice_effects notice placed) s.
Proof.
  intros Hs. destruct notice as [n|]; cbn [notice_effects].
  - apply wp_bind. eapply wp_mono; [by eapply notice_leaves|]. intros r s' (kept & f & Hh & Hf & Hr). wp_cbn.
    rewrite Hs in Hh. exists kept, f. destruct r as [[]|e].
    + destruct Hr as [-> He]. exists true. split_and!; auto. by left.
    + destruct Hr as (-> & He & Hk). exists false. rewrite app_nil_r. split_and!; auto.
  - wp_cbn. exists [], false, false. rewrite orb_false_r, app_nil_r. split_and!; auto. by left.
Qed.

(** Closing, and reporting whether the clipboard was emptied. *)
Lemma clear_tail (cleared : result str unit) s kept H :
  t_held s = kept ++ RClipboard :: H -> kept_memory kept ->
  wp (Ask CloseClipboard (fun _ => or_return (map_err (fun _ => lit "EmptyClipboard") cleared) (fun _ => Ret (Ok tt))))
    (fun r s' => t_held s' = kept ++ H /\ t_effects s' = t_effects s /\ t_failed s' = t_failed s /\
                 succeeded r = succeeded cleared) s.
Proof.
  destruct s as [n held effs failed]. cbn [t_held]. intros -> Hk. wp_cbn. intros [] _.
  destruct Hk as [->|(h & bs & ->)]; cbn [app]; wp_track; destruct cleared as [[]|e]; wp_cbn;
    cbn; by rewrite !app_nil_r, !orb_false_r.
Qed.

(** Memory may stay allocated when placing the notice failed; the clipboard never
    stays open. *)
Definition clear_effects (plan : ClipboardPlannedAction) (opened placed : bool) (r : result str unit)
    : list Effect :=
  match plan with
  | ClearClipboard notice =>
      if opened then (if succeeded r then [Emptied] else []) ++ notice_effects notice placed else []
  | ClipNoChange => []
  end.
Lemma clear_leaves plan :
  leaves (clear_calls plan) (fun r kept effs f =>
    kept_memory kept /\ (kept = [] \/ f = true) /\ (is_Some (res_ok r) \/ f = true) /\
    exists opened placed, effs = clear_effects plan opened placed r).
Proof.
  destruct plan as [|notice]; cbn [clear_calls clear_effects].
  { apply leaves_ret. split_and!; [by left|by left|by left; eexists|by exists true, true]. }
  wp_start. intros [[]|e] _; wp_track; [|wp_end; split_and!; [by left|by left|by right|by exists false, true]].
  intros cleared _.
  exists {| t_calls := S (S n); t_held := RClipboard :: held;
            t_effects := effs0 ++ (if succeeded cleared then [Emptied] else []);
            t_failed := failed || negb (succeeded cleared) |}.
  split; [destruct cleared as [[]|e]; cbn; unfold plain, went; cbn; by rewrite ?app_nil_r, ?orb_false_r|].
  apply (wp_bind (match notice with Some n => _ ← set_clipboard_notice n; Ret tt | None => Ret tt end)).
  eapply wp_mono; [by eapply maybe_notice|]. intros _ s1 (kept & f & placed & Hh & Hk & Hkf & Hf & He).
  eapply wp_mono; [by eapply clear_tail|]. intros r s2 (Hh2 & He2 & Hf2 & Hr). cbn [t_held t_effects t_failed] in *.
  exists kept, (clear_effects (ClearClipboard notice) true placed r), (negb (succeeded cleared) || f).
  rewrite Hh2, He2, Hf2, He, Hf. cbn [clear_effects]. rewrite Hr, orb_assoc, <- app_assoc.
  split_and!; try done; [destruct Hkf as [?| ->]; [by left|right; apply orb_true_r]| |by exists true, placed].
  destruct r, cleared; try done; [left; by eexists|by right].
Qed.
(** *** Processes *)

(** Nothing is kept or done; the result is [v]. *)
Definition yields {A} (m : Prog A) (v : A) : Prop :=
  leaves m (fun a kept effs _ => kept = [] /\ effs = [] /\ a = v).

Lemma yields_ret {A} (a : A) : yields (Ret a) a.
Proof. by apply leaves_ret. Qed.
Lemma yields_bind {A C} (m : Prog A) (k : A -> Prog C) a c :
  yields m a -> yields (k a) c -> yields (m ≫= k) c.
Proof.
  intros Hm Hk. eapply leaves_bind; [apply Hm|]. intros a' kept effs f (-> & -> & ->).
  eapply leaves_mono; [apply Hk|]. intros c' kept effs f' (-> & -> & ->). by rewrite !app_nil_r.
Qed.

Lemma collect_yields {A C} (f : A -> Prog (option C)) (g : A -> option C) l :
  (forall a, yields (f a) (g a)) -> yields (collect f l) (omap g l).
Proof.
  intros Hf. induction l as [|a l IH]; cbn [collect]; [apply yields_ret|].
  eapply yields_bind; [apply Hf|]. eapply yields_bind; [apply IH|].
  cbn. destruct (g a); apply yields_ret.
Qed.

Lemma enum_yields : yields (ask EnumProcesses) v_processes.
Proof. wp_start. intros x ->. wp_track. by wp_end. Qed.

(** What opening a process and asking it yields. *)
Definition image_of (pid : Z) : option (list Z) := if v_opens pid then v_image pid else None.
Definition modules_of (pid : Z) : option (list str) :=
  if v_opens pid then map (fun m => from_utf16_lossy (v_module_name pid m)) <$> v_modules pid else None.

Definition tool_of (pid : Z) : option (Z * str) :=
  if pid =? 0 then None
  else
    units ← image_of pid;
    let path := from_utf16_lossy units in
    if bool_decide (is_Some (match_image path)) then Some (pid, path) else None.
Lemma remote_tool_yields pid : yields (remote_tool_at pid) (tool_of pid).
Proof.
  unfold remote_tool_at, tool_of, image_of. destruct (pid =? 0); [apply yields_ret|].
  wp_start. intros [h|e] [_ Ho]; cbn [succeeded] in Ho; rewrite <- Ho; wp_track; [|by wp_end].
  intros x Hx. specialize (Hx pid ltac:(held_now)). subst x. wp_track.
  intros [] _. wp_track. by wp_end.
Qed.
Lemma list_remote_tools_yields :
  yields list_remote_tool_calls (list_remote_tool_processes v_processes image_of).
Proof.
  unfold list_remote_tool_calls, list_remote_tool_processes. eapply yields_bind; [apply enum_yields|].
  destruct v_processes as [pids|]; cbn [default from_option id]; [|apply yields_ret].
  apply collect_yields, remote_tool_yields.
Qed.

Lemma terminate_leaves pid :
  leaves (terminate_process pid) (fun r kept effs _ =>
    kept = [] /\ effs = match r with Ok _ => [Terminated pid] | Err _ => [] end).
Proof.
  wp_start. intros [h|e] _; wp_track; [|by wp_end]. intros [[]|e] _; wp_track; intros [] _; wp_track; by wp_end.
Qed.

Lemma any_hypervisor_inspects h pid ms :
  inspects (RProcess h pid) (any_hypervisor h ms) (fun b =>
    b = existsb is_hypervisor_module (map (fun m => from_utf16_lossy (v_module_name pid m)) ms)).
Proof.
  induction ms as [|m ms IH]; [by apply inspects_ret|]. cbn [any_hypervisor map existsb].
  apply (inspects_bind _ _ _ (fun buf => buf = v_module_name pid m)).
  { inspect_start. intros x Hx. specialize (Hx pid ltac:(held_now)). subst x. wp_track.
    by inspect_end. }
  intros buf ->. destruct (v_module_name pid m) as [|u us] eqn:Hn.
  - cbn [length]. rewrite bool_decide_eq_true_2 by done. cbn [negb andb]. exact IH.
  - rewrite bool_decide_eq_false_2 by done. cbn [negb andb].
    destruct (is_hypervisor_module _); [by apply inspects_ret|]. exact IH.
Qed.

Definition hypervisor_of (pid : Z) : option Z :=
  if negb (pid =? 0) && match modules_of pid with
                        | Some ms => existsb is_hypervisor_module (take 1024 ms)
                        | None => false
                        end
  then Some pid else None.
Lemma hypervisor_yields pid : yields (hypervisor_at pid) (hypervisor_of pid).
Proof.
  unfold hypervisor_at, hypervisor_of, modules_of. destruct (pid =? 0); [apply yields_ret|]. cbn [negb andb].
  wp_start. intros [h|e] [_ Ho]; cbn [succeeded] in Ho; rewrite <- Ho; wp_track; [|by wp_end].
  intros x Hx. specialize (Hx pid ltac:(held_now)). subst x. wp_track.
  destruct (v_modules pid) as [ms|]; cbn [fmap option_fmap option_map].
  2:{ wp_cbn. intros [] _. wp_track. by wp_end. }
  apply (wp_bind (any_hypervisor h (take 1024 ms))). eapply wp_mono; [by eapply any_hypervisor_inspects|].
  intros b [n2 held2 effs2 failed2] (H1 & H2 & [f H3] & ->). cbn [t_held t_effects t_failed] in *. subst.
  intros [] _. wp_track. rewrite firstn_map. exists [], [], (negb true || negb (some (Some ms)) || f).
  cbn [t_held t_effects t_failed app]. rewrite !app_nil_r, !orb_false_r, !orb_assoc. by rewrite !orb_false_r.
Qed.
Lemma omap_filter {A} (p : A -> bool) l : omap (fun a => if p a then Some a else None) l = List.filter p l.
Proof. induction l as [|a l IH]; [done|]. cbn. rewrite IH. by destruct (p a). Qed.
Lemma hypervisor_pids_yields : yields hypervisor_pids_calls (hypervisor_pids v_processes modules_of).
Proof.
  unfold hypervisor_pids_calls, hypervisor_pids. eapply yields_bind; [apply enum_yields|].
  destruct v_processes as [pids|]; cbn [default from_option id]; [|apply yields_ret].
  rewrite <- omap_filter. apply collect_yields, hypervisor_yields.
Qed.

(** *** Data protection, devices and the registry *)

Lemma protect_leaves plain :
  leaves (protect_calls plain) (fun r kept effs _ => kept = [] /\ effs = [] /\ res_ok r = res_ok (v_protect plain)).
Proof.
  wp_start. intros [[p bs]|e] Hp; wp_track; [|by wp_end]. unfold take_and_free. wp_cbn.
  intros v Hv. specialize (Hv bs ltac:(held_now)). subst v. wp_track. intros [] _. wp_track. by wp_end.
Qed.
Lemma unprotect_leaves sealed :
  leaves (unprotect_calls sealed)
    (fun r kept effs _ => kept = [] /\ effs = [] /\ res_ok r = res_ok (v_unprotect sealed)).
Proof.
  wp_start. intros [[p bs]|e] Hp; wp_track; [|by wp_end]. unfold take_and_free. wp_cbn.
  intros v Hv. specialize (Hv bs ltac:(held_now)). subst v. wp_track. intros [] _. wp_track. by wp_end.
Qed.

Lemma query_identity_yields letter : yields (query_identity_calls letter) (query_device_identity letter).
Proof.
  unfold query_identity_calls, query_device_identity. wp_start.
  intros [h|e] [_ Ho]; cbn [succeeded] in Ho.
  - destruct (create_file_fails _); [done|]. wp_track. intros x Hx.
    specialize (Hx _ ltac:(held_now)). subst x. wp_track. intros [] _. wp_track. by wp_end.
  - destruct (create_file_fails _); [|done]. wp_track. by wp_end.
Qed.

(** What the effects make of the registry and the dismounted volumes. *)
Definition performed (e : Effect) (sys : System) : System :=
  match e with
  | ValueSet subkey name v =>
      {| registry := <[(subkey, name) := v]> (registry sys); dismounted := dismounted sys |}
  | DidDismount device => {| registry := registry sys; dismounted := dismounted sys ++ [drop 4 device] |}
  | _ => sys
  end.
Definition performed_all (effs : list Effect) (sys : System) : System := foldl (fun s e => performed e s) sys effs.

Lemma set_hklm_leaves subkey name v :
  leaves (set_hklm_calls subkey name v) (fun r kept effs _ => kept = [] /\
    forall sys, set_hklm subkey name v sys = (r, performed_all effs sys)).
Proof.
  unfold set_hklm. wp_start. intros [k|] Hk; cbn [some] in Hk; rewrite <- Hk; wp_track; [|by wp_end].
  intros x Hx. specialize (Hx _ ltac:(held_now)). subst x.
  destruct (reg_set_value subkey name); wp_track; intros [] _; wp_track; by wp_end.
Qed.

Lemma dismount_leaves letter :
  leaves (dismount_calls letter) (fun r kept effs _ => kept = [] /\
    forall sys, dismount_volume letter sys = (r, performed_all effs sys)).
Proof.
  unfold dismount_calls, dismount_volume. set (path := trim_end_matches _ _).
  wp_start. intros [h|e] [_ Ho]; cbn [succeeded] in Ho; rewrite <- Ho; wp_track; [|by wp_end].
  intros l Hl. specialize (Hl _ ltac:(held_now)). wp_track.
  intros d Hd. specialize (Hd _ ltac:(held_now)). rewrite <- Hl, <- Hd.
  destruct d as [[]|e]; wp_track; intros [] _; wp_track; destruct l as [[]|e']; wp_cbn; wp_end; split; try done;
    intros sys; by destruct sys.
Qed.
End Leaves.
