(* ===== verification/NativeRuns.v ===== *)
(** The native calls under any honest system: what every function of Native gives
    back, that it returns what its component's own definition says, and that the
    notice of a block reaches the user, in the agent's session or through a child
    in the console session. *)

From S2P Require Import Prelude Words Text F64 Unicode Fingerprint Bundle Edm Utf8 Extract Verdict.
From S2P Require Import TrustDest Device UsbPolicy Enforce Watch Supervise Crypto CopyAudit RemoteTools NetRules.
From S2P Require Import Config TrustSync UsbMonitor KGuard BrowserHost Clipboard Notify Exfil Egress Win32 Native.
#[local] Open Scope Z_scope.

(** ** What a notification may say, and its reading by the child *)

Definition clean_text (s : str) : Prop := forallb is_scalar s = true /\ (0 ∉ s).
(** A text that crosses the command line. *)
Definition text_ok (s : str) : Prop := clean_text s /\ no_trailing_backslash (clean_arg s).

Lemma clean_text_spec s : clean_text s <-> forall c, c ∈ s -> is_scalar c = true /\ c <> 0.
Proof.
  unfold clean_text. rewrite forallb_forall. setoid_rewrite <- list_elem_of_In. split.
  - intros [H1 H2] c Hc. split; [by apply H1|]. by intros ->.
  - intros H. split; [intros c Hc; by apply H|]. intros Hz. by destruct (H 0 Hz).
Qed.
Lemma clean_text_app s t : clean_text s -> clean_text t -> clean_text (s ++ t).
Proof. rewrite !clean_text_spec. intros Hs Ht c [Hc|Hc]%elem_of_app; auto. Qed.
Lemma clean_text_cons c s : is_scalar c = true -> c <> 0 -> clean_text s -> clean_text (c :: s).
Proof. rewrite !clean_text_spec. intros ? ? Hs d [->|Hd]%elem_of_cons; auto. Qed.
Lemma clean_text_nil : clean_text [].
Proof. apply clean_text_spec. intros c Hc. by apply elem_of_nil in Hc. Qed.

(** A literal is computed. *)
Ltac literal := split; [vm_compute; reflexivity|apply (bool_decide_unpack _); vm_compute; exact I].
Ltac clean_parts :=
  repeat first [assumption | apply clean_text_app | apply clean_text_nil
               | apply clean_text_cons; [done|done|] | literal].

Lemma elem_rev (s : str) c : c ∈ rev s <-> c ∈ s.
Proof. by rewrite !list_elem_of_In, <- in_rev. Qed.
Lemma elem_skip_while p (s : str) c : c ∈ skip_while p s -> c ∈ s.
Proof. induction s as [|d s IH]; cbn; [done|]. destruct (p d); [|done]. intros Hc. right. by apply IH. Qed.
Lemma elem_trim s c : c ∈ trim s -> c ∈ s.
Proof.
  unfold trim, trim_start_matches, trim_end_matches. intros H.
  rewrite elem_rev in H. apply elem_skip_while in H. rewrite elem_rev in H. by apply elem_skip_while in H.
Qed.
Lemma elem_filter_in (p : Z -> bool) s c : c ∈ List.filter p s -> c ∈ s /\ p c = true.
Proof. rewrite !list_elem_of_In. apply filter_In. Qed.

Lemma last_component_elem s c : c ∈ last_component s -> c ∈ s.
Proof.
  unfold last_component. rewrite elem_rev. intros H.
  rewrite <- (rev_involutive s), elem_rev.
  rewrite <- (take_while_app_skip (fun c => negb ((c =? 92) || (c =? 47))) (rev s)). apply elem_of_app. by left.
Qed.
Lemma sanitize_clean name : forallb is_scalar name = true -> clean_text (sanitize_display name).
Proof.
  rewrite forallb_forall. setoid_rewrite <- list_elem_of_In. intros Hs. unfold sanitize_display.
  assert (clean_text (trim (List.filter (fun c => negb (is_control c) && negb (c =? 34)) (last_component name)))) as Hc.
  { apply clean_text_spec. intros c Hc. apply elem_trim, elem_filter_in in Hc as [Hc Hp].
    split; [by apply Hs, last_component_elem|]. intros ->. by vm_compute in Hp. }
  destruct (96 <? _)%nat; [|done]. apply clean_text_app; [|literal]. rewrite clean_text_spec in Hc |- *.
  intros c Hin. apply Hc. rewrite <- (take_drop 93 (trim _)). apply elem_of_app. by left.
Qed.

Lemma hex_digit_clean d s : 0 <= d < 16 -> clean_text s -> clean_text (hex_digit_upper d :: s).
Proof.
  intros Hd Hs. unfold hex_digit_upper. apply clean_text_cons; [|destruct (Z.ltb_spec d 10); lia|done].
  unfold is_scalar. destruct (Z.ltb_spec d 10); apply orb_true_intro; left; apply andb_true_intro; lia.
Qed.
Lemma reference_clean n : clean_text (reference_of n).
Proof.
  unfold reference_of. assert (0 <= Z.land n 0xFFFF < 65536) as Hx.
  { change 0xFFFF with (Z.ones 16). rewrite Z.land_ones by lia. by apply Z.mod_pos_bound. }
  apply clean_text_app; [literal|]. repeat apply hex_digit_clean; try apply clean_text_nil;
    try (apply Z.mod_pos_bound; lia).
  split; [apply Z.div_pos; lia|]. apply Z.div_lt_upper_bound; lia.
Qed.

Lemma clean_arg_app s t : clean_arg (s ++ t) = clean_arg s ++ clean_arg t.
Proof. unfold clean_arg. by rewrite List.filter_app, map_app. Qed.
(** What comes before does not matter unless nothing comes after. *)
Lemma trailing_app s t :
  no_trailing_backslash (clean_arg s) -> no_trailing_backslash (clean_arg t) ->
  no_trailing_backslash (clean_arg (s ++ t)).
Proof.
  unfold no_trailing_backslash. rewrite clean_arg_app, last_app. intros Hs Ht.
  by destruct (last (clean_arg t)).
Qed.

Lemma join_clean ls : Forall clean_text ls -> clean_text (join [10] ls).
Proof.
  induction 1 as [|l ls Hl Hls IH]; [apply clean_text_nil|]. destruct ls as [|k ls]; [done|].
  change (join [10] (l :: k :: ls)) with (l ++ [10] ++ join [10] (k :: ls)). clean_parts.
Qed.
Lemma join_trailing (sep : str) (ls : list str) (l : str) : ls <> [] -> exists pre, join sep (ls ++ [l]) = pre ++ l.
Proof.
  intros Hne. induction ls as [|k ls IH]; [done|]. destruct ls as [|k' ls]; [by exists (k ++ sep); cbn; rewrite app_assoc|].
  destruct IH as [pre Hp]; [done|]. exists (k ++ sep ++ pre). cbn [join app] in *. by rewrite Hp, <- !app_assoc.
Qed.

Lemma channel_label_clean channel : clean_text (channel_label channel).
Proof. unfold channel_label. repeat case_match; literal. Qed.

Lemma build_message_ok cfg inc reference :
  text_ok (org_name cfg) -> forallb is_scalar (inc_file_name inc) = true -> clean_text reference ->
  text_ok (build_message cfg inc reference).1 /\ text_ok (build_message cfg inc reference).2.
Proof.
  intros [Ho Hb] Hf Hr. pose proof (sanitize_clean _ Hf) as Hs. pose proof (channel_label_clean (channel inc)) as Hc.
  assert (forall s, clean_text s -> last (clean_arg s) <> Some 92 -> text_ok s) as Hok by done.
  unfold build_message. destruct (notify_mode cfg); cbn [fst snd].
  - split; [split; [clean_parts|by apply trailing_app]|].
    set (ref := lit "Ref: " ++ reference ++ lit " " ++ [8212] ++ lit " contact security").
    assert (clean_text ref) as Href by (unfold ref; clean_parts).
    set (lines := if str_is_empty (sanitize_display (inc_file_name inc)) then _ else _).
    assert (Forall clean_text (lines ++ [lit "Channel: " ++ channel_label (channel inc); ref])) as Hl.
    { apply Forall_app. split; [unfold lines; destruct (str_is_empty _); repeat constructor; clean_parts|].
      repeat constructor; clean_parts. }
    split; [by apply join_clean|].
    destruct (join_trailing [10] (lines ++ [lit "Channel: " ++ channel_label (channel inc)]) ref) as [pre Hp];
      [by destruct lines|]. rewrite <- app_assoc in Hp. cbn [app] in Hp. rewrite Hp.
    unfold ref. rewrite !app_assoc. unfold no_trailing_backslash. rewrite clean_arg_app, last_app.
    by vm_compute (last (clean_arg (lit " contact security"))).
  - split; [done|]. apply Hok; [literal|by vm_compute].
  - split; apply Hok; [apply clean_text_nil|done|apply clean_text_nil|done].
Qed.

Lemma cmdline_clean exe aumid title body :
  clean_text exe -> clean_text aumid -> clean_text title -> clean_text body ->
  clean_text (build_toast_cmdline exe aumid title body).
Proof.
  assert (forall s, clean_text s -> clean_text (clean_arg s)) as Hca.
  { intros s. rewrite !clean_text_spec. unfold clean_arg. intros Hs c Hc.
    apply list_elem_of_In, in_map_iff in Hc as (d & <- & Hd). apply list_elem_of_In, elem_filter_in in Hd as [Hd _].
    destruct (d =? 10); [done|]. by apply Hs. }
  intros. unfold build_toast_cmdline, quoted. pose proof Hca as Hca'.
  repeat first [apply clean_text_app | apply clean_text_nil | apply Hca; assumption
               | apply clean_text_cons; [done|done|] | literal].
Qed.

(** The reading of its command line by the child that a process was started as. *)
Definition child_toast (units : list Z) : option Toast :=
  run_child (from_utf16_lossy (take_while (fun u => negb (u =? 0)) units)).
Lemma child_reads exe aumid title body :
  clean_text exe -> text_ok aumid -> text_ok title -> text_ok body ->
  child_toast (wide (build_toast_cmdline exe aumid title body)) =
    Some (if str_is_empty (clean_arg aumid) then lit "Resec.DLP.Agent" else clean_arg aumid,
          clean_arg title, map (fun c => if c =? 0x2028 then 10 else c) (clean_arg body)).
Proof.
  intros He [Ha Ha'] [Ht Ht'] [Hb Hb']. destruct (cmdline_clean _ _ _ _ He Ha Ht Hb) as [Hc Hn].
  unfold child_toast, wide.
  rewrite take_while_app by (intros u Hu; by apply (proj2 (encode_utf16_units _ Hc Hn))).
  cbn [take_while Z.eqb negb]. rewrite app_nil_r, from_encode_utf16 by done.
  apply toast_crosses_sessions; [|by repeat constructor].
  repeat constructor; [apply He|apply Ha|apply Ht|apply Hb].
Qed.

(** ** Under any honest system *)

Section Systems.
Context {M : WinView}.

Definition runs_to {A} (o : Oracle) (m : Prog A) (P : A -> Track -> Prop) : Prop :=
  exists a s, run o m track_start = Some (a, s) /\ P a s.
Definition releases {A} (o : Oracle) (m : Prog A) : Prop := runs_to o m (fun _ s => t_held s = []).

Lemma leaves_runs {A} o (m : Prog A) P (Q : A -> Track -> Prop) :
  honest o -> leaves m P -> (forall a s, P a (t_held s) (t_effects s) (t_failed s) -> Q a s) -> runs_to o m Q.
Proof.
  intros Ho Hm Hq. destruct (leaves_sound m P o Ho Hm) as (a & s & Hr & HP). exists a, s. auto.
Qed.
Lemma leaves_releases {A} o (m : Prog A) P :
  honest o -> leaves m P -> (forall a kept effs f, P a kept effs f -> kept = []) -> releases o m.
Proof. intros Ho Hm Hk. eapply leaves_runs; [done|exact Hm|]. intros a s. apply Hk. Qed.
Lemma yields_runs {A} o (m : Prog A) v : honest o -> yields m v -> runs_to o m (fun a _ => a = v).
Proof. intros Ho Hm. eapply leaves_runs; [done|exact Hm|]. by intros a s (_ & _ & ->). Qed.

(** C32: Fourteen functions that make native calls hold on to nothing.  Whatever a
    system that keeps its documentation answers, each ends, never uses or frees a
    handle, buffer, lock or clipboard it does not hold, and has given all of them
    back when it returns: [current_session], [console_username], [show_toast],
    [read_snapshot], [list_remote_tool_processes], [hypervisor_pids],
    [terminate_process], [protect], [unprotect], [query_device_identity],
    [dismount_volume] and [set_hklm] without exception; [spawn_toast_in_session]
    unless it loses the executable's path after the environment block was made,
    which it then keeps; the clipboard's [execute_live] unless a call for its
    notice failed, whose memory it then can keep.  Outside are the clipboard's
    message window, the filtering engine's session, the driver's port and the TCP
    tables. *)
Theorem native_calls_release o :
  honest o ->
  releases o current_session /\ releases o console_username /\
  (forall title body aumid, releases o (show_toast title body aumid)) /\
  releases o read_snapshot_calls /\ releases o list_remote_tool_calls /\ releases o hypervisor_pids_calls /\
  (forall pid, releases o (terminate_process pid)) /\
  (forall bs, releases o (protect_calls bs) /\ releases o (unprotect_calls bs)) /\
  (forall letter, releases o (query_identity_calls letter) /\ releases o (dismount_calls letter)) /\
  (forall subkey name v, releases o (set_hklm_calls subkey name v)) /\
  (forall session aumid title body, runs_to o (spawn_toast_in_session session aumid title body) (fun r s =>
     t_held s = [] \/ exists env, t_held s = [REnvironment env] /\ exe_failed r)) /\
  (forall plan, runs_to o (clear_calls plan) (fun _ s =>
     t_held s = [] \/ t_failed s = true /\ exists h bs, t_held s = [RMemory h bs])).
Proof.
  intros Ho. split_and!; intros.
  - eapply leaves_releases; [done|apply current_session_leaves|]. by intros ???? (-> & _).
  - eapply leaves_releases; [done|apply console_username_leaves|]. by intros ???? [-> _].
  - eapply leaves_releases; [done|apply show_toast_leaves|]. by intros ???? [-> _].
  - eapply leaves_releases; [done|apply read_snapshot_leaves|]. by intros ???? [-> _].
  - eapply leaves_releases; [done|apply list_remote_tools_yields|]. by intros ???? [-> _].
  - eapply leaves_releases; [done|apply hypervisor_pids_yields|]. by intros ???? [-> _].
  - eapply leaves_releases; [done|apply terminate_leaves|]. by intros ???? [-> _].
  - split; (eapply leaves_releases; [done|first [apply protect_leaves|apply unprotect_leaves]|]); by intros ???? [-> _].
  - split; (eapply leaves_releases; [done|first [apply query_identity_yields|apply dismount_leaves]|]);
      by intros ???? [-> _].
  - eapply leaves_releases; [done|apply set_hklm_leaves|]. by intros ???? [-> _].
  - eapply leaves_runs; [done|apply spawn_leaves|]. by intros r s [Hk _].
  - eapply leaves_runs; [done|apply clear_leaves|]. intros r s ([?|Hm] & Hf & _); [by left|].
    destruct Hf as [?|?]; [by left|by right].
Qed.

(** C33: What the native calls return is what the components' own definitions say of
    the machine: the snapshot of the clipboard, the remote-access tools and
    hypervisors among the processes, the identity of a device, the protected
    bytes, and the registry and volumes after a value was set or a volume
    dismounted. *)
Theorem native_calls_refine o :
  honest o ->
  runs_to o read_snapshot_calls (fun p _ => exists opened, p = read_snapshot opened clipboard_view) /\
  runs_to o list_remote_tool_calls (fun l _ => l = list_remote_tool_processes v_processes image_of) /\
  runs_to o hypervisor_pids_calls (fun l _ => l = hypervisor_pids v_processes modules_of) /\
  (forall letter, runs_to o (query_identity_calls letter) (fun r _ => r = query_device_identity letter)) /\
  (forall bs, runs_to o (protect_calls bs) (fun r _ => res_ok r = res_ok (v_protect bs)) /\
              runs_to o (unprotect_calls bs) (fun r _ => res_ok r = res_ok (v_unprotect bs))) /\
  (forall subkey name v, runs_to o (set_hklm_calls subkey name v) (fun r s =>
     forall sys, set_hklm subkey name v sys = (r, performed_all (t_effects s) sys))) /\
  (forall letter, runs_to o (dismount_calls letter) (fun r s =>
     forall sys, dismount_volume letter sys = (r, performed_all (t_effects s) sys))).
Proof.
  intros Ho. split_and!; intros.
  - eapply leaves_runs; [done|apply read_snapshot_leaves|]. by intros p s (_ & _ & ?).
  - apply yields_runs; [done|apply list_remote_tools_yields].
  - apply yields_runs; [done|apply hypervisor_pids_yields].
  - apply yields_runs; [done|apply query_identity_yields].
  - split; (eapply leaves_runs; [done|first [apply protect_leaves|apply unprotect_leaves]|]); by intros r s (_ & _ & ?).
  - eapply leaves_runs; [done|apply set_hklm_leaves|]. by intros r s [_ ?].
  - eapply leaves_runs; [done|apply dismount_leaves|]. by intros r s [_ ?].
Qed.

(** C34: The notice of a block reaches the user.  When the hook lets a toast through
    and its texts can cross a command line, dispatching it has one effect: in a
    user's session it shows exactly that toast; in the service's session 0 (or when
    the session cannot be read) it starts one child in the session at the console
    whose reading of its command line is that toast again (its quotes dropped, a
    line separator read as a newline).  Nothing at all is done only when a call
    failed, or when the service finds nobody at the console. *)
Theorem notice_reaches_user o cfg inc now st st' aumid title body :
  honest o -> text_ok (org_name cfg) -> text_ok (Config.aumid cfg) -> forallb is_scalar (inc_file_name inc) = true ->
  on_block_for_incident cfg inc now st = (Some (aumid, title, body), st') ->
  runs_to o (dispatch aumid title body) (fun _ s =>
    (t_effects s = [] /\ (t_failed s = true \/ v_session = 0 /\ v_console = INVALID_SESSION)) \/
    (v_session <> 0 /\ exists xml,
       t_effects s = [Showed aumid xml] /\ xml_element_text xml (lit "text") = [title; body]) \/
    ((v_session = 0 \/ t_failed s = true) /\ v_console <> INVALID_SESSION /\ exists units,
       t_effects s = [Started (Some v_console) units] /\
       child_toast units =
         Some (if str_is_empty (clean_arg aumid) then lit "Resec.DLP.Agent" else clean_arg aumid,
               clean_arg title, map (fun c => if c =? 0x2028 then 10 else c) (clean_arg body)))).
Proof.
  intros Ho Horg Haumid Hf Hb. assert (text_ok aumid /\ text_ok title /\ text_ok body) as (Ha & Ht & Hbody).
  { unfold on_block_for_incident in Hb. destruct (negb _); [done|]. destruct (_ || _); [done|].
    destruct (throttle_allow _ _ _ _ _) as [ok t]. destruct (negb ok); [done|].
    unfold next_reference in Hb.
    destruct (build_message_ok cfg inc (reference_of (counter st)) Horg Hf (reference_clean _)) as [H1 H2].
    destruct (build_message _ _ _) as [ti bo]. by simplify_eq. }
  eapply leaves_runs; [done|apply dispatch_leaves|]. intros [] s [_ Hd].
  destruct Hd as [Hd|[[Hs Hd]|(Hs & Hc & exe & He & Hz & Hd)]]; [by left| |].
  - right; left. split; [done|]. eexists. split; [exact Hd|]. apply toast_xml_texts.
  - right; right. split; [done|]. split; [done|]. eexists. split; [exact Hd|]. by apply child_reads.
Qed.
End Systems.

(** ** A machine and its system *)

(** Text on the clipboard, three processes of which one runs AnyDesk and one loads
    the hypervisor's library, and data protection that prepends a byte. *)
Definition sample_machine : WinView := {|
  v_session := 0; v_console := 3;
  v_formats := [CF_UNICODETEXT];
  v_html := 49300; v_rtf := 49301;
  v_data := fun fmt => if fmt =? CF_UNICODETEXT then Some 77 else None;
  v_memory := fun h => if h =? 77 then utf16le (lit "plan") ++ [0; 0] else [];
  v_lockable := fun h => true;
  v_processes := Some [0; 4; 1000; 2000];
  v_opens := fun pid => negb (pid =? 4);
  v_image := fun pid => if pid =? 1000 then Some (encode_utf16 (lit "C:\AnyDesk.exe")) else Some [];
  v_modules := fun pid => if pid =? 2000 then Some [5; 6] else Some [5];
  v_module_name := fun _ m => if m =? 6 then encode_utf16 (lit "C:\x\vboxvmm.dll") else [];
  v_protect := fun bs => Ok (1 :: bs);
  v_unprotect := fun bs => match bs with 1 :: b => Ok b | _ => Err (lit "bad") end;
  v_volumes := {| logical_drives := 0; drive_type := fun _ => DRIVE_FIXED;
                  create_file_fails := fun _ => false; query_property := fun _ => None |};
  v_enforce := all_ok;
|}.

(** The system answers as the machine is, with a fresh handle each time; [exe] is
    the path of the agent. *)
Definition sample_system (exe : result str str) (placed : bool) : Oracle := fun s X c =>
  let h := 100 + Z.of_nat (t_calls s) in
  let ok : result str unit := Ok tt in
  match c in WinCall X return X with
  | OpenProcessToken | CreateEnvironment _ | QuerySessionUser _ | RegCreateKey _ => Some h
  | TokenSession _ => Some 0
  | ActiveConsoleSession => 3
  | QueryUserToken _ | GlobalAlloc _ | CreateFile _ _ => Ok h
  | CurrentExe => exe
  | CreateProcessAsUser _ _ _ => Ok (h, h + 1000)
  | ReadWide _ => Some (lit "amy")
  | EnumProcesses => v_processes (WinView := sample_machine)
  | OpenProcess pid => if v_opens (WinView := sample_machine) pid then Ok h else Err (lit "denied")
  | QueryImageName p => pid ← held_at (pid_at p) s; v_image (WinView := sample_machine) pid
  | EnumModules p => pid ← held_at (pid_at p) s; v_modules (WinView := sample_machine) pid
  | ModuleFileName p m => default [] (pid ← held_at (pid_at p) s; Some (v_module_name (WinView := sample_machine) pid m))
  | TerminateProcess _ | NewDocument | LoadXml _ | NewToast _ | NewNotifier _ | ShowToast _ _ => ok
  | OpenClipboard | EmptyClipboard | LockVolume _ | DismountVolume _ => ok
  | SetClipboardData _ _ => if placed then ok else Err (lit "no owner")
  | RegisterFormat name =>
      if bool_decide (name = wide (lit "HTML Format")) then 49300
      else if bool_decide (name = wide (lit "Rich Text Format")) then 49301 else 0
  | FormatAvailable fmt => bool_decide (fmt ∈ v_formats (WinView := sample_machine))
  | GetClipboardData fmt => v_data (WinView := sample_machine) fmt
  | GlobalSize m => length (v_memory (WinView := sample_machine) m)
  | GlobalLock m => v_lockable (WinView := sample_machine) m
  | ReadMemory m n => take n (v_memory (WinView := sample_machine) m)
  | CryptProtect bs => Ok (h, 1 :: bs)
  | CryptUnprotect bs => match bs with 1 :: b => Ok (h, b) | _ => Err (lit "bad") end
  | ReadBlob p => default [] (held_at (blob_at p) s)
  | QueryProperty _ => None
  | RegSetValue _ _ _ => true
  | CloseHandle _ | DestroyEnvironment _ | FreeWtsMemory _ | CloseClipboard | WriteMemory _ _ | GlobalUnlock _
  | Sleep _ | LocalFree _ | RegCloseKey _ => tt
  end.

Lemma sample_honest exe placed :
  (forall e, exe = Ok e -> clean_text e) -> honest (M := sample_machine) (sample_system exe placed).
Proof.
  intros He s X c.
  assert (forall z, 0 < z -> is_invalid z = false) as Hv by (intros z Hz; apply orb_false_intro; apply Z.eqb_neq; lia).
  assert (valid (Some (100 + Z.of_nat (t_calls s)))) as Hs by (intros h [= <-]; apply Hv; lia).
  destruct c; cbn [answers]; try exact I; try exact Hs; try done; unfold sample_system.
  - intros _. by right.
  - split; intros x [= <-]; apply Hv; lia.
  - destruct (v_opens pid) eqn:Hp; (split; [|reflexivity]); [exact Hs|done].
  - by intros pid ->.
  - by intros pid ->.
  - by intros pid ->.
  - split; intros ->; [by rewrite bool_decide_eq_true_2 by done|].
    rewrite bool_decide_eq_false_2 by (apply (bool_decide_unpack _); vm_compute; exact I).
    by rewrite bool_decide_eq_true_2 by done.
  - by destruct sealed as [|[|[]|] ?].
  - by intros bs ->.
  - split; [exact Hs|]. by destruct write.
Qed.

(** The memory of the notice stays allocated when the clipboard does not take it. *)
Example notice_memory_leaks :
  (fun r => (r.1, t_held r.2)) <$> run (sample_system (Ok (lit "a.exe")) false) (clear_calls (clip_plan true (Some NOTICE))) track_start =
  Some (Ok tt, [RMemory 102 (notice_bytes NOTICE)]).
Proof. vm_compute. reflexivity. Qed.

(** The environment block stays allocated when the path of the agent is unknown. *)
Example environment_leaks :
  (fun r => (t_held r.2, t_effects r.2)) <$>
    run (sample_system (Err (lit "gone")) true) (dispatch (lit "a") (lit "t") (lit "b")) track_start =
  Some ([REnvironment 105], []).
Proof. vm_compute. reflexivity. Qed.

Lemma native_calls_release_witness :
  releases (sample_system (Ok (lit "a.exe")) true) read_snapshot_calls /\
  releases (sample_system (Ok (lit "a.exe")) true) (terminate_process 1000) /\
  t_held <$> (snd <$> run (sample_system (Ok (lit "a.exe")) true) (terminate_process 1000) track_start) = Some [] /\
  t_effects <$> (snd <$> run (sample_system (Ok (lit "a.exe")) true) (terminate_process 1000) track_start) =
    Some [Terminated 1000].
Proof.
  assert (honest (M := sample_machine) (sample_system (Ok (lit "a.exe")) true)) as Ho.
  { apply sample_honest. intros e [= <-]. literal. }
  pose proof (native_calls_release (M := sample_machine) _ Ho) as (_ & _ & _ & Hr & _ & _ & Ht & _).
  split; [exact Hr|]. split; [apply Ht|]. split; vm_compute; reflexivity.
Defined.

Lemma native_calls_refine_witness :
  runs_to (sample_system (Ok (lit "a.exe")) true) list_remote_tool_calls (fun l _ => l = [(1000, lit "C:\AnyDesk.exe")]) /\
  runs_to (sample_system (Ok (lit "a.exe")) true) hypervisor_pids_calls (fun l _ => l = [2000]) /\
  fst <$> run (sample_system (Ok (lit "a.exe")) true) read_snapshot_calls track_start = Some (Some (PText (lit "plan"))).
Proof.
  assert (honest (M := sample_machine) (sample_system (Ok (lit "a.exe")) true)) as Ho.
  { apply sample_honest. intros e [= <-]. literal. }
  pose proof (native_calls_refine (M := sample_machine) _ Ho) as (_ & (l & s & Hl & El) & (h & s' & Hh & Eh) & _).
  split; [|split].
  - exists l, s. split; [exact Hl|]. rewrite El. vm_compute. reflexivity.
  - exists h, s'. split; [exact Hh|]. rewrite Eh. vm_compute. reflexivity.
  - vm_compute. reflexivity.
Defined.

(** The service tells the user in session 3 about a blocked copy. *)
Lemma notice_reaches_user_witness :
  exists aumid title body st',
    on_block_for_incident default_notify blocked_incident 0 {| throttle := None; counter := 26 |} =
      (Some (aumid, title, body), st') /\
    runs_to (sample_system (Ok (lit "C:\a.exe")) true) (dispatch aumid title body) (fun _ s =>
      exists units, t_effects s = [Started (Some 3) units] /\ child_toast units = Some (aumid, title, body)).
Proof.
  eexists _, _, _, _. split; [vm_compute; reflexivity|].
  match goal with |- runs_to _ (dispatch ?a ?t ?b) _ =>
    destruct (notice_reaches_user (M := sample_machine) (sample_system (Ok (lit "C:\a.exe")) true)
      default_notify blocked_incident 0 {| throttle := None; counter := 26 |}
      (on_block_for_incident default_notify blocked_incident 0 {| throttle := None; counter := 26 |}).2 a t b)
      as ([] & s & Hr & _)
  end.
  - apply sample_honest. intros e [= <-]. literal.
  - split; [literal|by vm_compute].
  - split; [literal|by vm_compute].
  - vm_compute. reflexivity.
  - vm_compute. reflexivity.
  - eexists tt, s. split; [exact Hr|]. vm_compute in Hr. injection Hr as <-.
    eexists. split; [reflexivity|]. vm_compute. reflexivity.
Defined.
