(* ===== verification/State.v ===== *)
(** The agent's protected state ([src/storage.rs]) and what the server changes in
    it: enrollment ([src/enroll.rs]), check-in and the trusted-configuration sync
    ([src/checkin.rs]), the index update and the choice of the keyring
    ([src/main.rs]).  The state directory is a map from file name to content in
    the file-system monad of the copy auditor; a write passes through every
    prefix of its content, so a crash at any moment is one of the states gone
    through.  DPAPI, JSON, TLS clients and the server's replies are parameters. *)

From S2P Require Import Prelude Words Text F64 Unicode Fingerprint Bundle Edm Utf8 Extract Verdict.
From S2P Require Import TrustDest Device UsbPolicy Enforce Watch Supervise Crypto CopyAudit.
From S2P Require Import RemoteTools NetRules Config TrustSync.
#[local] Open Scope Z_scope.

(** ** The state directory *)

Definition IDENTITY_FILE : str := lit "identity.sealed".
Definition CA_FILE : str := lit "ca.pem".
Definition META_FILE : str := lit "agent.json".
Definition POLICY_FILE : str := lit "cached-policy.json".
Definition INDEX_FILE : str := lit "index.dlpx".
Definition INDEX_TMP : str := lit "index.dlpx.tmp".
Definition KEYRING_FILE : str := lit "keyring.sealed".
Definition TRUSTED_DEST_FILE : str := lit "trusted-destinations.json".

Record AgentMeta := { agent_id : str; meta_interval : Z }.

(** [self.path(name)], below the state directory. *)
Definition path (name : str) : Path := [name].

(** Which calls fail: opening a file for writing, writing it after so many bytes,
    and the others by the file they are for. *)
Inductive WriteFault := NotOpened (e : str) | Torn (e : str) (written : nat).
Record DiskFaults := {
  mkdir_fails : option str;
  open_fails : str -> option str;
  write_fault : str -> option WriteFault;
  unlink_fails : str -> option str;
  move_fails : option str;
}.

Class StateEnv := {
  dpapi_protect : bytes -> result str bytes;
  dpapi_unprotect : bytes -> result str bytes;
  meta_to_vec : AgentMeta -> result str bytes;
  meta_from_slice : bytes -> result str AgentMeta;
}.
Class StateLaws (S : StateEnv) := {
  dpapi_roundtrip plain sealed : dpapi_protect plain = Ok sealed -> dpapi_unprotect sealed = Ok plain;
}.

(** [r.context(e)] *)
Definition context {A} (e : str) (m : FsM A) : FsM A := catch m (fun _ => fail e).
(** The result of [m] as a value. *)
Definition attempt {A} (m : FsM A) : FsM (result str A) := fun tr fs =>
  let '(r, tr, fs) := m tr fs in (Ok r, tr, fs).

Section Disk.
Context (ft : DiskFaults).

Definition exists_file (name : str) : FsM bool := fun tr fs =>
  (Ok (bool_decide (is_Some (fs !! path name))), tr, fs).
Definition read_file (name : str) : FsM bytes := fun tr fs =>
  match open_fails ft name, fs !! path name with
  | Some e, _ => (Err e, tr, fs)
  | None, Some b => (Ok b, tr, fs)
  | None, None => (Err (lit "not found"), tr, fs)
  end.
(** [fs::write]: the file is truncated, then grows to [data]. *)
Definition put_file (name : str) (data : bytes) : FsM unit := fun tr fs =>
  (Ok tt, tr ++ fs :: map (fun k => <[path name := take k data]> fs) (seq 0 (length data)),
   <[path name := data]> fs).
Definition write_file (name : str) (data : bytes) : FsM unit :=
  match write_fault ft name with
  | Some (NotOpened e) => fail e
  | Some (Torn e n) => _ ← put_file name (take n data); fail e
  | None => put_file name data
  end.
Definition create_dir : FsM unit := failing (mkdir_fails ft) (mret tt).
Definition unlink (name : str) : FsM unit := failing (unlink_fails ft name) (effect (delete (path name))).
Definition move_file (p q : str) : FsM unit :=
  failing (move_fails ft)
    (effect (fun fs => match fs !! path p with Some b => <[path q := b]> (delete (path p) fs) | None => fs end)).
End Disk.

(** ** [Storage]

    An error carries the message of its outermost context; a path in a message is
    left out or is the file's name. *)

Section Storage.
Context {S : StateEnv} (ft : DiskFaults).

Definition has_identity : FsM bool := exists_file IDENTITY_FILE.

Definition save_identity (identity_pem ca_pem : bytes) (meta : AgentMeta) : FsM unit :=
  _ ← context (lit "creating state dir") (create_dir ft);
  sealed ← context (lit "sealing identity") (lift (dpapi_protect identity_pem));
  _ ← context (lit "writing identity.sealed") (write_file ft IDENTITY_FILE sealed);
  _ ← context (lit "writing CA") (write_file ft CA_FILE ca_pem);
  m ← lift (meta_to_vec meta);
  context (lit "writing meta") (write_file ft META_FILE m).

Definition load_identity : FsM (bytes * bytes) :=
  enrolled ← has_identity;
  if negb enrolled then fail (lit "not enrolled " ++ [8212] ++ lit " no stored identity")
  else
    sealed ← context (lit "reading identity") (read_file ft IDENTITY_FILE);
    identity_pem ← context (lit "unsealing identity") (lift (dpapi_unprotect sealed));
    ca_pem ← context (lit "reading CA") (read_file ft CA_FILE);
    mret (identity_pem, ca_pem).

Definition load_meta : FsM AgentMeta :=
  bs ← context (lit "reading meta") (read_file ft META_FILE);
  lift (meta_from_slice bs).

Definition cache_policy (policy_json : bytes) : FsM unit :=
  context (lit "caching policy") (write_file ft POLICY_FILE policy_json).

Definition load_index_bundle : FsM (option bytes) :=
  r ← attempt (read_file ft INDEX_FILE); mret (res_ok r).

Definition store_index_bundle (bs : bytes) : FsM unit :=
  _ ← context (lit "creating state dir") (create_dir ft);
  _ ← context (lit "writing index bundle (temp)") (write_file ft INDEX_TMP bs);
  present ← exists_file INDEX_FILE;
  _ ← (if present : bool
       then context (lit "removing previous index bundle") (unlink ft INDEX_FILE)
       else mret tt);
  context (lit "swapping index bundle into place") (move_file ft INDEX_TMP INDEX_FILE).

Definition store_keyring (keyring_json : bytes) : FsM unit :=
  _ ← context (lit "creating state dir") (create_dir ft);
  sealed ← context (lit "sealing keyring") (lift (dpapi_protect keyring_json));
  context (lit "writing keyring.sealed") (write_file ft KEYRING_FILE sealed).

Definition load_keyring : FsM (option bytes) :=
  present ← exists_file KEYRING_FILE;
  if negb present then mret None
  else
    sealed ← context (lit "reading sealed keyring") (read_file ft KEYRING_FILE);
    bs ← context (lit "unsealing keyring") (lift (dpapi_unprotect sealed));
    mret (Some bs).

Definition store_trusted_destinations (json : bytes) : FsM unit :=
  _ ← context (lit "creating state dir") (create_dir ft);
  context (lit "writing trusted destinations") (write_file ft TRUSTED_DEST_FILE json).
Definition load_trusted_destinations : FsM (option bytes) :=
  r ← attempt (read_file ft TRUSTED_DEST_FILE); mret (res_ok r).
End Storage.

(** ** The server

    A reply is the status and the body, or the error of the request. *)

Definition Reply : Type := result str (Z * bytes).
Definition is_success (status : Z) : bool := (200 <=? status) && (status <? 300).

Record EnrollRequest := {
  er_token : str; er_csr_pem : str; er_hostname : str; er_os : str; er_agent_version : str;
}.
Record EnrollResponse := {
  er_agent_id : str; er_certificate : str; er_ca : bytes; er_interval : Z;
}.
Record CheckinResponse := {
  cr_status : str;
  cr_agent_id : str;
  cr_interval : Z;
  (** the value's text; [None] for null *)
  cr_policy_bundle : option bytes;
  (** [index.latest] *)
  cr_index : option Z;
}.
Record CheckinOutcome := { interval_seconds : Z; index_latest : Z }.

(** How an HTTP client is configured. *)
Record ClientConfig (Cert Ident : Type) := {
  cc_builtin_roots : bool;
  cc_root : Cert;
  cc_identity : option Ident;
  cc_timeout_secs : Z;
}.
Arguments Build_ClientConfig {Cert Ident} _ _ _ _.

Class ServerEnv := {
  (** the HTTP library: the root and the client identity it parses, and whether
      it builds a client with them *)
  TlsCertificate : Type;
  TlsIdentity : Type;
  tls_certificate : bytes -> option TlsCertificate;
  tls_identity : bytes -> option TlsIdentity;
  tls_build : ClientConfig TlsCertificate TlsIdentity -> bool;
  (** the RSA and X.509 libraries; [rsa_generate] draws its randomness *)
  RsaPrivateKey : Type;
  X509Name : Type;
  RequestBuilder : Type;
  CertReq : Type;
  rsa_generate : Z -> option RsaPrivateKey;
  to_pkcs8_pem : RsaPrivateKey -> option str;
  x509_name : str -> option X509Name;
  request_builder : X509Name -> RsaPrivateKey -> option RequestBuilder;
  sign_request : RequestBuilder -> option CertReq;
  csr_to_pem : CertReq -> option str;
  status_text : Z -> str;
  body_text : bytes -> str;
  enroll_response : bytes -> option EnrollResponse;
  checkin_response : bytes -> option CheckinResponse;
  trusted_config : bytes -> option TrustedConfig;
}.

(** ** The TLS clients and the key pair *)

Definition TIMEOUT : Z := 30.
Definition KEY_BITS : Z := 2048.

Section Clients.
Context {V : ServerEnv}.

Definition enroll_client (ca_pem : bytes) : result str unit :=
  ca ← ok_or (tls_certificate ca_pem) (lit "parsing CA certificate");
  if tls_build (Build_ClientConfig false ca None TIMEOUT) then Ok tt
  else Err (lit "building enrollment client").
Definition checkin_client (ca_pem identity_pem : bytes) : result str unit :=
  ca ← ok_or (tls_certificate ca_pem) (lit "parsing CA certificate");
  identity ← ok_or (tls_identity identity_pem) (lit "loading agent client identity");
  if tls_build (Build_ClientConfig false ca (Some identity) TIMEOUT) then Ok tt
  else Err (lit "building check-in client").

(** The common name as an RDN value: none of [= , +] is left in it. *)
Definition safe_cn (common_name : str) : str :=
  map (fun c => if bool_decide (c = 61) || bool_decide (c = 44) || bool_decide (c = 43) then 45 else c) common_name.
(** The private key and the request, as PEM. *)
Definition identity_generate (common_name : str) : result str (str * str) :=
  private_key ← ok_or (rsa_generate KEY_BITS) (lit "RSA key generation");
  private_key_pem ← ok_or (to_pkcs8_pem private_key) (lit "encoding private key");
  subject ← ok_or (x509_name (lit "CN=" ++ safe_cn common_name)) (lit "building CSR subject");
  builder ← ok_or (request_builder subject private_key) (lit "CSR builder");
  csr ← ok_or (sign_request builder) (lit "signing CSR");
  csr_pem ← ok_or (csr_to_pem csr) (lit "encoding CSR");
  Ok (private_key_pem, csr_pem).
End Clients.

Section Server.
Context {S : StateEnv} {V : ServerEnv} {J : JsonEnv} {B : BundleEnv} {E : CryptoEnv} (ft : DiskFaults).

Definition refused (what : str) (status : Z) (body : str) : str :=
  what ++ lit " [" ++ status_text status ++ lit "]" ++ body.

(** The reply's body when the request went through and was accepted.  A body that
    cannot be read after the status is the error of the request here; the code
    fails at the same place with another message. *)
Definition accepted_body (request refusal : str) (with_body : bool) (reply : Reply) : FsM bytes :=
  '(status, body) ← lift (map_err (fun _ => request) reply);
  if is_success status then mret body
  else fail (refused refusal status (if with_body then lit ": " ++ body_text body else [])).

Definition enroll (token : option str) (hostname os version : str) (ca_file : result str bytes)
    (send : EnrollRequest -> Reply) : FsM AgentMeta :=
  token ← lift (ok_or token (lit "no enrollment token configured " ++ [8212] ++ lit " cannot enroll"));
  '(private_key_pem, csr_pem) ← lift (map_err (fun _ => lit "generating identity") (identity_generate hostname));
  ca_pem ← lift (map_err (fun _ => lit "reading pinned CA") ca_file);
  _ ← lift (enroll_client ca_pem);
  body ← accepted_body (lit "enrollment request failed (server unreachable?)") (lit "enrollment rejected") true
           (send {| er_token := token; er_csr_pem := csr_pem; er_hostname := hostname; er_os := os;
                    er_agent_version := version |});
  er ← lift (ok_or (enroll_response body) (lit "parsing enrollment response"));
  let meta := {| agent_id := er_agent_id er; meta_interval := er_interval er |} in
  _ ← context (lit "saving enrolled identity")
        (save_identity ft (as_bytes (private_key_pem ++ er_certificate er)) (er_ca er) meta);
  mret meta.

Definition ensure_enrolled (token : option str) (hostname os version : str) (ca_file : result str bytes)
    (send : EnrollRequest -> Reply) : FsM unit :=
  enrolled ← has_identity;
  if enrolled : bool then mret tt
  else meta ← enroll token hostname os version ca_file send; mret tt.

(** The identity and a client built on it. *)
Definition authenticated : FsM (bytes * bytes) :=
  '(identity_pem, ca_pem) ← load_identity ft;
  _ ← lift (checkin_client ca_pem identity_pem);
  mret (identity_pem, ca_pem).

Definition checkin_full (reply : Reply) : FsM CheckinOutcome :=
  _ ← authenticated;
  body ← accepted_body (lit "check-in request failed") (lit "check-in refused") true reply;
  cr ← lift (ok_or (checkin_response body) (lit "parsing check-in response"));
  if negb (bool_decide (cr_status cr = lit "active")) then
    fail (lit "unexpected check-in status: " ++ cr_status cr)
  else
    _ ← match cr_policy_bundle cr with
        | Some bundle => r ← attempt (cache_policy ft bundle); mret tt
        | None => mret tt
        end;
    mret {| interval_seconds := cr_interval cr; index_latest := default 0 (cr_index cr) |}.
Definition checkin (reply : Reply) : FsM Z :=
  o ← checkin_full reply; mret (interval_seconds o).

Definition fetch_trusted_config (reply : Reply) : FsM TrustedConfig :=
  _ ← authenticated;
  body ← accepted_body (lit "trusted-config request failed") (lit "trusted-config refused") true reply;
  lift (ok_or (trusted_config body) (lit "parsing trusted-config response")).

Definition load_synced_destinations : FsM (list SyncedDestination) :=
  bs ← load_trusted_destinations ft;
  mret match bs with
       | Some bs => default [] (parse_destinations bs)
       | None => []
       end.

Definition sync_trusted_config (reply : Reply) : FsM TrustedConfig :=
  r ← attempt (fetch_trusted_config reply);
  match r with
  | Ok tc =>
      _ ← match to_keyring_json tc with
          | Some json => r ← attempt (store_keyring ft json); mret tt
          | None => mret tt
          end;
      r ← attempt (store_trusted_destinations ft (serialize_destinations (destinations tc)));
      mret tc
  | Err _ =>
      ds ← load_synced_destinations;
      mret {| destinations := ds; synced_keys := [] |}
  end.

(** ** The index bundle *)

Definition update_index_bundle (index_latest : Z) (reply : Reply) : FsM unit :=
  '(identity_pem, ca_pem) ← load_identity ft;
  cached ← load_index_bundle ft;
  let current := default 0 (bs ← cached; version <$> res_ok (load bs ca_pem)) in
  if index_latest =? 0 then mret tt
  else if index_latest <=? current then mret tt
  else
    _ ← lift (checkin_client ca_pem identity_pem);
    bs ← accepted_body (lit "index download request failed") (lit "index download refused") false reply;
    _ ← lift (map_err (fun _ => lit "verifying downloaded bundle") (load bs ca_pem));
    store_index_bundle ft bs.

Definition load_ca (ca_file : result str bytes) : FsM bytes :=
  enrolled ← has_identity;
  if enrolled : bool then '(_, ca) ← load_identity ft; mret ca
  else lift (map_err (fun _ => lit "reading pinned CA") ca_file).

Definition cached_bundle (ca_file : result str bytes) : FsM (option Bundle) :=
  ca ← attempt (load_ca ca_file);
  match ca with
  | Err _ => mret None
  | Ok ca_pem => bs ← load_index_bundle ft; mret (b ← bs; res_ok (load b ca_pem))
  end.

(** ** The keyrings; [keyfile] is what reading the configured dev keyfile gives *)

Definition load_dev_keyring (keyfile : option (result str bytes)) : option Keyring :=
  read ← keyfile; res_ok (load_dev_keyfile read).

Definition build_sealer_keyring (keyfile : option (result str bytes)) : FsM (option Keyring) :=
  r ← attempt (load_keyring ft);
  mret match r with
       | Ok (Some bs) =>
           match from_dev_json bs with
           | Ok ring => Some ring
           | Err _ => load_dev_keyring keyfile
           end
       | Ok None | Err _ => load_dev_keyring keyfile
       end.

Definition load_decrypt_keyring (keyfile : option (result str bytes)) : FsM Keyring :=
  match (read ← keyfile; bs ← res_ok read; ring ← res_ok (from_dev_json bs); Some (bs, ring)) with
  | Some (bs, ring) => r ← attempt (store_keyring ft bs); mret ring
  | None =>
      r ← attempt (load_keyring ft);
      mret match r with
           | Ok (Some bs) => default (Keyring_new []) (res_ok (from_dev_json bs))
           | _ => Keyring_new []
           end
  end.

Definition agent_id_of : FsM str :=
  r ← attempt (load_meta ft);
  mret match r with Ok m => agent_id m | Err _ => lit "unenrolled" end.
End Server.

(** The sealer of a keyring: no keyring, or no such key, is an error for every
    file. *)
Definition make_sealer {A} (keyring : option Keyring) (seal : Kek -> result str A) (key_id : str)
    : result str A :=
  ring ← ok_or keyring (lit "no keyring loaded ([crypto] keyfile unset or unreadable)");
  kek ← map_err EnvelopeError_display (lookup_key ring key_id);
  seal kek.

(** ** Reasoning about runs

    [runs I m fs Q]: run from [fs], [m] goes only through states that satisfy
    [I], and its result and last state satisfy [Q]. *)

Definition runs {A : Type} (I : Files -> Prop) (m : FsM A) (fs : Files) (Q : result str A -> Files -> Prop) : Prop :=
  forall tr, exists r t fs', m tr fs = (r, tr ++ t, fs') /\ Forall I t /\ Q r fs'.

Section Runs.
Context (I : Files -> Prop).

Lemma runs_mono {A : Type} (m : FsM A) (fs : Files) (Q Q' : result str A -> Files -> Prop) :
  runs I m fs Q -> (forall r fs', Q r fs' -> Q' r fs') -> runs I m fs Q'.
Proof. intros H HQ tr. destruct (H tr) as (r & t & fs' & -> & Ht & Hq). exists r, t, fs'. auto. Qed.

Lemma runs_ret {A : Type} (a : A) (fs : Files) (Q : result str A -> Files -> Prop) : Q (Ok a) fs -> runs I (mret a) fs Q.
Proof. intros H tr. exists (Ok a), [], fs. by rewrite app_nil_r. Qed.
Lemma runs_fail {A : Type} (e : str) (fs : Files) (Q : result str A -> Files -> Prop) : Q (Err e) fs -> runs I (fail e) fs Q.
Proof. intros H tr. exists (Err e), [], fs. by rewrite app_nil_r. Qed.
Lemma runs_lift {A : Type} (r : result str A) (fs : Files) (Q : result str A -> Files -> Prop) : Q r fs -> runs I (lift r) fs Q.
Proof. intros H. destruct r; [by apply runs_ret|by apply runs_fail]. Qed.

Lemma runs_bind {A C : Type} (m : FsM A) (f : A -> FsM C) (fs : Files) (Q : result str C -> Files -> Prop) :
  runs I m fs (fun r fs' => match r with Ok a => runs I (f a) fs' Q | Err e => Q (Err e) fs' end) ->
  runs I (m ≫= f) fs Q.
Proof.
  intros H tr. destruct (H tr) as (r & t & fs1 & Hm & Ht & Hr). unfold mbind, FsM_bind. rewrite Hm.
  destruct r as [a|e]; [|by exists (Err e), t, fs1].
  destruct (Hr (tr ++ t)) as (r & t' & fs' & -> & Ht' & Hq). exists r, (t ++ t'), fs'.
  rewrite app_assoc, Forall_app. auto.
Qed.

Lemma runs_context {A : Type} (e : str) (m : FsM A) (fs : Files) (Q : result str A -> Files -> Prop) :
  runs I m fs (fun r => match r with Ok a => Q (Ok a) | Err _ => Q (Err e) end) -> runs I (context e m) fs Q.
Proof.
  intros H tr. destruct (H tr) as (r & t & fs' & Hm & Ht & Hq). unfold context, catch. rewrite Hm.
  destruct r as [a|e']; [by exists (Ok a), t, fs'|by exists (Err e), t, fs'].
Qed.

Lemma runs_attempt {A : Type} (m : FsM A) (fs : Files) (Q : result str (result str A) -> Files -> Prop) :
  runs I m fs (fun r => Q (Ok r)) -> runs I (attempt m) fs Q.
Proof.
  intros H tr. destruct (H tr) as (r & t & fs' & Hm & Ht & Hq). unfold attempt. rewrite Hm.
  by exists (Ok r), t, fs'.
Qed.

Lemma runs_effect (g : Files -> Files) (fs : Files) (Q : result str unit -> Files -> Prop) :
  I fs -> Q (Ok tt) (g fs) -> runs I (effect g) fs Q.
Proof. intros Hi Hq tr. exists (Ok tt), [fs], (g fs). auto. Qed.
Lemma runs_failing {A : Type} (o : option str) (m : FsM A) (fs : Files) (Q : result str A -> Files -> Prop) :
  (forall e, Q (Err e) fs) -> runs I m fs Q -> runs I (failing o m) fs Q.
Proof. intros He Hm. destruct o as [e|]; [by apply runs_fail|done]. Qed.

Context (ft : DiskFaults).

Lemma runs_exists (name : str) (fs : Files) (Q : result str bool -> Files -> Prop) :
  Q (Ok (bool_decide (is_Some (fs !! path name)))) fs -> runs I (exists_file name) fs Q.
Proof. intros H tr. unfold exists_file. eexists _, [], fs. by rewrite app_nil_r. Qed.

Lemma runs_read (name : str) (fs : Files) (Q : result str bytes -> Files -> Prop) :
  (forall b, open_fails ft name = None -> fs !! path name = Some b -> Q (Ok b) fs) ->
  (forall e, Q (Err e) fs) -> runs I (read_file ft name) fs Q.
Proof.
  intros Hok He tr. unfold read_file. exists
    (match open_fails ft name, fs !! path name with
     | Some e, _ => Err e | None, Some b => Ok b | None, None => Err (lit "not found") end), [], fs.
  rewrite app_nil_r. destruct (open_fails ft name) eqn:Ho; [auto|]. destruct (fs !! path name) eqn:Hf; auto.
Qed.

Lemma runs_put (name : str) (data : bytes) (fs : Files) (Q : result str unit -> Files -> Prop) :
  I fs -> (forall d, I (<[path name := d]> fs)) -> Q (Ok tt) (<[path name := data]> fs) ->
  runs I (put_file name data) fs Q.
Proof.
  intros Hi Hd Hq tr. eexists _, _, _. split; [reflexivity|]. split; [|done].
  constructor; [done|]. apply Forall_forall. intros f (k & -> & _)%list_elem_of_fmap. apply Hd.
Qed.

Lemma runs_write (name : str) (data : bytes) (fs : Files) (Q : result str unit -> Files -> Prop) :
  I fs -> (forall d, I (<[path name := d]> fs)) ->
  (write_fault ft name = None -> Q (Ok tt) (<[path name := data]> fs)) ->
  (forall e, Q (Err e) fs) -> (forall e d, Q (Err e) (<[path name := d]> fs)) ->
  runs I (write_file ft name data) fs Q.
Proof.
  intros Hi Hd Hok He Ht. unfold write_file. destruct (write_fault ft name) as [[e|e n]|] eqn:Hw.
  - by apply runs_fail.
  - apply runs_bind, runs_put; [done|done|]. by apply runs_fail.
  - apply runs_put; auto.
Qed.

Lemma runs_create_dir (fs : Files) (Q : result str unit -> Files -> Prop) :
  Q (Ok tt) fs -> (forall e, Q (Err e) fs) -> runs I (create_dir ft) fs Q.
Proof. intros H He. apply runs_failing; [done|by apply runs_ret]. Qed.
End Runs.

(** ** The index bundle is swapped whole *)

Lemma path_ne (a b : str) : a <> b -> path a <> path b.
Proof. by intros H [= ->]. Qed.
Ltac names := try apply path_ne; vm_compute; congruence.

Definition index : Path := path INDEX_FILE.
Definition index_tmp : Path := path INDEX_TMP.
Lemma index_ne : index <> index_tmp.
Proof. names. Qed.

(** Only the two index files may differ from [fs0]; the cached bundle is the old
    one, the new one, or gone with the new one complete in the temporary file. *)
Definition swap_state (fs0 : Files) (bs : bytes) (f : Files) : Prop :=
  (f !! index = fs0 !! index \/ f !! index = Some bs \/ (f !! index = None /\ f !! index_tmp = Some bs)) /\
  forall q, q <> index -> q <> index_tmp -> f !! q = fs0 !! q.

Lemma store_index_bundle_runs (ft : DiskFaults) (bs : bytes) (fs : Files) :
  runs (swap_state fs bs) (store_index_bundle ft bs) fs
    (fun r f => swap_state fs bs f /\ (r = Ok tt -> f !! index = Some bs /\ f !! index_tmp = None)).
Proof.
  pose proof index_ne as Hne.
  assert (swap_state fs bs fs) as H0 by (split; [by left|done]).
  assert (forall d, swap_state fs bs (<[index_tmp := d]> fs)) as Htmp.
  { intros d. split; [left; by rewrite lookup_insert_ne by done|]. intros q H1 H2. by rewrite lookup_insert_ne. }
  unfold store_index_bundle. fold index index_tmp.
  apply runs_bind, runs_context, runs_create_dir; [|done].
  apply runs_bind, runs_context, runs_write; [done|exact Htmp| |done|by split; [apply Htmp|]]. intros _.
  fold index_tmp. set (f1 := <[index_tmp := bs]> fs).
  assert (f1 !! index_tmp = Some bs) as Ht by apply lookup_insert_eq.
  apply runs_bind, runs_exists. fold index.
  apply runs_bind.
  assert (forall f, swap_state fs bs f -> f !! index_tmp = Some bs ->
    runs (swap_state fs bs) (context (lit "swapping index bundle into place") (move_file ft INDEX_TMP INDEX_FILE)) f
      (fun r f => swap_state fs bs f /\ (r = Ok tt -> f !! index = Some bs /\ f !! index_tmp = None))) as Hmv.
  { intros f Hf Hb. apply runs_context. unfold move_file. apply runs_failing; [done|].
    apply runs_effect; [done|]. fold index index_tmp. rewrite Hb. split; [split|].
    - right; left. apply lookup_insert_eq.
    - intros q H1 H2. rewrite lookup_insert_ne, lookup_delete_ne by done. by apply Hf.
    - intros _. split; [apply lookup_insert_eq|]. rewrite lookup_insert_ne by done. apply lookup_delete_eq. }
  destruct (bool_decide (is_Some (f1 !! index))).
  - apply runs_context. unfold unlink. apply runs_failing; [intros e; split; [apply Htmp|done]|].
    apply runs_effect; [apply Htmp|]. fold index. apply Hmv.
    + split; [right; right; split; [apply lookup_delete_eq|by rewrite lookup_delete_ne]|].
      intros q H1 H2. rewrite lookup_delete_ne by done. by apply Htmp.
    + by rewrite lookup_delete_ne.
  - apply runs_ret, Hmv; [apply Htmp|done].
Qed.

(** A computation that only reads. *)
Definition pure_at {A : Type} (m : FsM A) (fs : Files) (r : result str A) : Prop :=
  forall tr, m tr fs = (r, tr, fs).

Lemma runs_pure {A : Type} (I : Files -> Prop) (m : FsM A) (fs : Files) (r : result str A) (Q : result str A -> Files -> Prop) :
  pure_at m fs r -> Q r fs -> runs I m fs Q.
Proof. intros Hm Hq tr. exists r, [], fs. by rewrite app_nil_r. Qed.

Lemma read_file_pure (ft : DiskFaults) (name : str) (fs : Files) :
  exists r, pure_at (read_file ft name) fs r /\
    r = match open_fails ft name with
        | Some e => Err e
        | None => ok_or (fs !! path name) (lit "not found")
        end.
Proof.
  eexists. split; [|reflexivity]. intros tr. unfold read_file.
  destruct (open_fails ft name); [done|]. by destruct (fs !! path name).
Qed.

Lemma load_identity_pure {S : StateEnv} (ft : DiskFaults) (fs : Files) :
  exists r, pure_at (load_identity ft) fs r /\
    forall i c, r = Ok (i, c) -> fs !! path CA_FILE = Some c /\
      exists sealed, fs !! path IDENTITY_FILE = Some sealed /\ dpapi_unprotect sealed = Ok i.
Proof.
  destruct (read_file_pure ft IDENTITY_FILE fs) as (ri & Hi & Ei).
  destruct (read_file_pure ft CA_FILE fs) as (rc & Hc & Ec).
  unfold load_identity, has_identity, exists_file, context, catch, lift, pure_at, mbind, FsM_bind, mret, FsM_ret, fail.
  case_bool_decide as Hex; cbn [negb]; [|eexists; split; [intros tr; reflexivity|done]].
  setoid_rewrite Hi. destruct ri as [sealed|e]; [|eexists; split; [intros tr; reflexivity|done]].
  destruct (dpapi_unprotect sealed) as [plain|e] eqn:Hu; [|eexists; split; [intros tr; reflexivity|done]].
  setoid_rewrite Hc. destruct rc as [ca|e]; [|eexists; split; [intros tr; reflexivity|done]].
  eexists. split; [intros tr; reflexivity|]. intros i c [= <- <-].
  destruct (open_fails ft IDENTITY_FILE); [done|]. destruct (open_fails ft CA_FILE); [done|].
  destruct (fs !! path IDENTITY_FILE) as [s|]; [|done]. destruct (fs !! path CA_FILE) as [c|]; [|done].
  cbn in Ei, Ec. injection Ei as <-. injection Ec as <-. eauto.
Qed.

(** The version the cached bundle verifiably has, 0 without one. *)
Definition cached_version {B : BundleEnv} (ft : DiskFaults) (fs : Files) (ca : bytes) : Z :=
  default 0 (bs ← (if open_fails ft INDEX_FILE then None else fs !! index); version <$> res_ok (load bs ca)).

Lemma accepted_body_pure {V : ServerEnv} (request refusal : str) (wb : bool) (reply : Reply) (fs : Files) :
  exists r, pure_at (accepted_body request refusal wb reply) fs r /\
    forall bs, r = Ok bs -> exists status, reply = Ok (status, bs) /\ is_success status = true.
Proof.
  unfold accepted_body, pure_at, lift, mbind, FsM_bind, mret, FsM_ret, fail.
  destruct reply as [[status body]|e]; cbn [map_err]; [|eexists; split; [intros tr; reflexivity|done]].
  destruct (is_success status) eqn:Hs; (eexists; split; [intros tr; reflexivity|]); [|done].
  intros bs [= <-]. eauto.
Qed.

(** C20: The cached bundle is only ever replaced by a bundle that was downloaded,
    accepted by the server and verified against the pinned CA.  Whatever calls
    fail and wherever a crash stops the update, in every state gone through the
    index file holds the old bundle or the whole verified one, or is absent with
    the verified one complete in the temporary file, and no other file changes.
    An update that reports success has either left everything alone, because the
    server advertised nothing newer than the cached version, or ends with the
    download in place. *)
Theorem update_swaps_verified {S : StateEnv} {V : ServerEnv} {B : BundleEnv} (ft : DiskFaults)
    (latest : Z) (reply : Reply) (fs : Files) :
  let '(r, t, fs') := update_index_bundle ft latest reply [] fs in
  let replaced (f : Files) := exists ca status bs b,
    fs !! path CA_FILE = Some ca /\ reply = Ok (status, bs) /\ is_success status = true /\
    load bs ca = Ok b /\ (f !! index = Some bs \/ (f !! index = None /\ f !! index_tmp = Some bs)) in
  (forall f, f ∈ t ++ [fs'] ->
     (f !! index = fs !! index \/ replaced f) /\
     forall q, q <> index -> q <> index_tmp -> f !! q = fs !! q) /\
  (r = Ok tt ->
     (fs' = fs /\ (latest = 0 \/ exists ca, fs !! path CA_FILE = Some ca /\ latest <= cached_version ft fs ca)) \/
     (exists status bs, reply = Ok (status, bs) /\ fs' !! index = Some bs)).
Proof.
  set (replaced := fun f : Files => exists ca status bs b,
    fs !! path CA_FILE = Some ca /\ reply = Ok (status, bs) /\ is_success status = true /\
    load bs ca = Ok b /\ (f !! index = Some bs \/ (f !! index = None /\ f !! index_tmp = Some bs))).
  set (I := fun f : Files => (f !! index = fs !! index \/ replaced f) /\
     forall q, q <> index -> q <> index_tmp -> f !! q = fs !! q).
  set (Q := fun (r : result str unit) (f : Files) => I f /\ (r = Ok tt ->
     (f = fs /\ (latest = 0 \/ exists ca, fs !! path CA_FILE = Some ca /\ latest <= cached_version ft fs ca)) \/
     (exists status bs, reply = Ok (status, bs) /\ f !! index = Some bs))).
  enough (runs I (update_index_bundle ft latest reply) fs Q) as Hr.
  { destruct (Hr []) as (r & t & fs' & -> & Ht & Hi & Hok). cbn [app]. split; [|done].
    intros f [Hf| ->%list_elem_of_singleton]%elem_of_app; [|done]. by eapply Forall_forall in Ht. }
  assert (I fs) as H0 by (split; [by left|done]).
  assert (forall e, Q (Err e) fs) as He by (by intros; split).
  unfold update_index_bundle. destruct (load_identity_pure ft fs) as (ri & Hi & Hid).
  apply runs_bind. eapply runs_pure; [exact Hi|]. destruct ri as [[ident ca]|e]; [|apply He].
  destruct (Hid ident ca eq_refl) as [Hca _].
  destruct (read_file_pure ft INDEX_FILE fs) as (rx & Hx & Ex).
  apply runs_bind. unfold load_index_bundle at 1. apply runs_bind, runs_attempt.
  eapply runs_pure; [exact Hx|]. apply runs_ret.
  assert (default 0 (bs ← res_ok rx; version <$> res_ok (load bs ca)) = cached_version ft fs ca) as ->.
  { subst rx. unfold cached_version. fold index. destruct (open_fails ft INDEX_FILE); [done|]. by destruct (fs !! index). }
  destruct (Z.eqb_spec latest 0) as [Hl|Hl].
  { apply runs_ret. split; [done|]. intros _. left. auto. }
  destruct (Z.leb_spec latest (cached_version ft fs ca)) as [Hv|Hv].
  { apply runs_ret. split; [done|]. intros _. left. eauto. }
  apply runs_bind, runs_lift. destruct (checkin_client ca ident) as [[]|e]; [|apply He].
  destruct (accepted_body_pure (lit "index download request failed") (lit "index download refused") false reply fs)
    as (rb & Hb & Hbs).
  apply runs_bind. eapply runs_pure; [exact Hb|]. destruct rb as [bs|e]; [|apply He].
  destruct (Hbs bs eq_refl) as (status & Hrep & Hsuc).
  apply runs_bind, runs_lift. destruct (load bs ca) as [b|e] eqn:Hload; [|apply He]. cbn [map_err].
  assert (forall f, swap_state fs bs f -> I f) as Hsw.
  { intros f [Hc Hq]. split; [|done]. destruct Hc as [Hc|Hc]; [by left|]. right. exists ca, status, bs, b. auto. }
  intros tr. destruct (store_index_bundle_runs ft bs fs tr) as (r & t & f & -> & Ht & Hs & Hok).
  exists r, t, f. split; [done|]. split; [by eapply Forall_impl; [exact Ht|]|].
  split; [by apply Hsw|]. intros Hr. right. exists status, bs. split; [done|]. by apply Hok.
Qed.

(** ** A run of the update *)

Definition no_disk_faults : DiskFaults :=
  {| mkdir_fails := None; open_fails := fun _ => None; write_fault := fun _ => None;
     unlink_fails := fun _ => None; move_fails := None |}.
(** DPAPI that marks what it seals. *)
Definition toy_state : StateEnv :=
  {| dpapi_protect := fun b => Ok (1 :: b);
     dpapi_unprotect := fun b => match b with 1 :: b' => Ok b' | _ => Err (lit "CryptUnprotectData failed") end;
     meta_to_vec := fun m => Ok (agent_id m);
     meta_from_slice := fun b => Ok {| agent_id := b; meta_interval := 300 |} |}.
#[export] Instance toy_state_laws : StateLaws toy_state.
Proof. split. by intros plain sealed [= <-]. Qed.
Definition toy_server : ServerEnv :=
  {| TlsCertificate := unit; TlsIdentity := unit; tls_certificate := fun _ => Some tt;
     tls_identity := fun _ => Some tt; tls_build := fun c => negb (cc_builtin_roots _ _ c);
     RsaPrivateKey := unit; X509Name := str; RequestBuilder := str; CertReq := str;
     rsa_generate := fun _ => Some tt; to_pkcs8_pem := fun _ => Some (lit "KEY");
     x509_name := Some; request_builder := fun n _ => Some n; sign_request := Some; csr_to_pem := Some;
     status_text := dec; body_text := id;
     enroll_response := fun b => if bool_decide (b = lit "ER") then
         Some {| er_agent_id := lit "a1"; er_certificate := lit "CERT"; er_ca := lit "CA"; er_interval := 300 |}
       else None;
     checkin_response := fun _ => None;
     trusted_config := fun b => if bool_decide (b = lit "TC") then Some toy_synced else None |}.

(** A second bundle, of version 3, signed by the same CA. *)
Definition older_header : Header :=
  {| bundle_version := 3; params := params sample_header; edm_salts := ∅; scope := [];
     counts := counts sample_header; docs := docs sample_header; edm_sources := [] |}.
Definition older_bundle : Bundle :=
  {| format_version := 1; header := older_header; bloom := bloom sample_bundle;
     idm := idm sample_bundle; edm := [] |}.
Definition two_bundles : BundleEnv := {|
  Certificate := unit; RsaPublicKey := unit; Signature := bytes;
  certificate_from_pem := fun pem => if bool_decide (pem = lit "CA") then Some tt else None;
  spki_to_der := fun _ => Some (lit "SPKI");
  rsa_from_public_key_der := fun _ => Some tt;
  signature_try_from := fun s => Some s;
  verify := fun _ msg s => bool_decide (s = take 1 msg);
  header_from_json := fun hb => if bool_decide (hb = lit "{}") then Some sample_header
                                else if bool_decide (hb = lit "[]") then Some older_header else None;
|}.
Definition enrolled_state (bundle : bytes) : Files :=
  <[index := bundle]> {[ path IDENTITY_FILE := 1 :: lit "PEM"; path CA_FILE := lit "CA" ]}.

(** The version of what was downloaded is never compared: a server that
    advertises version 9 and delivers the signed version 3 replaces version 7. *)
Example signed_rollback :
  let new := encode (lit "{}") sample_bundle [68] in
  let old := encode (lit "[]") older_bundle [68] in
  let '(r, _, fs') := update_index_bundle (S := toy_state) (V := toy_server) (B := two_bundles)
    no_disk_faults 9 (Ok (200, old)) [] (enrolled_state new) in
  r = Ok tt /\ fs' !! index = Some old /\
  version <$> res_ok (@load two_bundles new (lit "CA")) = Some 7 /\
  version <$> res_ok (@load two_bundles old (lit "CA")) = Some 3.
Proof. vm_compute. repeat split. Qed.

(** A crash after the old bundle is removed leaves none. *)
Example no_bundle_between :
  let new := encode (lit "{}") sample_bundle [68] in
  let old := encode (lit "[]") older_bundle [68] in
  let '(_, t, _) := update_index_bundle (S := toy_state) (V := toy_server) (B := two_bundles)
    no_disk_faults 9 (Ok (200, new)) [] (enrolled_state old) in
  exists f, f ∈ t /\ f !! index = None.
Proof.
  cbv zeta. set (run := update_index_bundle _ _ _ _ _).
  assert (match last run.1.2 with Some f => f !! index | None => Some [] end = None) as H
    by (vm_compute; reflexivity).
  destruct run as [[r t] fs']. cbn [fst snd] in H.
  destruct (last t) as [f|] eqn:Hl; [|done]. exists f. split; [|done].
  apply last_Some in Hl as [l ->]. apply elem_of_app. right. by left.
Qed.

(** The identity is stored before the CA: when storing the CA fails, or the
    machine stops between the two, the agent counts as enrolled from then on and
    can never load its identity. *)
Example torn_enrollment_sticks :
  let full_disk := {| mkdir_fails := None; open_fails := fun _ => None;
                      write_fault := fun n => if bool_decide (n = CA_FILE) then Some (NotOpened (lit "disk full")) else None;
                      unlink_fails := fun _ => None; move_fails := None |} in
  let ensure ft := ensure_enrolled (S := toy_state) (V := toy_server) ft (Some (lit "T")) (lit "h") (lit "windows")
                     (lit "1") (Ok (lit "CA")) (fun _ => Ok (200, lit "ER")) in
  let '(r, _, fs) := ensure full_disk [] ∅ in
  r = Err (lit "saving enrolled identity") /\
  (ensure no_disk_faults [] fs).1.1 = Ok tt /\
  (load_identity (S := toy_state) no_disk_faults [] fs).1.1 = Err (lit "reading CA").
Proof. vm_compute. repeat split. Qed.

(** ** The sync *)

Definition fault_free (ft : DiskFaults) : Prop :=
  mkdir_fails ft = None /\ (forall n, open_fails ft n = None) /\ (forall n, write_fault ft n = None).

(** A write that goes through, under a context. *)
Lemma context_write_ok (ft : DiskFaults) (e name : str) (data : bytes) (tr : list Files) (fs : Files) :
  write_fault ft name = None ->
  exists t, context e (write_file ft name data) tr fs = (Ok tt, t, <[path name := data]> fs).
Proof. intros H. unfold context, catch, write_file. rewrite H. eexists. reflexivity. Qed.

Lemma store_keyring_ok {S : StateEnv} (ft : DiskFaults) (json sealed : bytes) (tr : list Files) (fs : Files) :
  fault_free ft -> dpapi_protect json = Ok sealed ->
  exists t, store_keyring ft json tr fs = (Ok tt, t, <[path KEYRING_FILE := sealed]> fs).
Proof.
  intros (H1 & _ & H3) Hp. unfold store_keyring, create_dir, mbind, FsM_bind. rewrite H1, Hp.
  cbn [failing lift]. unfold context at 1 2, catch, mret, FsM_ret. by apply context_write_ok.
Qed.

Lemma store_destinations_ok (ft : DiskFaults) (json : bytes) (tr : list Files) (fs : Files) :
  fault_free ft ->
  exists t, store_trusted_destinations ft json tr fs = (Ok tt, t, <[path TRUSTED_DEST_FILE := json]> fs).
Proof.
  intros (H1 & _ & H3). unfold store_trusted_destinations, create_dir, mbind, FsM_bind. rewrite H1.
  cbn [failing]. unfold context at 1, catch, mret, FsM_ret. by apply context_write_ok.
Qed.

Lemma load_destinations_pure {J : JsonEnv} (ft : DiskFaults) (fs : Files) :
  exists ds, pure_at (load_synced_destinations ft) fs (Ok ds) /\
    ds = match open_fails ft TRUSTED_DEST_FILE, fs !! path TRUSTED_DEST_FILE with
         | None, Some bs => default [] (parse_destinations bs)
         | _, _ => []
         end.
Proof.
  destruct (read_file_pure ft TRUSTED_DEST_FILE fs) as (r & Hr & Er).
  eexists. split; [|reflexivity]. intros tr.
  unfold load_synced_destinations, load_trusted_destinations, attempt, mbind, FsM_bind, mret, FsM_ret.
  rewrite Hr. subst r. destruct (open_fails ft TRUSTED_DEST_FILE); [done|]. by destruct (fs !! path TRUSTED_DEST_FILE).
Qed.

Lemma load_keyring_pure {S : StateEnv} (ft : DiskFaults) (fs : Files) :
  pure_at (load_keyring ft) fs
    match fs !! path KEYRING_FILE with
    | None => Ok None
    | Some sealed =>
        match open_fails ft KEYRING_FILE, dpapi_unprotect sealed with
        | Some _, _ => Err (lit "reading sealed keyring")
        | None, Err _ => Err (lit "unsealing keyring")
        | None, Ok bs => Ok (Some bs)
        end
    end.
Proof.
  destruct (read_file_pure ft KEYRING_FILE fs) as (r & Hr & Er). intros tr.
  unfold load_keyring, exists_file, context, catch, lift, mbind, FsM_bind, mret, FsM_ret, fail.
  destruct (fs !! path KEYRING_FILE) as [sealed|]; cbn [negb].
  - rewrite bool_decide_eq_true_2 by (by eexists). cbn [negb]. rewrite Hr, Er.
    destruct (open_fails ft KEYRING_FILE); [done|]. cbn [ok_or]. by destruct (dpapi_unprotect sealed).
  - rewrite bool_decide_eq_false_2; [done|]. by intros [? [=]].
Qed.

(** The keyring the sealer gets: the one at rest when it opens and parses, else
    the dev keyfile's, else none. *)
Definition sealer_ring {S : StateEnv} {E : CryptoEnv} (ft : DiskFaults)
    (keyfile : option (result str bytes)) (fs : Files) : option Keyring :=
  match (sealed ← fs !! path KEYRING_FILE;
         bs ← (if open_fails ft KEYRING_FILE then None else res_ok (dpapi_unprotect sealed));
         res_ok (from_dev_json bs)) with
  | Some ring => Some ring
  | None => load_dev_keyring keyfile
  end.

Lemma build_sealer_keyring_pure {S : StateEnv} {E : CryptoEnv} (ft : DiskFaults)
    (keyfile : option (result str bytes)) (fs : Files) :
  pure_at (build_sealer_keyring ft keyfile) fs (Ok (sealer_ring ft keyfile fs)).
Proof.
  intros tr. unfold build_sealer_keyring, attempt, mbind, FsM_bind, mret, FsM_ret, sealer_ring.
  rewrite (load_keyring_pure ft fs). destruct (fs !! path KEYRING_FILE) as [sealed|]; [|done].
  cbn [mbind option_bind]. destruct (open_fails ft KEYRING_FILE); [done|].
  destruct (dpapi_unprotect sealed) as [bs|]; [|done]. cbn. by destruct (from_dev_json bs).
Qed.

Lemma run_bind {A C : Type} (m : FsM A) (f : A -> FsM C) (a : A) (tr tr' : list Files) (fs fs' : Files) :
  m tr fs = (Ok a, tr', fs') -> (m ≫= f) tr fs = f a tr' fs'.
Proof. intros H. unfold mbind, FsM_bind. by rewrite H. Qed.
Lemma run_attempt {A : Type} (m : FsM A) (r : result str A) (tr tr' : list Files) (fs fs' : Files) :
  m tr fs = (r, tr', fs') -> attempt m tr fs = (Ok r, tr', fs').
Proof. intros H. unfold attempt. by rewrite H. Qed.

Section Sync.
Context {S : StateEnv} {SL : StateLaws S} {V : ServerEnv} {E : CryptoEnv} {J : JsonEnv} {L : JsonLaws J E}.
Context (ft : DiskFaults) (reply : Reply) (keyfile : option (result str bytes)) (fs : Files).

Lemma sync_fails_soft (e : str) :
  pure_at (fetch_trusted_config ft reply) fs (Err e) ->
  exists ds, sync_trusted_config ft reply [] fs = (Ok {| destinations := ds; synced_keys := [] |}, [], fs) /\
    pure_at (load_synced_destinations ft) fs (Ok ds).
Proof.
  intros Hf. destruct (load_destinations_pure ft fs) as (ds & Hds & _). exists ds. split; [|done].
  unfold sync_trusted_config, attempt, mbind, FsM_bind, mret, FsM_ret. by rewrite Hf, Hds.
Qed.

(** The first half of the sync: the keyring document, when there is one. *)
Lemma keys_stored (tc : TrustedConfig) :
  fault_free ft ->
  (forall json, to_keyring_json tc = Some json -> exists sealed, dpapi_protect json = Ok sealed) ->
  exists (t : list Files) (fs1 : Files),
    (match to_keyring_json tc with
     | Some json => _ ← attempt (store_keyring ft json); mret tt
     | None => mret tt
     end) [] fs = (Ok tt, t, fs1) /\
    (forall q, q <> path KEYRING_FILE -> fs1 !! q = fs !! q) /\
    match to_keyring_json tc with
    | Some json => exists sealed, dpapi_protect json = Ok sealed /\ fs1 !! path KEYRING_FILE = Some sealed
    | None => fs1 = fs
    end.
Proof.
  intros Hft Hprot. destruct (to_keyring_json tc) as [json|]; [|by eexists [], fs].
  destruct (Hprot json eq_refl) as [sealed Hs].
  destruct (store_keyring_ok ft json sealed [] fs Hft Hs) as [t Ht].
  exists t, (<[path KEYRING_FILE := sealed]> fs).
  unfold attempt, mbind, FsM_bind, mret, FsM_ret. rewrite Ht. split; [done|]. split.
  - intros q Hq. by rewrite lookup_insert_ne.
  - exists sealed. split; [done|]. apply lookup_insert_eq.
Qed.

Lemma sync_delivers (tc : TrustedConfig) :
  fault_free ft ->
  pure_at (fetch_trusted_config ft reply) fs (Ok tc) ->
   json_to_vec (JObj [(lit "destinations", JArr (map dest_to_value (destinations tc)))]) <> None ->
   (forall json, to_keyring_json tc = Some json -> exists sealed, dpapi_protect json = Ok sealed) ->
   exists t fs', sync_trusted_config ft reply [] fs = (Ok tc, t, fs') /\
     pure_at (load_synced_destinations ft) fs' (Ok (destinations tc)) /\
     (is_Some (to_keyring_json tc) ->
      (forall k, k ∈ synced_keys tc -> exists raw, base64_decode (key_b64 k) = Some raw /\ length raw = 32%nat) ->
      exists ring, pure_at (build_sealer_keyring ft keyfile) fs' (Ok (Some ring)) /\
        (exists kek, active ring = Ok kek) /\
        forall k, k ∈ synced_keys tc -> exists kek, lookup_key ring (synced_id k) = Ok kek) /\
     (synced_keys tc = [] -> fs' !! path KEYRING_FILE = fs !! path KEYRING_FILE) /\
     (forall q, q <> path KEYRING_FILE -> q <> path TRUSTED_DEST_FILE -> fs' !! q = fs !! q).
Proof.
  intros Hft Hf Hser Hprot.
  assert (path KEYRING_FILE <> path TRUSTED_DEST_FILE) as Hne by names.
  destruct (keys_stored tc Hft Hprot) as (t1 & fs1 & H1 & H2 & H3).
  destruct (store_destinations_ok ft (serialize_destinations (destinations tc)) t1 fs1 Hft) as [t2 H4].
  set (fs2 := <[path TRUSTED_DEST_FILE := serialize_destinations (destinations tc)]> fs1) in *.
  exists t2, fs2. split; [|split; [|split; [|split]]].
  + unfold sync_trusted_config.
    erewrite run_bind by (apply run_attempt, Hf). cbn iota.
    erewrite run_bind by exact H1. erewrite run_bind by (apply run_attempt, H4). done.
  + destruct (load_destinations_pure ft fs2) as (ds & Hds & ->). unfold fs2 in Hds |- *.
    rewrite lookup_insert_eq in Hds. destruct Hft as (_ & Ho & _). rewrite Ho in Hds.
    by rewrite destinations_roundtrip in Hds.
  + intros [json Hj] Hkeys. rewrite Hj in H3. destruct H3 as (sealed & Hp & Hk).
    destruct (synced_keyring_loads tc json Hj Hkeys) as (ring & Hring & Hact & Hlook & _ & _).
    exists ring. split; [|split; [done|]].
    * pose proof (build_sealer_keyring_pure ft keyfile fs2) as Hb. unfold sealer_ring in Hb.
      unfold fs2 in Hb at 2. rewrite lookup_insert_ne, Hk in Hb by done. cbn [mbind option_bind] in Hb.
      destruct Hft as (_ & Ho & _). rewrite Ho, (dpapi_roundtrip _ _ Hp) in Hb. cbn [res_ok mbind option_bind] in Hb.
      by rewrite Hring in Hb.
    * intros k Hin. rewrite Hlook.
      destruct (proj2 (keyring_entries_ids tc (synced_id k))) as [b64 Hb]; [by exists k|]. rewrite Hb.
      destruct (keyring_entries_raw tc (synced_id k) b64 Hb) as (k' & Hin' & <-).
      destruct (Hkeys k' Hin') as (raw & -> & _). by eexists.
  + intros Hnil. unfold fs2. rewrite lookup_insert_ne by done.
    assert (to_keyring_json tc = None) as Hn.
    { unfold to_keyring_json, keyring_doc, synced_active_key_id. by rewrite Hnil. }
    rewrite Hn in H3. by subst.
  + intros q Hq1 Hq2. unfold fs2. rewrite lookup_insert_ne by done. by apply H2.
Qed.

(** The sync persists what the server delivered, and without the server the
    last whitelist stands.  When the fetch fails the sync changes no file and
    returns the destinations last persisted.  When it delivers a configuration
    and the disk works, the persisted destinations read back as the delivered
    ones; with 32-byte keys the sealer then gets a keyring that holds every
    delivered key, whatever the dev keyfile; without keys the keyring at rest is
    kept; and no other file changes. *)
Theorem sync_persists_delivery :
  fault_free ft ->
  (forall e, pure_at (fetch_trusted_config ft reply) fs (Err e) ->
     exists ds, sync_trusted_config ft reply [] fs = (Ok {| destinations := ds; synced_keys := [] |}, [], fs) /\
       pure_at (load_synced_destinations ft) fs (Ok ds)) /\
  (forall tc, pure_at (fetch_trusted_config ft reply) fs (Ok tc) ->
     json_to_vec (JObj [(lit "destinations", JArr (map dest_to_value (destinations tc)))]) <> None ->
     (forall json, to_keyring_json tc = Some json -> exists sealed, dpapi_protect json = Ok sealed) ->
     exists t fs', sync_trusted_config ft reply [] fs = (Ok tc, t, fs') /\
       pure_at (load_synced_destinations ft) fs' (Ok (destinations tc)) /\
       (is_Some (to_keyring_json tc) ->
        (forall k, k ∈ synced_keys tc -> exists raw, base64_decode (key_b64 k) = Some raw /\ length raw = 32%nat) ->
        exists ring, pure_at (build_sealer_keyring ft keyfile) fs' (Ok (Some ring)) /\
          (exists kek, active ring = Ok kek) /\
          forall k, k ∈ synced_keys tc -> exists kek, lookup_key ring (synced_id k) = Ok kek) /\
       (synced_keys tc = [] -> fs' !! path KEYRING_FILE = fs !! path KEYRING_FILE) /\
       (forall q, q <> path KEYRING_FILE -> q <> path TRUSTED_DEST_FILE -> fs' !! q = fs !! q)).
Proof. intros Hft. split; [exact sync_fails_soft|]. intros tc. by apply sync_delivers. Qed.
End Sync.

(** The one destinations document of [toy_synced], and its keyring document. *)
Definition toy_dests : Json := JObj [(lit "destinations", JArr (map dest_to_value (destinations toy_synced)))].
Definition one_dest_strings (v : Json) : option (list str) :=
  match v with
  | JObj [(n0, JArr [JObj [(n1, JStr c); (n2, JObj [(n3, JStr s)]); (n4, JStr m); (n5, JStr k); (n6, JStr b)]])] =>
      Some [n0; n1; c; n2; n3; s; n4; m; n5; k; n6; b]
  | _ => None
  end.
Lemma one_dest_strings_inj v w :
  is_Some (one_dest_strings w) -> one_dest_strings v = one_dest_strings w -> v = w.
Proof.
  intros [l Hw]. rewrite Hw. revert Hw.
  assert (forall u, one_dest_strings u = Some l -> u =
    match l with
    | [n0; n1; c; n2; n3; s; n4; m; n5; k; n6; b] =>
        JObj [(n0, JArr [JObj [(n1, JStr c); (n2, JObj [(n3, JStr s)]); (n4, JStr m); (n5, JStr k); (n6, JStr b)]])]
    | _ => JNull
    end) as H.
  { intros u. unfold one_dest_strings. repeat case_match; intros; by simplify_eq. }
  intros Hw Hv. by rewrite (H v Hv), (H w Hw).
Qed.
Definition state_json : JsonEnv :=
  {| json_to_vec := fun v => if bool_decide (one_dest_strings v = one_dest_strings toy_dests) then Some [7] else None;
     json_from_slice := fun bs => if bool_decide (bs = [7]) then Some toy_dests else None;
     keyfile_to_vec := fun df => if bool_decide (keyring_doc toy_synced = Some df) then Some [5; 0] else None |}.
#[export] Instance state_json_laws : JsonLaws state_json toy_crypto.
Proof.
  split.
  - intros v bs. cbn [json_to_vec json_from_slice state_json]. case_bool_decide as H; [|done].
    intros [= <-]. rewrite bool_decide_eq_true_2 by done. f_equal. symmetry.
    apply one_dest_strings_inj; [by eexists|done].
  - intros df bs. cbn [keyfile_to_vec state_json]. case_bool_decide as H; [|done].
    intros [= <-]. exists df. split; [|done].
    assert (keyring_doc toy_synced = Some {| df_active_key_id := lit "k";
      df_keys := [(lit "k", repeat 5 32)]; df_destroyed := [] |}) as H' by (vm_compute; reflexivity).
    rewrite H' in H. injection H as <-. reflexivity.
Qed.

Lemma sync_persists_delivery_witness :
  exists t fs', sync_trusted_config (S := toy_state) (V := toy_server) (J := state_json) no_disk_faults
      (Ok (200, lit "TC")) [] (enrolled_state []) = (Ok toy_synced, t, fs') /\
    pure_at (load_synced_destinations (J := state_json) no_disk_faults) fs' (Ok [trust_s1]) /\
    exists ring, pure_at (build_sealer_keyring (S := toy_state) (E := toy_crypto) no_disk_faults None) fs'
      (Ok (Some ring)) /\ exists kek, lookup_key ring (lit "k") = Ok kek.
Proof.
  destruct (sync_persists_delivery (S := toy_state) (V := toy_server) (E := toy_crypto) (J := state_json)
    no_disk_faults (Ok (200, lit "TC")) None (enrolled_state [])) as [_ H].
  { repeat split. }
  destruct (H toy_synced) as (t & fs' & H1 & H2 & H3 & _).
  - intros tr. vm_compute. reflexivity.
  - vm_compute. discriminate.
  - intros json _. by eexists.
  - exists t, fs'. split; [exact H1|]. split; [exact H2|].
    destruct H3 as (ring & Hr & _ & Hk).
    + exists [5; 0]. vm_compute. reflexivity.
    + intros k Hk. apply list_elem_of_singleton in Hk as ->. exists (repeat 5 32). split; reflexivity.
    + exists ring. split; [exact Hr|]. apply (Hk {| synced_id := lit "k"; key_b64 := repeat 5 32 |}).
      by left.
Defined.

(** A dev keyfile that is configured replaces the synced keyring at rest as soon
    as one file is decrypted, so from then on the sealer, which prefers what is at
    rest, seals with the dev keys. *)
Example decrypt_replaces_synced_keyring :
  let fs := <[path KEYRING_FILE := [1; 5; 0]]> (enrolled_state []) in
  let '(r, _, fs') := load_decrypt_keyring (S := toy_state) (E := toy_crypto) no_disk_faults
                        (Some (Ok [9])) [] fs in
  (exists ring, r = Ok ring) /\
  sealer_ring (S := toy_state) (E := toy_crypto) no_disk_faults (Some (Ok [9])) fs =
    res_ok (@from_dev_json toy_crypto [5; 0]) /\
  sealer_ring (S := toy_state) (E := toy_crypto) no_disk_faults (Some (Ok [9])) fs' =
    res_ok (@from_dev_json toy_crypto [9]).
Proof. vm_compute. split; [by eexists|done]. Qed.
