(* ===== verification/Agent.v ===== *)
(** The agent's process ([src/main.rs]): the incident sink every channel shares,
    the check-in pacing, the unified endpoint with its sealer health signal, the
    decrypt subcommand around the library core, and the option parsers.  Threads
    are interleaved as a sequence of their visible steps. *)

From S2P Require Import Prelude Words Text F64 Unicode Fingerprint Bundle Edm Utf8 Extract Verdict.
From S2P Require Import TrustDest Device UsbPolicy Enforce Watch Supervise Queue Crypto CopyAudit Decrypt.
From S2P Require Import RemoteTools NetRules Config TrustSync UsbMonitor KGuard BrowserHost Clipboard Notify State.
#[local] Open Scope Z_scope.

(** ** The wire body *)

Record IncidentRequest := {
  ir_channel : str;
  ir_file_name : str;
  ir_file_sha256 : str;
  ir_verdict : Verdict;
  ir_action_taken : option str;
  ir_os_user : option str;
  ir_key_id : option str;
  ir_sealed_sha256 : option str;
}.

Definition action_taken_label (a : ActionTaken) : str :=
  match a with
  | CopyAudit.Blocked => lit "blocked"
  | CopyAudit.Audited => lit "audited"
  | CopyAudit.TakenReadOnly => lit "read_only"
  | CopyAudit.Encrypted => lit "encrypted"
  end.

Class WireEnv := {
  (** [None] when serialisation fails *)
  incident_to_json : IncidentRequest -> option str;
  (** the id in the server's answer *)
  incident_response : bytes -> option str;
  (** [notify::current_user] *)
  current_user : option str;
}.

Section Sink.
Context {W : WireEnv}.

Definition usb_incident_body (inc : UsbIncident) : option str :=
  v ← inc_verdict inc;
  incident_to_json
    {| ir_channel := channel inc; ir_file_name := inc_file_name inc;
       ir_file_sha256 := inc_file_sha256 inc; ir_verdict := v;
       ir_action_taken := Some (action_taken_label (action_taken inc)); ir_os_user := current_user;
       ir_key_id := inc_key_id inc; ir_sealed_sha256 := sealed_sha256 inc |}.

(** The body of [scan --report]. *)
Definition report_body (chan : str) (v : Verdict) : option str :=
  incident_to_json
    {| ir_channel := chan; ir_file_name := Verdict.file_name v; ir_file_sha256 := file_sha256 v;
       ir_verdict := v; ir_action_taken := None; ir_os_user := None; ir_key_id := None;
       ir_sealed_sha256 := None |}.

Definition incident_wire_body (cfg : NotifyConfig) (inc : UsbIncident) (inst : Z) (ns : NotifyState)
    : option str * option Toast * NotifyState :=
  let '(toast, ns) := on_block_for_incident cfg inc inst ns in
  (usb_incident_body inc, toast, ns).

Definition post_incident_body {S : StateEnv} {V : ServerEnv} (ft : DiskFaults) (reply : Reply) : FsM str :=
  _ ← authenticated ft;
  body ← accepted_body (lit "incident report failed") (lit "incident report rejected") true reply;
  lift (ok_or (incident_response body) (lit "parsing incident response")).

(** ** Delivery *)

(** What one delivery meets: the wall clock (nanoseconds), the monotonic clock,
    whether an identity exists, and what posting a body gives. *)
Record Moment := {
  wall : Z;
  instant : Z;
  enrolled : bool;
  post : str -> result str str;
}.
Record SinkState := { sink_queue : Dir; sink_notify : NotifyState }.
Inductive Delivery :=
  | LoggedOnly
  | Posted (body id : str)
  | Queued (body : str) (r : result str unit).

(** [None] is a panic of the queue. *)
Definition deliver_incident {F : QueueFs} (cfg : NotifyConfig) (q : IncidentQueue) (pid : Z) (t : Moment)
    (inc : UsbIncident) (s : SinkState) : option (Delivery * option Toast * SinkState) :=
  let '(body, toast, ns) := incident_wire_body cfg inc (instant t) (sink_notify s) in
  let enqueue body :=
    '(r, d) ← enqueue q (wall t) pid body (sink_queue s);
    Some (Queued body r, toast, {| sink_queue := d; sink_notify := ns |}) in
  match body with
  | None => Some (LoggedOnly, toast, {| sink_queue := sink_queue s; sink_notify := ns |})
  | Some body =>
      if enrolled t then
        match post t body with
        | Ok id => Some (Posted body id, toast, {| sink_queue := sink_queue s; sink_notify := ns |})
        | Err _ => enqueue body
        end
      else enqueue body
  end.

Fixpoint deliver_all {F : QueueFs} (cfg : NotifyConfig) (q : IncidentQueue) (pid : Z)
    (incs : list (Moment * UsbIncident)) (s : SinkState) : option (list Delivery * SinkState) :=
  match incs with
  | [] => Some ([], s)
  | (t, inc) :: incs' =>
      '(d, _, s) ← deliver_incident cfg q pid t inc s;
      '(ds, s) ← deliver_all cfg q pid incs' s;
      Some (d :: ds, s)
  end.

(** The flush a standalone subcommand starts with. *)
Definition flush_on_start {F : QueueFs} {A : Type} (has_identity : bool) (send : A -> str -> bool * A)
    (a : A) (d : Dir) : nat * A * Dir :=
  if has_identity && negb (queue_is_empty d) then flush send a d else (0%nat, a, d).

(** The audit sink of the decrypt subcommand. *)
Definition decrypt_audit {F : QueueFs} (q : IncidentQueue) (pid : Z) (t : Moment) (inc : UsbIncident) (d : Dir)
    : option (result str unit * Dir) :=
  match usb_incident_body inc with
  | None => Some (Err (lit "serializing decrypt incident"), d)
  | Some body =>
      match (if enrolled t then res_ok (post t body) else None) with
      | Some _ => Some (Ok tt, d)
      | None =>
          '(r, d) ← enqueue q (wall t) pid body d;
          Some (map_err (fun _ => lit "queuing decrypt incident locally") r, d)
      end
  end.
End Sink.

(** ** The pace of check-ins *)

Definition RETRY_SECONDS : Z := 30.
Definition next_checkin (r : result str Z) : Z :=
  match r with Ok interval => Z.max interval 5 | Err _ => RETRY_SECONDS end.

(** The number of 200 ms naps [sleep_interruptible] takes, [stopped] telling at
    which nap the stop signal is seen. *)
Definition sleep_naps (secs : Z) (stopped : option Z) : Z :=
  let steps := Z.min (2 ^ 64 - 1) (secs * 5) in
  match stopped with Some n => Z.min steps n | None => steps end.

(** ** The unified endpoint

    The guard decides by the health signal; the sealer thread seals with the
    keyring it captured when it was started; the resync thread refreshes the
    keyring at rest and the signal. *)

Record Endpoint := {
  ep_health : SealerHealth;
  (** what [build_sealer_keyring] gives *)
  ep_rest : option Keyring;
  (** the keyring of the running sealer *)
  ep_sealer : option (option Keyring);
}.
(** [KeyringStored]: a sync, of this process or another, replaced the keyring at
    rest.  [Resynced]: the resync thread's turn after its own sync.  A start of
    a sealer that is running cannot happen, nor a poll of one that is not. *)
Inductive EndpointEvent :=
  | KeyringStored (rest : option Keyring)
  | SealerStarts
  | SealerPolls (now_ms : Z)
  | SealerEnds
  | Resynced.

Definition has_ring (r : option Keyring) : bool := bool_decide (is_Some r).
Definition endpoint_start (rest : option Keyring) : Endpoint :=
  {| ep_health := SealerHealth_new (has_ring rest); ep_rest := rest; ep_sealer := None |}.
Definition endpoint_step (s : Endpoint) (e : EndpointEvent) : Endpoint :=
  match e with
  | KeyringStored rest => {| ep_health := ep_health s; ep_rest := rest; ep_sealer := ep_sealer s |}
  | SealerStarts =>
      match ep_sealer s with
      | Some _ => s
      | None => {| ep_health := set_keyring_present (has_ring (ep_rest s)) (ep_health s);
                   ep_rest := ep_rest s; ep_sealer := Some (ep_rest s) |}
      end
  | SealerPolls now =>
      match ep_sealer s with
      | Some _ => {| ep_health := mark_alive now (ep_health s); ep_rest := ep_rest s; ep_sealer := ep_sealer s |}
      | None => s
      end
  | SealerEnds => {| ep_health := ep_health s; ep_rest := ep_rest s; ep_sealer := None |}
  | Resynced =>
      {| ep_health := set_keyring_present (has_ring (ep_rest s)) (ep_health s); ep_rest := ep_rest s;
         ep_sealer := ep_sealer s |}
  end.
Definition endpoint_run (rest : option Keyring) (es : list EndpointEvent) : Endpoint :=
  foldl endpoint_step (endpoint_start rest) es.

(** ** The decrypt subcommand's output *)

(** [s.trim_end_matches(suffix)]; each turn shortens the text. *)
Fixpoint trim_suffix_loop (fuel : nat) (suffix s : str) : str :=
  match fuel with
  | O => s
  | S f => match strip_suffix suffix s with Some s' => trim_suffix_loop f suffix s' | None => s end
  end.
Definition trim_suffix (suffix s : str) : str := trim_suffix_loop (length s) suffix s.

(** Where the plaintext goes: [orig_name] is the file name of the authenticated
    name, [dir] the input's directory. *)
Definition decrypt_target (output : option Path) (dir : Path) (orig_name : option str) (envelope_name : str)
    (exists_at : Path -> bool) : result str Path :=
  match output with
  | Some p => Ok p
  | None =>
      let name := match orig_name with
                  | Some n => if str_is_empty n then trim_suffix (lit ".dlpenc") envelope_name else n
                  | None => trim_suffix (lit ".dlpenc") envelope_name
                  end in
      let candidate := dir ++ [name] in
      if exists_at candidate then
        Err (lit "refusing to overwrite " ++ join [47] candidate ++ lit " (pass -o to choose a destination)")
      else Ok candidate
  end.

(** ** Options *)

(** Going on with what was parsed, printing the help, or leaving with code 2. *)
Inductive CliParse (A : Type) : Type := CliRun (a : A) | CliHelp | CliExit (code : Z).
Arguments CliRun {A} _.
Arguments CliHelp {A}.
Arguments CliExit {A} _.

(** [usb-monitor] and [clipboard-monitor] *)
Fixpoint enforce_args (args : list str) (enforce : bool) : CliParse bool :=
  match args with
  | [] => CliRun enforce
  | a :: args' =>
      if bool_decide (a = lit "--enforce") then enforce_args args' true
      else if bool_decide (a = lit "-h") || bool_decide (a = lit "--help") then CliHelp
      else CliExit 2
  end.

Definition net_mode_of (s : str) : option NetMode :=
  if bool_decide (s = lit "monitor") then Some NetRules.Monitor
  else if bool_decide (s = lit "allowlist") then Some Allowlist
  else if bool_decide (s = lit "blocklist") then Some Blocklist
  else None.
Fixpoint net_args (args : list str) (m : NetMode) : CliParse NetMode :=
  match args with
  | [] => CliRun m
  | a :: args' =>
      if bool_decide (a = lit "--enforce") then
        match args' with
        | [] => CliExit 2
        | v :: args'' => match net_mode_of v with Some m => net_args args'' m | None => CliExit 2 end
        end
      else if bool_decide (a = lit "-h") || bool_decide (a = lit "--help") then CliHelp
      else CliExit 2
  end.

(** The input and the output; [None] when [-o] lacks its path. *)
Fixpoint decrypt_args (args : list str) (input output : option str)
    : CliParse (result str (option str * option str)) :=
  match args with
  | [] => CliRun (Ok (input, output))
  | a :: args' =>
      if bool_decide (a = lit "-o") || bool_decide (a = lit "--output") then
        match args' with
        | [] => CliRun (Err (lit "-o requires a path"))
        | p :: args'' => decrypt_args args'' input (Some p)
        end
      else if negb (starts_with [45] a) && bool_decide (input = None) then decrypt_args args' (Some a) output
      else CliExit 2
  end.

Record ScanArgs := {
  sa_bundle : option str; sa_file : option str; sa_json : bool; sa_report : bool; sa_channel : option str;
}.
Fixpoint scan_args (args : list str) (p : ScanArgs) : CliParse ScanArgs :=
  match args with
  | [] => CliRun p
  | a :: args' =>
      if bool_decide (a = lit "--bundle") then
        match args' with
        | [] => CliRun {| sa_bundle := None; sa_file := sa_file p; sa_json := sa_json p;
                          sa_report := sa_report p; sa_channel := sa_channel p |}
        | v :: r => scan_args r {| sa_bundle := Some v; sa_file := sa_file p; sa_json := sa_json p;
                                   sa_report := sa_report p; sa_channel := sa_channel p |}
        end
      else if bool_decide (a = lit "--file") then
        match args' with
        | [] => CliRun {| sa_bundle := sa_bundle p; sa_file := None; sa_json := sa_json p;
                          sa_report := sa_report p; sa_channel := sa_channel p |}
        | v :: r => scan_args r {| sa_bundle := sa_bundle p; sa_file := Some v; sa_json := sa_json p;
                                   sa_report := sa_report p; sa_channel := sa_channel p |}
        end
      else if bool_decide (a = lit "--json") then
        scan_args args' {| sa_bundle := sa_bundle p; sa_file := sa_file p; sa_json := true;
                           sa_report := sa_report p; sa_channel := sa_channel p |}
      else if bool_decide (a = lit "--report") then
        scan_args args' {| sa_bundle := sa_bundle p; sa_file := sa_file p; sa_json := sa_json p;
                           sa_report := true; sa_channel := sa_channel p |}
      else if bool_decide (a = lit "--channel") then
        match args' with
        | [] => CliRun {| sa_bundle := sa_bundle p; sa_file := sa_file p; sa_json := sa_json p;
                          sa_report := sa_report p; sa_channel := None |}
        | v :: r => scan_args r {| sa_bundle := sa_bundle p; sa_file := sa_file p; sa_json := sa_json p;
                                   sa_report := sa_report p; sa_channel := Some v |}
        end
      else CliExit 2
  end.

(** [extract_cert_pem] on the decoded text; [None] outside is the panic of an
    inverted slice. *)
Definition find_at (pat s : str) : option nat := (fun p => length p.1) <$> find_split pat s.
Definition extract_cert_pem (identity : bytes) : option (option str) :=
  let s := from_utf8_lossy identity in
  let closing := lit "-----END CERTIFICATE-----" in
  match find_at (lit "-----BEGIN CERTIFICATE-----") s, find_at closing s with
  | Some start, Some e =>
      let e := (e + length closing)%nat in
      if (start <=? e)%nat then Some (Some (take (e - start) (drop start s))) else None
  | _, _ => Some None
  end.

(** ** Every incident with a verdict is posted or waits in the queue *)

Section Delivered.
Context {W : WireEnv}.

(** The bodies that were not posted, in order. *)
Definition unposted (ds : list Delivery) : list str :=
  omap (fun d => match d with Queued body _ => Some body | _ => None end) ds.
(** The fate of an incident at its moment. *)
Definition fate (t : Moment) (inc : UsbIncident) : Delivery :=
  match usb_incident_body inc with
  | None => LoggedOnly
  | Some body =>
      match (if enrolled t then res_ok (post t body) else None) with
      | Some id => Posted body id
      | None => Queued body (Ok tt)
      end
  end.

(** The clock moves on from one delivery to the next. *)
Fixpoint increasing (from : Z) (ts : list Moment) : Prop :=
  match ts with
  | [] => True
  | t :: ts' => from <= wall t < 10 ^ 39 /\ increasing (wall t + 1) ts'
  end.

Lemma queued_before_mono d a b : a <= b -> queued_before d a -> queued_before d b.
Proof. intros Hab H e He. destruct (H e He) as (n & p & ? & ->). exists n, p. split; [lia|done]. Qed.

Lemma deliver_incident_fate cfg q pid t inc s :
  (0 < cap q)%nat -> 0 <= wall t < 10 ^ 39 -> queued_before (sink_queue s) (wall t) ->
  exists toast s', deliver_incident (F := fs_ok) cfg q pid t inc s = Some (fate t inc, toast, s') /\
    queued_before (sink_queue s') (wall t + 1) /\
    pending (sink_queue s') =
      match unposted [fate t inc] with
      | [] => pending (sink_queue s)
      | new => drop (S (length (pending (sink_queue s))) - cap q) (pending (sink_queue s)) ++ new
      end.
Proof.
  intros Hc Hw Hq. unfold deliver_incident, incident_wire_body, fate.
  destruct (on_block_for_incident cfg inc (instant t) (sink_notify s)) as [toast ns].
  destruct (usb_incident_body inc) as [body|].
  - destruct (enqueue_appends q (wall t) pid body (sink_queue s) Hc Hw Hq) as (d & He & Hp & _ & Hb).
    destruct (enrolled t); [destruct (post t body) as [id|e]|]; cbn [res_ok unposted omap list_omap].
    + eexists _, _. split; [done|]. split; [by apply (queued_before_mono _ (wall t)); [lia|]|done].
    + rewrite He. cbn [mbind option_bind]. eexists _, _. split; [done|]. by split.
    + rewrite He. cbn [mbind option_bind]. eexists _, _. split; [done|]. by split.
  - eexists _, _. split; [done|]. split; [by apply (queued_before_mono _ (wall t)); [lia|]|done].
Qed.

(** Appending with the bound, once and many times. *)
Lemma bounded_append {A : Type} (c : nat) (l : list A) (x : A) (m : list A) :
  (0 < c)%nat ->
  let l1 := drop (S (length l) - c) l ++ [x] in
  drop (length (l1 ++ m) - c) (l1 ++ m) = drop (length (l ++ x :: m) - c) (l ++ x :: m).
Proof.
  intros Hc l1. subst l1. set (k := (S (length l) - c)%nat).
  assert (k <= length l)%nat as Hk by lia.
  replace (l ++ x :: m) with (take k l ++ (drop k l ++ [x]) ++ m)
    by (rewrite <- !app_assoc; cbn [app]; by rewrite app_assoc, take_drop).
  rewrite (length_app (take k l)), length_take.
  set (r := (drop k l ++ [x]) ++ m).
  assert (length r = length l - k + 1 + length m)%nat as Hr
    by (unfold r; rewrite !length_app, length_drop; cbn [length]; lia).
  rewrite drop_app_ge by (rewrite length_take; lia). rewrite length_take. f_equal. lia.
Qed.

Lemma unposted_cons d ds : unposted (d :: ds) = unposted [d] ++ unposted ds.
Proof. exact (omap_app _ [d] ds). Qed.

Lemma deliver_all_fates cfg q pid incs s from :
  (0 < cap q)%nat -> 0 <= from -> increasing from (map fst incs) -> queued_before (sink_queue s) from ->
  exists s', deliver_all (F := fs_ok) cfg q pid incs s = Some (map (fun ti => fate ti.1 ti.2) incs, s') /\
    (unposted (map (fun ti => fate ti.1 ti.2) incs) <> [] \/ (length (pending (sink_queue s)) <= cap q)%nat ->
     pending (sink_queue s') =
      (let all := pending (sink_queue s) ++ unposted (map (fun ti => fate ti.1 ti.2) incs) in
       drop (length all - cap q) all)) /\
    (unposted (map (fun ti => fate ti.1 ti.2) incs) = [] -> pending (sink_queue s') = pending (sink_queue s)).
Proof.
  intros Hc. revert s from. induction incs as [|[t inc] incs IH]; intros s from Hf Hi Hq; cbn [deliver_all map].
  { exists s. split; [done|]. split; [|done]. cbn [unposted omap list_omap]. rewrite app_nil_r.
    intros [?|Hl]; [done|]. replace (length (pending (sink_queue s)) - cap q)%nat with 0%nat by lia. done. }
  cbn [fst snd map] in Hi. destruct Hi as [Hw Hi].
  destruct (deliver_incident_fate cfg q pid t inc s) as (toast & s1 & -> & Hq1 & Hp1);
    [done|lia|by apply (queued_before_mono _ from); [lia|]|].
  cbn [mbind option_bind fst snd].
  destruct (IH s1 (wall t + 1)) as (s2 & -> & H1 & H2); [lia|done|done|]. cbn [mbind option_bind fst snd].
  exists s2. split; [done|].
  rewrite (unposted_cons (fate t inc)).
  destruct (unposted [fate t inc]) as [|b [|? ?]] eqn:Hu.
  - cbn [app]. rewrite Hp1 in H1, H2. split; [exact H1|exact H2].
  - split; [|done]. intros _. cbn [app]. pose proof (bounded_append (cap q) (pending (sink_queue s)) b
      (unposted (map (fun ti => fate ti.1 ti.2) incs)) Hc) as Hb. cbn zeta in Hb. rewrite <- Hb, <- Hp1.
    destruct (unposted (map (fun ti => fate ti.1 ti.2) incs)) as [|u us] eqn:Hus.
    + rewrite H2 by done. rewrite app_nil_r, Hp1, length_app, length_drop. cbn [length].
      rewrite (proj2 (Nat.sub_0_le (length _ - _ + 1) (cap q))) by lia. done.
    + apply H1. by left.
  - exfalso. revert Hu. unfold fate. destruct (usb_incident_body inc); [|done].
    destruct (if enrolled t then _ else _); done.
Qed.
(** *** Whatever the queue's file system does *)

Section AnyDisk.
Context {F : QueueFs}.

(** The fate of an incident: a body that cannot be posted is put into the queue,
    whose answer is dropped by the sinks of the channels. *)
Definition delivered_as (pid : Z) (t : Moment) (inc : UsbIncident) : Delivery :=
  match fate t inc with
  | Queued body _ => Queued body (queue_answer (wall t) pid)
  | d => d
  end.
(** What it makes of the bodies that wait. *)
Definition fifo_delivery (c : nat) (l : list str) (d : Delivery) : list str :=
  match d with Queued body r => fifo_step c l body r | _ => l end.

Lemma drop_oldest_total c l m : (0 < c)%nat -> is_Some (drop_oldest c l m).
Proof.
  intros Hc. revert m. induction l as [|a l IH]; intros m; cbn [drop_oldest].
  - destruct (Nat.leb_spec c (length (@nil str))); [cbn in *; lia|by eexists].
  - destruct (_ <=? _)%nat; [apply IH|by eexists].
Qed.
Lemma enqueue_answers q now pid body d : (0 < cap q)%nat ->
  exists d', enqueue q now pid body d = Some (queue_answer now pid, d').
Proof.
  intros Hc. unfold enqueue, queue_answer. destruct create_dir_all; cbn [negb]; [|by eexists].
  destruct (drop_oldest_total (cap q) (entries (Some (default ∅ d))) (default ∅ d) Hc) as [m ->].
  cbn [mbind option_bind]. destruct (Queue.write_file _); cbn [negb]; [|by eexists].
  destruct (rename_file _); by eexists.
Qed.

Lemma deliver_incident_answers cfg q pid t inc s : (0 < cap q)%nat ->
  exists toast s', deliver_incident cfg q pid t inc s = Some (delivered_as pid t inc, toast, s').
Proof.
  intros Hc. unfold deliver_incident, incident_wire_body, delivered_as, fate.
  destruct (on_block_for_incident cfg inc (instant t) (sink_notify s)) as [toast ns].
  destruct (usb_incident_body inc) as [body|]; [|by eexists _, _].
  destruct (enqueue_answers q (wall t) pid body (sink_queue s) Hc) as [d He].
  destruct (enrolled t); [destruct (post t body); [by eexists _, _|]|]; cbn [res_ok];
    rewrite He; by eexists _, _.
Qed.
Lemma deliver_all_answers cfg q pid incs s : (0 < cap q)%nat ->
  exists s', deliver_all cfg q pid incs s = Some (map (fun ti => delivered_as pid ti.1 ti.2) incs, s').
Proof.
  intros Hc. revert s. induction incs as [|[t inc] incs IH]; intros s; cbn [deliver_all map fst snd]; [by eexists|].
  destruct (deliver_incident_answers cfg q pid t inc s Hc) as (toast & s1 & ->). cbn [mbind option_bind].
  destruct (IH s1) as [s2 ->]. by eexists.
Qed.

Lemma deliver_incident_effect cfg q pid t inc s toast s' :
  reads_and_removes F -> (0 < cap q)%nat -> 0 <= wall t < 10 ^ 39 -> queued_before (sink_queue s) (wall t) ->
  deliver_incident cfg q pid t inc s = Some (delivered_as pid t inc, toast, s') ->
  queued_before (sink_queue s') (wall t + 1) /\
  pending (sink_queue s') = fifo_delivery (cap q) (pending (sink_queue s)) (delivered_as pid t inc).
Proof.
  intros HF Hc Hw Hq. unfold deliver_incident, incident_wire_body, delivered_as, fate.
  destruct (on_block_for_incident cfg inc (instant t) (sink_notify s)) as [toast' ns].
  assert (queued_before (sink_queue s) (wall t + 1)) as Hq' by (apply (queued_before_mono _ (wall t)); [lia|done]).
  destruct (usb_incident_body inc) as [body|]; [|by intros [= _ <-]].
  destruct (enqueue_effect HF q (wall t) pid body (sink_queue s) Hc Hw Hq) as (d & He & Hp & Hb).
  destruct (enrolled t); [destruct (post t body); [by intros [= _ <-]|]|]; cbn [res_ok];
    rewrite He; intros [= _ <-]; by split.
Qed.
Lemma deliver_all_effect cfg q pid incs s s' ds from :
  reads_and_removes F -> (0 < cap q)%nat -> 0 <= from -> increasing from (map fst incs) ->
  queued_before (sink_queue s) from -> deliver_all cfg q pid incs s = Some (ds, s') ->
  pending (sink_queue s') = foldl (fifo_delivery (cap q)) (pending (sink_queue s)) ds.
Proof.
  intros HF Hc. revert s ds from. induction incs as [|[t inc] incs IH]; intros s ds from Hf Hi Hq; cbn [deliver_all];
    [by intros [= <- <-]|].
  cbn [fst snd map] in Hi. destruct Hi as [Hw Hi].
  destruct (deliver_incident_answers cfg q pid t inc s Hc) as (toast & s1 & H1). rewrite H1.
  destruct (deliver_incident_effect cfg q pid t inc s toast s1 HF Hc) as [Hq1 Hp1];
    [lia|by apply (queued_before_mono _ from); [lia|]|done|]. cbn [mbind option_bind].
  destruct (deliver_all cfg q pid incs s1) as [[ds' s2]|] eqn:Hd; [|done]. cbn. intros [= <- <-].
  rewrite (IH s1 ds' (wall t + 1)) by (done || lia). cbn [foldl]. by rewrite Hp1.
Qed.

(** With working writes the queue is the bounded fifo of what was not posted. *)
Definition writes_work : Prop :=
  create_dir_all = true /\ (forall n, Queue.write_file n = true) /\ (forall n, rename_file n = true).
Lemma writes_work_answer now pid : writes_work -> queue_answer now pid = Ok tt.
Proof. intros (H1 & H2 & H3). unfold queue_answer. by rewrite H1, H2, H3. Qed.
End AnyDisk.

(** What a bounded queue holds after [new] was appended to [l] one by one. *)
Definition bounded_fifo (c : nat) (l new : list str) : list str :=
  match new with [] => l | _ => drop (length (l ++ new) - c) (l ++ new) end.

Lemma bounded_fifo_cons c l b new : (0 < c)%nat ->
  bounded_fifo c (drop (S (length l) - c) l ++ [b]) new = bounded_fifo c l (b :: new).
Proof.
  intros Hc. pose proof (bounded_append c l b new Hc) as H. cbv zeta in H. unfold bounded_fifo at 2.
  rewrite <- H. unfold bounded_fifo. destruct new as [|u us]; [|done].
  rewrite app_nil_r, length_app, length_drop. cbn [length].
  by rewrite (proj2 (Nat.sub_0_le (length l - (S (length l) - c) + 1) c)) by lia.
Qed.
Lemma foldl_fifo_bounded {F : QueueFs} c pid incs l : (0 < c)%nat -> writes_work ->
  let ds := map (fun ti => delivered_as pid ti.1 ti.2) incs in
  foldl (fifo_delivery c) l ds = bounded_fifo c l (unposted ds) /\
  ds = map (fun ti => fate ti.1 ti.2) incs.
Proof.
  intros Hc Hw. cbv zeta. revert l. induction incs as [|[t inc] incs IH]; intros l; cbn [map foldl fst snd]; [done|].
  assert (delivered_as pid t inc = fate t inc) as ->.
  { unfold delivered_as, fate. destruct (usb_incident_body inc) as [b|]; [|done].
    destruct (if enrolled t then _ else _); [done|]. by rewrite writes_work_answer. }
  split; [|f_equal; by apply (IH [])]. rewrite (proj1 (IH _)), (unposted_cons (fate t inc)).
  unfold fate. destruct (usb_incident_body inc) as [b|]; [|done].
  destruct (if enrolled t then _ else _); [done|]. cbn [fifo_delivery unposted omap list_omap app].
  unfold fifo_step. rewrite (proj1 Hw). by apply bounded_fifo_cons.
Qed.

(** No incident with a verdict is lost: over any run of the sink its body is
    posted, or waits in the queue, in order, behind what waited before; only the
    oldest bodies beyond the cap are dropped.  The next start with an identity
    sends what waits, oldest first, up to the first refusal.  A metadata-only
    incident is never sent. *)
Theorem incidents_posted_or_queued cfg q pid incs s from :
  (0 < cap q)%nat -> 0 <= from -> increasing from (map fst incs) -> queued_before (sink_queue s) from ->
  (length (pending (sink_queue s)) <= cap q)%nat ->
  let ds := map (fun ti => fate ti.1 ti.2) incs in
  exists s', deliver_all (F := fs_ok) cfg q pid incs s = Some (ds, s') /\
    pending (sink_queue s') = bounded_fifo (cap q) (pending (sink_queue s)) (unposted ds) /\
    forall St (send : St -> str -> bool * St) st, exists d',
      flush_on_start (F := fs_ok) true send st (sink_queue s') =
        (deliver send st (pending (sink_queue s')), d') /\
      pending d' = drop (deliver send st (pending (sink_queue s'))).1 (pending (sink_queue s')).
Proof.
  intros Hc Hf Hi Hq Hl ds.
  destruct (deliver_all_fates cfg q pid incs s from Hc Hf Hi Hq) as (s' & -> & H1 & H2).
  exists s'. split; [done|]. split.
  - fold ds in H1, H2. unfold bounded_fifo. destruct (unposted ds) as [|u us]; [by apply H2|].
    apply H1. by right.
  - intros St send st. unfold flush_on_start, queue_is_empty. cbn [andb].
    destruct (Nat.eqb_spec (queue_len (sink_queue s')) 0) as [E|E]; cbn [negb].
    + exists (sink_queue s'). unfold pending. unfold queue_len in E. apply nil_length_inv in E. rewrite E. by destruct (sink_queue s').
    + destruct (flush_delivers send st (sink_queue s')) as (d' & -> & Hp). by exists d'.
Qed.
End Delivered.

(** ** The signal and the sealer *)

(** The ring of a running sealer was at rest when it started. *)
Definition started_with (rest : option Keyring) (es : list EndpointEvent) (r : option Keyring) : Prop :=
  exists a b, es = a ++ SealerStarts :: b /\ ep_sealer (endpoint_run rest a) = None /\ SealerEnds ∉ b /\
    r = ep_rest (endpoint_run rest a) /\
    ((forall k, KeyringStored k ∉ b) ->
     r = ep_rest (endpoint_run rest es) /\ keyring_present (ep_health (endpoint_run rest es)) = has_ring r).
(** The signal tells of the ring at rest at some moment since the last resync. *)
Definition signalled (rest : option Keyring) (es : list EndpointEvent) : Prop :=
  exists a b, es = a ++ b /\ Resynced ∉ b /\
    keyring_present (ep_health (endpoint_run rest es)) = has_ring (ep_rest (endpoint_run rest a)).

Lemma endpoint_run_snoc rest es e :
  endpoint_run rest (es ++ [e]) = endpoint_step (endpoint_run rest es) e.
Proof. unfold endpoint_run. by rewrite foldl_app. Qed.

Lemma started_with_snoc rest es e r :
  started_with rest es r -> e <> SealerEnds -> is_Some (ep_sealer (endpoint_run rest es)) ->
  started_with rest (es ++ [e]) r.
Proof.
  intros (a & b & -> & Hn & Hb & -> & Hk) He [r' Hr]. exists a, (b ++ [e]).
  split; [by rewrite <- app_assoc|]. split; [done|].
  split; [rewrite elem_of_app, list_elem_of_singleton; naive_solver|]. split; [done|]. intros Hk'.
  destruct Hk as [Hk1 Hk2]; [intros k Hin; apply (Hk' k), elem_of_app; by left|].
  rewrite endpoint_run_snoc. set (st := endpoint_run rest (a ++ SealerStarts :: b)) in *.
  rewrite Hk1 in Hk2 |- *.
  destruct e as [k| | | |]; cbn [endpoint_step]; rewrite ?Hr; cbn; try done.
  exfalso. apply (Hk' k), elem_of_app. right. by left.
Qed.

Lemma signalled_snoc rest es e : e <> Resynced -> signalled rest es ->
  keyring_present (ep_health (endpoint_step (endpoint_run rest es) e)) =
    keyring_present (ep_health (endpoint_run rest es)) -> signalled rest (es ++ [e]).
Proof.
  intros He (a & b & -> & Hb & Hs) Hk. exists a, (b ++ [e]). split; [by rewrite app_assoc|].
  split; [rewrite elem_of_app, list_elem_of_singleton; naive_solver|]. by rewrite endpoint_run_snoc, Hk.
Qed.

(** Over every interleaving of the endpoint's threads the sealer seals with
    the keyring that was at rest when it started, and as long as no sync replaces
    that keyring the signal the guard reads says exactly whether this sealer has
    one.  The signal always tells of the keyring at rest at some moment since the
    last resync. *)
Theorem signal_tells_of_sealer rest es :
  match ep_sealer (endpoint_run rest es) with Some r => started_with rest es r | None => True end /\
  signalled rest es.
Proof.
  induction es as [|e es [IHs IHk]] using rev_ind; [split; [done|by exists [], []; split_and!; [|apply not_elem_of_nil|]]|].
  assert (forall s, endpoint_run rest (es ++ [e]) = s -> keyring_present (ep_health s) = has_ring (ep_rest s) ->
    signalled rest (es ++ [e])) as Hnow.
  { intros s <- Hs. exists (es ++ [e]), []. rewrite app_nil_r. split_and!; [done|apply not_elem_of_nil|done]. }
  pose proof (endpoint_run_snoc rest es e) as Hr. rewrite Hr.
  pose proof (fun r => started_with_snoc rest es e r) as Hst. pose proof (signalled_snoc rest es e) as Hsg.
  destruct (ep_sealer (endpoint_run rest es)) as [r|] eqn:Hs; destruct e as [k| |now| |]; cbn in Hr |- *;
    rewrite ?Hs in *; cbn; (split; [try done; try (apply Hst; by eauto)|try (eapply Hnow; [exact Hr|done])]);
    try (apply Hsg; cbn; rewrite ?Hs; done).
  exists es, []. split_and!; [done|done|apply not_elem_of_nil|done|]. intros _. rewrite Hr. done.
Qed.

(** A keyring that arrives while a sealer without one runs: the guard is told the
    sealer is healthy, and the sealer still has no keyring. *)
Example resynced_keyring_not_used (ring : Keyring) :
  let st := endpoint_run None [SealerStarts; KeyringStored (Some ring); Resynced; SealerPolls 7] in
  is_healthy_at (ep_health st) 8 1000 = true /\ ep_sealer st = Some None.
Proof. by split. Qed.

(** ** The subcommands *)

(** Without [-o] the plaintext goes to a file that does not exist, in the
    input's own directory. *)
Lemma decrypt_target_is_new dir orig env_name exists_at p :
  decrypt_target None dir orig env_name exists_at = Ok p ->
  exists_at p = false /\ exists name, p = dir ++ [name].
Proof.
  unfold decrypt_target. set (name := match orig with Some _ => _ | None => _ end).
  destruct (exists_at _) eqn:E; intros [= <-]. split; [done|by exists name].
Qed.

Lemma trim_suffix_ends suffix s :
  suffix <> [] -> strip_suffix suffix (trim_suffix suffix s) = None \/ trim_suffix suffix s = [].
Proof.
  intros Hs. unfold trim_suffix.
  assert (forall n (s : str), (length s <= n)%nat ->
    strip_suffix suffix (trim_suffix_loop n suffix s) = None \/ trim_suffix_loop n suffix s = []) as H; [|by apply H].
  clear s. induction n as [|n IH]; intros s Hl; cbn [trim_suffix_loop].
  { right. by apply nil_length_inv, Nat.le_0_r. }
  destruct (strip_suffix suffix s) as [s'|] eqn:E; [|by left]. apply IH.
  revert E. unfold strip_suffix. intros (r & Hr & ->)%fmap_Some. apply strip_prefix_Some in Hr.
  apply (f_equal length) in Hr. rewrite length_app, !length_rev in Hr. rewrite length_rev.
  destruct suffix; [done|cbn [length] in Hr; lia].
Qed.

(** Only [--enforce] is accepted, and it is what turns enforcement on. *)
Lemma enforce_args_run args e b :
  enforce_args args e = CliRun b <-> Forall (eq (lit "--enforce")) args /\ b = e || negb (bool_decide (args = [])).
Proof.
  revert e. induction args as [|a args IH]; intros e; cbn [enforce_args].
  { rewrite bool_decide_eq_true_2 by done. rewrite orb_false_r. split; [intros [= ->]; by split; [constructor|]|intros [_ ->]; done]. }
  rewrite Forall_cons. destruct (bool_decide_reflect (a = lit "--enforce")) as [Ha|Ha].
  - rewrite IH, (bool_decide_eq_false_2 (a :: args = [])) by done. rewrite orb_true_r. cbn [orb]. naive_solver.
  - destruct (_ || _); (split; [done|]); intros [[H _] _]; congruence.
Qed.

(** A stored identity with its certificate markers inverted panics. *)
Example inverted_certificate_panics :
  extract_cert_pem (lit "-----END CERTIFICATE----- -----BEGIN CERTIFICATE-----") = None /\
  extract_cert_pem (lit "key -----BEGIN CERTIFICATE-----x-----END CERTIFICATE----- tail") =
    Some (Some (lit "-----BEGIN CERTIFICATE-----x-----END CERTIFICATE-----")).
Proof. split; vm_compute; reflexivity. Qed.

(** ** Samples *)

Definition toy_wire : WireEnv :=
  {| incident_to_json := fun r => Some (ir_channel r ++ 58 :: ir_file_name r);
     incident_response := fun _ => None; current_user := None |}.
Definition posted_incident (name : str) : UsbIncident :=
  clip_incident Match (lit "usb") name (lit "sha") (Some row_verdict) true (lit "n").
Definition offline (t : Z) : Moment := {| wall := t; instant := t; enrolled := true; post := fun _ => Err [] |}.
Definition online (t : Z) : Moment := {| wall := t; instant := t; enrolled := true; post := fun _ => Ok (lit "id") |}.

Lemma incidents_posted_or_queued_witness :
  let incs := [(offline 1, posted_incident (lit "a")); (online 2, posted_incident (lit "b"));
               (online 3, blocked_incident); (offline 4, posted_incident (lit "c"));
               (offline 5, posted_incident (lit "d"))] in
  let s := {| sink_queue := None; sink_notify := {| throttle := None; counter := 0 |} |} in
  exists s', deliver_all (W := toy_wire) (F := fs_ok) default_notify {| cap := 2 |} 7 incs s =
      Some ([Queued (lit "usb:a") (Ok tt); Posted (lit "usb:b") (lit "id"); LoggedOnly;
             Queued (lit "usb:c") (Ok tt); Queued (lit "usb:d") (Ok tt)], s') /\
    pending (sink_queue s') = [lit "usb:c"; lit "usb:d"].
Proof.
  intros incs s.
  destruct (incidents_posted_or_queued (W := toy_wire) default_notify {| cap := 2 |} 7 incs s 0)
    as (s' & H & Hp & _); [cbn; lia|lia|cbn; lia|intros e He; exfalso; cbn in He; by apply not_elem_of_nil in He|cbn; lia|].
  exists s'. split; [rewrite H; vm_compute; reflexivity|]. rewrite Hp. vm_compute. reflexivity.
Defined.
