(* ===== verification/Commands.v ===== *)
(** The subcommands as compositions of the components ([src/main.rs]): the check-in
    and resync turns of the unified endpoint over the protected state, its worker
    threads, the service wrapper around it ([src/service.rs]), [index-update],
    [scan], and the whole of [decrypt] with its audit sink and its writer. *)

From S2P Require Import Prelude Words Text F64 Unicode Fingerprint Bundle Edm Utf8 Extract Verdict.
From S2P Require Import TrustDest Device UsbPolicy Enforce Watch Supervise Queue Crypto CopyAudit Decrypt.
From S2P Require Import RemoteTools NetRules Config TrustSync UsbMonitor Notify State Agent.
#[local] Open Scope Z_scope.

(** ** Choosing the subcommand *)

Inductive Mode :=
  | MEnroll | MOnce | MRun | MStatus | MIndexUpdate | MScan | MUsbMonitor | MUsbGuard | MClipboardMonitor
  | MNetMonitor | MBrowserHost | MDecrypt | MRunEndpoint | MInstallService | MUninstallService
  | MServiceRun | MUnknown.
#[export] Instance Mode_eq_dec : EqDecision Mode.
Proof. solve_decision. Defined.
Definition mode_names : list (str * Mode) :=
  [(lit "enroll", MEnroll); (lit "once", MOnce); (lit "run", MRun); (lit "status", MStatus);
   (lit "index-update", MIndexUpdate); (lit "scan", MScan); (lit "usb-monitor", MUsbMonitor);
   (lit "usb-guard", MUsbGuard); (lit "clipboard-monitor", MClipboardMonitor); (lit "net-monitor", MNetMonitor);
   (lit "browser-host", MBrowserHost); (lit "decrypt", MDecrypt); (lit "run-endpoint", MRunEndpoint);
   (lit "install-service", MInstallService); (lit "uninstall-service", MUninstallService);
   (lit "service-run", MServiceRun)].
Definition mode_of (mode : str) : Mode :=
  match find (fun e => bool_decide (mode = e.1)) mode_names with Some e => e.2 | None => MUnknown end.
(** The modes whose help is shown before the configuration is read. *)
Definition helped : list str :=
  [lit "scan"; lit "usb-monitor"; lit "usb-guard"; lit "clipboard-monitor"; lit "net-monitor";
   lit "browser-host"; lit "decrypt"].

(** What a start of the process comes to; [Configured] goes on with the loaded
    configuration. *)
Inductive Start :=
  | ServiceDispatcher
  | Help
  | SubcommandHelp (mode : str)
  | Toast (args : list str)
  | Configured (m : Mode) (args : list str).

Definition is_help_flag (a : str) : bool := bool_decide (a = lit "-h") || bool_decide (a = lit "--help").
(** [run], [argv] being the arguments after the program's name. *)
Definition run (argv : list str) : Start :=
  let mode := default (lit "run") (head argv) in
  let args := tail argv in
  if bool_decide (mode = lit "help") || is_help_flag mode then Help
  else if bool_decide (mode ∈ helped) && existsb is_help_flag args then SubcommandHelp mode
  else if bool_decide (mode = lit "toast") then Toast args
  else Configured (mode_of mode) args.
(** [main] on Windows. *)
Definition start_process (argv : list str) : Start :=
  if bool_decide (default [] (head argv) = lit "service-run") then ServiceDispatcher else run argv.

(** ** The workers of the endpoint *)

(** What the workers share: the files of the state directory, the configuration
    behind its lock and the health signal. *)
Record Shared := { sh_files : Files; sh_config : RwLock Config; sh_health : SealerHealth }.

(** Writing through the lock; a poisoned lock stays poisoned. *)
Definition swap_config (c : Config) (l : RwLock Config) : RwLock Config :=
  match l with Clean _ => Clean c | Poisoned _ => Poisoned c end.

Section Workers.
Context {S : StateEnv} {V : ServerEnv} {E : CryptoEnv} {J : JsonEnv} {B : BundleEnv} (ft : DiskFaults).
(** The configuration as loaded, and what reading its keyfile gives. *)
Context (base : Config) (keyfile : option (result str bytes)).

(** The sync, the effective configuration and whether a keyring loads: what the
    start of the endpoint and each turn of the resync thread do. *)
Definition pull (reply : Reply) (fs : Files) : Files * Config * bool :=
  let '(_, _, fs) := sync_trusted_config ft reply [] fs in
  let synced := match (load_synced_destinations ft [] fs).1.1 with Ok ds => ds | Err _ => [] end in
  let ring := match (build_sealer_keyring ft keyfile [] fs).1.1 with Ok r => r | Err _ => None end in
  (fs, with_synced_destinations base synced, has_ring ring).

Definition endpoint_boot (reply : Reply) (fs : Files) : Shared :=
  let '(fs, effective, keyring_present) := pull reply fs in
  {| sh_files := fs; sh_config := Clean effective; sh_health := SealerHealth_new keyring_present |}.
Definition resync_turn (reply : Reply) (s : Shared) : Shared :=
  let '(fs, new_effective, present) := pull reply (sh_files s) in
  {| sh_files := fs; sh_config := swap_config new_effective (sh_config s);
     sh_health := set_keyring_present present (sh_health s) |}.

(** How long the resync thread sleeps before a turn. *)
Definition resync_secs : Z := Z.max (checkin_interval_seconds base) 30.

(** One turn of the check-in thread: how long it sleeps then. *)
Definition checkin_turn (reply index_reply : Reply) (fs : Files) : Z * Files :=
  let '(r, _, fs) := checkin_full ft reply [] fs in
  match r with
  | Ok outcome =>
      let '(_, _, fs) := update_index_bundle ft (index_latest outcome) index_reply [] fs in
      (next_checkin (Ok (interval_seconds outcome)), fs)
  | Err e => (next_checkin (Err e), fs)
  end.

Definition cmd_index_update (token : option str) (hostname os version : str) (ca_file : result str bytes)
    (send : EnrollRequest -> Reply) (reply index_reply : Reply) : FsM unit :=
  _ ← ensure_enrolled ft token hostname os version ca_file send;
  outcome ← checkin_full ft reply;
  update_index_bundle ft (index_latest outcome) index_reply.
End Workers.

(** [supervised_thread]: a turn is the stop flag as the loop finds it, how the
    body ends, and the flag after it.  How often the body ran, and whether the
    thread left. *)
Inductive BodyEnd := BodyReturned | BodyPanicked.
Fixpoint supervised_thread (turns : list (bool * BodyEnd * bool)) : nat * bool :=
  match turns with
  | [] => (0%nat, false)
  | (stop_before, _, stop_after) :: turns' =>
      if stop_before then (0%nat, true)
      else if stop_after then (1%nat, true)
      else let '(n, left_loop) := supervised_thread turns' in (Datatypes.S n, left_loop)
  end.

(** ** The service *)

Inductive ServiceStatus := StatusRunning | StatusStopped (exit_code : Z).
Inductive ServiceControl := ControlStop | ControlShutdown | ControlInterrogate | ControlOther.

(** The handler: the new stop flag, and whether the control is implemented. *)
Definition service_event (stop : bool) (c : ServiceControl) : bool * bool :=
  match c with
  | ControlStop | ControlShutdown => (true, true)
  | ControlInterrogate => (stop, true)
  | ControlOther => (stop, false)
  end.

(** The statuses reported and how the run ends; [load] and [endpoint] are what
    loading the configuration and the endpoint give. *)
Definition run_service {A : Type} (register set_running : result str unit) (load : result str A)
    (endpoint : A -> result str unit) : list ServiceStatus * result str unit :=
  match register with
  | Err e => ([], Err e)
  | Ok _ =>
      match set_running with
      | Err e => ([], Err e)
      | Ok _ =>
          match load with
          | Err e => ([StatusRunning], Err e)
          | Ok a =>
              let r := endpoint a in
              ([StatusRunning; StatusStopped (if res_ok r then 0 else 1)], r)
          end
      end
  end.

(** ** [scan] *)

Section Scan.
Context {S : StateEnv} {V : ServerEnv} {B : BundleEnv} {D : Digest} {U : Unicode} {X : ExtractEnv} {W : WireEnv}.

(** [read] is reading a file; the verdict is printed.  [None] is a panic. *)
Definition cmd_scan (ft : DiskFaults) (ca_file : result str bytes) (read : str -> result str bytes)
    (file_name_of : str -> option str) (p : ScanArgs) (reply : Reply)
    : FsM (option (result str Verdict)) :=
  bundle_path ← lift (ok_or (sa_bundle p) (lit "scan requires --bundle <path>"));
  file_path ← lift (ok_or (sa_file p) (lit "scan requires --file <path>"));
  ca_pem ← load_ca ft ca_file;
  bundle_bytes ← lift (map_err (fun _ => lit "reading bundle " ++ bundle_path) (read bundle_path));
  bundle ← lift (map_err (fun _ => lit "loading index bundle") (load bundle_bytes ca_pem));
  match verdict (res_ok (read file_path)) (file_name_of file_path) file_path bundle with
  | Some (Ok v) =>
      if sa_report p then
        chan ← lift (ok_or (sa_channel p) (lit "--report requires --channel <name>"));
        body ← lift (ok_or (report_body chan v) (lit "serializing incident"));
        _ ← post_incident_body ft reply;
        mret (Some (Ok v))
      else mret (Some (Ok v))
  | r => mret r
  end.
End Scan.

(** ** [decrypt] *)

Section DecryptCommand.
Context {E : CryptoEnv} {D : Digest} {W : WireEnv} {F : QueueFs}.

(** What the run finds: the queue, this process, the moment of the audit, where
    the output goes, what the file system refuses. *)
Record DecryptRun := {
  dr_queue : IncidentQueue;
  dr_pid : Z;
  dr_moment : Moment;
  dr_output : option Path;
  (** the directory of the input *)
  dr_dir : Path;
  dr_agent : str;
  (** [Path::new(p).file_name()] with the host's path syntax *)
  dr_file_name : str -> option str;
  (** a directory, or anything else that exists but is no file *)
  dr_occupied : Path -> bool;
  dr_write_fault : Path -> option WriteFault;
}.
Context (x : DecryptRun).

Definition dr_target (envelope_name : str) (fs : Files) (header : EnvelopeHeader) : result str Path :=
  decrypt_target (dr_output x) (dr_dir x) (dr_file_name x (orig_name header)) envelope_name
    (fun p => bool_decide (is_Some (fs !! p)) || dr_occupied x p).

(** The writer: its answer and the files after it. *)
Definition dr_write (envelope_name : str) (fs : Files) (header : EnvelopeHeader) (plaintext : bytes)
    : result str unit * Files :=
  match dr_target envelope_name fs header with
  | Err e => (Err e, fs)
  | Ok p =>
      match dr_write_fault x p with
      | Some (NotOpened _) => (Err (lit "writing " ++ join [47] p), fs)
      | Some (Torn _ n) => (Err (lit "writing " ++ join [47] p), <[p := take n plaintext]> fs)
      | None => (Ok tt, <[p := plaintext]> fs)
      end
  end.

(** The answer of the audit sink; that of a panic is never used. *)
Definition dr_audit (d : Dir) (inc : UsbIncident) : result str unit :=
  match decrypt_audit (dr_queue x) (dr_pid x) (dr_moment x) inc d with Some (r, _) => r | None => Err [] end.

(** [cmd_decrypt] from the envelope's bytes and the loaded keyring on (the whole
    command is [Program.cmd_decrypt]); the sink and the writer act on the queue and
    the files in the order of the calls.
    [None] is a panic of the queue. *)
Definition run_decrypt (envelope_bytes : bytes) (envelope_name : str) (ring : Keyring) (fs : Files) (d : Dir)
    : option (result DecryptError DecryptSummary * Files * Dir) :=
  let '(r, calls) := decrypt_envelope envelope_bytes envelope_name ring (dr_agent x) (dr_audit d)
                       (fun h pt => (dr_write envelope_name fs h pt).1) in
  '(fs, d) ← foldl (fun acc call =>
      '(fs, d) ← acc;
      match call with
      | CallAudit inc =>
          '(_, d) ← decrypt_audit (dr_queue x) (dr_pid x) (dr_moment x) inc d; Some (fs, d)
      | CallWrite h pt => Some ((dr_write envelope_name fs h pt).2, d)
      end) (Some (fs, d)) calls;
  Some (r, fs, d).
End DecryptCommand.

(** ** The whitelist survives outages and restarts *)

Section Resync.
Context {S : StateEnv} {SL : StateLaws S} {V : ServerEnv} {E : CryptoEnv} {J : JsonEnv} {L : JsonLaws J E}.
Context (ft : DiskFaults) (base : Config) (keyfile : option (result str bytes)).

(** What a pull finds at rest. *)
Lemma pull_at_rest (reply : Reply) (fs fs' : Files) (ds : list SyncedDestination) (t : list Files) r :
  sync_trusted_config ft reply [] fs = (r, t, fs') -> pure_at (load_synced_destinations ft) fs' (Ok ds) ->
  pull ft base keyfile reply fs = (fs', with_synced_destinations base ds, has_ring (sealer_ring ft keyfile fs')).
Proof. intros Hs Hd. unfold pull. by rewrite Hs, Hd, (build_sealer_keyring_pure ft keyfile fs'). Qed.

Lemma pure_bind {A C : Type} (m : FsM A) (f : A -> FsM C) (fs : Files) (r : result str A) (r' : result str C) :
  pure_at m fs r -> match r with Ok a => pure_at (f a) fs r' | Err e => r' = Err e end -> pure_at (m ≫= f) fs r'.
Proof. intros Hm Hr tr. unfold mbind, FsM_bind. rewrite Hm. destruct r; [apply Hr|by subst]. Qed.

(** Without a reply nothing is fetched, and nothing changes. *)
Lemma fetch_unreachable (m : str) (fs : Files) :
  exists e, pure_at (fetch_trusted_config ft (Err m)) fs (Err e).
Proof.
  destruct (load_identity_pure ft fs) as (r & Hr & _).
  assert (exists r', pure_at (authenticated ft) fs r') as [r' Ha].
  { destruct r as [[i c]|e].
    - destruct (checkin_client c i) as [u|e] eqn:Hc.
      + exists (Ok (i, c)). apply (pure_bind _ _ _ _ _ Hr). cbn.
        apply (pure_bind _ _ _ (Ok u)); [by rewrite Hc|done].
      + exists (Err e). apply (pure_bind _ _ _ _ _ Hr). cbn. by apply (pure_bind _ _ _ (Err e)); [rewrite Hc|].
    - exists (Err e). by apply (pure_bind _ _ _ _ _ Hr). }
  destruct r' as [p|e].
  - exists (lit "trusted-config request failed"). apply (pure_bind _ _ _ _ _ Ha).
    by apply (pure_bind _ _ _ (Err (lit "trusted-config request failed"))).
  - exists e. by apply (pure_bind _ _ _ _ _ Ha).
Qed.

(** A pull without the server leaves the files, and gives what lies there. *)
Lemma pull_unreachable (m : str) (fs : Files) (ds : list SyncedDestination) :
  pure_at (load_synced_destinations ft) fs (Ok ds) ->
  pull ft base keyfile (Err m) fs = (fs, with_synced_destinations base ds, has_ring (sealer_ring ft keyfile fs)).
Proof.
  intros Hd. destruct (fetch_unreachable m fs) as [e He].
  destruct (sync_fails_soft ft (Err m) fs e He) as (ds' & Hs & _). exact (pull_at_rest _ _ _ _ _ _ Hs Hd).
Qed.

(** What a turn makes of the shared state when the server delivers, and when it
    cannot be reached. *)
Definition whitelisted (b : bool) (fs : Files) (ds : list SyncedDestination) (s : Shared) : Shared :=
  {| sh_files := fs; sh_config := swap_config (with_synced_destinations base ds) (sh_config s);
     sh_health := set_keyring_present b (sh_health s) |}.
Definition deliverable (reply : Reply) (fs : Files) (tc : TrustedConfig) : Prop :=
  pure_at (fetch_trusted_config ft reply) fs (Ok tc) /\
  json_to_vec (JObj [(lit "destinations", JArr (map dest_to_value (destinations tc)))]) <> None /\
  (forall json, to_keyring_json tc = Some json -> exists sealed, dpapi_protect json = Ok sealed).
Lemma resync_turn_delivers reply s tc : fault_free ft -> deliverable reply (sh_files s) tc ->
  exists fs', resync_turn ft base keyfile reply s =
      whitelisted (has_ring (sealer_ring ft keyfile fs')) fs' (destinations tc) s /\
    pure_at (load_synced_destinations ft) fs' (Ok (destinations tc)) /\
    (is_Some (to_keyring_json tc) ->
     (forall k, k ∈ synced_keys tc -> exists raw, base64_decode (key_b64 k) = Some raw /\ length raw = 32%nat) ->
     has_ring (sealer_ring ft keyfile fs') = true).
Proof.
  intros Hft (Hf & Hser & Hprot).
  destruct (sync_delivers ft reply keyfile (sh_files s) tc Hft Hf Hser Hprot) as (t & fs' & Hs & Hd & Hring & _ & _).
  exists fs'. split; [|split; [exact Hd|]].
  - unfold resync_turn. by rewrite (pull_at_rest _ _ _ _ _ _ Hs Hd).
  - intros Hj Hk. destruct (Hring Hj Hk) as (ring & Hr & _).
    pose proof (build_sealer_keyring_pure ft keyfile fs' []) as Hb. rewrite Hr in Hb. injection Hb as Hb.
    by rewrite <- Hb.
Qed.
Lemma resync_turn_offline m s ds : pure_at (load_synced_destinations ft) (sh_files s) (Ok ds) ->
  resync_turn ft base keyfile (Err m) s =
    whitelisted (has_ring (sealer_ring ft keyfile (sh_files s))) (sh_files s) ds s.
Proof. intros Hd. unfold resync_turn. by rewrite (pull_unreachable m _ _ Hd). Qed.

(** C24: A delivered whitelist survives.  After a resync turn that the server
    answered, the workers share exactly the local configuration merged with the
    delivered destinations, and the signal says whether a keyring loads, which it
    does when 32-byte keys were delivered; any number of turns that do not reach
    the server leave files, configuration and signal as they are, a poisoned lock
    included; and an endpoint started without the server on those files comes up
    with the same configuration and the same keyring signal. *)
Theorem whitelist_survives_outage (reply : Reply) (s : Shared) (tc : TrustedConfig) (outages : list str) (m : str) :
  fault_free ft ->
  pure_at (fetch_trusted_config ft reply) (sh_files s) (Ok tc) ->
  json_to_vec (JObj [(lit "destinations", JArr (map dest_to_value (destinations tc)))]) <> None ->
  (forall json, to_keyring_json tc = Some json -> exists sealed, dpapi_protect json = Ok sealed) ->
  let turn r s := resync_turn ft base keyfile r s in
  let s1 := turn reply s in
  let s2 := foldl (fun s e => turn (Err e) s) s1 outages in
  let boot := endpoint_boot ft base keyfile (Err m) (sh_files s2) in
  s2 = s1 /\
  snapshot_config (sh_config s1) = with_synced_destinations base (destinations tc) /\
  last_ok_ms (sh_health s1) = last_ok_ms (sh_health s) /\
  keyring_present (sh_health s1) = has_ring (sealer_ring ft keyfile (sh_files s1)) /\
  (is_Some (to_keyring_json tc) ->
   (forall k, k ∈ synced_keys tc -> exists raw, base64_decode (key_b64 k) = Some raw /\ length raw = 32%nat) ->
   keyring_present (sh_health s1) = true) /\
  sh_files boot = sh_files s1 /\ snapshot_config (sh_config boot) = snapshot_config (sh_config s1) /\
  keyring_present (sh_health boot) = keyring_present (sh_health s1).
Proof.
  intros Hft Hf Hser Hprot turn s1 s2 boot.
  destruct (resync_turn_delivers reply s tc Hft) as (fs' & E1 & Hd & Hring); [by split_and!|].
  change (resync_turn ft base keyfile reply s) with s1 in E1.
  set (c := with_synced_destinations base (destinations tc)) in *.
  set (b := has_ring (sealer_ring ft keyfile fs')) in *.
  assert (forall e, turn (Err e) s1 = s1) as Hstay.
  { intros e. rewrite E1. unfold turn.
    rewrite (resync_turn_offline e (whitelisted b fs' (destinations tc) s) _ Hd). unfold whitelisted.
    cbn [sh_files sh_config sh_health]. by destruct (sh_config s). }
  assert (s2 = s1) as E2.
  { unfold s2. clear s2 boot. induction outages as [|e es IH]; cbn [foldl]; [done|]. by rewrite Hstay. }
  unfold boot. rewrite E2, E1. unfold whitelisted. fold c. cbn [sh_files sh_config sh_health].
  assert (snapshot_config (swap_config c (sh_config s)) = c) as Hc by (by destruct (sh_config s)).
  unfold endpoint_boot. rewrite (pull_unreachable m fs' _ Hd). fold c b. cbn [sh_files sh_config sh_health].
  rewrite Hc. split_and!; try done.
Qed.
End Resync.

Lemma whitelist_survives_outage_witness :
  let s := {| sh_files := enrolled_state []; sh_config := Poisoned sample_config;
              sh_health := SealerHealth_new false |} in
  let turn r s := resync_turn (S := toy_state) (V := toy_server) (E := toy_crypto) (J := state_json)
                    no_disk_faults sample_config None r s in
  let s1 := turn (Ok (200, lit "TC")) s in
  turn (Err (lit "timeout")) s1 = s1 /\ keyring_present (sh_health s1) = true /\
  snapshot_config (sh_config s1) = with_synced_destinations sample_config [trust_s1].
Proof.
  intros s turn s1.
  destruct (whitelist_survives_outage (S := toy_state) (V := toy_server) (E := toy_crypto) (J := state_json)
    no_disk_faults sample_config None (Ok (200, lit "TC")) s toy_synced [lit "timeout"] (lit "down"))
    as (H1 & H2 & _ & _ & H3 & _).
  - repeat split.
  - intros tr. vm_compute. reflexivity.
  - vm_compute. discriminate.
  - intros json _. by eexists.
  - split; [exact H1|]. split; [|exact H2]. apply H3.
    + exists [5; 0]. vm_compute. reflexivity.
    + intros k Hk. apply list_elem_of_singleton in Hk as ->. exists (repeat 5 32). split; reflexivity.
Defined.

(** A subcommand's own parser never meets a help flag: [run] has shown the help
    before. *)
Lemma parsers_see_no_help argv m args :
  run argv = Configured m args -> m = MUsbMonitor \/ m = MClipboardMonitor -> forall e, enforce_args args e <> CliHelp.
Proof.
  unfold run. intros Hr Hm.
  assert (existsb is_help_flag args = false) as Hx.
  { destruct (_ || _); [done|]. destruct (bool_decide (_ ∈ helped) && _) eqn:Hh; [done|].
    destruct (bool_decide (_ = lit "toast")); [done|]. injection Hr as Hmode <-.
    apply andb_false_iff in Hh as [Hh|Hh]; [|done]. exfalso. apply bool_decide_eq_false in Hh. apply Hh.
    revert Hmode. unfold mode_of. destruct (find _ mode_names) as [[n m']|] eqn:Hf; [|intros <-; by destruct Hm].
    apply find_some in Hf as [Hin Hn]. cbn [fst] in Hn. apply bool_decide_eq_true in Hn. rewrite Hn. cbn [snd].
    intros ->. clear Hn Hh. unfold mode_names in Hin.
    repeat (destruct Hin as [Hin|Hin]; [injection Hin as <- Hin; first [by destruct Hm; subst|by (repeat first [left|right])]|]).
    done. }
  clear Hr Hm. induction args as [|a args IH]; intros e; cbn [enforce_args]; [done|].
  cbn [existsb] in Hx. apply orb_false_iff in Hx as [Ha Hx].
  destruct (bool_decide (a = lit "--enforce")); [by apply IH|]. unfold is_help_flag in Ha. by rewrite Ha.
Qed.

(** A worker's thread ends only after the stop flag was seen set. *)
Lemma supervised_until_stopped turns n :
  supervised_thread turns = (n, true) -> exists b e a, (b, e, a) ∈ turns /\ b || a = true.
Proof.
  revert n. induction turns as [|[[b e] a] turns IH]; intros n; cbn [supervised_thread]; [done|].
  destruct b; [intros _; exists true, e, a; split; [by left|done]|].
  destruct a; [intros _; exists false, e, true; split; [by left|done]|].
  destruct (supervised_thread turns) as [k left_loop]. intros [= <- ->].
  destruct (IH k eq_refl) as (b & e' & a & Hin & Ho). exists b, e', a. split; [by right|done].
Qed.

(** A configuration that does not load leaves the service reported as running. *)
Example service_left_running (e : str) :
  run_service (A := Config) (Ok tt) (Ok tt) (Err e) (fun _ => Ok tt) = ([StatusRunning], Err e).
Proof. reflexivity. Qed.

(** ** A decryption leaves a record *)

Section Recorded.
Context {E : CryptoEnv} {D : Digest} {W : WireEnv} {F : QueueFs} (x : DecryptRun).

(** The incident was posted, the queue being left alone, or queued. *)
Definition recorded (inc : UsbIncident) (d d' : Dir) : Prop :=
  exists body, usb_incident_body inc = Some body /\
    ((enrolled (dr_moment x) = true /\ (exists id, post (dr_moment x) body = Ok id) /\ d' = d) \/
     enqueue (dr_queue x) (wall (dr_moment x)) (dr_pid x) body d = Some (Ok tt, d')).

Lemma dr_audit_recorded inc d : dr_audit x d inc = Ok tt ->
  exists d', decrypt_audit (dr_queue x) (dr_pid x) (dr_moment x) inc d = Some (Ok tt, d') /\ recorded inc d d'.
Proof.
  unfold dr_audit, decrypt_audit, recorded. destruct (usb_incident_body inc) as [body|]; [|done].
  destruct (if enrolled (dr_moment x) then res_ok (post (dr_moment x) body) else None) as [id|] eqn:Hp.
  - intros _. exists d. split; [done|]. exists body. split; [done|]. left.
    destruct (enrolled (dr_moment x)); [|done]. split; [done|]. split; [|done]. exists id.
    by destruct (post (dr_moment x) body); cbn in Hp; simplify_eq.
  - destruct (enqueue (dr_queue x) (wall (dr_moment x)) (dr_pid x) body d) as [[[[]|e'] d']|] eqn:He; cbn; [|done|done].
    intros _. exists d'. split; [done|]. exists body. split; [done|]. by right.
Qed.

Lemma dr_write_effect name fs h pt q :
  (dr_write x name fs h pt).2 !! q <> fs !! q ->
  dr_target x name fs h = Ok q /\ exists n, (dr_write x name fs h pt).2 !! q = Some (take n pt).
Proof.
  unfold dr_write. destruct (dr_target x name fs h) as [p|e]; [|done].
  destruct (dr_write_fault x p) as [[e|e n]|]; cbn [snd]; [done| |];
    (destruct (base.decide (p = q)) as [->|Hne]; [|by rewrite lookup_insert_ne]);
    intros _; (split; [done|]); rewrite lookup_insert_eq; [by exists n|].
  exists (length pt). by rewrite firstn_all.
Qed.

(** The calls of a decryption, whatever the sink, the queue and the disk do.  The
    only file they change is the output, and it receives nothing but the plaintext of an
    envelope that opened, after a [Decrypted] record of it was posted or put into
    the queue; without [-o] the output did not exist and lies beside the input.
    Success is reported exactly with the whole plaintext in place and the record
    made.  An envelope that does not open changes no file.  The sink is asked once, and
    nothing but the queue can panic. *)
Lemma run_decrypt_records env name ring fs d :
  match run_decrypt x env name ring fs d with
  | None => exists inc, decrypt_audit (dr_queue x) (dr_pid x) (dr_moment x) inc d = None
  | Some (r, fs', d') =>
      (exists inc ra, decrypt_audit (dr_queue x) (dr_pid x) (dr_moment x) inc d = Some (ra, d')) /\
      (forall q, fs' !! q <> fs !! q -> exists h pt inc n,
         open env ring = Ok (h, pt) /\ dr_target x name fs h = Ok q /\ fs' !! q = Some (take n pt) /\
         (dr_output x = None -> fs !! q = None /\ exists f, q = dr_dir x ++ [f]) /\
         kind inc = Decrypted /\ inc_file_sha256 inc = hex (sha256 pt) /\ recorded inc d d') /\
      (forall s, r = Ok s -> exists h pt q inc,
         open env ring = Ok (h, pt) /\ dr_target x name fs h = Ok q /\ fs' !! q = Some pt /\
         kind inc = Decrypted /\ inc_file_sha256 inc = hex (sha256 pt) /\ recorded inc d d') /\
      (forall e, open env ring = Err e -> fs' = fs /\ r = Err (EnvelopeRefused e))
  end.
Proof.
  unfold run_decrypt, decrypt_envelope. destruct (open env ring) as [[h pt]|e] eqn:Ho.
  2: { cbn [foldl mbind option_bind]. destruct (decrypt_audit _ _ _ _ d) as [[ra d']|] eqn:Hd; [|by eexists].
       cbn. split; [by eauto|]. split; [done|]. split; [done|]. by intros e' [= ->]. }
  set (inc := decrypted_incident _ _ _ _).
  destruct (dr_audit x d inc) as [[]|e] eqn:Ha.
  - destruct (dr_audit_recorded inc d Ha) as (d' & Hd & Hrec).
    assert (forall q, (dr_write x name fs h pt).2 !! q <> fs !! q -> exists h0 pt0 inc0 n,
      Ok (h, pt) = (Ok (h0, pt0) : result EnvelopeError _) /\ dr_target x name fs h0 = Ok q /\ (dr_write x name fs h pt).2 !! q = Some (take n pt0) /\
      (dr_output x = None -> fs !! q = None /\ exists f, q = dr_dir x ++ [f]) /\
      kind inc0 = Decrypted /\ inc_file_sha256 inc0 = hex (sha256 pt0) /\ recorded inc0 d d') as Hq.
    { intros q Hq. destruct (dr_write_effect _ _ _ _ _ Hq) as (Ht & n & Hn). exists h, pt, inc, n.
      split_and!; try done. intros Hout. unfold dr_target in Ht. rewrite Hout in Ht.
      apply decrypt_target_is_new in Ht as [Hex Hf]. split; [|done].
      apply orb_false_iff in Hex as [Hex _]. apply bool_decide_eq_false in Hex. by apply eq_None_not_Some. }
    destruct (dr_write x name fs h pt) as [[[]|e] fs'] eqn:Hw; cbn [fst foldl mbind option_bind];
      rewrite Hd; cbn [mbind option_bind]; rewrite Hw; cbn [snd] in Hq |- *.
    + split; [by eauto|]. split; [exact Hq|]. split; [|done]. intros s _.
      assert (exists q, dr_target x name fs h = Ok q /\ fs' !! q = Some pt) as (q & Ht & Hp).
      { revert Hw. unfold dr_write. destruct (dr_target x name fs h) as [p|]; [|done].
        destruct (dr_write_fault x p) as [[]|]; [done|done|]. intros [= <-]. exists p. by rewrite lookup_insert_eq. }
      by exists h, pt, q, inc.
    + split; [by eauto|]. split; [exact Hq|]. by split.
  - cbn [foldl mbind option_bind]. destruct (decrypt_audit _ _ _ _ d) as [[ra d']|] eqn:Hd; [|by eexists].
    cbn. split; [by eauto|]. by split.
Qed.
End Recorded.

(** An offline run: the file appears, the record waits in the queue; a second run
    refuses to overwrite it. *)
Definition offline_run : DecryptRun :=
  {| dr_queue := {| cap := 5 |}; dr_pid := 7; dr_moment := offline 9; dr_output := None;
     dr_dir := [lit "E:"]; dr_agent := lit "agent"; dr_file_name := Some; dr_occupied := fun _ => false;
     dr_write_fault := fun _ => None |}.
Example decrypt_offline :
  match run_decrypt (E := toy_crypto) (D := toy_digest) (W := toy_wire) (F := fs_ok) offline_run
          toy_envelope (lit "a.txt.dlpenc") toy_ring ∅ None with
  | Some (Ok _, fs, d) =>
      fs !! [lit "E:"; lit "a.txt"] = Some (lit "secret") /\ pending d = [lit "decrypt:a.txt"] /\
      match run_decrypt (E := toy_crypto) (D := toy_digest) (W := toy_wire) (F := fs_ok) offline_run
              toy_envelope (lit "a.txt.dlpenc") toy_ring fs d with
      | Some (Err (WriteFailed _), fs', _) => fs' !! [lit "E:"; lit "a.txt"] = Some (lit "secret")
      | _ => False
      end
  | _ => False
  end.
Proof. vm_compute. repeat split. Qed.
