(* ===== verification/Footprint.v ===== *)
(** Footprints: which files of the state directory an operation of [State] may
    change, in every state it goes through, whatever calls fail.  A rule per
    construct of the file monad, a lemma per operation, and the tactic [confine]
    that applies them. *)

From S2P Require Import Prelude Words Text F64 Unicode Fingerprint Bundle Edm Utf8 Extract Verdict.
From S2P Require Import TrustDest Device UsbPolicy Enforce Watch Supervise Queue Crypto CopyAudit Decrypt.
From S2P Require Import RemoteTools NetRules Config TrustSync UsbMonitor Notify State Agent Commands.
#[local] Open Scope Z_scope.

(** Two states of the files that differ in [P] only. *)
Definition agree (P : Path -> Prop) (f g : Files) : Prop := forall p, ~ P p -> g !! p = f !! p.
#[export] Instance agree_preorder P : PreOrder (agree P).
Proof. split; [by intros f p|]. intros f g h H1 H2 p Hp. rewrite H2, H1; done. Qed.

Lemma agree_insert P f g p b : agree P f g -> P p -> agree P f (<[p := b]> g).
Proof. intros H Hp q Hq. rewrite lookup_insert_ne by (intros ->; auto). by apply H. Qed.
Lemma agree_delete P f g p : agree P f g -> P p -> agree P f (delete p g).
Proof. intros H Hp q Hq. rewrite lookup_delete_ne by (intros ->; auto). by apply H. Qed.
Lemma agree_mono (P Q : Path -> Prop) f g : (forall p, P p -> Q p) -> agree P f g -> agree Q f g.
Proof. intros H Ha p Hp. apply Ha. auto. Qed.

(** [m] changes nothing but [P]. *)
Definition confined {A} (P : Path -> Prop) (m : FsM A) : Prop :=
  forall fs0 fs, agree P fs0 fs -> runs (agree P fs0) m fs (fun _ f => agree P fs0 f).

Section Rules.
Context (P : Path -> Prop).

Lemma confined_ret {A} (a : A) : confined P (mret a).
Proof. intros fs0 fs H. by apply runs_ret. Qed.
Lemma confined_fail {A} e : confined P (@fail A e).
Proof. intros fs0 fs H. by apply runs_fail. Qed.
Lemma confined_lift {A} (r : result str A) : confined P (lift r).
Proof. intros fs0 fs H. by apply runs_lift. Qed.
Lemma confined_bind {A C} (m : FsM A) (f : A -> FsM C) :
  confined P m -> (forall a, confined P (f a)) -> confined P (m ≫= f).
Proof.
  intros Hm Hf fs0 fs H. apply runs_bind. eapply runs_mono; [by apply Hm|].
  intros [a|e] fs' H'; [by apply Hf|done].
Qed.
Lemma confined_context {A} e (m : FsM A) : confined P m -> confined P (context e m).
Proof. intros Hm fs0 fs H. apply runs_context. eapply runs_mono; [by apply Hm|]. by intros [a|e'] fs' H'. Qed.
Lemma confined_attempt {A} (m : FsM A) : confined P m -> confined P (attempt m).
Proof. intros Hm fs0 fs H. apply runs_attempt. by apply Hm. Qed.
Lemma confined_exists name : confined P (exists_file name).
Proof. intros fs0 fs H. by apply runs_exists. Qed.

Context (ft : DiskFaults).
Lemma confined_read name : confined P (read_file ft name).
Proof. intros fs0 fs H. by apply runs_read. Qed.
Lemma confined_create_dir : confined P (create_dir ft).
Proof. intros fs0 fs H. by apply runs_create_dir. Qed.
Lemma confined_write name data : P (path name) -> confined P (write_file ft name data).
Proof. intros Hn fs0 fs H. apply runs_write; intros; try done; by apply agree_insert. Qed.
Lemma confined_unlink name : P (path name) -> confined P (unlink ft name).
Proof.
  intros Hn fs0 fs H. apply runs_failing; [done|]. apply runs_effect; [done|]. by apply agree_delete.
Qed.
Lemma confined_move p q : P (path p) -> P (path q) -> confined P (move_file ft p q).
Proof.
  intros Hp Hq fs0 fs H. apply runs_failing; [done|]. apply runs_effect; [done|].
  destruct (fs !! path p); [|done]. apply agree_insert; [|done]. by apply agree_delete.
Qed.
End Rules.

(** What a run that starts at [fs] goes through and where it ends. *)
Lemma confined_run {A} P (m : FsM A) fs : confined P m ->
  let '(_, t, fs') := m [] fs in agree P fs fs' /\ Forall (agree P fs) t.
Proof. intros H. destruct (H fs fs (reflexivity _) []) as (r & t & fs' & -> & Ht & Hq). done. Qed.

Create HintDb footprint.
#[export] Hint Resolve confined_ret confined_fail confined_lift confined_exists confined_read
  confined_create_dir confined_write confined_unlink confined_move : footprint.

Ltac confine_step :=
  match goal with
  | |- confined _ (_ ≫= _) => apply confined_bind; [|intros ?]
  | |- confined _ (context _ _) => apply confined_context
  | |- confined _ (attempt _) => apply confined_attempt
  | |- confined _ (let '(_, _) := ?x in _) => destruct x
  | |- confined _ (match ?x with _ => _ end) => destruct x
  end.
Ltac confine := repeat (first [solve [eauto with footprint nocore] | confine_step]).

(** ** The operations *)

Section Operations.
Context {S : StateEnv} {V : ServerEnv} {J : JsonEnv} {B : BundleEnv} {E : CryptoEnv}.
Context (P : Path -> Prop) (ft : DiskFaults).

Lemma confined_load_identity : confined P (load_identity ft).
Proof. unfold load_identity, has_identity. confine. Qed.
Lemma confined_load_meta : confined P (load_meta ft).
Proof. unfold load_meta. confine. Qed.
Lemma confined_load_keyring : confined P (load_keyring ft).
Proof. unfold load_keyring. confine. Qed.
Lemma confined_load_index : confined P (load_index_bundle ft).
Proof. unfold load_index_bundle. confine. Qed.
Lemma confined_load_trusted : confined P (load_trusted_destinations ft).
Proof. unfold load_trusted_destinations. confine. Qed.
Lemma confined_body request refusal wb reply : confined P (accepted_body request refusal wb reply).
Proof. unfold accepted_body. confine. Qed.
#[local] Hint Resolve confined_load_identity confined_load_meta confined_load_keyring confined_load_index
  confined_load_trusted confined_body : footprint.

Lemma confined_authenticated : confined P (authenticated ft).
Proof. unfold authenticated. confine. Qed.
Lemma confined_agent_id : confined P (agent_id_of ft).
Proof. unfold agent_id_of. confine. Qed.
Lemma confined_synced : confined P (load_synced_destinations ft).
Proof. unfold load_synced_destinations. confine. Qed.
Lemma confined_load_ca ca_file : confined P (load_ca ft ca_file).
Proof. unfold load_ca, has_identity. confine. Qed.
Lemma confined_sealer_keyring keyfile : confined P (build_sealer_keyring ft keyfile).
Proof. unfold build_sealer_keyring. confine. Qed.
#[local] Hint Resolve confined_authenticated confined_agent_id confined_synced confined_load_ca
  confined_sealer_keyring : footprint.

Lemma confined_fetch reply : confined P (fetch_trusted_config ft reply).
Proof. unfold fetch_trusted_config. confine. Qed.
Lemma confined_post {W : WireEnv} reply : confined P (post_incident_body ft reply).
Proof. unfold post_incident_body. confine. Qed.
#[local] Hint Resolve confined_fetch : footprint.

Lemma confined_store_keyring bs : P (path KEYRING_FILE) -> confined P (store_keyring ft bs).
Proof. intros HP. unfold store_keyring. confine. Qed.
Lemma confined_store_trusted bs : P (path TRUSTED_DEST_FILE) -> confined P (store_trusted_destinations ft bs).
Proof. intros HP. unfold store_trusted_destinations. confine. Qed.
Lemma confined_store_index bs :
  P (path INDEX_FILE) -> P (path INDEX_TMP) -> confined P (store_index_bundle ft bs).
Proof. intros H1 H2. unfold store_index_bundle. confine. Qed.
#[local] Hint Resolve confined_store_keyring confined_store_trusted confined_store_index : footprint.

Lemma confined_sync reply :
  P (path KEYRING_FILE) -> P (path TRUSTED_DEST_FILE) -> confined P (sync_trusted_config ft reply).
Proof. intros H1 H2. unfold sync_trusted_config. confine. Qed.
Lemma confined_decrypt_keyring keyfile : P (path KEYRING_FILE) -> confined P (load_decrypt_keyring ft keyfile).
Proof. intros H1. unfold load_decrypt_keyring. confine. Qed.
Lemma confined_update latest reply :
  P (path INDEX_FILE) -> P (path INDEX_TMP) -> confined P (update_index_bundle ft latest reply).
Proof. intros H1 H2. unfold update_index_bundle. confine. Qed.

Lemma confined_checkin_full reply : P (path POLICY_FILE) -> confined P (checkin_full ft reply).
Proof. intros H. unfold checkin_full, cache_policy. confine. Qed.
#[local] Hint Resolve confined_checkin_full : footprint.
Lemma confined_checkin reply : P (path POLICY_FILE) -> confined P (checkin ft reply).
Proof. intros H. unfold checkin. confine. Qed.

Lemma confined_save_identity i ca m :
  P (path IDENTITY_FILE) -> P (path CA_FILE) -> P (path META_FILE) -> confined P (save_identity ft i ca m).
Proof. intros H1 H2 H3. unfold save_identity. confine. Qed.
#[local] Hint Resolve confined_save_identity : footprint.
Lemma confined_enroll token hostname os version ca_file send :
  P (path IDENTITY_FILE) -> P (path CA_FILE) -> P (path META_FILE) ->
  confined P (enroll ft token hostname os version ca_file send).
Proof. intros H1 H2 H3. unfold enroll. confine. Qed.
#[local] Hint Resolve confined_enroll : footprint.
Lemma confined_ensure_enrolled token hostname os version ca_file send :
  P (path IDENTITY_FILE) -> P (path CA_FILE) -> P (path META_FILE) ->
  confined P (ensure_enrolled ft token hostname os version ca_file send).
Proof. intros H1 H2 H3. unfold ensure_enrolled, has_identity. confine. Qed.
End Operations.

#[export] Hint Resolve confined_load_identity confined_load_meta confined_load_keyring confined_load_index
  confined_load_trusted confined_body confined_authenticated confined_agent_id confined_synced confined_load_ca
  confined_sealer_keyring confined_fetch confined_post confined_store_keyring confined_store_trusted
  confined_store_index confined_sync confined_decrypt_keyring confined_update confined_checkin_full
  confined_checkin confined_save_identity confined_enroll confined_ensure_enrolled : footprint.

(** ** The turns of the endpoint *)

Section Turns.
Context {S : StateEnv} {V : ServerEnv} {E : CryptoEnv} {J : JsonEnv} {B : BundleEnv} (ft : DiskFaults).

Lemma pull_agree P base keyfile reply fs :
  P (path KEYRING_FILE) -> P (path TRUSTED_DEST_FILE) -> agree P fs (pull ft base keyfile reply fs).1.1.
Proof.
  intros H1 H2. unfold pull. pose proof (confined_run P _ fs (confined_sync P ft reply H1 H2)) as H.
  destruct (sync_trusted_config ft reply [] fs) as [[r t] fs']. exact (proj1 H).
Qed.
Lemma checkin_turn_agree P reply index_reply fs :
  P (path POLICY_FILE) -> P (path INDEX_FILE) -> P (path INDEX_TMP) ->
  agree P fs (checkin_turn ft reply index_reply fs).2.
Proof.
  intros H1 H2 H3. unfold checkin_turn. pose proof (confined_run P _ fs (confined_checkin_full P ft reply H1)) as H.
  destruct (checkin_full ft reply [] fs) as [[[o|e] t] fs1]; [|exact (proj1 H)].
  pose proof (confined_run P _ fs1 (confined_update P ft (index_latest o) index_reply H2 H3)) as H'.
  destruct (update_index_bundle _ _ _ [] fs1) as [[r t'] fs2]. etrans; [exact (proj1 H)|exact (proj1 H')].
Qed.

(** The destinations at rest are read from their file alone. *)
Lemma destinations_read fs fs' ds : fs' !! path TRUSTED_DEST_FILE = fs !! path TRUSTED_DEST_FILE ->
  pure_at (load_synced_destinations ft) fs (Ok ds) -> pure_at (load_synced_destinations ft) fs' (Ok ds).
Proof.
  intros Hf Hd tr. specialize (Hd tr). revert Hd.
  unfold load_synced_destinations, load_trusted_destinations, attempt, mbind, FsM_bind, mret, FsM_ret, read_file.
  destruct (open_fails ft TRUSTED_DEST_FILE) as [e|].
  - unfold fail. by intros [= <-].
  - rewrite Hf. destruct (fs !! path TRUSTED_DEST_FILE); unfold fail; by intros [= <-].
Qed.
End Turns.
