(* ===== verification/Sessions.v ===== *)
(** The monitoring subcommands as sessions ([src/main.rs]): [usb-monitor],
    [usb-guard], [clipboard-monitor], [net-monitor] and [browser-host], each from
    its options to the last incident it has handed to the sink: the sync and
    the merged whitelist, the flush of what is queued, the channel's own loop and
    the sink that posts or queues what the loop reports. *)

From S2P Require Import Prelude Words Text F64 Unicode Fingerprint Bundle Edm Utf8 Extract Verdict.
From S2P Require Import TrustDest Device UsbPolicy Enforce Watch Supervise Queue Crypto CopyAudit Decrypt.
From S2P Require Import RemoteTools NetRules Config TrustSync UsbMonitor KGuard BrowserHost Clipboard Notify.
From S2P Require Import Exfil GuardSession Egress State Agent Commands.
#[local] Open Scope Z_scope.

(** [usb-guard] and [browser-host] take no option but the help. *)
Fixpoint no_args (args : list str) : CliParse unit :=
  match args with
  | [] => CliRun tt
  | a :: _ => if is_help_flag a then CliHelp else CliExit 2
  end.

(** ** The listener of the clipboard ([src/clipboard/watch.rs]) *)

(** What [GetMessageW] gives: an update, another message, the quit message, an
    error. *)
Inductive WindowMessage : Set := MsgUpdate | MsgOther | MsgQuit | MsgError.
(** How the pump ends, when it does, and how many updates it handed on. *)
Fixpoint pump (msgs : list WindowMessage) : option (result str unit) * nat :=
  match msgs with
  | [] => (None, 0%nat)
  | MsgQuit :: _ => (Some (Ok tt), 0%nat)
  | MsgError :: _ => (Some (Err (lit "GetMessageW failed")), 0%nat)
  | MsgUpdate :: msgs' => let '(r, n) := pump msgs' in (r, S n)
  | MsgOther :: msgs' => pump msgs'
  end.
(** [window] and [listener] are the results of creating the window and of
    registering it. *)
Definition run_listener (window listener : bool) (msgs : list WindowMessage)
    : option (result str unit) * nat :=
  if negb window then (Some (Err (lit "CreateWindowExW(message-only) failed")), 0%nat)
  else if negb listener then (Some (Err (lit "AddClipboardFormatListener failed")), 0%nat)
  else pump msgs.

(** ** What every session shares *)

(** The queue, this process, whether it is enrolled when it starts, what the
    server accepts of the flushed bodies, and the moment of each delivery. *)
Record SessionEnv := {
  x_queue : IncidentQueue;
  x_pid : Z;
  x_enrolled : bool;
  x_accepts : str -> bool;
  x_moments : nat -> Moment;
}.
Definition flush_send (x : SessionEnv) (sent : list str) (body : str) : bool * list str :=
  if x_accepts x body then (true, sent ++ [body]) else (false, sent).

(** What a session leaves: the files of the state directory, what the flush sent,
    what became of each incident, the sink. *)
Record SessionOut := {
  so_files : Files;
  so_sent : list str;
  so_deliveries : list Delivery;
  so_sink : SinkState;
}.
Inductive CmdResult :=
  | CmdHelp
  | CmdExit (code : Z)
  | CmdRan (r : result str unit) (out : SessionOut).

Section Sessions.
Context {S : StateEnv} {V : ServerEnv} {E : CryptoEnv} {J : JsonEnv} {B : BundleEnv}.
Context {D : Digest} {U : Unicode} {X : ExtractEnv} {W : WireEnv} {F : QueueFs} {N : WinApi} {BE : BrowserEnv}.
Context (ft : DiskFaults) (base : Config) (keyfile : option (result str bytes)) (ca_file : result str bytes).
Context (x : SessionEnv).

(** Each incident with the moment of its delivery. *)
Definition timed (incs : list UsbIncident) : list (Moment * UsbIncident) :=
  imap (fun k inc => (x_moments x k, inc)) incs.
(** The flush, then each incident through the sink; [None] is a panic of the
    queue. *)
Definition deliver_session (n : NotifyConfig) (incs : list UsbIncident) (s : SinkState)
    : option (list str * list Delivery * SinkState) :=
  let '(_, sent, d) := flush_on_start (x_enrolled x) (flush_send x) [] (sink_queue s) in
  '(ds, s) ← deliver_all n (x_queue x) (x_pid x) (timed incs)
               {| sink_queue := d; sink_notify := sink_notify s |};
  Some (sent, ds, s).
Definition finish (r : result str unit) (fs : Files) (n : NotifyConfig) (incs : list UsbIncident) (s : SinkState)
    : option CmdResult :=
  '(sent, ds, s) ← deliver_session n incs s;
  Some (CmdRan r {| so_files := fs; so_sent := sent; so_deliveries := ds; so_sink := s |}).
Definition with_options {A} (p : CliParse A) (f : A -> option CmdResult) : option CmdResult :=
  match p with
  | CliRun a => f a
  | CliHelp => Some CmdHelp
  | CliExit code => Some (CmdExit code)
  end.

(** The whitelist and the keyring at rest after the sync a session starts with. *)
Definition session_config (reply : Reply) (fs : Files) : Files * Config := (pull ft base keyfile reply fs).1.
Definition session_ring (fs : Files) : option Keyring :=
  match (build_sealer_keyring ft keyfile [] fs).1.1 with Ok r => r | Err _ => None end.
Definition session_bundle (fs : Files) : option Bundle :=
  match (cached_bundle ft ca_file [] fs).1.1 with Ok b => b | Err _ => None end.
Definition session_agent (fs : Files) : str :=
  match (agent_id_of ft [] fs).1.1 with Ok a => a | Err _ => [] end.

(** *** [usb-monitor] *)

Context (verdict_src : Bundle -> Path -> result str Verdict).
(** [seal_file_in_place] with a key, for an agent. *)
Context (seal : str -> Kek -> Path -> result str SealOutcome).

Definition session_sealer (fs : Files) (p : Path) (key_id : str) : result str SealOutcome :=
  make_sealer (session_ring fs) (fun kek => seal (session_agent fs) kek p) key_id.
(** The polls of a session: the configuration is the merged one throughout, and
    nothing stops it. *)
Definition session_turns (cfg : Config) (polls : list PollInput) : list MonitorTurn :=
  map (fun inp => {| mt_stop := false; mt_config := Clean cfg; mt_input := inp |}) polls.
Definition usb_incidents (enforce : bool) (cfg : Config) (fs : Files) (polls : list PollInput) (sys : System)
    : list UsbIncident :=
  (run_monitor verdict_src (session_sealer fs) enforce (session_bundle fs) (session_turns cfg polls)
     monitor_start sys (SealerHealth_new false)).1.2.

Definition cmd_usb_monitor (args : list str) (reply : Reply) (polls : list PollInput) (fs : Files)
    (sys : System) (s : SinkState) : option CmdResult :=
  with_options (enforce_args args false) (fun enforce =>
    let '(fs, cfg) := session_config reply fs in
    finish (Ok tt) fs (notify cfg) (usb_incidents enforce cfg fs polls sys) s).

(** *** [usb-guard] *)

(** What one scan meets. *)
Record ScanInput := {
  si_recv : option bytes;
  si_query : str -> option (list Z);
  si_identity : str -> option DeviceIdentity;
}.
(** No health signal and no stop flag in the foreground. *)
Definition guard_turns (cfg : Config) (scans : list ScanInput) : list Turn :=
  map (fun i => {| t_stop := false; t_recv := si_recv i; t_config := Clean cfg; t_health := None;
                   t_now_ms := 0; t_query := si_query i; t_identity := si_identity i |}) scans.
Definition guard_incidents (effs : list GuardEffect) : list UsbIncident :=
  omap (fun eff => match eff with EffReport inc => Some inc | _ => None end) effs.

Definition cmd_usb_guard (args : list str) (reply : Reply) (connected : bool) (scans : list ScanInput)
    (fs : Files) (s : SinkState) : option CmdResult :=
  with_options (no_args args) (fun _ =>
    let '(fs, cfg) := session_config reply fs in
    if connected
    then finish (Ok tt) fs (notify cfg)
           (guard_incidents (message_loop (session_bundle fs) (guard_turns cfg scans)).1) s
    else finish (Err connect_failed) fs (notify cfg) [] s).

(** *** [clipboard-monitor]: the configuration as loaded, no sync *)

Context (path_name : str -> option str) (file_verdict : str -> Bundle -> result str Verdict).
Definition cmd_clipboard_monitor (args : list str) (w : World) (events : list WorldEvent) (fs : Files)
    (s : SinkState) : option CmdResult :=
  with_options (enforce_args args false) (fun enforce =>
    w ← world_run path_name file_verdict (clipboard base) (session_bundle fs) enforce w events;
    finish (Ok tt) fs (notify base) (w_out w) s).

(** *** [net-monitor]: no verdicts, so its incidents are logged only *)

Definition net_incidents (evs : list NetEvent) : list UsbIncident :=
  omap (fun ev => match ev with NetReport inc => Some inc | _ => None end) evs.
Definition cmd_net_monitor (args : list str) (polls : list (list (Z * str))) (fs : Files) (s : SinkState)
    : option CmdResult :=
  with_options (net_args args (net_mode (netfilter base))) (fun m =>
    finish (Ok tt) fs (notify base) (net_incidents (net_monitor (netfilter base) m polls)) s).

(** *** [browser-host] *)

(** Without a bundle every upload gets the clean verdict. *)
Definition clean : Verdict :=
  {| Verdict.file_name := []; file_sha256 := []; extraction := ExtractionOk (lit "none"); v_idm := []; v_edm := [] |}.
Definition web_channel : str := lit "web-upload".
(** The scorers of a bundle; they never panic on a loaded one. *)
Definition score_text (b : option Bundle) (t : str) : Verdict :=
  match b with Some b => default clean (verdict_text t b) | None => clean end.
Definition score_bytes (b : option Bundle) (bs : bytes) (name : str) : Verdict :=
  match b with Some b => default clean (verdict_bytes bs name b) | None => clean end.
Definition score_file (b : option Bundle) (p : str) : result str Verdict :=
  match b with Some b => file_verdict p b | None => Ok clean end.
Definition host_incidents (evs : list HostEvent) : list UsbIncident :=
  omap (fun ev => match ev with HostIncident inc => Some inc | _ => None end) evs.

Definition cmd_browser_host (args : list str) (write_fails : nat -> option str) (p : Pipe) (fs : Files)
    (s : SinkState) : option CmdResult :=
  with_options (no_args args) (fun _ =>
    let b := session_bundle fs in
    '(r, evs) ← serve (kguard_block_at (kguard base)) (kguard_coverage_block_at (kguard base)) web_channel
                  (score_text b) (score_file b) (score_bytes b) write_fails p;
    finish r fs (notify base) (host_incidents evs) s).

(** ** What becomes of a session's incidents *)

Lemma deliver_flush_send acc bodies :
  deliver (flush_send x) acc bodies =
    (length (take_while (x_accepts x) bodies), acc ++ take_while (x_accepts x) bodies).
Proof.
  revert acc. induction bodies as [|b bodies IH]; intros acc; cbn [deliver take_while]; [by rewrite app_nil_r|].
  unfold flush_send at 1. destruct (x_accepts x b); [|by rewrite app_nil_r].
  rewrite IH. cbn [length]. by rewrite <- app_assoc.
Qed.

(** What the start of a session finds sent, and what is left. *)
Definition sent_first (d : Dir) : list str :=
  if x_enrolled x then take_while (x_accepts x) (pending d) else [].

(** The conditions under which the queue accounts for a session's deliveries: the clock
    moves on from each to the next, the names that wait are older, and they are
    within the cap. *)
Definition sink_ready (from : Z) (incs : list UsbIncident) (s : SinkState) : Prop :=
  0 <= from /\ increasing from (map fst (timed incs)) /\
  queued_before (sink_queue s) from /\ (length (pending (sink_queue s)) <= cap (x_queue x))%nat.
End Sessions.

Section Accounting.
Context {W : WireEnv} {F : QueueFs} (x : SessionEnv).

Lemma flush_on_start_spec from s :
  reads_and_removes F -> queued_before (sink_queue s) from ->
  exists n d, flush_on_start (x_enrolled x) (flush_send x) [] (sink_queue s) =
      (n, sent_first x (sink_queue s), d) /\
    queued_before d from /\
    pending d = drop (length (sent_first x (sink_queue s))) (pending (sink_queue s)).
Proof.
  intros HF Hq. unfold flush_on_start, sent_first. destruct (x_enrolled x); cbn [andb]; [|by exists 0%nat, (sink_queue s)].
  unfold queue_is_empty. destruct (Nat.eqb_spec (queue_len (sink_queue s)) 0) as [Hl|Hl]; cbn [negb].
  - assert (pending (sink_queue s) = []) as Hnil.
    { unfold pending. unfold queue_len in Hl. destruct (sink_queue s) as [m|]; [|done].
      apply nil_length_inv in Hl. by rewrite Hl. }
    rewrite Hnil. exists 0%nat, (sink_queue s). by rewrite Hnil.
  - rewrite flush_works by done. destruct (flush_delivers (flush_send x) [] (sink_queue s)) as (d & Hf & Hp).
    pose proof (flush_queued_before (F := fs_ok) (flush_send x) [] (sink_queue s) from Hq) as Hb.
    rewrite Hf in Hb |- *. rewrite deliver_flush_send in Hp |- *. cbn [fst snd app] in *.
    by eexists _, d.
Qed.

(** What became of a session's incidents, in order. *)
Definition deliveries (incs : list UsbIncident) : list Delivery :=
  map (fun ti => delivered_as (x_pid x) ti.1 ti.2) (timed x incs).

Lemma deliver_session_answers n incs s : (0 < cap (x_queue x))%nat ->
  exists sent s', deliver_session x n incs s = Some (sent, deliveries incs, s').
Proof.
  intros Hc. unfold deliver_session. destruct (flush_on_start _ _ _ _) as [[k sent] d].
  edestruct (deliver_all_answers n (x_queue x) (x_pid x) (timed x incs)) as [s' ->]; [exact Hc|]. by eexists _, _.
Qed.

(** The bodies that wait after a session: what waited and was not sent at its
    start, then what could not be posted, as far as the disk took it. *)
Lemma deliver_session_spec n incs s from sent ds s' :
  reads_and_removes F -> (0 < cap (x_queue x))%nat -> sink_ready x from incs s ->
  deliver_session x n incs s = Some (sent, ds, s') ->
  sent = sent_first x (sink_queue s) /\
  pending (sink_queue s') =
    foldl (fifo_delivery (cap (x_queue x))) (drop (length sent) (pending (sink_queue s))) ds.
Proof.
  intros HF Hc (Hf & Hi & Hq & Hl). unfold deliver_session.
  destruct (flush_on_start_spec from s HF Hq) as (k & d & -> & Hqd & Hp). cbn beta iota.
  destruct (deliver_all _ _ _ _ _) as [[ds' s1]|] eqn:Hd; [|done]. cbn. intros [= <- <- <-].
  split; [done|]. rewrite <- Hp. by apply (deliver_all_effect _ _ _ _ _ _ _ _ HF Hc Hf Hi) in Hd.
Qed.
End Accounting.

(** ** Only what was sealed is reported as encrypted *)

Section Reports.
Context {N : WinApi} (verdict_src : Bundle -> Path -> result str Verdict).
Context (sealer : Path -> str -> result str SealOutcome).

(** What holds of every report of a poll holds of all the loop reports. *)
Lemma run_monitor_reports (P : UsbIncident -> Prop) enforce bundle turns m sys health :
  (forall act dev e, P (enforcement_failed act dev e)) ->
  (forall cfg va settled, Forall P (audit_settled verdict_src sealer cfg bundle va settled)) ->
  Forall P (run_monitor verdict_src sealer enforce bundle turns m sys health).1.2.
Proof.
  intros He Ha. revert m sys health. induction turns as [|t turns IH]; intros m sys health; [constructor|].
  cbn [run_monitor]. destruct (mt_stop t); [constructor|].
  assert (Forall P (monitor_poll verdict_src sealer (turn_config t) enforce bundle (mt_input t) m sys health).1.2) as Hp.
  { unfold monitor_poll. destruct (watcher_poll _ _) as [events w].
    assert (forall evs st, Forall P st.2 ->
      Forall P (foldl (on_event (turn_config t) enforce bundle (in_tree (mt_input t))) st evs).2) as Hev.
    { induction evs as [|ev evs IHe]; intros [[a s] out] Hst; [done|]. cbn [foldl]. apply IHe.
      destruct ev as [dev|letter]; cbn [on_event]; [|done].
      destruct (enforce && _); cbn [snd]; [|by rewrite app_nil_r]. unfold apply_enforcement.
      destruct (apply_plan _ _ _) as [[|e] s']; cbn [snd]; apply Forall_app; split; try done.
      apply Forall_singleton, He. }
    specialize (Hev events (auditors m, sys, []) (Forall_nil_2 _)).
    destruct (foldl _ _ events) as [[aud sys'] out]. cbn [fst snd] in *.
    apply Forall_app; split; [done|]. apply Forall_concat, Forall_map, Forall_forall.
    intros [letter [va incs]] Hin. apply elem_of_map_to_list in Hin. rewrite map_lookup_imap in Hin.
    destruct (aud !! letter) as [va0|]; [|done]. cbn in Hin. unfold audit_volume in Hin.
    destruct (poll _ _ _ _) as [a settled]. simplify_eq. apply Ha. }
  destruct (monitor_poll _ _ _ _ _ _ _ _ _) as [[[m1 s1] o1] h1]. cbn [fst snd] in Hp.
  specialize (IH m1 s1 h1). destruct (run_monitor _ _ _ _ turns m1 s1 h1) as [[[m2 s2] o2] h2].
  cbn [fst snd] in *. by apply Forall_app.
Qed.

(** An incident that says a file was encrypted tells of a seal that succeeded. *)
Definition truly_sealed (i : UsbIncident) : Prop :=
  action_taken i = Encrypted ->
  exists p key_id out, sealer p key_id = Ok out /\ inc_key_id i = Some (out_key_id out) /\
    sealed_sha256 i = Some (out_sealed_sha256 out).

Lemma audit_settled_sealed cfg bundle va settled :
  Forall truly_sealed (audit_settled verdict_src sealer cfg bundle va settled).
Proof.
  apply Forall_forall. intros i Hi. unfold audit_settled in Hi.
  destruct (va_encrypt va) as [ev|].
  - apply list_elem_of_omap in Hi as (s & _ & Hi). unfold scan_and_seal_to_incident in Hi.
    destruct (_ <? _); [by simplify_eq|]. destruct (decide_seal _ _ _ _).
    + destruct (from_option has_match _ _); by simplify_eq.
    + destruct (sealer (settled_path s) (ev_key_id ev)) as [out|e] eqn:Hs; simplify_eq; [|done].
      intros _. by exists (settled_path s), (ev_key_id ev), out.
    + by simplify_eq.
  - destruct bundle as [b|]; [|by apply elem_of_nil in Hi].
    apply list_elem_of_omap in Hi as (s & _ & Hi). unfold scan_to_incident in Hi.
    intros Ht. exfalso. assert (action_taken i = action_taken_of (va_action va)) as Ha.
    { destruct (_ <? _); [by simplify_eq|]. destruct (verdict_src b _) as [v|]; [|by simplify_eq].
      destruct (has_match v); [by simplify_eq|]. destruct (is_unreadable _); by simplify_eq. }
    rewrite Ht in Ha. by destruct (va_action va).
Qed.

Lemma run_monitor_sealed enforce bundle turns m sys health :
  Forall truly_sealed (run_monitor verdict_src sealer enforce bundle turns m sys health).1.2.
Proof.
  apply run_monitor_reports; [|intros; apply audit_settled_sealed]. intros act dev e Ht. by destruct act.
Qed.
End Reports.

(** ** A whole [usb-monitor] session *)

Section UsbSession.
Context {S : StateEnv} {SL : StateLaws S} {V : ServerEnv} {E : CryptoEnv} {J : JsonEnv} {L : JsonLaws J E}.
Context {B : BundleEnv} {D : Digest} {W : WireEnv} {F : QueueFs} {N : WinApi}.
Context (ft : DiskFaults) (base : Config) (keyfile : option (result str bytes)) (ca_file : result str bytes).
Context (x : SessionEnv) (verdict_src : Bundle -> Path -> result str Verdict).
Context (seal : str -> Kek -> Path -> result str SealOutcome).

(** C35: A [usb-monitor] session accounts for every incident and claims nothing
    it did not do.  Whatever its disk and the server do, it delivers every
    incident of its monitor, in order: one with a verdict is posted or given to
    the queue, the others are logged.  What the queue answers is recorded in the
    delivery; the sink itself drops it, so where directory, write or rename fail
    the incident is lost.  When listed files of the queue can be read and
    removed and the clock moves on from each delivery to the next, the session
    first sends what waits, oldest first, up to the first refusal, and what
    waits at the end is what was left followed by what was given to the queue
    and taken, each arrival at a full queue costing the oldest; with working
    writes that is everything that could not be posted, within the cap.  A
    report of an encrypted file tells of a seal that succeeded with a key of the
    keyring at rest; without a keyring there is none.  When the server cannot be
    reached the session runs on the last persisted whitelist and changes no file
    of the state directory. *)
Theorem usb_session_accounts args enforce reply polls fs sys s :
  enforce_args args false = CliRun enforce -> (0 < cap (x_queue x))%nat ->
  let '(fs', cfg) := session_config ft base keyfile reply fs in
  let incs := usb_incidents ft keyfile ca_file verdict_src seal enforce cfg fs' polls sys in
  let ds := deliveries x incs in
  exists out,
    cmd_usb_monitor ft base keyfile ca_file x verdict_src seal args reply polls fs sys s =
      Some (CmdRan (Ok tt) out) /\
    so_files out = fs' /\ so_deliveries out = ds /\
    (forall from, reads_and_removes F -> sink_ready x from incs s ->
       let waits := drop (length (so_sent out)) (pending (sink_queue s)) in
       so_sent out = sent_first x (sink_queue s) /\
       pending (sink_queue (so_sink out)) = foldl (fifo_delivery (cap (x_queue x))) waits ds /\
       (writes_work ->
          pending (sink_queue (so_sink out)) = bounded_fifo (cap (x_queue x)) waits (unposted ds) /\
          forall body r, Queued body r ∈ ds -> r = Ok tt)) /\
    (forall i, i ∈ incs -> action_taken i = Encrypted ->
       exists ring key_id kek p o, session_ring ft keyfile fs' = Some ring /\ lookup_key ring key_id = Ok kek /\
         seal (session_agent ft fs') kek p = Ok o /\ inc_key_id i = Some (out_key_id o) /\
         sealed_sha256 i = Some (out_sealed_sha256 o)) /\
    (forall m dests, reply = Err m -> pure_at (load_synced_destinations ft) fs (Ok dests) ->
       fs' = fs /\ cfg = with_synced_destinations base dests).
Proof.
  intros Ha Hc. destruct (pull ft base keyfile reply fs) as [[fs' cfg] present] eqn:Hp.
  assert (session_config ft base keyfile reply fs = (fs', cfg)) as Hcfg by (unfold session_config; by rewrite Hp).
  rewrite Hcfg. intros incs ds.
  destruct (deliver_session_answers x (notify cfg) incs s Hc) as (sent & s' & Hd). fold ds in Hd.
  eexists. split.
  { unfold cmd_usb_monitor. rewrite Ha, Hcfg. cbn [with_options]. unfold finish. fold incs. rewrite Hd. reflexivity. }
  cbn [so_files so_sent so_deliveries so_sink]. split; [done|]. split; [done|]. split; [|split].
  - intros from HF Hr. set (waits := drop _ _).
    destruct (deliver_session_spec x _ _ _ _ _ _ _ HF Hc Hr Hd) as [Hs Hw]. split; [exact Hs|]. split; [exact Hw|].
    intros Hww. destruct (foldl_fifo_bounded (cap (x_queue x)) (x_pid x) (timed x incs) waits Hc Hww) as [H1 H2].
    split; [by rewrite Hw|]. intros body r Hin. unfold ds, deliveries in Hin.
    apply list_elem_of_fmap in Hin as ([t inc] & Hin & _). unfold delivered_as in Hin. cbn [fst snd] in Hin.
    destruct (fate t inc); simplify_eq. by apply writes_work_answer.
  - intros i Hi Ht. unfold incs, usb_incidents in Hi.
    pose proof (run_monitor_sealed verdict_src (session_sealer ft keyfile seal fs') enforce
      (session_bundle ft ca_file fs') (session_turns cfg polls) monitor_start sys (SealerHealth_new false)) as Hs.
    rewrite Forall_forall in Hs. destruct (Hs i Hi Ht) as (p & key & o & Ho & Hk & Hh).
    unfold session_sealer, make_sealer in Ho.
    destruct (session_ring ft keyfile fs') as [ring|]; [|done]. cbn in Ho.
    destruct (lookup_key ring key) as [kek|] eqn:Hl; [|done]. cbn in Ho.
    by exists ring, key, kek, p, o.
  - intros m dests -> Hds. rewrite (pull_unreachable ft base keyfile m fs dests Hds) in Hp. by simplify_eq.
Qed.
End UsbSession.

(** A stick that is already whitelisted, a file copied to it, a server that is down
    and no keyring; two bodies wait from before, of which the first is accepted. *)
Definition empty_volume : Node := Directory (Some []).
Definition session_polls : list PollInput :=
  [{| in_now_ms := 5; in_alive_ms := 5; in_volumes := [stick]; in_tree := fun _ => empty_volume; in_opens := fun _ => true |};
   {| in_now_ms := 10; in_alive_ms := 10; in_volumes := [stick]; in_tree := fun _ => sample_volume; in_opens := fun _ => true |};
   {| in_now_ms := 90000; in_alive_ms := 90000; in_volumes := [stick]; in_tree := fun _ => sample_volume; in_opens := fun _ => true |}].
Definition session_env : SessionEnv :=
  {| x_queue := {| cap := 3 |}; x_pid := 7; x_enrolled := true;
     x_accepts := fun b => bool_decide (b = lit "first"); x_moments := fun k => offline (11 + Z.of_nat k) |}.
Definition waiting : Dir :=
  Some {[ entry_name 1 7 := lit "first"; entry_name 2 7 := lit "second" ]}.
Definition session_sink : SinkState :=
  {| sink_queue := waiting; sink_notify := {| throttle := None; counter := 0 |} |}.
Definition indexed_state : Files := enrolled_state (encode (lit "{}") sample_bundle [68]).

Lemma session_sink_ready incs : length incs = 2%nat -> sink_ready session_env 3 incs session_sink.
Proof.
  intros Hl. destruct incs as [|a [|b [|]]]; try discriminate Hl. clear Hl.
  split; [lia|]. split; [cbn; lia|]. split; [|vm_compute; lia].
  assert (Forall (fun e => exists n p, 0 <= n < 3 /\ e = entry_name n p) (entries waiting)) as H; [|rewrite Forall_forall in H; exact H].
  assert (entries waiting = [entry_name 1 7; entry_name 2 7]) as -> by (vm_compute; reflexivity).
  apply Forall_cons; split; [exists 1, 7; split; [lia|done]|].
  apply Forall_singleton. exists 2, 7. split; [lia|done].
Qed.

(** A disk on which nothing can be renamed. *)
Definition fs_no_rename : QueueFs := {|
  create_dir_all := true; remove_file := fun _ => true; Queue.write_file := fun _ => true;
  rename_file := fun _ => false; readable := fun _ => true |}.

Section SampleSession.
#[local] Existing Instances toy_state toy_server toy_crypto state_json toy_wire all_ok.
#[local] Instance session_bundle_env : BundleEnv := sample_env sample_header.
Definition sample_session (F : QueueFs) : option CmdResult :=
  cmd_usb_monitor no_disk_faults sample_config None (Ok []) session_env (fun _ _ => Ok row_verdict)
    (fun _ _ _ => Err []) [] (Err (lit "down")) session_polls indexed_state {| registry := ∅; dismounted := [] |}
    session_sink.

(** With a working disk the reports wait behind the body that was refused; where
    nothing can be renamed they are lost. *)
Lemma usb_session_accounts_witness :
  (exists out, sample_session fs_ok = Some (CmdRan (Ok tt) out) /\
    so_files out = indexed_state /\ so_sent out = [lit "first"] /\
    so_deliveries out = [Queued (lit "usb:") (Ok tt); Queued (lit "usb:") (Ok tt)] /\
    pending (sink_queue (so_sink out)) = [lit "second"; lit "usb:"; lit "usb:"]) /\
  (exists out, sample_session fs_no_rename = Some (CmdRan (Ok tt) out) /\
    so_deliveries out = repeat (Queued (lit "usb:") (Err (lit "committing queued incident"))) 2).
Proof.
  pose proof (fun F => usb_session_accounts (F := F) no_disk_faults sample_config None (Ok [])
    session_env (fun _ _ => Ok row_verdict) (fun _ _ _ => Err []) [] false (Err (lit "down")) session_polls
    indexed_state {| registry := ∅; dismounted := [] |} session_sink eq_refl ltac:(cbn; lia)) as H.
  destruct (session_config _ _ _ _ _) as [fs' cfg] eqn:Hc. cbv zeta in H.
  assert (fs' = indexed_state /\ cfg = with_synced_destinations sample_config []) as [-> ->].
  { destruct (H fs_ok) as (out & _ & _ & _ & _ & _ & H7).
    apply (H7 (lit "down") []); [reflexivity|]. intros tr. vm_compute. reflexivity. }
  split.
  - destruct (H fs_ok) as (out & H1 & H2 & H3 & H4 & _). exists out. split; [exact H1|]. split; [exact H2|].
    rewrite H3. destruct (H4 3 ltac:(by split)) as (Hs & Hp & _); [|split_and!; [rewrite Hs|..|rewrite Hp, Hs]; vm_compute; reflexivity].
    apply session_sink_ready. vm_compute. reflexivity.
  - destruct (H fs_no_rename) as (out & H1 & _ & H3 & _). exists out. split; [exact H1|]. rewrite H3. vm_compute. reflexivity.
Defined.
End SampleSession.
