(* ===== verification/Endpoint.v ===== *)
(** The unified endpoint ([src/main.rs], [run_endpoint]): the guard, the sealer, the
    check-in and the resync worker as supervised threads over what they share -
    the files of the state directory, the configuration behind its lock, the
    health signal, the stop flag, the incident sink - with the service's stop and
    the main thread that waits for them.  A step relation: any interleaving, any
    worker may panic or return at any moment, other processes may change the
    files.  A worker reads what is shared in one moment of each of its steps. *)

From S2P Require Import Prelude Words Text F64 Unicode Fingerprint Bundle Edm Utf8 Extract Verdict.
From S2P Require Import TrustDest Device UsbPolicy Enforce Watch Supervise Queue Crypto CopyAudit Decrypt.
From S2P Require Import RemoteTools NetRules Config TrustSync UsbMonitor KGuard Promise BrowserHost Clipboard Notify.
From S2P Require Import Exfil GuardSession Egress State Agent Commands Footprint Sessions.
#[local] Open Scope Z_scope.

(** ** Workers *)

(** [supervised_thread]: about to look at the stop flag, inside the body, after the
    body (returned or panicked), gone. *)
Inductive Worker (A : Type) : Type :=
  | Testing
  | Running (a : A)
  | Ended
  | Exited.
Arguments Testing {_}.
Arguments Running {_} _.
Arguments Ended {_}.
Arguments Exited {_}.

(** What the supervisor does around the body of a worker. *)
Inductive flow (stop : bool) {A} : Worker A -> Worker A -> Prop :=
  | flow_exits : stop = true -> flow stop Testing Exited
  | flow_ends a : flow stop (Running a) Ended
  | flow_checks : flow stop Ended (if stop then Exited else Testing).

(** The guard between two messages: whether it has looked at the flag and waits,
    its bundle, the buffer and the cache of volumes; the turns it took and what it
    did in them. *)
Record GuardRun := {
  gr_waits : bool;
  gr_bundle : option Bundle;
  gr_buf : bytes;
  gr_cache : option (gmap str str);
  gr_turns : list Turn;
  gr_effects : list GuardEffect;
}.
(** The sealer between two polls: whether it has looked at the flag, what it took
    from the files at its start, the monitor; its turns and its reports. *)
Record SealerRun := {
  sr_polls : bool;
  sr_ring : option Keyring;
  sr_agent : str;
  sr_bundle : option Bundle;
  sr_monitor : Monitor;
  sr_turns : list MonitorTurn;
  sr_reports : list UsbIncident;
}.
Inductive CheckinAt : Set := CheckTop | CheckTurn | CheckSleeps.
Inductive ResyncAt : Set := ResyncTop | ResyncSleeps | ResyncWoken | ResyncTurn.

Record EndpointState := {
  en_shared : Shared;
  en_stop : bool;
  en_system : System;
  en_sink : SinkState;
  en_deliveries : list Delivery;
  en_guard : Worker GuardRun;
  en_sealer : Worker SealerRun;
  en_checkin : Worker CheckinAt;
  en_resync : Worker ResyncAt;
  (** whether [run_endpoint] has returned *)
  en_returned : bool;
  (** the clock of the last poll of the sealer *)
  en_polled : option Z;
}.

#[local] Notation with_guard_at g s :=
  {| en_shared := en_shared s; en_stop := en_stop s; en_system := en_system s; en_sink := en_sink s;
     en_deliveries := en_deliveries s; en_guard := g; en_sealer := en_sealer s; en_checkin := en_checkin s;
     en_resync := en_resync s; en_returned := en_returned s; en_polled := en_polled s |} (only parsing).
#[local] Notation with_sealer_at w s :=
  {| en_shared := en_shared s; en_stop := en_stop s; en_system := en_system s; en_sink := en_sink s;
     en_deliveries := en_deliveries s; en_guard := en_guard s; en_sealer := w; en_checkin := en_checkin s;
     en_resync := en_resync s; en_returned := en_returned s; en_polled := en_polled s |} (only parsing).
#[local] Notation with_checkin_at w s :=
  {| en_shared := en_shared s; en_stop := en_stop s; en_system := en_system s; en_sink := en_sink s;
     en_deliveries := en_deliveries s; en_guard := en_guard s; en_sealer := en_sealer s; en_checkin := w;
     en_resync := en_resync s; en_returned := en_returned s; en_polled := en_polled s |} (only parsing).
#[local] Notation with_resync_at w s :=
  {| en_shared := en_shared s; en_stop := en_stop s; en_system := en_system s; en_sink := en_sink s;
     en_deliveries := en_deliveries s; en_guard := en_guard s; en_sealer := en_sealer s; en_checkin := en_checkin s;
     en_resync := w; en_returned := en_returned s; en_polled := en_polled s |} (only parsing).
#[local] Notation with_shared sh s :=
  {| en_shared := sh; en_stop := en_stop s; en_system := en_system s; en_sink := en_sink s;
     en_deliveries := en_deliveries s; en_guard := en_guard s; en_sealer := en_sealer s; en_checkin := en_checkin s;
     en_resync := en_resync s; en_returned := en_returned s; en_polled := en_polled s |} (only parsing).

(** The sealer's start refreshes the signal. *)
Definition signal_ring (ring : option Keyring) (sh : Shared) : Shared :=
  {| sh_files := sh_files sh; sh_config := sh_config sh;
     sh_health := set_keyring_present (has_ring ring) (sh_health sh) |}.

(** The fields of a state that a step wrote. *)
Ltac endpoint_cbn :=
  cbn [en_shared en_stop en_system en_sink en_deliveries en_guard en_sealer en_checkin en_resync en_returned en_polled
       sh_config sh_health sh_files last_ok_ms signal_ring set_keyring_present] in *.

Section Endpoint.
Context {S : StateEnv} {V : ServerEnv} {E : CryptoEnv} {J : JsonEnv} {B : BundleEnv}.
Context {D : Digest} {U : Unicode} {X : ExtractEnv} {W : WireEnv} {F : QueueFs} {N : WinApi}.
Context (ft : DiskFaults) (base : Config) (keyfile : option (result str bytes)) (ca_file : result str bytes).
Context (queue : IncidentQueue) (pid : Z).
Context (verdict_src : Bundle -> Path -> result str Verdict).
Context (seal : str -> Kek -> Path -> result str SealOutcome).

(** The configuration a worker reads at its moment. *)
Definition current (s : EndpointState) : Config := snapshot_config (sh_config (en_shared s)).

(** The sink of both the guard and the sealer. *)
Definition deliver_now (s : EndpointState) (moments : list Moment) (incs : list UsbIncident)
    : option (list Delivery * SinkState) :=
  deliver_all (notify (current s)) queue pid (zip moments incs) (en_sink s).

(** *** The sealer *)

Definition sealer_of (r : SealerRun) (p : Path) (key_id : str) : result str SealOutcome :=
  make_sealer (sr_ring r) (fun kek => seal (sr_agent r) kek p) key_id.
Definition sealer_start (fs : Files) : SealerRun :=
  {| sr_polls := false; sr_ring := session_ring ft keyfile fs; sr_agent := session_agent ft fs;
     sr_bundle := session_bundle ft ca_file fs; sr_monitor := monitor_start; sr_turns := []; sr_reports := [] |}.
Definition sealer_looks (r : SealerRun) : SealerRun :=
  {| sr_polls := true; sr_ring := sr_ring r; sr_agent := sr_agent r; sr_bundle := sr_bundle r;
     sr_monitor := sr_monitor r; sr_turns := sr_turns r; sr_reports := sr_reports r |}.
Definition turn_of (s : EndpointState) (inp : PollInput) : MonitorTurn :=
  {| mt_stop := false; mt_config := sh_config (en_shared s); mt_input := inp |}.

Inductive sealer_step : EndpointState -> EndpointState -> Prop :=
  | sealer_flows s w :
      flow (en_stop s) (en_sealer s) w -> sealer_step s (with_sealer_at w s)
  | sealer_starts s :
      en_sealer s = Testing -> en_stop s = false ->
      let r := sealer_start (sh_files (en_shared s)) in
      sealer_step s (with_sealer_at (Running r) (with_shared (signal_ring (sr_ring r) (en_shared s)) s))
  | sealer_tests s r :
      en_sealer s = Running r -> sr_polls r = false ->
      sealer_step s (with_sealer_at (if en_stop s then Ended else Running (sealer_looks r)) s)
  | sealer_polls s r inp m sys out health moments ds sink :
      en_sealer s = Running r -> sr_polls r = true ->
      monitor_poll verdict_src (sealer_of r) (current s) false (sr_bundle r) inp (sr_monitor r)
        (en_system s) (sh_health (en_shared s)) = (m, sys, out, health) ->
      length moments = length out -> deliver_now s moments out = Some (ds, sink) ->
      sealer_step s
        {| en_shared := {| sh_files := sh_files (en_shared s); sh_config := sh_config (en_shared s); sh_health := health |};
           en_stop := en_stop s; en_system := sys; en_sink := sink; en_deliveries := en_deliveries s ++ ds;
           en_guard := en_guard s;
           en_sealer := Running {| sr_polls := false; sr_ring := sr_ring r; sr_agent := sr_agent r;
                                   sr_bundle := sr_bundle r; sr_monitor := m;
                                   sr_turns := sr_turns r ++ [turn_of s inp]; sr_reports := sr_reports r ++ out |};
           en_checkin := en_checkin s; en_resync := en_resync s; en_returned := en_returned s;
           en_polled := Some (in_alive_ms inp) |}.

(** *** The guard *)

Definition guard_start (fs : Files) : GuardRun :=
  {| gr_waits := false; gr_bundle := session_bundle ft ca_file fs; gr_buf := receive_buffer; gr_cache := None;
     gr_turns := []; gr_effects := [] |}.
Definition guard_looks (r : GuardRun) : GuardRun :=
  {| gr_waits := true; gr_bundle := gr_bundle r; gr_buf := gr_buf r; gr_cache := gr_cache r;
     gr_turns := gr_turns r; gr_effects := gr_effects r |}.
(** A message arrives: the shared state is read then. *)
Definition guard_reads (s : EndpointState) (now_ms : Z) (i : ScanInput) : Turn :=
  {| t_stop := false; t_recv := si_recv i; t_config := sh_config (en_shared s);
     t_health := Some (sh_health (en_shared s)); t_now_ms := now_ms; t_query := si_query i;
     t_identity := si_identity i |}.

Inductive guard_step : EndpointState -> EndpointState -> Prop :=
  | guard_flows s w :
      flow (en_stop s) (en_guard s) w -> guard_step s (with_guard_at w s)
  | guard_starts s :
      en_guard s = Testing -> en_stop s = false ->
      guard_step s (with_guard_at (Running (guard_start (sh_files (en_shared s)))) s)
  | guard_tests s r :
      en_guard s = Running r -> gr_waits r = false ->
      guard_step s (with_guard_at (if en_stop s then Ended else Running (guard_looks r)) s)
  | guard_answers s r now_ms i effs buf cache moments ds sink :
      en_guard s = Running r -> gr_waits r = true ->
      guard_turn (gr_bundle r) (guard_reads s now_ms i) (gr_buf r) (gr_cache r) = TurnGoes effs buf cache ->
      length moments = length (guard_incidents effs) ->
      deliver_now s moments (guard_incidents effs) = Some (ds, sink) ->
      guard_step s
        {| en_shared := en_shared s; en_stop := en_stop s; en_system := en_system s; en_sink := sink;
           en_deliveries := en_deliveries s ++ ds;
           en_guard := Running {| gr_waits := false; gr_bundle := gr_bundle r; gr_buf := buf; gr_cache := cache;
                                  gr_turns := gr_turns r ++ [guard_reads s now_ms i];
                                  gr_effects := gr_effects r ++ effs |};
           en_sealer := en_sealer s; en_checkin := en_checkin s; en_resync := en_resync s;
           en_returned := en_returned s; en_polled := en_polled s |}.

(** *** Check-in and resync *)

Inductive checkin_step : EndpointState -> EndpointState -> Prop :=
  | checkin_flows s w :
      flow (en_stop s) (en_checkin s) w -> checkin_step s (with_checkin_at w s)
  | checkin_starts s :
      en_checkin s = Testing -> en_stop s = false -> checkin_step s (with_checkin_at (Running CheckTop) s)
  | checkin_tests s :
      en_checkin s = Running CheckTop ->
      checkin_step s (with_checkin_at (if en_stop s then Ended else Running CheckTurn) s)
  | checkin_turns s reply index_reply :
      en_checkin s = Running CheckTurn ->
      let fs := (checkin_turn ft reply index_reply (sh_files (en_shared s))).2 in
      checkin_step s (with_checkin_at (Running CheckSleeps)
        (with_shared {| sh_files := fs; sh_config := sh_config (en_shared s); sh_health := sh_health (en_shared s) |} s))
  | checkin_wakes s :
      en_checkin s = Running CheckSleeps -> checkin_step s (with_checkin_at (Running CheckTop) s).

(** The shared state after a turn of the resync worker. *)
Definition resynced (s : EndpointState) (reply : Reply) : EndpointState :=
  with_resync_at (Running ResyncTop) (with_shared (resync_turn ft base keyfile reply (en_shared s)) s).

Inductive resync_step : EndpointState -> EndpointState -> Prop :=
  | resync_flows s w :
      flow (en_stop s) (en_resync s) w -> resync_step s (with_resync_at w s)
  | resync_starts s :
      en_resync s = Testing -> en_stop s = false -> resync_step s (with_resync_at (Running ResyncTop) s)
  | resync_tests s :
      en_resync s = Running ResyncTop ->
      resync_step s (with_resync_at (if en_stop s then Ended else Running ResyncSleeps) s)
  | resync_wakes s :
      en_resync s = Running ResyncSleeps -> resync_step s (with_resync_at (Running ResyncWoken) s)
  | resync_tests_again s :
      en_resync s = Running ResyncWoken ->
      resync_step s (with_resync_at (if en_stop s then Ended else Running ResyncTurn) s)
  | resync_turns s reply :
      en_resync s = Running ResyncTurn -> resync_step s (resynced s reply).

(** *** The whole *)

(** The service's control handler, another process of the agent, and the main
    thread, which joins every worker but the guard. *)
Inductive outer_step : EndpointState -> EndpointState -> Prop :=
  | stop_signalled s :
      outer_step s {| en_shared := en_shared s; en_stop := true; en_system := en_system s; en_sink := en_sink s;
                      en_deliveries := en_deliveries s; en_guard := en_guard s; en_sealer := en_sealer s;
                      en_checkin := en_checkin s; en_resync := en_resync s; en_returned := en_returned s;
                      en_polled := en_polled s |}
  | files_change s fs :
      outer_step s (with_shared {| sh_files := fs; sh_config := sh_config (en_shared s);
                                   sh_health := sh_health (en_shared s) |} s)
  | main_returns s :
      en_stop s = true -> en_sealer s = Exited -> en_checkin s = Exited -> en_resync s = Exited ->
      outer_step s {| en_shared := en_shared s; en_stop := en_stop s; en_system := en_system s; en_sink := en_sink s;
                      en_deliveries := en_deliveries s; en_guard := en_guard s; en_sealer := en_sealer s;
                      en_checkin := en_checkin s; en_resync := en_resync s; en_returned := true;
                      en_polled := en_polled s |}.

(** The three workers the main thread waits for. *)
Inductive joined_step (s s' : EndpointState) : Prop :=
  | step_sealer : sealer_step s s' -> joined_step s s'
  | step_checkin : checkin_step s s' -> joined_step s s'
  | step_resync : resync_step s s' -> joined_step s s'.
Inductive endpoint_moves (s s' : EndpointState) : Prop :=
  | moves_joined : joined_step s s' -> endpoint_moves s s'
  | moves_guard : guard_step s s' -> endpoint_moves s s'
  | moves_outer : outer_step s s' -> endpoint_moves s s'.

(** The start: the enrollment was tried, the first sync done. *)
Definition endpoint_initial (sh : Shared) (sys : System) (sink : SinkState) : EndpointState :=
  {| en_shared := sh; en_stop := false; en_system := sys; en_sink := sink; en_deliveries := [];
     en_guard := Testing; en_sealer := Testing; en_checkin := Testing; en_resync := Testing;
     en_returned := false; en_polled := None |}.
Definition booted (token : option str) (hostname os version : str) (send : EnrollRequest -> Reply)
    (reply : Reply) (fs : Files) : Shared :=
  endpoint_boot ft base keyfile reply (ensure_enrolled ft token hostname os version ca_file send [] fs).2.
Definition reachable (fs : Files) (sys : System) (sink : SinkState) (s : EndpointState) : Prop :=
  exists token hostname os version send reply,
    rtc endpoint_moves (endpoint_initial (booted token hostname os version send reply fs) sys sink) s.

(** ** A poll without device control *)

Lemma on_event_off cfg bundle tree evs a sys sys' :
  foldl (on_event cfg false bundle tree) (a, sys, []) evs =
    ((foldl (on_event cfg false bundle tree) (a, sys', []) evs).1.1, sys, []).
Proof.
  revert a. induction evs as [|ev evs IH]; intros a; [done|]. cbn [foldl].
  destruct ev as [dev|letter]; cbn [on_event andb]; apply IH.
Qed.

(** It leaves the system alone, and neither the system nor the signal changes what
    it reports. *)
Lemma monitor_poll_off sealer cfg bundle inp m sys health m' sys' out health' :
  monitor_poll verdict_src sealer cfg false bundle inp m sys health = (m', sys', out, health') ->
  sys' = sys /\ health' = mark_alive (in_alive_ms inp) health /\
  forall sys0 health0, monitor_poll verdict_src sealer cfg false bundle inp m sys0 health0 =
    (m', sys0, out, mark_alive (in_alive_ms inp) health0).
Proof.
  unfold monitor_poll. destruct (watcher_poll _ _) as [evs w]. rewrite (on_event_off _ _ _ evs (auditors m) sys sys).
  intros H. injection H as <- <- <- <-. split; [done|]. split; [done|]. intros sys0 health0.
  by rewrite (on_event_off _ _ _ evs (auditors m) sys0 sys).
Qed.

(** Runs of the loop, one turn more at their end. *)
Lemma run_monitor_snoc sealer bundle turns t m sys health m1 s1 out1 h1 :
  mt_stop t = false -> Forall (fun t => mt_stop t = false) turns ->
  run_monitor verdict_src sealer false bundle turns m sys health = (m1, s1, out1, h1) ->
  run_monitor verdict_src sealer false bundle (turns ++ [t]) m sys health =
    (let '(m2, s2, out2, h2) := monitor_poll verdict_src sealer (turn_config t) false bundle (mt_input t) m1 s1 h1 in
     (m2, s2, out1 ++ out2, h2)).
Proof.
  intros Ht Hts. revert m sys health m1 s1 out1 h1. induction Hts as [|t' turns Ht' _ IH]; intros m sys health m1 s1 out1 h1;
    cbn [run_monitor app].
  - intros [= <- <- <- <-]. rewrite Ht. destruct (monitor_poll _ _ _ _ _ _ _ _ _) as [[[? ?] ?] ?].
    by rewrite app_nil_r.
  - rewrite Ht'. destruct (monitor_poll _ _ _ _ _ _ m sys health) as [[[m0 s0] o0] h0].
    destruct (run_monitor _ _ _ _ turns m0 s0 h0) as [[[m' s'] o'] h'] eqn:Hr. intros [= <- <- <- <-].
    rewrite (IH _ _ _ _ _ _ _ Hr). destruct (monitor_poll _ _ _ _ _ _ m' s' h') as [[[? ?] ?] ?].
    by rewrite app_assoc.
Qed.

(** ** The invariant *)

Record sealer_inv (r : SealerRun) : Prop := {
  sealer_turns_ok : Forall (fun t => mt_stop t = false) (sr_turns r);
  sealer_is_run : forall sys health, exists health',
    run_monitor verdict_src (sealer_of r) false (sr_bundle r) (sr_turns r) monitor_start sys health =
      (sr_monitor r, sys, sr_reports r, health');
}.
Record endpoint_inv (sys : System) (s : EndpointState) : Prop := {
  inv_alive : last_ok_ms (sh_health (en_shared s)) = match en_polled s with Some t => Z.max t 1 | None => 0 end;
  inv_system : en_system s = sys;
  inv_sealer : forall r, en_sealer s = Running r -> sealer_inv r;
  inv_joined : en_returned s = true ->
    en_stop s = true /\ en_sealer s = Exited /\ en_checkin s = Exited /\ en_resync s = Exited;
}.

Lemma sealer_start_inv fs : sealer_inv (sealer_start fs).
Proof. split; [constructor|]. intros sys health. by exists health. Qed.
Lemma sealer_polls_inv s r inp m sys out health :
  sealer_inv r ->
  monitor_poll verdict_src (sealer_of r) (current s) false (sr_bundle r) inp (sr_monitor r)
    (en_system s) (sh_health (en_shared s)) = (m, sys, out, health) ->
  sealer_inv {| sr_polls := false; sr_ring := sr_ring r; sr_agent := sr_agent r; sr_bundle := sr_bundle r;
                sr_monitor := m; sr_turns := sr_turns r ++ [turn_of s inp]; sr_reports := sr_reports r ++ out |}.
Proof.
  intros [Ht Hr] Hp. split; cbn [sr_turns sr_monitor sr_reports sr_bundle].
  - apply Forall_app. split; [done|]. by constructor.
  - intros sys1 h1. destruct (Hr sys1 h1) as [h2 Hrun]. apply monitor_poll_off in Hp as (_ & _ & Hp).
    pose proof (run_monitor_snoc (sealer_of r) (sr_bundle r) (sr_turns r) (turn_of s inp) _ _ _ _ _ _ _ eq_refl Ht Hrun) as Hs.
    change (turn_config (turn_of s inp)) with (current s) in Hs. cbn [mt_input turn_of] in Hs. rewrite Hp in Hs.
    eexists. exact Hs.
Qed.

Lemma flow_running {A} stop (w w' : Worker A) a : flow stop w w' -> w' <> Running a.
Proof. destruct 1; try done. by destruct stop. Qed.
Lemma flow_exited {A} stop (w : Worker A) : ~ flow stop Exited w.
Proof. intros H. inversion H. Qed.

Lemma resync_turn_alive reply sh :
  last_ok_ms (sh_health (resync_turn ft base keyfile reply sh)) = last_ok_ms (sh_health sh).
Proof. unfold resync_turn, pull. by destruct (sync_trusted_config _ _ _ _) as [[r tr] fs]. Qed.
Lemma booted_alive token hostname os version send reply fs :
  last_ok_ms (sh_health (booted token hostname os version send reply fs)) = 0.
Proof. unfold booted, endpoint_boot, pull. by destruct (sync_trusted_config _ _ _ _) as [[r tr] fs']. Qed.

(** After [run_endpoint] has returned no joined worker moves. *)
Ltac no_more :=
  let Hr := fresh in intros Hr;
  match goal with H : _ = true -> _ /\ _ /\ _ /\ _ |- _ => destruct (H Hr) as (? & ? & ? & ?) end;
  first [congruence | split_and!; congruence
        | exfalso; match goal with H : flow _ ?w _, H' : ?w = Exited |- _ => rewrite H' in H; by apply flow_exited in H end].

Lemma sealer_step_inv sys s s' : sealer_step s s' -> endpoint_inv sys s -> endpoint_inv sys s'.
Proof.
  intros Hst Hi. pose proof Hi as [Ha Hsy Hs Hj]. destruct Hst as [s w Hf|s Ht Hn r|s r Hr Hp|s r inp m sys' out health moments ds sink Hr Hp Hm Hl Hd].
  - split; endpoint_cbn; try done; [|no_more]. intros r Hw. by apply (flow_running _ _ _ r) in Hf.
  - split; endpoint_cbn; try done; [|no_more]. intros r' [= <-]. apply sealer_start_inv.
  - split; endpoint_cbn; try done; [|no_more]. intros r'. destruct (en_stop s); [done|].
    intros [= <-]. destruct (Hs _ Hr) as [H1 H2]. by split.
  - pose proof (sealer_polls_inv s r inp m sys' out health (Hs _ Hr) Hm) as Hr'.
    apply monitor_poll_off in Hm as (-> & -> & _).
    split; endpoint_cbn; try done; [|no_more]. by intros r' [= <-].
Qed.

Lemma guard_step_inv sys s s' : guard_step s s' -> endpoint_inv sys s -> endpoint_inv sys s'.
Proof. intros Hst [Ha Hsy Hs Hj]. destruct Hst; by split; endpoint_cbn. Qed.

Lemma checkin_step_inv sys s s' : checkin_step s s' -> endpoint_inv sys s -> endpoint_inv sys s'.
Proof.
  intros Hst Hi. pose proof Hi as [Ha Hsy Hs Hj].
  destruct Hst; split; endpoint_cbn; try done; no_more.
Qed.

Lemma resync_step_inv sys s s' : resync_step s s' -> endpoint_inv sys s -> endpoint_inv sys s'.
Proof.
  intros Hst Hi. pose proof Hi as [Ha Hsy Hs Hj].
  destruct Hst; split; unfold resynced; endpoint_cbn; try done; try no_more. by rewrite resync_turn_alive.
Qed.

Lemma endpoint_moves_inv sys s s' : endpoint_moves s s' -> endpoint_inv sys s -> endpoint_inv sys s'.
Proof.
  intros [[H|H|H]|H|H]; [by apply sealer_step_inv|by apply checkin_step_inv|by apply resync_step_inv|
    by apply guard_step_inv|].
  intros Hi. pose proof Hi as [Ha Hsy Hs Hj].
  destruct H; split; endpoint_cbn; try done. intros Hr. by destruct (Hj Hr) as (_ & ?).
Qed.

Lemma reachable_inv fs sys sink s : reachable fs sys sink s -> endpoint_inv sys s.
Proof.
  intros (token & hostname & os & version & send & reply & Hr). revert Hr.
  generalize (booted_alive token hostname os version send reply fs).
  generalize (booted token hostname os version send reply fs) as sh. intros sh Ha Hr.
  assert (endpoint_inv sys (endpoint_initial sh sys sink)) as H0 by (split; endpoint_cbn; done).
  revert H0. induction Hr as [|s1 s2 s3 H12 _ IH]; [done|]. intros H1. apply IH. by eapply endpoint_moves_inv.
Qed.

(** ** The promise of the guard in the running endpoint *)

Definition pending_note : str := lit "allowed-pending-seal".

(** A report of a pending seal comes from a promise, made while the signal was
    healthy. *)
Lemma pending_report cfg bundle path content reason healthy dev block inc :
  decide_on cfg bundle path content reason healthy dev = Some (block, Some inc) ->
  inc_note inc = Some pending_note ->
  block = false /\ healthy = true /\ dev = Some (device inc) /\
  promised cfg bundle path content reason healthy (device inc).
Proof.
  intros H Hn. assert (block = false /\ healthy = true /\ dev = Some (device inc)) as (-> & -> & ->);
    [|split; [done|]; split; [done|]; split; [done|]; by exists inc].
  unfold decide_on, envelope_passthrough in H. destruct (starts_with ENVELOPE_MAGIC content); [done|].
  destruct (match bundle with Some b => _ | None => _ end) as [v|]; [|done]. cbn [mbind option_bind] in H.
  assert (forall v blk, incident_for path v blk (kguard_channel_label (kguard cfg)) reason <> Some inc) as Hno.
  { intros v' blk Hi. unfold incident_for, block_note in Hi.
    destruct blk, (reason =? DLP_REASON_READ), (is_unreadable (extraction v')); try done;
      injection Hi as <-; by vm_compute in Hn. }
  destruct (if negb _ && _ then _ else None) as [[blk rep]|] eqn:Ho.
  - injection H as -> ->. destruct (negb _ && _); [|done]. unfold write_scan_override in Ho.
    destruct (_ || _); [done|]. destruct dev as [d|]; [|done]. cbn [mbind option_bind] in Ho.
    destruct (negb _); [done|]. destruct (encrypt_params _ _) as [[mode key] band].
    destruct (decide_seal _ _ _ _); [done| |done]. destruct healthy.
    + injection Ho as <- <-. split; [done|]. split; [done|]. unfold seal_incident. by destruct v.
    + injection Ho as <- <-. exfalso. revert Hn. unfold seal_incident. destruct v; by vm_compute.
  - destruct v as [v|]; [|done]. injection H as _ H. by apply Hno in H.
Qed.

Lemma guard_turn_report bundle t buf cache effs buf' cache' inc :
  guard_turn bundle t buf cache = TurnGoes effs buf' cache' -> EffReport inc ∈ effs ->
  inc_note inc = Some pending_note ->
  exists path content reason,
    let cfg := snapshot_config (t_config t) in
    sealer_is_healthy t (kguard cfg) = true /\ promised cfg bundle path content reason true (device inc).
Proof.
  unfold guard_turn. destruct (t_stop t); [done|]. destruct (t_recv t ≫= _) as [b|]; [|done].
  destruct (answer_request _ _ _ _ _) as [[[block rep] c]|] eqn:Ha; [|done]. intros Hg Hin Hn.
  injection Hg as <- <- <-.
  assert (rep = Some inc) as ->.
  { unfold effects_of in Hin. cbn [app] in Hin. apply elem_of_cons in Hin as [?|Hin]; [done|].
    apply elem_of_app in Hin as [Hin|Hin].
    - destruct (should_reset_connections _ _); [|by apply elem_of_nil in Hin].
      by apply list_elem_of_singleton in Hin.
    - destruct rep as [i|]; [|by apply elem_of_nil in Hin]. apply list_elem_of_singleton in Hin. by injection Hin as ->. }
  unfold answer_request in Ha. destruct (negb _); [by injection Ha|]. unfold decide in Ha.
  destruct (if resolves _ _ _ then _ else _) as [dev c'].
  destruct (decide_on _ _ _ _ _ _ _) as [a|] eqn:Hd; [|done]. cbn [mbind option_bind] in Ha. injection Ha as -> _.
  apply pending_report in Hd as (_ & Hh & _ & Hp); [|done]. rewrite Hh in Hp. by eexists _, _, _.
Qed.

(** C36: The guard promises only what the running endpoint can keep.  In every reachable
    state, a write it lets through pending a seal is reported only when the
    sealer has polled within the timeout before the guard's clock and the signal
    says a keyring was there; a sealer that never polled, hangs or was restarted
    without a keyring makes the guard block.  And when the sealer that runs now
    shares the guard's bundle, has polled under the present configuration and found the
    device mounted, it watches that very volume with the parameters of the promise:
    the settled file is sealed and reported, or its failure is. *)
Theorem endpoint_promise_kept fs sys sink s g now i effs buf cache inc :
  reachable fs sys sink s -> en_guard s = Running g ->
  guard_turn (gr_bundle g) (guard_reads s now i) (gr_buf g) (gr_cache g) = TurnGoes effs buf cache ->
  EffReport inc ∈ effs -> inc_note inc = Some pending_note ->
  (exists t0, en_polled s = Some t0 /\
     saturating_sub now (Z.max t0 1) <= saturating_mul (sealer_health_timeout_secs (kguard (current s))) 1000) /\
  keyring_present (sh_health (en_shared s)) = true /\
  exists path content reason, promised (current s) (gr_bundle g) path content reason true (device inc) /\
    forall r b, en_sealer s = Running r -> sr_bundle r = Some b -> gr_bundle g = Some b ->
      Forall (fun t => turn_config t = current s /\ snapshot_wf (in_volumes (mt_input t))) (sr_turns r) ->
      (last (sr_turns r) ≫= fun t => mounted t (drive_letter (device inc))) = Some (device inc) ->
      exists va, auditors (sr_monitor r) !! drive_letter (device inc) = Some va /\
        watched va = (device inc, Encrypt, Some (sealing_watch (current s) (device inc))) /\
        forall st, res_ok (verdict_src b (settled_path st)) = verdict_bytes content (basename_of path) b ->
          exists i, audit_settled verdict_src (sealer_of r) (current s) (Some b) va [st] = [i] /\
            seal_kept (sealer_of r) (current s) (device inc) st i.
Proof.
  intros Hr Hg Ht Hin Hn. pose proof (reachable_inv _ _ _ _ Hr) as Hi.
  destruct (guard_turn_report _ _ _ _ _ _ _ _ Ht Hin Hn) as (path & content & reason & Hh & Hp).
  change (snapshot_config (t_config (guard_reads s now i))) with (current s) in Hh, Hp.
  unfold sealer_is_healthy in Hh. cbn [guard_reads t_health t_now_ms] in Hh. unfold is_healthy_at in Hh.
  rewrite (inv_alive _ _ Hi) in Hh. destruct (keyring_present _); [|done]. cbn [negb] in Hh.
  split; [|split; [done|]].
  { destruct (en_polled s) as [t0|]; [|done]. exists t0. split; [done|].
    destruct (Z.eqb_spec (Z.max t0 1) 0); [done|]. by apply Z.leb_le. }
  exists path, content, reason. split; [done|]. intros r b Hs Hb Hgb Hts Hm.
  destruct (inv_sealer _ _ Hi r Hs) as [Hstop Hrun]. destruct (Hrun sys (SealerHealth_new false)) as [h' Hrun'].
  rewrite Hb in Hrun'. rewrite Hgb in Hp.
  assert (take_while (fun t => negb (mt_stop t)) (sr_turns r) = sr_turns r) as Hall.
  { apply take_while_id. intros t Hin'. rewrite Forall_forall in Hstop. by rewrite (Hstop t Hin'). }
  assert (Forall (fun t => snapshot_wf (in_volumes (mt_input t))) (sr_turns r)) as Hwf
    by (eapply Forall_impl; [exact Hts|]; by intros t [_ ?]).
  pose proof (promise_kept verdict_src (sealer_of r) (current s) b false (sr_turns r) sys (SealerHealth_new false)
    path content reason true (device inc) Hwf) as Hk.
  rewrite Hrun' in Hk. cbv zeta in Hk. rewrite Hall in Hk. apply Hk; [|done|done].
  eapply Forall_impl; [exact Hts|]. by intros t [? _].
Qed.

(** ** The stop *)

(** How many steps a worker is from its end once the stop flag is set. *)
Definition rank {A} (body : A -> nat) (w : Worker A) : nat :=
  match w with Testing | Ended => 1 | Running a => body a | Exited => 0 end.
Definition sealer_rank (r : SealerRun) : nat := if sr_polls r then 3 else 2.
Definition checkin_rank (c : CheckinAt) : nat := match c with CheckTurn => 4 | CheckSleeps => 3 | CheckTop => 2 end.
Definition resync_rank (c : ResyncAt) : nat :=
  match c with ResyncTurn => 3 | ResyncTop => 2 | ResyncSleeps => 3 | ResyncWoken => 2 end.
Definition joined_rank (s : EndpointState) : nat :=
  rank sealer_rank (en_sealer s) + rank checkin_rank (en_checkin s) + rank resync_rank (en_resync s).

Lemma flow_rank {A} (body : A -> nat) (w w' : Worker A) :
  (forall a, 1 < body a)%nat -> flow true w w' -> (rank body w' < rank body w)%nat.
Proof. intros Hb. destruct 1 as [_|a|]; cbn; try lia. apply Hb. Qed.
Lemma flow_progress {A} (w : Worker A) : w <> Exited -> exists w', flow true w w'.
Proof.
  destruct w as [|a| |]; intros Hw; [exists Exited|exists Ended|exists Exited|done].
  - by constructor.
  - constructor.
  - exact (flow_checks true).
Qed.

Lemma joined_step_rank s s' :
  joined_step s s' -> en_stop s = true -> en_stop s' = true /\ (joined_rank s' < joined_rank s)%nat.
Proof.
  assert (forall r, 1 < sealer_rank r)%nat as H1 by (intros r; unfold sealer_rank; destruct (sr_polls r); lia).
  assert (forall c, 1 < checkin_rank c)%nat as H2 by (intros []; cbn; lia).
  assert (forall c, 1 < resync_rank c)%nat as H3 by (intros []; cbn; lia).
  intros [[s1 w Hf|s1 Ht Hn r|s1 r Hr Hp|s1 r inp m sys out health moments ds sink Hr Hp Hm Hl Hd]
         |[s1 w Hf|s1 Ht Hn|s1 Ht|s1 reply idx Ht fs|s1 Ht]
         |[s1 w Hf|s1 Ht Hn|s1 Ht|s1 Ht|s1 Ht|s1 reply Ht]] Hs; unfold joined_rank; endpoint_cbn; rewrite ?Hs in *;
    (split; [done|]); try congruence.
  all: try (eapply flow_rank in Hf; [|first [exact H1|exact H2|exact H3]]; lia).
  all: try (rewrite Hr; cbn [rank]; unfold sealer_rank; rewrite Hp; cbn; lia).
  all: rewrite Ht; cbn; lia.
Qed.

Lemma other_step_rank s s' :
  guard_step s s' \/ outer_step s s' -> en_stop s = true -> en_stop s' = true /\ joined_rank s' = joined_rank s.
Proof. intros [H|H] Hs; destruct H; unfold joined_rank; endpoint_cbn; done. Qed.

Lemma joined_progress s : en_stop s = true -> (0 < joined_rank s)%nat -> exists s', joined_step s s'.
Proof.
  intros Hs Hr. destruct (en_sealer s) eqn:Hw; [..|destruct (en_checkin s) eqn:Hc; [..|destruct (en_resync s) eqn:Hy]].
  10: by unfold joined_rank in Hr; rewrite Hw, Hc, Hy in Hr; cbn in Hr; lia.
  1-3: destruct (flow_progress (en_sealer s)) as [w Hf]; [by rewrite Hw|]; rewrite <- Hs in Hf;
    by eexists; apply step_sealer, sealer_flows; exact Hf.
  1-3: destruct (flow_progress (en_checkin s)) as [w Hf]; [by rewrite Hc|]; rewrite <- Hs in Hf;
    by eexists; apply step_checkin, checkin_flows; exact Hf.
  all: destruct (flow_progress (en_resync s)) as [w Hf]; [by rewrite Hy|]; rewrite <- Hs in Hf;
    by eexists; apply step_resync, resync_flows; exact Hf.
Qed.

Lemma stops_from s : en_stop s = true -> exists s', rtc endpoint_moves s s' /\ en_returned s' = true.
Proof.
  remember (joined_rank s) as n eqn:Hn. revert s Hn. induction n as [n IH] using lt_wf_ind. intros s -> Hs.
  destruct (Nat.eq_dec (joined_rank s) 0) as [H0|H0].
  - assert (en_sealer s = Exited /\ en_checkin s = Exited /\ en_resync s = Exited) as (H1 & H2 & H3).
    { unfold joined_rank in H0. split_and!.
      - destruct (en_sealer s) as [|r| |]; cbn in H0; try done. unfold sealer_rank in H0. destruct (sr_polls r); lia.
      - destruct (en_checkin s) as [|[]| |]; cbn in H0; try done; lia.
      - destruct (en_resync s) as [|[]| |]; cbn in H0; try done; lia. }
    eexists. split; [apply rtc_once, moves_outer, main_returns; done|done].
  - destruct (joined_progress s Hs) as [s1 H1]; [lia|]. destruct (joined_step_rank _ _ H1 Hs) as [Hs1 Hlt].
    destruct (IH _ Hlt s1 eq_refl Hs1) as (s' & Hr & He). exists s'. split; [|done].
    eapply rtc_l; [by apply moves_joined|done].
Qed.

(** C38: A stop is prompt and clean.  Once the service signals it, the flag stays set,
    and whatever the interleaving, the three joined workers together take at most
    ten more steps - so at most one more poll, one more check-in and one more
    resync - while no step of the guard or the outside adds to them; until they
    are gone one of them can move, and then the main thread returns.  It never
    returns before: a returned endpoint has no sealer, check-in or resync thread.
    The guard, which may wait for a message for ever, is not waited for. *)
Theorem endpoint_stops fs sys sink s :
  reachable fs sys sink s ->
  (en_returned s = true ->
     en_stop s = true /\ en_sealer s = Exited /\ en_checkin s = Exited /\ en_resync s = Exited) /\
  (en_stop s = true ->
     (joined_rank s <= 10)%nat /\
     (forall s', joined_step s s' -> en_stop s' = true /\ (joined_rank s' < joined_rank s)%nat) /\
     (forall s', guard_step s s' \/ outer_step s s' -> en_stop s' = true /\ joined_rank s' = joined_rank s) /\
     ((0 < joined_rank s)%nat -> exists s', joined_step s s') /\
     exists s', rtc endpoint_moves s s' /\ en_returned s' = true).
Proof.
  intros Hr. split; [apply (reachable_inv _ _ _ _ Hr)|]. intros Hs. split_and!.
  - unfold joined_rank. assert (rank sealer_rank (en_sealer s) <= 3)%nat.
    { destruct (en_sealer s) as [|r| |]; cbn; try lia. unfold sealer_rank. destruct (sr_polls r); lia. }
    assert (rank checkin_rank (en_checkin s) <= 4)%nat by (destruct (en_checkin s) as [|[]| |]; cbn; lia).
    assert (rank resync_rank (en_resync s) <= 3)%nat by (destruct (en_resync s) as [|[]| |]; cbn; lia). lia.
  - intros s' H. by apply joined_step_rank.
  - intros s' H. by apply other_step_rank.
  - by apply joined_progress.
  - by apply stops_from.
Qed.
End Endpoint.

(** ** A delivered whitelist reaches the workers *)

(** A guard turn looks at the configuration behind the lock, poisoned or not. *)
Lemma guard_turn_config {B : BundleEnv} {D : Digest} {U : Unicode} {X : ExtractEnv} bundle t t' buf cache :
  t_stop t' = t_stop t -> t_recv t' = t_recv t -> t_health t' = t_health t -> t_now_ms t' = t_now_ms t ->
  t_query t' = t_query t -> t_identity t' = t_identity t ->
  snapshot_config (t_config t') = snapshot_config (t_config t) ->
  guard_turn bundle t' buf cache = guard_turn bundle t buf cache.
Proof.
  intros H1 H2 H3 H4 H5 H6 H. unfold guard_turn, answer_request.
  rewrite H, H1, H2, H5, H6.
  assert (forall kg, sealer_is_healthy t' kg = sealer_is_healthy t kg) as Hh
    by (intros kg; unfold sealer_is_healthy; by rewrite H3, H4).
  by rewrite !Hh.
Qed.

Section Delivered.
Context {S : StateEnv} {SL : StateLaws S} {V : ServerEnv} {E : CryptoEnv} {J : JsonEnv} {L : JsonLaws J E}.
Context {B : BundleEnv} {D : Digest} {U : Unicode} {X : ExtractEnv} {W : WireEnv} {F : QueueFs} {N : WinApi}.
Context (ft : DiskFaults) (base : Config) (keyfile : option (result str bytes)) (ca_file : result str bytes).
Context (queue : IncidentQueue) (pid : Z).
Context (verdict_src : Bundle -> Path -> result str Verdict).
Context (seal : str -> Kek -> Path -> result str SealOutcome).

(** The destinations lie at rest. *)
Definition at_rest (ds : list SyncedDestination) (s : EndpointState) : Prop :=
  pure_at (load_synced_destinations ft) (sh_files (en_shared s)) (Ok ds).

(** A step after the delivery: any worker's and any of the outside that leaves the
    destinations at rest as they are, where the resync worker's turns do not
    reach the server. *)
Inductive later_move (ds : list SyncedDestination) (s s' : EndpointState) : Prop :=
  | later_sealer : sealer_step ft keyfile ca_file queue pid verdict_src seal s s' -> later_move ds s s'
  | later_guard : guard_step ft ca_file queue pid s s' -> later_move ds s s'
  | later_checkin : checkin_step ft s s' -> later_move ds s s'
  | later_outer : outer_step s s' -> at_rest ds s' -> later_move ds s s'
  | later_resync : resync_step ft base keyfile s s' -> en_shared s' = en_shared s -> later_move ds s s'
  | later_outage m : en_resync s = Running ResyncTurn -> s' = resynced ft base keyfile s (Err m) -> later_move ds s s'.

Definition holds_whitelist (ds : list SyncedDestination) (s : EndpointState) : Prop :=
  at_rest ds s /\ current s = with_synced_destinations base ds.

Lemma later_move_holds ds s s' : later_move ds s s' -> holds_whitelist ds s -> holds_whitelist ds s'.
Proof.
  intros Hst [Hd Hc]. unfold holds_whitelist, at_rest, current in *. destruct Hst as [H|H|H|H H'|H H'|m H H'].
  - destruct H; endpoint_cbn; try done.
  - destruct H; endpoint_cbn; done.
  - destruct H; endpoint_cbn; try done. split; [|done]. eapply destinations_read; [|exact Hd].
    eapply (checkin_turn_agree ft (fun p => p ∈ map path [POLICY_FILE; INDEX_FILE; INDEX_TMP]));
      [..|apply (bool_decide_unpack _); vm_compute; exact I]; apply (bool_decide_unpack _); vm_compute; exact I.
  - split; [exact H'|]. destruct H; endpoint_cbn; done.
  - by rewrite H'.
  - subst s'. unfold resynced. endpoint_cbn. rewrite (resync_turn_offline ft base keyfile m _ ds Hd).
    unfold whitelisted. cbn [sh_files sh_config]. split; [exact Hd|]. by destruct (sh_config (en_shared s)).
Qed.

(** C37: A delivered whitelist reaches every worker, and stays.  When the resync
    worker takes the turn in which the server delivers a whitelist and the disk
    works, the shared configuration is the local one merged with exactly what
    was delivered.  It stays so whatever the workers then do, panic and restart,
    through any number of turns that do not reach the server, as long as nothing
    else changes the destinations at rest.  From that turn on whatever the
    sealer does in a poll, in the watches it adds, the seals and the reports, is
    a poll under that very configuration, and whatever the guard does about a
    message is its turn under it, with the health signal of that moment. *)
Theorem whitelist_reaches_workers reply s tc :
  fault_free ft -> deliverable ft reply (sh_files (en_shared s)) tc -> en_resync s = Running ResyncTurn ->
  let cfg := with_synced_destinations base (destinations tc) in
  let s1 := resynced ft base keyfile s reply in
  endpoint_moves ft base keyfile ca_file queue pid verdict_src seal s s1 /\
  forall s2, rtc (later_move (destinations tc)) s1 s2 ->
    current s2 = cfg /\
    (forall s3 r r', sealer_step ft keyfile ca_file queue pid verdict_src seal s2 s3 ->
       en_sealer s2 = Running r -> en_sealer s3 = Running r' ->
       (sr_monitor r' = sr_monitor r /\ sr_reports r' = sr_reports r /\ en_deliveries s3 = en_deliveries s2) \/
       exists inp out,
         monitor_poll verdict_src (sealer_of seal r) cfg false (sr_bundle r) inp (sr_monitor r)
           (en_system s2) (sh_health (en_shared s2)) =
           (sr_monitor r', en_system s3, out, sh_health (en_shared s3)) /\
         sr_reports r' = sr_reports r ++ out) /\
    (forall s3 g g', guard_step ft ca_file queue pid s2 s3 ->
       en_guard s2 = Running g -> en_guard s3 = Running g' ->
       (gr_effects g' = gr_effects g /\ en_deliveries s3 = en_deliveries s2) \/
       exists i now effs,
         guard_turn (gr_bundle g)
           {| t_stop := false; t_recv := si_recv i; t_config := Clean cfg;
              t_health := Some (sh_health (en_shared s2)); t_now_ms := now; t_query := si_query i;
              t_identity := si_identity i |} (gr_buf g) (gr_cache g) = TurnGoes effs (gr_buf g') (gr_cache g') /\
         gr_effects g' = gr_effects g ++ effs).
Proof.
  intros Hft Hdel Hr cfg s1. split; [by apply moves_joined, step_resync, resync_turns|].
  assert (holds_whitelist (destinations tc) s1) as H1.
  { destruct (resync_turn_delivers ft base keyfile reply (en_shared s) tc Hft Hdel) as (fs' & Ht & Hd & _).
    unfold s1, resynced, holds_whitelist, at_rest, current. endpoint_cbn. rewrite Ht. unfold whitelisted.
    cbn [sh_files sh_config]. split; [exact Hd|]. by destruct (sh_config (en_shared s)). }
  intros s2 H12. assert (holds_whitelist (destinations tc) s2) as [_ Hc].
  { clear Hr Hdel. revert H1. induction H12 as [|a b c Hab _ IH]; [done|]. intros Ha. apply IH. by eapply later_move_holds. }
  fold cfg in Hc. split; [exact Hc|]. split.
  - intros s3 r r' Hst Hw. destruct Hst as [s2 w Hf|s2 Ht Hn|s2 r0 Hr0 Hp|s2 r0 inp m sys out health moments ds sink Hr0 Hp Hm Hl Hd];
      endpoint_cbn; intros Hw'.
    + by apply (flow_running _ _ _ r') in Hf.
    + congruence.
    + rewrite Hw in Hr0. injection Hr0 as <-. left. destruct (en_stop s2); [done|]. by injection Hw' as <-.
    + rewrite Hw in Hr0. injection Hr0 as <-. injection Hw' as <-. right. exists inp, out. rewrite <- Hc. by split.
  - intros s3 g g' Hst Hw. destruct Hst as [s2 w Hf|s2 Ht Hn|s2 r0 Hr0 Hp|s2 r0 now i effs buf cache moments ds sink Hr0 Hp Hm Hl Hd];
      endpoint_cbn; intros Hw'.
    + by apply (flow_running _ _ _ g') in Hf.
    + congruence.
    + rewrite Hw in Hr0. injection Hr0 as <-. left. destruct (en_stop s2); [done|]. by injection Hw' as <-.
    + rewrite Hw in Hr0. injection Hr0 as <-. injection Hw' as <-. right. exists i, now, effs. split; [|done].
      etrans; [|exact Hm]. by apply guard_turn_config.
Qed.
End Delivered.

(** ** A run

    An enrolled agent that the server gives a whitelist with the stick and a key;
    the sealer polls, then the driver asks about a write to the stick. *)

Definition write_message : DriverMessage :=
  let path := lit "\Device\HarddiskVolume1\a.txt" in
  {| dm_reply_length := 0; dm_pad := 0; dm_id := 7;
     dm_req := {| req_version := 2; req_reason := DLP_REASON_WRITE; file_id := 9; process_id := 42;
       path_length := 2 * Z.of_nat (length path); pad := 0;
       req_path := path ++ replicate (DLP_MAX_PATH_CHARS - length path) 0;
       content_length := 13; truncated := 0 |};
     dm_content := lit "Secret: PLAN!" |}.
Definition write_scan : ScanInput :=
  {| si_recv := Some (encode_message write_message); si_query := sample_query; si_identity := fun _ => Some stick |}.
Definition first_poll : PollInput :=
  {| in_now_ms := 5000; in_alive_ms := 5000; in_volumes := [stick]; in_tree := fun _ => empty_volume; in_opens := fun _ => true |}.

Section Run.
#[local] Existing Instances toy_state toy_server toy_crypto state_json toy_digest ascii_unicode sample_archive toy_wire
  fs_ok all_ok.
#[local] Instance run_bundle : BundleEnv := sample_env sample_header.
Definition run_shared : Shared :=
  booted no_disk_faults guard_config None (Ok []) None (lit "h") (lit "o") (lit "v") (fun _ => Err (lit "down"))
    (Ok (200, lit "TC")) (enrolled_state []).
Definition idle_system : System := {| registry := ∅; dismounted := [] |}.
Definition run_seal : str -> Kek -> Path -> result str SealOutcome := fun _ _ _ => Err (lit "no volume").
Definition run_verdict : Bundle -> Path -> result str Verdict := fun _ _ => Ok row_verdict.

Definition moves : EndpointState -> EndpointState -> Prop :=
  endpoint_moves no_disk_faults guard_config None (Ok []) {| cap := 3 |} 7 run_verdict run_seal.

(** What the run keeps track of in a state. *)
Definition run_at (s : EndpointState) (sealer : Worker SealerRun) (guard : Worker GuardRun) (polled : option Z) : Prop :=
  rtc moves (endpoint_initial run_shared idle_system session_sink) s /\
  en_sealer s = sealer /\ en_guard s = guard /\ en_polled s = polled /\ en_stop s = false /\
  en_system s = idle_system /\ sh_config (en_shared s) = sh_config run_shared /\
  sh_files (en_shared s) = sh_files run_shared /\ keyring_present (sh_health (en_shared s)) = true.

Ltac run_step rule := eexists; split; [eapply rtc_r; [eassumption|apply rule]|]; endpoint_cbn.

Definition run_sealer : SealerRun := sealer_start no_disk_faults None (Ok []) (sh_files run_shared).
Definition run_guard : GuardRun := guard_start no_disk_faults (Ok []) (sh_files run_shared).

Lemma run_first_poll : exists m health,
  monitor_poll run_verdict (sealer_of run_seal run_sealer) (snapshot_config (sh_config run_shared)) false
    (sr_bundle run_sealer) first_poll monitor_start idle_system (SealerHealth_new true) = (m, idle_system, [], health).
Proof.
  destruct (monitor_poll _ _ _ _ _ _ _ _ _) as [[[m sys] out] health] eqn:Hp. exists m, health.
  pose proof (monitor_poll_off _ _ _ _ _ _ _ _ _ _ _ _ Hp) as (-> & _ & _).
  assert (out = []) as ->; [|done]. change out with (m, idle_system, out, health).1.2. rewrite <- Hp.
  vm_compute. reflexivity.
Qed.

(** The state in which the guard waits after the first poll. *)
Lemma run_waits : exists s r, run_at s (Running r) (Running (guard_looks run_guard)) (Some 5000).
Proof.
  assert (run_at (endpoint_initial run_shared idle_system session_sink) Testing Testing None) as H0.
  { split; [constructor|]. split_and!; reflexivity. }
  revert H0. generalize (endpoint_initial run_shared idle_system session_sink) at 1. intros s0 H0.
  assert (exists s, run_at s (Running run_sealer) Testing None) as (s1 & H1).
  { destruct H0 as (Hr & Hw & Hg & Hp & Hs & Hy & Hc & Hf & Hk).
    eexists. split; [eapply rtc_r; [exact Hr|]; apply moves_joined, step_sealer, sealer_starts; done|].
    endpoint_cbn. rewrite Hf.
    split_and!; [reflexivity|exact Hg|exact Hp|exact Hs|exact Hy|exact Hc|reflexivity|vm_compute; reflexivity]. }
  assert (exists s, run_at s (Running (sealer_looks run_sealer)) Testing None) as (s2 & H2).
  { destruct H1 as (Hr & Hw & Hg & Hp & Hs & Hy & Hc & Hf & Hk).
    eexists. split; [eapply rtc_r; [exact Hr|]; apply moves_joined, step_sealer; by eapply sealer_tests|].
    endpoint_cbn. rewrite Hs.
    split_and!; [reflexivity|exact Hg|exact Hp|reflexivity|exact Hy|exact Hc|exact Hf|exact Hk]. }
  assert (exists s r, run_at s (Running r) Testing (Some 5000)) as (s3 & r & H3).
  { destruct H2 as (Hr & Hw & Hg & Hp & Hs & Hy & Hc & Hf & Hk). destruct run_first_poll as (m & health & Hm).
    pose proof (monitor_poll_off _ _ _ _ _ _ _ _ _ _ _ _ Hm) as (_ & _ & Hm').
    eexists _, _. split.
    - eapply rtc_r; [exact Hr|]. apply moves_joined, step_sealer.
      eapply sealer_polls with (inp := first_poll) (m := m) (out := []) (moments := []) (ds := []); [exact Hw|reflexivity| |reflexivity|reflexivity].
      unfold current. rewrite Hc. apply Hm'.
    - endpoint_cbn. split_and!; [reflexivity|exact Hg|reflexivity|exact Hs|exact Hy|exact Hc|exact Hf|exact Hk]. }
  assert (exists s, run_at s (Running r) (Running run_guard) (Some 5000)) as (s4 & H4).
  { destruct H3 as (Hr & Hw & Hg & Hp & Hs & Hy & Hc & Hf & Hk).
    eexists. split; [eapply rtc_r; [exact Hr|]; by apply moves_guard, guard_starts|].
    endpoint_cbn. rewrite Hf.
    split_and!; [exact Hw|reflexivity|exact Hp|exact Hs|exact Hy|exact Hc|reflexivity|exact Hk]. }
  destruct H4 as (Hr & Hw & Hg & Hp & Hs & Hy & Hc & Hf & Hk).
  eexists _, r. split; [eapply rtc_r; [exact Hr|]; by eapply moves_guard, guard_tests|].
  endpoint_cbn. rewrite Hs.
  split_and!; [exact Hw|reflexivity|exact Hp|reflexivity|exact Hy|exact Hc|exact Hf|exact Hk].
Qed.

Lemma run_reachable s w g p : run_at s w g p ->
  reachable no_disk_faults guard_config None (Ok []) {| cap := 3 |} 7 run_verdict run_seal
    (enrolled_state []) idle_system session_sink s.
Proof. intros [Hr _]. by eexists _, _, _, _, _, _. Qed.

Definition turn_effects (r : TurnResult) : list GuardEffect := match r with TurnGoes effs _ _ => effs | _ => [] end.

Definition run_turn : Turn :=
  {| t_stop := false; t_recv := si_recv write_scan; t_config := sh_config run_shared;
     t_health := Some {| last_ok_ms := 5000; keyring_present := true |}; t_now_ms := 9000;
     t_query := sample_query; t_identity := fun _ => Some stick |}.
Lemma run_reads s w g : run_at s w g (Some 5000) -> guard_reads s 9000 write_scan = run_turn.
Proof.
  intros Hs. pose proof (inv_alive _ _ _ _ (reachable_inv _ _ _ _ _ _ _ _ _ _ _ _ (run_reachable _ _ _ _ Hs))) as Ha.
  destruct Hs as (_ & _ & _ & Hp & _ & _ & Hc & _ & Hk). unfold guard_reads, run_turn. rewrite Hc.
  rewrite Hp in Ha. destruct (sh_health (en_shared s)) as [l k]. cbn in Ha, Hk. by subst.
Qed.

Definition pending_reports (effs : list GuardEffect) : list UsbIncident :=
  List.filter (fun i => bool_decide (inc_note i = Some pending_note)) (guard_incidents effs).
Lemma turn_answers r : device <$> pending_reports (turn_effects r) = [stick] ->
  exists effs buf cache, r = TurnGoes effs buf cache /\ device <$> pending_reports effs = [stick].
Proof. destruct r as [e used|effs buf cache]; [done|]. intros H. by exists effs, buf, cache. Qed.
Lemma run_answers : exists effs buf cache,
  guard_turn (gr_bundle run_guard) run_turn (gr_buf run_guard) (gr_cache run_guard) = TurnGoes effs buf cache /\
  device <$> pending_reports effs = [stick].
Proof. apply turn_answers. vm_compute. reflexivity. Qed.

(** The guard lets the write through pending a seal, 4 seconds after the poll. *)
Lemma endpoint_promise_kept_witness :
  exists s w inc effs buf cache, run_at s w (Running (guard_looks run_guard)) (Some 5000) /\
    guard_turn (gr_bundle run_guard) (guard_reads s 9000 write_scan) (gr_buf run_guard) (gr_cache run_guard) =
      TurnGoes effs buf cache /\
    EffReport inc ∈ effs /\ inc_note inc = Some pending_note /\ device inc = stick /\
    exists t0, en_polled s = Some t0 /\ saturating_sub 9000 (Z.max t0 1) <=
      saturating_mul (sealer_health_timeout_secs (kguard (current s))) 1000.
Proof.
  destruct run_waits as (s & r & Hs). destruct run_answers as (effs & buf & cache & Ht & Hd).
  destruct (pending_reports effs) as [|inc l] eqn:Hl; [done|]. injection Hd as Hdev _.
  assert (inc ∈ pending_reports effs) as Hin by (rewrite Hl; by left).
  apply list_elem_of_In, filter_In in Hin as [Hin Hn]. apply bool_decide_eq_true_1 in Hn.
  assert (EffReport inc ∈ effs) as He.
  { apply list_elem_of_In, list_elem_of_omap in Hin as (e & He & Hi). destruct e; try discriminate Hi. injection Hi as ->. exact He. }
  rewrite <- (run_reads _ _ _ Hs) in Ht. exists s, (Running r), inc, effs, buf, cache.
  pose proof (endpoint_promise_kept no_disk_faults guard_config None (Ok []) {| cap := 3 |} 7 run_verdict run_seal
    (enrolled_state []) idle_system session_sink s (guard_looks run_guard) 9000 write_scan effs buf cache inc
    (run_reachable _ _ _ _ Hs) (proj1 (proj2 (proj2 Hs))) Ht He Hn) as (Hlive & _).
  split_and!; [exact Hs|exact Ht|exact He|exact Hn|exact Hdev|exact Hlive].
Defined.

(** An endpoint that started without a whitelist, before the turn that gets it. *)
Definition unlisted : EndpointState :=
  {| en_shared := {| sh_files := enrolled_state []; sh_config := Clean unlisted_config;
                     sh_health := SealerHealth_new false |};
     en_stop := false; en_system := idle_system; en_sink := session_sink; en_deliveries := [];
     en_guard := Running (guard_looks run_guard); en_sealer := Testing; en_checkin := Testing;
     en_resync := Running ResyncTurn; en_returned := false; en_polled := None |}.

(** The delivery makes the stick a destination to encrypt for, and an outage later
    the guard still answers under it. *)
Lemma whitelist_reaches_workers_witness :
  let decided s := (UsbPolicy.decide (to_policy (usb (current s))) stick).1 in
  let s1 := resynced no_disk_faults unlisted_config None unlisted (Ok (200, lit "TC")) in
  endpoint_moves no_disk_faults unlisted_config None (Ok []) {| cap := 3 |} 7 run_verdict run_seal unlisted s1 /\ decided unlisted <> Encrypt /\ decided s1 = Encrypt /\
  exists s2, rtc (later_move no_disk_faults unlisted_config None (Ok []) {| cap := 3 |} 7 run_verdict run_seal [trust_s1]) s1 s2 /\
    decided s2 = Encrypt /\ en_guard s2 = Running (guard_looks run_guard) /\
    forall s3 g, guard_step no_disk_faults (Ok []) {| cap := 3 |} 7 s2 s3 -> en_guard s3 = Running g ->
      gr_effects g = [] \/
      exists i now effs, guard_turn (gr_bundle run_guard)
        {| t_stop := false; t_recv := si_recv i;
           t_config := Clean (with_synced_destinations unlisted_config [trust_s1]);
           t_health := Some (sh_health (en_shared s2)); t_now_ms := now; t_query := si_query i;
           t_identity := si_identity i |} receive_buffer None = TurnGoes effs (gr_buf g) (gr_cache g) /\
        gr_effects g = effs.
Proof.
  intros decided s1.
  destruct (whitelist_reaches_workers no_disk_faults unlisted_config None (Ok []) {| cap := 3 |} 7 run_verdict run_seal
    (Ok (200, lit "TC")) unlisted toy_synced) as [Hm H].
  - repeat split.
  - split; [intros tr; vm_compute; reflexivity|]. split; [vm_compute; discriminate|]. intros json _. by eexists.
  - reflexivity.
  - fold s1 in Hm, H. split; [exact Hm|]. split; [vm_compute; discriminate|].
    assert (decided s1 = Encrypt) as H1.
    { unfold decided. destruct (H s1 (rtc_refl _ _)) as (-> & _). vm_compute. reflexivity. }
    split; [exact H1|].
    eassert (rtc (later_move no_disk_faults unlisted_config None (Ok []) {| cap := 3 |} 7 run_verdict run_seal
      [trust_s1]) s1 _) as Hl.
    { eapply rtc_l; [apply later_resync; [by apply resync_tests|reflexivity]|].
      eapply rtc_l; [apply later_resync; [by apply resync_wakes|reflexivity]|].
      eapply rtc_l; [apply later_resync; [by apply resync_tests_again|reflexivity]|].
      eapply rtc_once, (later_outage _ _ _ _ _ _ _ _ _ _ _ (lit "down")); reflexivity. }
    eexists. split; [exact Hl|]. destruct (H _ Hl) as (Hc & _ & Hg).
    split; [unfold decided; rewrite Hc; vm_compute; reflexivity|]. split; [reflexivity|].
    intros s3 g Hst Hw. destruct (Hg s3 _ g Hst eq_refl Hw) as [[He _]|(i & now & effs & Ht & He)]; [by left|].
    right. exists i, now, effs. split; [exact Ht|exact He].
Defined.

(** Stopping that endpoint. *)
Lemma endpoint_stops_witness :
  exists s s', moves s s' /\ en_stop s' = true /\ (joined_rank s' <= 10)%nat /\
    exists s'', rtc moves s' s'' /\ en_returned s'' = true.
Proof.
  destruct run_waits as (s & r & Hs). eassert (moves s _) as Hst by (apply moves_outer, stop_signalled).
  eexists s, _. split; [exact Hst|]. split; [reflexivity|].
  pose proof (endpoint_stops no_disk_faults guard_config None (Ok []) {| cap := 3 |} 7 run_verdict run_seal
    (enrolled_state []) idle_system session_sink _ (ex_intro _ _ (ex_intro _ _ (ex_intro _ _ (ex_intro _ _
      (ex_intro _ _ (ex_intro _ _ (rtc_r _ _ _ (proj1 Hs) Hst)))))))) as [_ H].
  destruct (H eq_refl) as (Hk & _ & _ & _ & He). split; [exact Hk|exact He].
Defined.
End Run.
