(* ===== verification/Program.v ===== *)
(** The process ([src/main.rs], [src/service.rs]): from the arguments to the exit
    code, every subcommand over the files of the state directory and the queue,
    with [status], the registration of the service and the check-in loop, which no
    other file models.  What each subcommand may change of the state directory is
    proved here, and that [status] shows nothing of the private key. *)

From S2P Require Import Prelude Words Text F64 Unicode Fingerprint Bundle Edm Utf8 Extract Verdict.
From S2P Require Import TrustDest Device UsbPolicy Enforce Watch Supervise Queue Crypto CopyAudit Decrypt.
From S2P Require Import RemoteTools NetRules Config TrustSync UsbMonitor KGuard BrowserHost Clipboard Notify.
From S2P Require Import Exfil GuardSession Egress State Agent Commands Footprint Sessions Endpoint.
#[local] Open Scope Z_scope.

(** ** [status] *)

(** What the X.509 library shows of a certificate. *)
Record CertificateView := { cert_subject : str; cert_issuer : str; cert_serial : str; cert_not_after : str }.
Definition certificate_lines (c : result str CertificateView) : list str :=
  match c with
  | Ok c => [lit "  certificate:";
             lit "    subject:       " ++ cert_subject c;
             lit "    issuer:        " ++ cert_issuer c;
             lit "    serial:        " ++ cert_serial c;
             lit "    valid until:   " ++ cert_not_after c;
             lit "    key stored:    DPAPI-sealed (machine scope)"]
  | Err e => [lit "  (could not parse certificate: " ++ e ++ lit ")"]
  end.

(** The lines printed; [None] is the panic of [extract_cert_pem]. *)
Definition print_status {S : StateEnv} (ft : DiskFaults) (from_pem : str -> result str CertificateView)
    : FsM (option (list str)) :=
  enrolled ← has_identity;
  if negb enrolled then mret (Some [lit "not enrolled"])
  else
    meta ← load_meta ft;
    let lines := [lit "enrolled";
                  lit "  agent id:        " ++ agent_id meta;
                  lit "  check-in every:  " ++ dec (meta_interval meta) ++ lit "s"] in
    identity ← attempt (load_identity ft);
    mret match identity with
         | Err _ => Some lines
         | Ok (identity_pem, _) =>
             cert_pem ← extract_cert_pem identity_pem;
             Some match cert_pem with
                  | None => lines
                  | Some pem => lines ++ certificate_lines (from_pem pem)
                  end
         end.

(** ** Registering the service *)

Definition SERVICE_NAME : str := lit "DLPAgent".
Definition SERVICE_DISPLAY : str := lit "DLP Endpoint Agent".

Record ServiceInfo := {
  si_name : str;
  si_display_name : str;
  si_auto_start : bool;
  si_executable_path : str;
  si_launch_arguments : list str;
  si_dependencies : list str;
  (** [None] is LocalSystem *)
  si_account_name : option str;
}.
Definition service_info (exe : str) : ServiceInfo :=
  {| si_name := SERVICE_NAME; si_display_name := SERVICE_DISPLAY; si_auto_start := true;
     si_executable_path := exe; si_launch_arguments := [lit "service-run"];
     si_dependencies := [lit "FltMgr"]; si_account_name := None |}.

(** The calls of the service manager and of the system, with what they answer:
    the executable's path for [CurrentExe], nothing of interest for the others. *)
Inductive ServiceCall :=
  | OpenManager (create : bool)
  | CurrentExe
  | CreateService (info : ServiceInfo)
  | SetDescription (text : str)
  | OpenService (name : str)
  | StopService
  | DeleteService.
Definition ServiceManager : Type := ServiceCall -> result str str.

Definition SERVICE_DESCRIPTION : str :=
  lit "DLP endpoint agent: kernel guard + user-mode sealer + check-in + whitelist re-sync (run-endpoint).".
(** The calls made, and the outcome. *)
Definition install (scm : ServiceManager) : list ServiceCall * result str unit :=
  match scm (OpenManager true) with
  | Err e => ([OpenManager true], Err e)
  | Ok _ =>
      match scm CurrentExe with
      | Err e => ([OpenManager true; CurrentExe], Err e)
      | Ok exe =>
          let create := CreateService (service_info exe) in
          match scm create with
          | Err e => ([OpenManager true; CurrentExe; create], Err e)
          | Ok _ => ([OpenManager true; CurrentExe; create; SetDescription SERVICE_DESCRIPTION], Ok tt)
          end
      end
  end.
Definition uninstall (scm : ServiceManager) : list ServiceCall * result str unit :=
  match scm (OpenManager false) with
  | Err e => ([OpenManager false], Err e)
  | Ok _ =>
      let calls := [OpenManager false; OpenService SERVICE_NAME] in
      match scm (OpenService SERVICE_NAME) with
      | Err e => (calls, Err e)
      | Ok _ =>
          (calls ++ [StopService; DeleteService],
           match scm DeleteService with Ok _ => Ok tt | Err e => Err e end)
      end
  end.

(** ** The service's log

    Over the files of the log directory; [stat_fails] is whether the size of the
    log cannot be read. *)

Definition LOG_FILE : str := lit "dlp-agent.log".
Definition LOG_OLD : str := lit "dlp-agent.log.1".
Definition MAX_BYTES : Z := 5 * 1024 * 1024.
Inductive LogSink := LogToFile | LogToStderr.
Definition log_size (stat_fails : bool) (fs : Files) : option Z :=
  if stat_fails then None else (fun b : bytes => Z.of_nat (length b)) <$> fs !! path LOG_FILE.
Definition rotate_log (ft : DiskFaults) (stat_fails : bool) : FsM unit := fun tr fs =>
  if match log_size stat_fails fs with Some n => MAX_BYTES <? n | None => false end
  then (r ← attempt (move_file ft LOG_FILE LOG_OLD); mret tt) tr fs
  else (mret tt : FsM unit) tr fs.
(** The log is opened to append to, and created when it does not exist. *)
Definition open_log (ft : DiskFaults) : FsM LogSink := fun tr fs =>
  match write_fault ft LOG_FILE with
  | Some (NotOpened _) => (mret LogToStderr : FsM LogSink) tr fs
  | _ => if bool_decide (is_Some (fs !! path LOG_FILE)) then (mret LogToFile : FsM LogSink) tr fs
         else (_ ← effect <[path LOG_FILE := []]>; mret LogToFile) tr fs
  end.
Definition init_file_logging (ft : DiskFaults) (stat_fails : bool) : FsM LogSink :=
  _ ← attempt (create_dir ft);
  _ ← rotate_log ft stat_fails;
  open_log ft.

(** ** The process *)

(** The exit code; a panic of the main thread; a session, with what its function
    returns when its input ends. *)
Inductive Ended :=
  | Leaves (code : Z)
  | Panics
  | Serves (r : result str unit).

(** What a process finds: this host, the CA file and the dev keyfile, the replies
    of the server, the files outside the state directory, and the inputs of the
    sessions. *)
Record Found := {
  f_hostname : str;
  f_os : str;
  f_version : str;
  f_ca_file : result str bytes;
  f_keyfile : option (result str bytes);
  f_send : EnrollRequest -> State.Reply;
  f_reply : State.Reply;
  f_index_reply : State.Reply;
  (** the replies to the check-ins of [run] *)
  f_turns : list State.Reply;
  f_scm : ServiceManager;
  f_from_pem : str -> result str CertificateView;
  f_read : str -> result str bytes;
  f_file_name : str -> option str;
  f_path_of : str -> Path;
  f_dir_of : str -> Path;
  f_occupied : Path -> bool;
  f_write_fault : Path -> option WriteFault;
  f_moment : Moment;
  f_session : SessionEnv;
  f_system : System;
  f_polls : list PollInput;
  f_connected : bool;
  f_scans : list ScanInput;
  f_world : World;
  f_events : list WorldEvent;
  f_net_polls : list (list (Z * str));
  f_write_fails : nat -> option str;
  f_pipe : Pipe;
  (** the scorer and the sealer of the sessions *)
  f_verdict : Bundle -> Path -> result str Verdict;
  f_file_verdict : str -> Bundle -> result str Verdict;
  f_seal : str -> Kek -> Path -> result str SealOutcome;
}.

Definition no_scan_args : ScanArgs :=
  {| sa_bundle := None; sa_file := None; sa_json := false; sa_report := false; sa_channel := None |}.
Definition DEFAULT_CONFIG : str := lit "C:\ProgramData\DLPAgent\agent.toml".

Section Program.
Context {S : StateEnv} {V : ServerEnv} {E : CryptoEnv} {J : JsonEnv} {B : BundleEnv}.
Context {D : Digest} {U : Unicode} {X : ExtractEnv} {W : WireEnv} {F : QueueFs} {N : WinApi} {BE : BrowserEnv}.
Context (ft : DiskFaults) (x : Found).

(** The check-in loop over the turns it takes: the pauses. *)
Fixpoint run_loop (replies : list State.Reply) : FsM (list Z) :=
  match replies with
  | [] => mret []
  | reply :: replies' =>
      r ← attempt (checkin ft reply);
      naps ← run_loop replies';
      mret (next_checkin r :: naps)
  end.

Definition enrolled_first (cfg : Config) : FsM unit :=
  ensure_enrolled ft (enrollment_token cfg) (f_hostname x) (f_os x) (f_version x) (f_ca_file x) (f_send x).

(** The subcommands that are one computation over the state directory; an error
    is the exit code 1. *)
Definition state_command (cfg : Config) (m : Mode) (args : list str) : option (FsM Ended) :=
  match m with
  | MEnroll => Some (
      enrolled ← has_identity;
      if enrolled : bool then mret (Leaves 0)
      else _ ← enroll ft (enrollment_token cfg) (f_hostname x) (f_os x) (f_version x) (f_ca_file x) (f_send x);
           mret (Leaves 0))
  | MOnce => Some (_ ← enrolled_first cfg; _ ← checkin ft (f_reply x); mret (Leaves 0))
  | MRun => Some (_ ← enrolled_first cfg; _ ← run_loop (f_turns x); mret (Serves (Ok tt)))
  | MStatus => Some (
      lines ← print_status ft (f_from_pem x);
      mret match lines with Some _ => Leaves 0 | None => Panics end)
  | MIndexUpdate => Some (
      _ ← cmd_index_update ft (enrollment_token cfg) (f_hostname x) (f_os x) (f_version x) (f_ca_file x) (f_send x)
            (f_reply x) (f_index_reply x);
      mret (Leaves 0))
  | MScan => Some
      match scan_args args no_scan_args with
      | CliRun p =>
          r ← cmd_scan ft (f_ca_file x) (f_read x) (f_file_name x) p (f_reply x);
          mret match r with Some (Ok _) => Leaves 0 | Some (Err _) => Leaves 1 | None => Panics end
      | CliHelp => mret (Leaves 0)
      | CliExit code => mret (Leaves code)
      end
  | MInstallService => Some (_ ← lift (install (f_scm x)).2; mret (Leaves 0))
  | MUninstallService => Some (_ ← lift (uninstall (f_scm x)).2; mret (Leaves 0))
  | MServiceRun => Some (fail (lit "service-run is only invoked by the Windows Service Control Manager"))
  | MUnknown => Some (mret (Leaves 2))
  | _ => None
  end.

Definition Outcome : Type := option (Ended * Files * SinkState).
Definition on_disk (c : FsM Ended) (fs : Files) (s : SinkState) : Outcome :=
  let '(r, _, fs) := c [] fs in Some (match r with Ok e => e | Err _ => Leaves 1 end, fs, s).
Definition on_session (r : option CmdResult) (fs : Files) (s : SinkState) : Outcome :=
  match r with
  | None => None
  | Some CmdHelp => Some (Leaves 0, fs, s)
  | Some (CmdExit code) => Some (Leaves code, fs, s)
  | Some (CmdRan r out) => Some (Serves r, so_files out, so_sink out)
  end.

(** The whole of [decrypt]: its arguments, the envelope, the keyring, the agent's id,
    and the calls of [run_decrypt]. *)
Definition decrypt_run (input : str) (output : option str) (agent : str) : DecryptRun :=
  {| dr_queue := x_queue (f_session x); dr_pid := x_pid (f_session x); dr_moment := f_moment x;
     dr_output := f_path_of x <$> output; dr_dir := f_dir_of x input; dr_agent := agent;
     dr_file_name := f_file_name x; dr_occupied := f_occupied x; dr_write_fault := f_write_fault x |}.
Definition cmd_decrypt (args : list str) (fs : Files) (s : SinkState) : Outcome :=
  match decrypt_args args None None with
  | CliHelp => Some (Leaves 0, fs, s)
  | CliExit code => Some (Leaves code, fs, s)
  | CliRun (Err _) | CliRun (Ok (None, _)) => Some (Leaves 1, fs, s)
  | CliRun (Ok (Some input, output)) =>
      match f_read x input with
      | Err _ => Some (Leaves 1, fs, s)
      | Ok envelope_bytes =>
          let envelope_name := default input (f_file_name x input) in
          let '(ring, _, fs) := load_decrypt_keyring ft (f_keyfile x) [] fs in
          let ring := default (Keyring_new []) (res_ok ring) in
          '(r, fs, d) ← run_decrypt (decrypt_run input output (session_agent ft fs))
                          envelope_bytes envelope_name ring fs (sink_queue s);
          Some (Leaves (if res_ok r then 0 else 1), fs, {| sink_queue := d; sink_notify := sink_notify s |})
      end
  end.

(** [run] once the configuration is loaded.  [run-endpoint] is taken to its start:
    from there it goes on by the steps of [Endpoint].  [None] is a panic of the
    queue. *)
Definition exec (cfg : Config) (m : Mode) (args : list str) (fs : Files) (s : SinkState) : Outcome :=
  match state_command cfg m args with
  | Some c => on_disk c fs s
  | None =>
      match m with
      | MUsbMonitor => on_session (cmd_usb_monitor ft cfg (f_keyfile x) (f_ca_file x) (f_session x) (f_verdict x)
          (f_seal x) args (f_reply x) (f_polls x) fs (f_system x) s) fs s
      | MUsbGuard => on_session (cmd_usb_guard ft cfg (f_keyfile x) (f_ca_file x) (f_session x) args (f_reply x)
          (f_connected x) (f_scans x) fs s) fs s
      | MClipboardMonitor => on_session (cmd_clipboard_monitor ft cfg (f_ca_file x) (f_session x) (f_file_name x)
          (f_file_verdict x) args (f_world x) (f_events x) fs s) fs s
      | MNetMonitor => on_session (cmd_net_monitor cfg (f_session x) args (f_net_polls x) fs s) fs s
      | MBrowserHost => on_session (cmd_browser_host ft cfg (f_ca_file x) (f_session x) (f_file_verdict x) args
          (f_write_fails x) (f_pipe x) fs s) fs s
      | MDecrypt => cmd_decrypt args fs s
      | _ => Some (Serves (Ok tt),
          sh_files (booted ft cfg (f_keyfile x) (f_ca_file x) (enrollment_token cfg) (f_hostname x) (f_os x)
                      (f_version x) (f_send x) (f_reply x) fs), s)
      end
  end.

(** The configuration a process runs with. *)
Definition load_cfg_and_storage {CE : ConfigEnv} : result str Config :=
  map_err (fun _ => lit "loading config") (config_load (default DEFAULT_CONFIG (env_var (lit "DLP_AGENT_CONFIG")))).

(** [main]; [dispatcher] is how the service dispatcher ends, with the files then. *)
Definition process {CE : ConfigEnv} (dispatcher : Files -> result str unit * Files) (argv : list str)
    (fs : Files) (s : SinkState) : Outcome :=
  match start_process argv with
  | ServiceDispatcher =>
      let '(r, fs) := dispatcher fs in Some (Leaves (if res_ok r then 0 else 1), fs, s)
  | Help | SubcommandHelp _ | Toast _ => Some (Leaves 0, fs, s)
  | Configured m args =>
      match load_cfg_and_storage with
      | Err _ => Some (Leaves 1, fs, s)
      | Ok cfg => exec cfg m args fs s
      end
  end.
End Program.

(** ** The private key stays out of [status] *)

Lemma strip_prefix_split pat l r rest : 10 ∉ pat -> strip_prefix pat (l ++ 10 :: r) = Some rest ->
  exists rest', strip_prefix pat l = Some rest'.
Proof.
  revert l. induction pat as [|c pat IH]; intros l Hp; [by exists l|].
  destruct l as [|a l]; cbn [app strip_prefix].
  - destruct (Z.eqb_spec c 10) as [->|]; [|done]. by set_solver.
  - destruct (c =? a); [|done]. apply IH. set_solver.
Qed.

(** Text before a line break does not matter for a search that finds nothing in
    it. *)
Lemma find_split_after pat l r : pat <> [] -> 10 ∉ pat -> contains pat l = false ->
  find_split pat (l ++ 10 :: r) = (fun p => (l ++ 10 :: p.1, p.2)) <$> find_split pat r.
Proof.
  intros Hne Hp. unfold contains. induction l as [|a l IH]; intros Hc.
  - cbn [app find_split]. assert (starts_with pat (10 :: r) = false) as ->; [|by destruct (find_split pat r) as [[]|]].
    unfold starts_with. destruct pat as [|c pat]; [done|]. cbn.
    destruct (Z.eqb_spec c 10) as [->|]; [set_solver|done].
  - cbn [find_split] in Hc. destruct (starts_with pat (a :: l)) eqn:Hs; [done|].
    cbn [app find_split]. assert (starts_with pat (a :: l ++ 10 :: r) = false) as ->.
    { unfold starts_with in *. destruct (strip_prefix pat (a :: l ++ 10 :: r)) eqn:He; [|done].
      destruct (strip_prefix_split pat (a :: l) r _ Hp He) as [? Hx]. by rewrite Hx in Hs. }
    rewrite IH by (destruct (find_split pat l); done).
    by destruct (find_split pat r) as [[]|].
Qed.

Lemma find_at_after pat l r : pat <> [] -> 10 ∉ pat -> contains pat l = false ->
  find_at pat (l ++ 10 :: r) = (fun n => length l + Datatypes.S n)%nat <$> find_at pat r.
Proof.
  intros H1 H2 H3. unfold find_at. rewrite find_split_after by done.
  destruct (find_split pat r) as [[a b]|]; cbn; [|done]. by rewrite length_app.
Qed.

Definition BEGIN_CERTIFICATE : str := lit "-----BEGIN CERTIFICATE-----".
Definition END_CERTIFICATE : str := lit "-----END CERTIFICATE-----".
(** The lines of a private key: text without a certificate's markers. *)
Definition key_lines (l : str) : Prop :=
  forallb is_scalar l = true /\ contains BEGIN_CERTIFICATE l = false /\ contains END_CERTIFICATE l = false.

Lemma extract_after_key l c : key_lines l -> forallb is_scalar c = true ->
  extract_cert_pem (as_bytes (l ++ 10 :: c)) = extract_cert_pem (as_bytes c).
Proof.
  intros (Hl & H1 & H2) Hc. unfold extract_cert_pem. rewrite !from_utf8_lossy_as_bytes; [|done|].
  2: { rewrite forallb_app, Hl. cbn [forallb]. by rewrite Hc. }
  fold BEGIN_CERTIFICATE END_CERTIFICATE.
  assert (forall m : str, bool_decide (10 ∉ m) = true -> 10 ∉ m) as Hn by (intros m H; exact (bool_decide_eq_true_1 _ H)).
  rewrite !find_at_after by (try done; apply Hn; reflexivity).
  destruct (find_at BEGIN_CERTIFICATE c) as [st|]; [|done].
  destruct (find_at END_CERTIFICATE c) as [en|]; cbn; [|done].
  set (n := 25%nat).
  replace (length l + Datatypes.S st <=? length l + Datatypes.S en + n)%nat with (st <=? en + n)%nat
    by (destruct (Nat.leb_spec st (en + n)), (Nat.leb_spec (length l + Datatypes.S st) (length l + Datatypes.S en + n)); lia).
  destruct (st <=? en + n)%nat; [|done]. do 2 f_equal.
  replace (length l + Datatypes.S en + n - (length l + Datatypes.S st))%nat with (en + n - st)%nat by lia.
  f_equal. rewrite skipn_app. rewrite drop_ge by lia. cbn [app].
  by replace (length l + Datatypes.S st - length l)%nat with (Datatypes.S st) by lia.
Qed.

Section Status.
Context {S : StateEnv} (ft : DiskFaults) (from_pem : str -> result str CertificateView).

(** The files hold an identity whose private key is [key]. *)
Definition holds_identity (fs : Files) (key cert : str) : Prop :=
  exists sealed, fs !! path IDENTITY_FILE = Some sealed /\ dpapi_unprotect sealed = Ok (as_bytes (key ++ 10 :: cert)).

(** What [status] computes from the metadata and the stored identity. *)
Definition status_of (meta : result str AgentMeta) (identity : result str (bytes * bytes))
    : result str (option (list str)) :=
  match meta with
  | Err e => Err e
  | Ok meta =>
      let lines := [lit "enrolled"; lit "  agent id:        " ++ agent_id meta;
                    lit "  check-in every:  " ++ dec (meta_interval meta) ++ lit "s"] in
      Ok match identity with
         | Err _ => Some lines
         | Ok (pem, _) =>
             cert ← extract_cert_pem pem;
             Some match cert with None => lines | Some pem => lines ++ certificate_lines (from_pem pem) end
         end
  end.

Definition stored_meta (fs : Files) : result str AgentMeta :=
  match open_fails ft META_FILE, fs !! path META_FILE with
  | None, Some bs => meta_from_slice bs
  | _, _ => Err (lit "reading meta")
  end.
Lemma load_meta_pure fs : pure_at (load_meta ft) fs (stored_meta fs).
Proof.
  intros tr. unfold stored_meta. unfold load_meta, context, catch, lift, read_file, mbind, FsM_bind, mret, FsM_ret, fail.
  destruct (open_fails ft META_FILE); [done|]. destruct (fs !! path META_FILE); [|done].
  by destruct (meta_from_slice _).
Qed.

Lemma load_identity_held fs key cert : holds_identity fs key cert ->
  pure_at (load_identity ft) fs
    match open_fails ft IDENTITY_FILE, open_fails ft CA_FILE, fs !! path CA_FILE with
    | Some _, _, _ => Err (lit "reading identity")
    | None, None, Some ca => Ok (as_bytes (key ++ 10 :: cert), ca)
    | None, _, _ => Err (lit "reading CA")
    end.
Proof.
  intros (sealed & Hs & Hu) tr. unfold load_identity, has_identity, exists_file, context, catch, lift, read_file.
  unfold mbind, FsM_bind, mret, FsM_ret, fail. rewrite Hs.
  change (bool_decide (is_Some (Some sealed))) with true. cbn [negb].
  destruct (open_fails ft IDENTITY_FILE); [done|]. cbv beta iota zeta. rewrite ?Hs. cbv beta iota zeta. rewrite Hu. cbv beta iota zeta.
  destruct (open_fails ft CA_FILE); [done|]. by destruct (fs !! path CA_FILE).
Qed.

Lemma print_status_pure fs identity :
  is_Some (fs !! path IDENTITY_FILE) -> pure_at (load_identity ft) fs identity ->
  pure_at (print_status ft from_pem) fs (status_of (stored_meta fs) identity).
Proof.
  intros [sealed Hs] Hi tr. unfold print_status, has_identity, exists_file. unfold mbind, FsM_bind. rewrite Hs.
  change (bool_decide (is_Some (Some sealed))) with true. cbn [negb].
  rewrite (load_meta_pure fs tr). unfold status_of. destruct (stored_meta fs) as [meta|e]; [|done].
  unfold attempt. rewrite Hi. by destruct identity as [[pem ca]|e].
Qed.

(** C40: [status] shows nothing of the private key and changes nothing.  Two state
    directories that hold the same metadata, the same CA and the same certificate,
    each with a private key of its own (any text of whole lines without a
    certificate's markers) sealed in any way, print the same lines or fail with the
    same error, and the files stay as they are.  The lines are those of the
    metadata and, where the identity can be read, of the certificate alone. *)
Theorem status_keeps_key fs1 fs2 key1 key2 cert :
  holds_identity fs1 key1 cert -> holds_identity fs2 key2 cert ->
  key_lines key1 -> key_lines key2 -> forallb is_scalar cert = true ->
  fs1 !! path META_FILE = fs2 !! path META_FILE -> fs1 !! path CA_FILE = fs2 !! path CA_FILE ->
  exists r, pure_at (print_status ft from_pem) fs1 r /\ pure_at (print_status ft from_pem) fs2 r /\
    (r = status_of (stored_meta fs1) (Ok (as_bytes cert, [])) \/
     r = status_of (stored_meta fs1) (Err (lit "reading identity"))).
Proof.
  intros H1 H2 Hk1 Hk2 Hc Hm Hca.
  pose proof (print_status_pure fs1 _ ltac:(destruct H1 as (? & ? & _); by eexists) (load_identity_held _ _ _ H1)) as P1.
  pose proof (print_status_pure fs2 _ ltac:(destruct H2 as (? & ? & _); by eexists) (load_identity_held _ _ _ H2)) as P2.
  unfold stored_meta in P2. rewrite <- Hm, <- Hca in P2. fold (stored_meta fs1) in P2.
  assert (forall k ca, key_lines k -> status_of (stored_meta fs1) (Ok (as_bytes (k ++ 10 :: cert), ca)) =
    status_of (stored_meta fs1) (Ok (as_bytes cert, []))) as Hst.
  { intros k ca Hk. unfold status_of. destruct (stored_meta fs1); [|done]. by rewrite extract_after_key. }
  destruct (open_fails ft IDENTITY_FILE); [by eauto|].
  destruct (open_fails ft CA_FILE); [by eauto|]. destruct (fs1 !! path CA_FILE); [|by eauto].
  rewrite Hst in P1, P2 by done. by eauto.
Qed.
End Status.

(** ** What each subcommand may change *)

Definition of_files (names : list str) (p : Path) : Prop := p ∈ map path names.
Definition enrolling : list str := [IDENTITY_FILE; CA_FILE; META_FILE].
Definition synced : list str := [KEYRING_FILE; TRUSTED_DEST_FILE].
Definition indexed : list str := [POLICY_FILE; INDEX_FILE; INDEX_TMP].
(** The keyring at rest and the output: the path given, or a file beside the
    input. *)
Definition decrypt_changes (x : Found) (args : list str) (p : Path) : Prop :=
  match decrypt_args args None None with
  | CliRun (Ok (Some input, output)) =>
      p = path KEYRING_FILE \/
      match output with Some o => p = f_path_of x o | None => exists name, p = f_dir_of x input ++ [name] end
  | _ => False
  end.
Definition may_change (x : Found) (m : Mode) (args : list str) : Path -> Prop :=
  match m with
  | MEnroll => of_files enrolling
  | MOnce | MRun => of_files (POLICY_FILE :: enrolling)
  | MIndexUpdate => of_files (enrolling ++ indexed)
  | MUsbMonitor | MUsbGuard => of_files synced
  | MRunEndpoint => of_files (enrolling ++ synced)
  | MDecrypt => decrypt_changes x args
  | _ => fun _ => False
  end.

Ltac listed := unfold of_files; cbn [map app enrolling synced indexed];
  repeat first [apply list_elem_of_here | apply list_elem_of_further].

Section Footprints.
Context {S : StateEnv} {V : ServerEnv} {E : CryptoEnv} {J : JsonEnv} {B : BundleEnv}.
Context {D : Digest} {U : Unicode} {X : ExtractEnv} {W : WireEnv} {F : QueueFs} {N : WinApi} {BE : BrowserEnv}.
Context (ft : DiskFaults) (x : Found).

Lemma confined_run_loop P replies : P (path POLICY_FILE) -> confined P (run_loop ft replies).
Proof. intros HP. induction replies as [|r l IH]; cbn [run_loop]; confine. Qed.
Lemma confined_status P : confined P (print_status ft (f_from_pem x)).
Proof. unfold print_status, has_identity. confine. Qed.
Lemma confined_scan P p : confined P (cmd_scan ft (f_ca_file x) (f_read x) (f_file_name x) p (f_reply x)).
Proof. unfold cmd_scan. confine. Qed.
#[local] Hint Resolve confined_run_loop confined_status confined_scan : footprint.

Lemma state_command_confined cfg m args c :
  state_command ft x cfg m args = Some c -> confined (may_change x m args) c.
Proof.
  destruct m; cbn [state_command may_change]; intros H; try done; injection H as <-.
  - unfold has_identity. apply confined_bind; [apply confined_exists|]. intros []; [apply confined_ret|].
    apply confined_bind; [|intros; apply confined_ret]. apply confined_enroll; listed.
  - apply confined_bind; [apply confined_ensure_enrolled; listed|]. intros _.
    apply confined_bind; [apply confined_checkin; listed|]. intros _. apply confined_ret.
  - apply confined_bind; [apply confined_ensure_enrolled; listed|]. intros _.
    apply confined_bind; [apply confined_run_loop; listed|]. intros _. apply confined_ret.
  - confine.
  - apply confined_bind; [|intros; apply confined_ret]. unfold cmd_index_update.
    apply confined_bind; [apply confined_ensure_enrolled; listed|]. intros _.
    apply confined_bind; [apply confined_checkin_full; listed|]. intros o. apply confined_update; listed.
  - destruct (scan_args args no_scan_args); confine.
  - confine.
  - confine.
  - confine.
  - confine.
Qed.

(** A session leaves the files it started its monitor with. *)
Lemma on_session_finish (r : result str unit) fs' n incs s fs e fs'' s' :
  on_session (finish (f_session x) r fs' n incs s) fs s = Some (e, fs'', s') -> fs'' = fs'.
Proof.
  unfold finish. destruct (deliver_session _ _ _ _) as [[[sent ds] s1]|]; [|done]. cbn. by intros [= _ <- _].
Qed.

(** The decrypt command writes to its output, whatever the calls of its core. *)
Definition decrypt_out (dr : DecryptRun) (p : Path) : Prop :=
  match dr_output dr with Some o => p = o | None => exists name, p = dr_dir dr ++ [name] end.
Lemma dr_write_out dr name fs h pt : agree (decrypt_out dr) fs (dr_write dr name fs h pt).2.
Proof.
  intros q Hq. destruct (base.decide ((dr_write dr name fs h pt).2 !! q = fs !! q)) as [|Hne]; [done|].
  destruct (dr_write_effect _ _ _ _ _ _ Hne) as [Ht _]. destruct Hq. unfold decrypt_out, dr_target in *.
  destruct (dr_output dr) as [o|]; [by injection Ht|]. by apply decrypt_target_is_new in Ht as [_ ?].
Qed.
Lemma run_decrypt_out dr envelope name ring fs d r fs' d' :
  run_decrypt dr envelope name ring fs d = Some (r, fs', d') -> agree (decrypt_out dr) fs fs'.
Proof.
  unfold run_decrypt. destruct (decrypt_envelope _ _ _ _ _ _) as [r0 calls].
  assert (forall fs0 d0 out, agree (decrypt_out dr) fs fs0 ->
    foldl (fun acc call => '(fs, d) ← acc;
      match call with
      | CallAudit inc => '(_, d) ← decrypt_audit (dr_queue dr) (dr_pid dr) (dr_moment dr) inc d; Some (fs, d)
      | CallWrite h pt => Some ((dr_write dr name fs h pt).2, d)
      end) (Some (fs0, d0)) calls = Some out -> agree (decrypt_out dr) fs out.1) as H.
  { induction calls as [|c calls IH]; intros fs0 d0 out Ha; cbn [foldl]; [by intros [= <-]|].
    destruct c as [inc|h pt]; cbn [mbind option_bind].
    - destruct (decrypt_audit _ _ _ _ d0) as [[ra d1]|]; cbn [mbind option_bind]; [by apply IH|].
      intros Hn. exfalso. revert Hn. clear. induction calls as [|c calls IH]; [done|]. exact IH.
    - apply IH. etrans; [exact Ha|apply dr_write_out]. }
  destruct (foldl _ _ calls) as [[fs1 d1]|] eqn:Hf; [|done]. cbn. intros [= _ <- _].
  exact (H fs d (fs1, d1) (reflexivity _) Hf).
Qed.

Lemma cmd_decrypt_agree args fs s e fs' s' :
  cmd_decrypt ft x args fs s = Some (e, fs', s') -> agree (decrypt_changes x args) fs fs'.
Proof.
  unfold cmd_decrypt, decrypt_changes.
  destruct (decrypt_args args None None) as [[[[input|] output]|err]| |code]; try (by intros [= _ <- _]).
  destruct (f_read x input) as [bs|err]; [|by intros [= _ <- _]].
  set (P := fun p : Path => p = path KEYRING_FILE \/ _).
  pose proof (confined_run P _ fs (confined_decrypt_keyring P ft (f_keyfile x) (or_introl eq_refl))) as Hk.
  destruct (load_decrypt_keyring ft (f_keyfile x) [] fs) as [[ring t] fs1].
  destruct (run_decrypt _ _ _ _ fs1 _) as [[[r fs2] d2]|] eqn:Hd; [|done]. cbn. intros [= _ <- _].
  etrans; [exact (proj1 Hk)|]. eapply agree_mono; [|exact (run_decrypt_out _ _ _ _ _ _ _ _ _ Hd)].
  intros p Hp. right. unfold decrypt_out in Hp. cbn [decrypt_run dr_output dr_dir] in Hp. by destruct output.
Qed.

Lemma session_config_agree base keyfile reply fs : agree (of_files synced) fs (session_config ft base keyfile reply fs).1.
Proof. apply pull_agree; listed. Qed.

Lemma session_agree cfg m args fs s e fs' s' :
  state_command ft x cfg m args = None -> m <> MDecrypt -> m <> MRunEndpoint ->
  exec ft x cfg m args fs s = Some (e, fs', s') -> agree (may_change x m args) fs fs'.
Proof.
  intros Hn Hd He. unfold exec. rewrite Hn.
  destruct m; try discriminate Hn; try congruence; cbn [may_change]; clear Hn Hd He.
  - unfold cmd_usb_monitor, with_options. destruct (enforce_args _ _); cbn; try (by intros [= _ <- _]).
    pose proof (session_config_agree cfg (f_keyfile x) (f_reply x) fs) as Ha.
    destruct (session_config _ _ _ _ fs) as [fs1 cfg1]. intros ->%on_session_finish. exact Ha.
  - unfold cmd_usb_guard, with_options. destruct (no_args _); cbn; try (by intros [= _ <- _]).
    pose proof (session_config_agree cfg (f_keyfile x) (f_reply x) fs) as Ha.
    destruct (session_config _ _ _ _ fs) as [fs1 cfg1].
    destruct (f_connected x); intros ->%on_session_finish; exact Ha.
  - unfold cmd_clipboard_monitor, with_options. destruct (enforce_args _ _); cbn; try (by intros [= _ <- _]).
    destruct (world_run _ _ _ _ _ _ _) as [w|]; [|done]. cbn. by intros ->%on_session_finish.
  - unfold cmd_net_monitor, with_options. destruct (net_args _ _); cbn; try (by intros [= _ <- _]).
    by intros ->%on_session_finish.
  - unfold cmd_browser_host, with_options. destruct (no_args _); cbv beta iota zeta; try (by intros [= _ <- _]).
    destruct (serve _ _ _ _ _ _ _ _) as [[r evs]|]; [|done]. cbn. by intros ->%on_session_finish.
Qed.

Lemma booted_agree cfg keyfile ca_file token hostname os version send reply fs :
  agree (of_files (enrolling ++ synced)) fs
    (sh_files (booted ft cfg keyfile ca_file token hostname os version send reply fs)).
Proof.
  unfold booted. set (P := of_files (enrolling ++ synced)).
  assert (confined P (ensure_enrolled ft token hostname os version ca_file send)) as Hc
    by (apply confined_ensure_enrolled; unfold P; listed).
  pose proof (confined_run P _ fs Hc) as H.
  destruct (ensure_enrolled _ _ _ _ _ _ _ [] fs) as [[r t] fs1]. cbn [snd].
  etrans; [exact (proj1 H)|]. unfold endpoint_boot.
  pose proof (pull_agree ft P cfg keyfile reply fs1 ltac:(unfold P; listed) ltac:(unfold P; listed)) as Hp.
  by destruct (pull _ _ _ _ fs1) as [[fs2 c] k].
Qed.

Lemma exec_agree cfg m args fs s e fs' s' :
  exec ft x cfg m args fs s = Some (e, fs', s') -> agree (may_change x m args) fs fs'.
Proof.
  destruct (state_command ft x cfg m args) as [c|] eqn:Hc.
  - unfold exec, on_disk. rewrite Hc. pose proof (confined_run _ c fs (state_command_confined _ _ _ _ Hc)) as H.
    destruct (c [] fs) as [[r t] fs1]. intros [= _ <- _]. exact (proj1 H).
  - intros He. destruct (base.decide (m = MDecrypt)) as [->|Hd]; [exact (cmd_decrypt_agree _ _ _ _ _ _ He)|].
    destruct (base.decide (m = MRunEndpoint)) as [->|Hr]; [|exact (session_agree _ _ _ _ _ _ _ _ Hc Hd Hr He)].
    injection He as _ <- _. apply booted_agree.
Qed.

(** The workers of the endpoint. *)
Lemma worker_agree cfg keyfile ca_file queue pid verdict_src seal s s' :
  joined_step ft cfg keyfile ca_file queue pid verdict_src seal s s' \/ guard_step ft ca_file queue pid s s' ->
  agree (of_files (indexed ++ synced)) (sh_files (en_shared s)) (sh_files (en_shared s')).
Proof.
  intros [[Hs|Hs|Hs]|Hs]; destruct Hs; try reflexivity; unfold resynced; cbn [en_shared sh_files].
  - apply checkin_turn_agree; listed.
  - unfold resync_turn.
    pose proof (pull_agree ft (of_files (indexed ++ synced)) cfg keyfile reply (sh_files (en_shared s))
      ltac:(listed) ltac:(listed)) as Hp.
    by destruct (pull _ _ _ _ (sh_files (en_shared s))) as [[fs2 c] k].
Qed.

(** Every state a computation goes through, and its last. *)
Definition throughout {A} (P : Path -> Prop) (c : FsM A) (fs : Files) : Prop :=
  let '(_, t, fs') := c [] fs in forall f, f ∈ t ++ [fs'] -> agree P fs f.
Lemma confined_throughout {A} P (c : FsM A) fs : confined P c -> throughout P c fs.
Proof.
  intros Hc. pose proof (confined_run P c fs Hc) as H. unfold throughout.
  destruct (c [] fs) as [[r t] fs']. destruct H as [H1 H2]. intros f Hf.
  apply elem_of_app in Hf as [Hf| ->%list_elem_of_singleton]; [|exact H1]. rewrite Forall_forall in H2. by apply H2.
Qed.

(** The subcommands that report incidents. *)
Definition reports_incidents (m : Mode) : bool :=
  match m with
  | MUsbMonitor | MUsbGuard | MClipboardMonitor | MNetMonitor | MBrowserHost | MDecrypt => true
  | _ => false
  end.

(** C39: Which files of the state directory a run of the program may change, apart
    from the directory [usb-incident-queue] of the incident queue, which is modelled
    apart (the sink).  Whatever calls fail and whatever the server answers: enrolling
    writes the identity, the CA and the metadata; a check-in the cached policy
    besides; [index-update] the index besides; the USB monitor and guard the keyring
    and the destinations; [decrypt] the keyring and its output, which is the path
    given or lies beside the input; the endpoint's start touches enrollment, keyring and
    destinations; [status], [scan], the clipboard, network and browser channels,
    (un)installing the service and wrong arguments nothing.  So much holds of the files
    each of them leaves, and for those that are one computation over the state
    directory of every state in between.  For the others the same is said of
    the computations they are made of: the sync of the whitelist, enrolling, loading
    the keyring to decrypt, the check-in and the update of the index.  A step of a worker
    of the endpoint changes policy, index, keyring and destinations only: the
    identity stays.  Commands that report no incident leave the queue alone. *)
Theorem process_footprint cfg m args fs s :
  (forall c, state_command ft x cfg m args = Some c -> throughout (may_change x m args) c fs) /\
  (forall e fs' s', exec ft x cfg m args fs s = Some (e, fs', s') ->
     agree (may_change x m args) fs fs' /\ (reports_incidents m = false -> s' = s)) /\
  (forall keyfile ca_file queue pid verdict_src seal en en',
     joined_step ft cfg keyfile ca_file queue pid verdict_src seal en en' \/ guard_step ft ca_file queue pid en en' ->
     agree (of_files (indexed ++ synced)) (sh_files (en_shared en)) (sh_files (en_shared en'))) /\
  (forall reply latest, throughout (of_files enrolling) (enrolled_first ft x cfg) fs /\
     throughout (of_files synced) (sync_trusted_config ft reply) fs /\
     throughout (eq (path KEYRING_FILE)) (load_decrypt_keyring ft (f_keyfile x)) fs /\
     throughout (eq (path POLICY_FILE)) (checkin_full ft reply) fs /\
     throughout (of_files [INDEX_FILE; INDEX_TMP]) (update_index_bundle ft latest reply) fs).
Proof.
  split; [|split; [|split]].
  - intros c Hc. by apply confined_throughout, (state_command_confined cfg).
  - intros e fs' s' He. split; [by eapply exec_agree|]. intros Hm. revert He. unfold exec, on_disk.
    destruct (state_command ft x cfg m args) as [c|] eqn:Hc.
    + destruct (c [] fs) as [[r t] f]. by intros [= _ _ <-].
    + destruct m; try discriminate Hm; try discriminate Hc. by intros [= _ _ <-].
  - intros *. apply worker_agree.
  - intros reply latest. split_and!; apply confined_throughout.
    + apply confined_ensure_enrolled; listed.
    + apply confined_sync; listed.
    + by apply confined_decrypt_keyring.
    + by apply confined_checkin_full.
    + apply confined_update; listed.
Qed.
End Footprints.

(** ** [decrypt] leaves a record *)

Section Recorded.
Context {S : StateEnv} {V : ServerEnv} {E : CryptoEnv} {J : JsonEnv} {D : Digest} {W : WireEnv} {F : QueueFs}.
Context (ft : DiskFaults) (x : Found).

Lemma attempt_runs {A B} (m : FsM A) (k : result str A -> FsM B) fs :
  (attempt m ≫= k) [] fs = let '(r, t, f) := m [] fs in k r t f.
Proof. unfold mbind, FsM_bind, attempt. by destruct (m [] fs) as [[? ?] ?]. Qed.

(** Loading the keyring always gives one, and touches the keyring at rest only to
    refresh it from a usable dev keyfile. *)
Definition keyfile_usable : Prop := exists bs ring, f_keyfile x = Some (Ok bs) /\ from_dev_json bs = Ok ring.
Lemma decrypt_keyring_loads fs : exists ring t fs1,
  load_decrypt_keyring ft (f_keyfile x) [] fs = (Ok ring, t, fs1) /\
  (forall f, f ∈ t ++ [fs1] -> agree (eq (path KEYRING_FILE)) fs f) /\
  (fs1 <> fs -> keyfile_usable).
Proof.
  pose proof (confined_run _ _ fs (confined_decrypt_keyring (eq (path KEYRING_FILE)) ft (f_keyfile x) eq_refl)) as Hc.
  assert (exists ring t fs1, load_decrypt_keyring ft (f_keyfile x) [] fs = (Ok ring, t, fs1) /\
    (fs1 <> fs -> keyfile_usable)) as (ring & t & fs1 & Hl & Hk).
  { unfold load_decrypt_keyring. destruct (_ ≫= _) as [[bs ring]|] eqn:Hu; rewrite attempt_runs.
    - destruct (store_keyring _ _ _ _) as [[r t] f]. exists ring, t, f. split; [done|]. intros _.
      destruct (f_keyfile x) as [[bs'|]|] eqn:Hf; cbn in Hu; try done.
      destruct (from_dev_json bs') as [ring'|] eqn:Hj; cbn in Hu; [|done]. by exists bs', ring'.
    - pose proof (confined_run _ _ fs (confined_load_keyring (fun _ => False) ft)) as Hn.
      destruct (load_keyring ft [] fs) as [[r t] f]. eexists _, t, f. split; [reflexivity|]. intros Hf. destruct Hf.
      apply map_eq. intros q. exact (proj1 Hn q (fun H => H)). }
  rewrite Hl in Hc. destruct Hc as [H1 H2]. exists ring, t, fs1. split; [done|]. split; [|done].
  intros f [Hf| ->%list_elem_of_singleton]%elem_of_app; [|exact H1]. rewrite Forall_forall in H2. by apply H2.
Qed.

(** C25: The decrypt command from its arguments to its exit code, whatever the
    server, the queue and the disk do.  It changes files in two steps.  Loading
    the keyring touches the keyring at rest only, and only to refresh it from a
    usable dev keyfile.  After that the only file that changes is the output,
    which receives nothing but the plaintext of an envelope that opened with
    that keyring, after a [Decrypted] record of it was posted or put into the
    queue; without [-o] the output did not exist and lies beside the input.
    Apart from the help text the exit code is 0 only when the whole plaintext is
    in place and the record made.  An envelope that does not open leaves no
    output.  The queue of incidents changes by one record at most, and only its
    panic ends the command early. *)
Theorem decrypt_leaves_record args fs s :
  match decrypt_args args None None with
  | CliRun (Ok (Some input, output)) =>
      match f_read x input with
      | Ok env => exists ring t fs1,
          load_decrypt_keyring ft (f_keyfile x) [] fs = (Ok ring, t, fs1) /\
          (forall f, f ∈ t ++ [fs1] -> agree (eq (path KEYRING_FILE)) fs f) /\
          (fs1 <> fs -> keyfile_usable) /\
          let dr := decrypt_run x input output (session_agent ft fs1) in
          let name := default input (f_file_name x input) in
          let audit := decrypt_audit (dr_queue dr) (dr_pid dr) (dr_moment dr) in
          match cmd_decrypt ft x args fs s with
          | None => exists inc, audit inc (sink_queue s) = None
          | Some (e, fs', s') =>
              (exists inc r, audit inc (sink_queue s) = Some (r, sink_queue s')) /\
              (forall q, fs' !! q <> fs1 !! q -> exists h pt inc n,
                 open env ring = Ok (h, pt) /\ dr_target dr name fs1 h = Ok q /\ fs' !! q = Some (take n pt) /\
                 (output = None -> fs1 !! q = None /\ exists f, q = f_dir_of x input ++ [f]) /\
                 kind inc = Decrypted /\ inc_file_sha256 inc = hex (sha256 pt) /\
                 recorded dr inc (sink_queue s) (sink_queue s')) /\
              (e = Leaves 0 -> exists h pt q inc,
                 open env ring = Ok (h, pt) /\ dr_target dr name fs1 h = Ok q /\ fs' !! q = Some pt /\
                 kind inc = Decrypted /\ inc_file_sha256 inc = hex (sha256 pt) /\
                 recorded dr inc (sink_queue s) (sink_queue s')) /\
              (forall err, open env ring = Err err -> fs' = fs1 /\ e = Leaves 1) /\
              (e = Leaves 0 \/ e = Leaves 1)
          end
      | Err _ => cmd_decrypt ft x args fs s = Some (Leaves 1, fs, s)
      end
  | CliRun _ => cmd_decrypt ft x args fs s = Some (Leaves 1, fs, s)
  | CliHelp => cmd_decrypt ft x args fs s = Some (Leaves 0, fs, s)
  | CliExit code => cmd_decrypt ft x args fs s = Some (Leaves code, fs, s)
  end.
Proof.
  unfold cmd_decrypt. destruct (decrypt_args args None None) as [[[[input|] output]|err]| |code]; try done.
  destruct (f_read x input) as [env|err]; [|done].
  destruct (decrypt_keyring_loads fs) as (ring & t & fs1 & Hl & Ht & Hk). exists ring, t, fs1. rewrite Hl.
  split; [done|]. split; [exact Ht|]. split; [exact Hk|]. cbv zeta. cbn [res_ok default]. change (id ring) with ring.
  set (dr := decrypt_run _ _ _ _). set (name := default input _).
  pose proof (run_decrypt_records dr env name ring fs1 (sink_queue s)) as H.
  destruct (run_decrypt dr env name ring fs1 (sink_queue s)) as [[[r fs'] d']|]; cbn [mbind option_bind]; [|exact H].
  destruct H as (Ha & Hq & Hs & He). cbn [sink_queue]. split; [exact Ha|]. split; [|split; [|split]].
  - intros q (h & pt & inc & n & H1 & H2 & H3 & H4 & H5)%Hq. exists h, pt, inc, n.
    split; [done|]. split; [done|]. split; [done|]. split; [intros ->; by apply H4|exact H5].
  - destruct r as [sum|e]; [|done]. intros _. exact (Hs sum eq_refl).
  - intros err Ho. destruct (He err Ho) as [-> ->]. done.
  - destruct r; [by left|by right].
Qed.
End Recorded.

(** ** The service's life *)

(** What is registered starts the dispatcher, after the filter manager, and
    registering succeeds exactly when manager, executable and creation do, the
    description being optional.  Removing deletes the service whether or not it
    could be stopped. *)
Theorem service_registration (scm : ServiceManager) :
  ((install scm).2 = Ok tt <->
     exists m exe c, scm (OpenManager true) = Ok m /\ scm CurrentExe = Ok exe /\
       scm (CreateService (service_info exe)) = Ok c) /\
  (forall i, CreateService i ∈ (install scm).1 ->
     start_process (si_launch_arguments i) = ServiceDispatcher /\ lit "FltMgr" ∈ si_dependencies i /\
     scm CurrentExe = Ok (si_executable_path i)) /\
  (forall m h, scm (OpenManager false) = Ok m -> scm (OpenService SERVICE_NAME) = Ok h ->
     DeleteService ∈ (uninstall scm).1 /\ ((uninstall scm).2 = Ok tt <-> exists d, scm DeleteService = Ok d)).
Proof.
  split; [|split].
  - unfold install. split.
    + destruct (scm (OpenManager true)) as [m|] eqn:Hm; [|done]. destruct (scm CurrentExe) as [exe|] eqn:He; [|done].
      destruct (scm (CreateService _)) as [c|] eqn:Hc; [|done]. by exists m, exe, c.
    + by intros (m & exe & c & -> & -> & ->).
  - intros i. unfold install. destruct (scm (OpenManager true)); [|set_solver].
    destruct (scm CurrentExe) as [exe|]; [|set_solver].
    destruct (scm (CreateService _)); intros Hi;
      (assert (i = service_info exe) as -> by set_solver); (split; [reflexivity|]); (split; [by left|done]).
  - intros m h Hm Hh. unfold uninstall. rewrite Hm, Hh. cbn [fst snd]. split; [set_solver|].
    destruct (scm DeleteService) as [d|e]; split; try done; [by eexists|by intros [? ?]].
Qed.

(** ** The log stays bounded at a start *)

(** The files after the rotation, and after opening. *)
Definition too_large (stat_fails : bool) (fs : Files) : bool :=
  match log_size stat_fails fs with Some n => MAX_BYTES <? n | None => false end.
Definition rotated (ft : DiskFaults) (stat_fails : bool) (fs : Files) : Files :=
  if too_large stat_fails fs then
    match move_fails ft, fs !! path LOG_FILE with
    | None, Some b => <[path LOG_OLD := b]> (delete (path LOG_FILE) fs)
    | _, _ => fs
    end
  else fs.
Definition opened (ft : DiskFaults) (fs : Files) : LogSink * Files :=
  match write_fault ft LOG_FILE with
  | Some (NotOpened _) => (LogToStderr, fs)
  | _ => (LogToFile, if bool_decide (is_Some (fs !! path LOG_FILE)) then fs else <[path LOG_FILE := []]> fs)
  end.

Lemma rotate_runs ft stat_fails fs :
  runs (fun _ => True) (rotate_log ft stat_fails) fs (fun r f => r = Ok tt /\ f = rotated ft stat_fails fs).
Proof.
  unfold rotated. destruct (too_large stat_fails fs) eqn:Hl.
  - assert (runs (fun _ => True) (r ← attempt (move_file ft LOG_FILE LOG_OLD); mret tt) fs
      (fun r f => r = Ok tt /\ f = match move_fails ft, fs !! path LOG_FILE with
         | None, Some b => <[path LOG_OLD := b]> (delete (path LOG_FILE) fs) | _, _ => fs end)) as H.
    { apply runs_bind, runs_attempt. unfold move_file. destruct (move_fails ft); cbn [failing].
      - by apply runs_fail, runs_ret.
      - apply runs_effect; [done|]. apply runs_ret. by destruct (fs !! path LOG_FILE). }
    intros tr. destruct (H tr) as (r & t & f & He & Hx). exists r, t, f. unfold rotate_log, too_large in *. by rewrite Hl.
  - intros tr. exists (Ok tt), [], fs. unfold rotate_log, too_large in *. by rewrite Hl, app_nil_r.
Qed.
Lemma open_runs ft fs :
  runs (fun _ => True) (open_log ft) fs (fun r f => r = Ok (opened ft fs).1 /\ f = (opened ft fs).2).
Proof.
  unfold runs, open_log, opened. intros tr.
  destruct (write_fault ft LOG_FILE) as [[]|]; [by eexists _, [], _; rewrite app_nil_r| |];
    (destruct (bool_decide _); [by eexists _, [], _; rewrite app_nil_r|]);
    (exists (Ok LogToFile), [fs], (<[path LOG_FILE := []]> fs); by repeat split; repeat constructor).
Qed.

(** Every start of the service ends with a sink.  A log over the limit is kept
    whole as the old log and a fresh one is opened, where the disk lets it; up to
    the limit it is left as it is. *)
Theorem log_rotates (ft : DiskFaults) (stat_fails : bool) fs :
  exists sink t fs', init_file_logging ft stat_fails [] fs = (Ok sink, t, fs') /\
    (sink = LogToFile -> is_Some (fs' !! path LOG_FILE)) /\
    (forall b, fs !! path LOG_FILE = Some b ->
       (Z.of_nat (length b) <= MAX_BYTES -> fs' = fs) /\
       (MAX_BYTES < Z.of_nat (length b) -> stat_fails = false -> move_fails ft = None ->
          fs' !! path LOG_OLD = Some b /\ (sink = LogToFile -> fs' !! path LOG_FILE = Some []))).
Proof.
  assert (runs (fun _ => True) (init_file_logging ft stat_fails) fs (fun r f =>
    r = Ok (opened ft (rotated ft stat_fails fs)).1 /\ f = (opened ft (rotated ft stat_fails fs)).2)) as Hrun.
  { unfold init_file_logging. apply runs_bind, runs_attempt, runs_create_dir; intros;
      (apply runs_bind; eapply runs_mono; [apply rotate_runs|]); intros r f [-> ->]; apply open_runs. }
  destruct (Hrun []) as (r & t & f & Ht & _ & -> & ->). eexists _, t, _. split; [exact Ht|]. clear Ht Hrun.
  unfold opened. split; [|intros b Hb; split].
  - destruct (write_fault ft LOG_FILE) as [[]|]; try done; intros _; cbn [fst snd];
      (case_bool_decide; [done|]); rewrite lookup_insert_eq; by eexists.
  - intros Hle. unfold rotated. assert (too_large stat_fails fs = false) as ->.
    { unfold too_large, log_size. destruct stat_fails; [done|]. rewrite Hb. by apply Z.ltb_ge. }
    rewrite Hb. by destruct (write_fault ft LOG_FILE) as [[]|].
  - intros Hlt Hst Hmv. unfold rotated. assert (too_large stat_fails fs = true) as ->.
    { unfold too_large, log_size. rewrite Hst, Hb. by apply Z.ltb_lt. }
    rewrite Hmv, Hb. assert (path LOG_FILE <> path LOG_OLD) as Hne by names.
    rewrite (lookup_insert_ne _ (path LOG_OLD)), lookup_delete_eq by done.
    change (bool_decide (is_Some (@None bytes))) with false.
    destruct (write_fault ft LOG_FILE) as [[]|]; cbn [fst snd];
      rewrite ?(lookup_insert_ne _ (path LOG_FILE)), ?lookup_insert_eq by done; by rewrite ?lookup_insert_eq.
Qed.

(** ** Runs *)

(** A process on an enrolled machine whose server delivers a whitelist. *)
Definition found_with (keyfile : option (result str bytes)) (read : result str bytes) (dir : Path) : Found :=
  {| f_hostname := lit "h"; f_os := lit "windows"; f_version := lit "1"; f_ca_file := Ok []; f_keyfile := keyfile;
     f_send := fun _ => Err (lit "down"); f_reply := Ok (200, lit "TC"); f_index_reply := Err (lit "down");
     f_turns := []; f_scm := fun _ => Ok []; f_from_pem := fun _ => Err (lit "no PEM");
     f_read := fun _ => read; f_file_name := Some; f_path_of := fun p => [p]; f_dir_of := fun _ => dir;
     f_occupied := fun _ => false; f_write_fault := fun _ => None; f_moment := offline 9; f_session := session_env;
     f_system := idle_system; f_polls := []; f_connected := true; f_scans := [];
     f_world := monitor_initial 7 (text_clipboard []);
     f_events := []; f_net_polls := []; f_write_fails := fun _ => None; f_pipe := {| incoming := []; broken := None |};
     f_verdict := fun _ _ => Ok row_verdict; f_file_verdict := fun _ _ => Ok row_verdict;
     f_seal := fun _ _ _ => Err [] |}.
Definition found : Found := found_with None (Err (lit "not found")) [].

Section SampleRuns.
#[local] Existing Instances toy_state toy_server toy_crypto state_json toy_digest ascii_unicode sample_archive toy_wire
  fs_ok all_ok toy_browser.
#[local] Instance program_bundle : BundleEnv := sample_env sample_header.

(** The monitor's start stores the delivered whitelist and leaves the identity. *)
Lemma process_footprint_witness :
  exists e fs' s', exec no_disk_faults found sample_config MUsbMonitor [] (enrolled_state []) session_sink =
      Some (e, fs', s') /\
    is_Some (fs' !! path TRUSTED_DEST_FILE) /\ fs' !! path IDENTITY_FILE = enrolled_state [] !! path IDENTITY_FILE.
Proof.
  assert (match exec no_disk_faults found sample_config MUsbMonitor [] (enrolled_state []) session_sink with
          | Some (_, fs', _) => bool_decide (is_Some (fs' !! path TRUSTED_DEST_FILE)) | None => false end = true) as Hc
    by (vm_compute; reflexivity).
  pose proof (process_footprint no_disk_faults found sample_config MUsbMonitor [] (enrolled_state []) session_sink)
    as (_ & H & _).
  destruct (exec _ _ _ _ _ _ _) as [[[e fs'] s']|]; [|discriminate Hc]. exists e, fs', s'.
  split; [reflexivity|]. split; [exact (bool_decide_eq_true_1 _ Hc)|]. apply (proj1 (H e fs' s' eq_refl)).
  change (path IDENTITY_FILE ∉ map path synced). apply (bool_decide_unpack _). vm_compute. exact I.
Defined.

(** Decrypting offline with a dev keyfile: the keyring at rest is refreshed, the
    record waits in the queue, the plaintext lies beside the input and the exit
    code is 0. *)
Definition decrypt_found : Found := found_with (Some (Ok [7])) (Ok toy_envelope) [lit "E:"].
Lemma decrypt_leaves_record_witness :
  let args := [lit "a.txt.dlpenc"] in
  exists fs' s', cmd_decrypt no_disk_faults decrypt_found args (enrolled_state []) session_sink = Some (Leaves 0, fs', s') /\
    fs' !! [lit "E:"; lit "a.txt"] = Some (lit "secret") /\
    exists inc, kind inc = Decrypted /\
      recorded (decrypt_run decrypt_found (lit "a.txt.dlpenc") None (lit "a1")) inc (sink_queue session_sink) (sink_queue s') /\
    pending (sink_queue s') = [lit "first"; lit "second"; lit "decrypt:a.txt"].
Proof.
  intros args.
  assert (match cmd_decrypt no_disk_faults decrypt_found args (enrolled_state []) session_sink with
          | Some (Leaves 0, fs', s') => bool_decide (fs' !! [lit "E:"; lit "a.txt"] = Some (lit "secret")) &&
              bool_decide (pending (sink_queue s') = [lit "first"; lit "second"; lit "decrypt:a.txt"])
          | _ => false end = true) as Hc by (vm_compute; reflexivity).
  destruct (decrypt_leaves_record no_disk_faults decrypt_found args (enrolled_state []) session_sink)
    as (ring & t & fs1 & _ & _ & _ & H).
  destruct (cmd_decrypt _ _ _ _ _) as [[[e fs'] s']|]; [|discriminate Hc].
  destruct e as [[| |]| |]; try discriminate Hc. apply andb_prop in Hc as [Hf%bool_decide_eq_true_1 Hp%bool_decide_eq_true_1].
  exists fs', s'. split; [reflexivity|]. split; [exact Hf|].
  destruct H as (_ & _ & H & _). destruct (H eq_refl) as (h & pt & q & inc & _ & _ & _ & Hk & _ & Hr).
  exists inc. split; [exact Hk|]. split; [exact Hr|exact Hp].
Defined.

(** Two machines with the same certificate and keys of their own. *)
Definition certificate : str := BEGIN_CERTIFICATE ++ [10] ++ lit "AA" ++ [10] ++ END_CERTIFICATE ++ [10].
Definition machine (key : str) : Files :=
  {[ path IDENTITY_FILE := 1 :: as_bytes (key ++ 10 :: certificate); path CA_FILE := lit "CA";
     path META_FILE := lit "a1" ]}.
Definition view : CertificateView :=
  {| cert_subject := lit "CN=h"; cert_issuer := lit "CN=ca"; cert_serial := lit "1"; cert_not_after := lit "2030" |}.
Lemma machine_holds key : holds_identity (machine key) key certificate.
Proof.
  exists (1 :: as_bytes (key ++ 10 :: certificate)). split; [|reflexivity].
  apply lookup_insert_eq.
Qed.

Lemma status_keeps_key_witness :
  exists lines, pure_at (print_status no_disk_faults (fun _ => Ok view)) (machine (lit "KEY 1")) (Ok (Some lines)) /\
    pure_at (print_status no_disk_faults (fun _ => Ok view)) (machine (lit "KEY 2")) (Ok (Some lines)) /\
    lit "    subject:       CN=h" ∈ lines.
Proof.
  destruct (status_keeps_key no_disk_faults (fun _ => Ok view) (machine (lit "KEY 1")) (machine (lit "KEY 2"))
    (lit "KEY 1") (lit "KEY 2") certificate (machine_holds _) (machine_holds _)) as (r & H1 & H2 & _);
    [split_and!; vm_compute; reflexivity|split_and!; vm_compute; reflexivity|vm_compute; reflexivity
    |vm_compute; reflexivity|vm_compute; reflexivity|].
  assert (exists lines, (print_status no_disk_faults (fun _ => Ok view) [] (machine (lit "KEY 1"))).1.1 = Ok (Some lines) /\
    bool_decide (lit "    subject:       CN=h" ∈ lines) = true) as (lines & Hr & Hl)
    by (eexists; split; vm_compute; reflexivity).
  rewrite (H1 []) in Hr. cbn [fst] in Hr. rewrite Hr in H1, H2. exists lines.
  split; [exact H1|]. split; [exact H2|]. exact (bool_decide_eq_true_1 _ Hl).
Defined.

(** An identity whose certificate's end precedes its beginning brings [status]
    down. *)
Example inverted_identity_panics :
  let fs := <[path IDENTITY_FILE := 1 :: as_bytes (END_CERTIFICATE ++ [10] ++ lit "AA" ++ [10] ++ BEGIN_CERTIFICATE)]>
              (machine []) in
  (exec no_disk_faults found sample_config MStatus [] fs session_sink) ≫= (fun o => Some o.1.1) = Some Panics.
Proof. vm_compute. reflexivity. Qed.
End SampleRuns.
